(** * mamlcon: the meta-learning control core of [src/algorithms.py]

    A shallow embedding of the label helpers, the class-batch curriculum
    and the [meta_learn] methods of the algorithm variants, together
    with the two model wrappers of [train_cl.py] that the continual
    learners are run with.

    Conventions.
    - A one-dimensional integer tensor is a [list Z]; a position in a
      tensor is a [nat].
    - Python and torch exceptions are values of [exn]; a computation that
      may raise has type [result A].
    - Floating-point tensors (inputs, logits, losses, weights) are kept
      abstract: the development is parametric in their type and in the
      arithmetic on them, so nothing proved here depends on rounding. *)

From Stdlib Require Import ZArith List Lia Sorting.Sorted.
From stdpp Require Import base list gmap strings fin_maps pretty.

Local Open Scope Z_scope.

(** ** Exceptions and the error monad *)

Inductive exn : Type :=
| KeyError
| IndexError
| ValueError
| RuntimeError
| ZeroDivisionError
| UnboundLocalError
| TypeError
| NameError (name : string)
| NotImplementedError (msg : string).

Inductive result (A : Type) : Type :=
| Ok (a : A)
| Raise (e : exn).
Arguments Ok {A} a.
Arguments Raise {A} e.

Definition bind {A B} (m : result A) (k : A -> result B) : result B :=
  match m with
  | Ok a => k a
  | Raise e => Raise e
  end.

Declare Scope result_scope.
Delimit Scope result_scope with result.
Notation "'do' x <- m ; k" := (bind m (fun x => k))
  (at level 10, x name, m at level 100, k at level 200) : result_scope.
Notation "'do' ' p <- m ; k" := (bind m (fun x => let 'p := x in k))
  (at level 10, p pattern, m at level 100, k at level 200) : result_scope.
Local Open Scope result_scope.

Definition raises {A} (m : result A) : Prop := exists e, m = Raise e.

(** ** Python and torch primitives *)

Definition len {A} (l : list A) : Z := Z.of_nat (length l).

(** [range(n)]: empty when [n <= 0]. *)
Definition range (n : Z) : list Z := map Z.of_nat (seq 0 (Z.to_nat n)).

(** A slice bound is clamped into [0 .. len]; a negative bound counts
    from the end. *)
Definition norm_index (n i : Z) : Z :=
  if i <? 0 then Z.max (i + n) 0 else Z.min i n.

(** [l[start:stop]] *)
Definition py_slice {A} (l : list A) (start stop : Z) : list A :=
  let a := norm_index (len l) start in
  let b := norm_index (len l) stop in
  take (Z.to_nat (b - a)) (drop (Z.to_nat a) l).

(** [l[:stop]] *)
Definition py_slice_to {A} (l : list A) (stop : Z) : list A :=
  take (Z.to_nat (norm_index (len l) stop)) l.

(** [l[start:]] *)
Definition py_slice_from {A} (l : list A) (start : Z) : list A :=
  drop (Z.to_nat (norm_index (len l) start)) l.

(** [a // b] on Python integers: floor division, raising on a zero
    divisor. [Z.div] rounds towards minus infinity as Python does. *)
Definition py_floordiv (a b : Z) : result Z :=
  if b =? 0 then Raise ZeroDivisionError else Ok (a / b).

(** [torch.unique(t)] (sorted by default): the distinct values of [t] in
    ascending order. *)
Fixpoint insert_sorted (x : Z) (l : list Z) : list Z :=
  match l with
  | [] => [x]
  | y :: l' =>
      if x <? y then x :: l
      else if x =? y then l
      else y :: insert_sorted x l'
  end.

Definition unique (t : list Z) : list Z := foldr insert_sorted [] t.

(** [t.max()]: raises on a tensor without elements. *)
Definition tensor_max (t : list Z) : result Z :=
  match t with
  | [] => Raise RuntimeError
  | x :: t' => Ok (foldl Z.max x t')
  end.

(** [torch.where(t == c)[0]]: the positions of [c] in [t], ascending. *)
Fixpoint where_eq_from (i : nat) (t : list Z) (c : Z) : list nat :=
  match t with
  | [] => []
  | x :: t' =>
      if x =? c then i :: where_eq_from (S i) t' c
      else where_eq_from (S i) t' c
  end.

Definition where_eq (t : list Z) (c : Z) : list nat := where_eq_from 0 t c.

(** [torch.cat(ts)] / [torch.concat(ts)]: raises on an empty list of
    tensors. *)
Definition torch_cat {A} (ts : list (list A)) : result (list A) :=
  match ts with
  | [] => Raise RuntimeError
  | _ => Ok (concat ts)
  end.

(** [l[::2]] and [l[1::2]] *)
Fixpoint evens {A} (l : list A) : list A :=
  match l with
  | [] => []
  | x :: l' => x :: odds l'
  end
with odds {A} (l : list A) : list A :=
  match l with
  | [] => []
  | _ :: l' => evens l'
  end.

(** [l[::k]] for a positive step [k]; a zero step raises. *)
Fixpoint stride_from {A} (k skip : nat) (l : list A) : list A :=
  match l with
  | [] => []
  | x :: l' =>
      match skip with
      | O => x :: stride_from k (Nat.pred k) l'
      | S s => stride_from k s l'
      end
  end.

(** [classes[-1] = x] on a list known to be non-empty. *)
Definition set_last {A} (l : list A) (x : A) : list A :=
  match l with
  | [] => []
  | _ => removelast l ++ [x]
  end.

(** [t[idx]] for a tensor of positions [idx] (a long tensor). *)
Fixpoint gather {A} (t : list A) (idx : list nat) : result (list A) :=
  match idx with
  | [] => Ok []
  | i :: idx' =>
      match t !! i with
      | None => Raise IndexError
      | Some x => do xs <- gather t idx'; Ok (x :: xs)
      end
  end.

(** [t[torch.tensor(l)]] for a Python list [l] of positions. The tensor
    built from the empty list has the default floating-point type and is
    refused as an index. *)
Definition gather_list {A} (t : list A) (l : list nat) : result (list A) :=
  match l with
  | [] => Raise IndexError
  | _ => gather t l
  end.

(** [a, b = t.chunk(2, dim=0)]. A tensor of [n >= 2] rows is cut after
    [ceil(n/2)] rows; an empty tensor gives two empty chunks; a single row
    gives one chunk only and the unpacking into two names fails. *)
Definition chunk2 {A} (t : list A) : result (list A * list A) :=
  match length t with
  | 1%nat => Raise ValueError
  | n => let h := Nat.div2 (S n) in Ok (take h t, drop h t)
  end.

(** ** The label helpers *)

(** [converter = {i: random_labels[i] for i in range(random_labels.size(0))}]:
    the keys are the positions [0 .. m-1]. *)
Definition build_converter (random_labels : list Z) : gmap Z Z :=
  foldl (fun d i =>
           match random_labels !! Z.to_nat i with
           | Some v => <[i := v]> d
           | None => d
           end)
        ∅ (range (len random_labels)).

(** The loop [batch_labels[i] = converter[int(batch_labels[i])]], which
    overwrites the tensor in place, position after position. *)
Fixpoint relabel_loop (converter : gmap Z Z) (positions : list nat)
    (batch_labels : list Z) : result (list Z) :=
  match positions with
  | [] => Ok batch_labels
  | i :: positions' =>
      match batch_labels !! i with
      | None => Raise IndexError
      | Some x =>
          match converter !! x with
          | None => Raise KeyError
          | Some v => relabel_loop converter positions' (<[i := v]> batch_labels)
          end
      end
  end.

(** [return_random_labels(batch_labels)]; [perm] is the value drawn by
    [torch.randperm(unique_labels.size(0))]. *)
Definition return_random_labels (perm : list nat) (batch_labels : list Z)
    : result (list Z) :=
  let unique_labels := unique batch_labels in
  do random_labels <- gather unique_labels perm;
  let converter := build_converter random_labels in
  relabel_loop converter (seq 0 (length batch_labels)) batch_labels.

(** [return_indexes(batch_labels, classes)] *)
Definition return_indexes (batch_labels classes : list Z) : result (list nat) :=
  let batch_indexes := map (where_eq batch_labels) classes in
  do batch_indexes <- torch_cat batch_indexes;
  Ok (evens batch_indexes ++ odds batch_indexes).

(** [GradientLearningBase.split_batch(_input, labels)] *)
Definition split_batch {A} (_input : list A) (labels : list Z)
    : result (list A * list Z * list A * list Z) :=
  do '(support_input, query_input) <- chunk2 _input;
  do '(support_labels, query_labels) <- chunk2 labels;
  Ok (support_input, support_labels, query_input, query_labels).

(** ** The class-batch curriculum

    [FSCL.return_label_batches] and [OML.return_label_batches] are the
    same text; one definition serves both. The subtraction
    [batch_labels.max() - torch.cat(classes).max()] is one of int64
    tensors; it is written in [Z], which is the number the code computes
    whenever the labels of the batch lie less than [2^63] apart, as
    consecutive labels do. *)
Definition return_label_batches (n_classes_start n_class_additions : Z)
    (batch_labels : list Z) : result (list (list Z)) :=
  let unique_classes := unique batch_labels in
  let classes := [py_slice_to unique_classes n_classes_start] in
  do total_additions <-
    py_floordiv (len unique_classes - n_classes_start) n_class_additions;
  let total_additions :=
    if 1 <=? len unique_classes - n_classes_start then total_additions else 1 in
  let classes :=
    foldl (fun classes i =>
             let start_index := n_classes_start + n_class_additions * i in
             let end_index := n_classes_start + n_class_additions * (i + 1) in
             classes ++ [py_slice unique_classes start_index end_index])
          classes (range total_additions) in
  do cat_max <- tensor_max (concat classes);
  do batch_max <- tensor_max batch_labels;
  if cat_max <? batch_max then
    let total_missing := batch_max - cat_max in
    Ok (set_last classes
          (List.last classes [] ++ py_slice_from unique_classes (- total_missing)))
  else Ok classes.

(** [for x in xs: state = body(state, x)] with a body that may raise. *)
Fixpoint for_each {S X} (body : S -> X -> result S) (s : S) (xs : list X)
    : result S :=
  match xs with
  | [] => Ok s
  | x :: xs' => do s' <- body s x; for_each body s' xs'
  end.

(** [enumerate(xs)] *)
Definition enumerate {X} (xs : list X) : list (nat * X) :=
  zip (seq 0 (length xs)) xs.

(** [t[::k]] on a tensor: the step must be positive. *)
Definition stride {A} (k : Z) (t : list A) : result (list A) :=
  if k <=? 0 then Raise ValueError
  else Ok (stride_from (Z.to_nat k) 0 t).

(** ** Methods that write to the object they are called on

    A method body is run from the store [S] of the object's persistent
    attributes. Besides its result it yields the [trace]: the store after
    every write, in order. Whoever abandons the call midway observes the
    store at entry or one of the stores of the trace. *)

Record run (S A : Type) : Type := mkRun {
  trace : list S;
  final : S;
  outcome : result A
}.
Arguments mkRun {S A} trace final outcome.
Arguments trace {S A} r.
Arguments final {S A} r.
Arguments outcome {S A} r.

Definition prog (S A : Type) : Type := S -> run S A.

Definition ret {S A} (a : A) : prog S A := fun s => mkRun [] s (Ok a).

Definition throw {S A} (e : exn) : prog S A := fun s => mkRun [] s (Raise e).

Definition lift {S A} (r : result A) : prog S A := fun s => mkRun [] s r.

Definition read {S A} (f : S -> A) : prog S A := fun s => mkRun [] s (Ok (f s)).

Definition write {S} (f : S -> S) : prog S unit :=
  fun s => mkRun [f s] (f s) (Ok tt).

Definition pbind {S A B} (m : prog S A) (k : A -> prog S B) : prog S B :=
  fun s =>
    let r := m s in
    match outcome r with
    | Raise e => mkRun (trace r) (final r) (Raise e)
    | Ok a =>
        let r' := k a (final r) in
        mkRun (trace r ++ trace r') (final r') (outcome r')
    end.

Declare Scope prog_scope.
Delimit Scope prog_scope with prog.
Notation "'let*' x := m 'in' k" := (pbind m (fun x => k))
  (at level 10, x name, m at level 100, k at level 200) : prog_scope.
Notation "'let*' ' p := m 'in' k" := (pbind m (fun x => let 'p := x in k))
  (at level 10, p pattern, m at level 100, k at level 200) : prog_scope.
Notation "m ;; k" := (pbind m (fun _ => k))
  (at level 100, k at level 200, right associativity) : prog_scope.

(** The stores an observer can see during a call started from [s]. *)
Definition observable {S A} (p : prog S A) (s : S) : list S := s :: trace (p s).

(** [for _ in range(n): body] *)
Fixpoint repeat_prog {S} (n : nat) (body : prog S unit) : prog S unit :=
  match n with
  | O => ret tt
  | S n' => pbind body (fun _ => repeat_prog n' body)
  end.

(** ** The continual learners: FSCL and OML *)

Section ContinualLearners.

(** Tensors of floating-point numbers stay abstract. [Logit] is one
    column of a logits matrix: the output of one class head on every
    example of the batch. *)
Context {Input Features Logit Loss Acc Encoder Head : Type}.

(** The encoder, in training or evaluation mode. *)
Variable encode : bool -> Encoder -> list Input -> Features.
Variable apply_head : Head -> Features -> Logit.
(** The loss function [ClassificationLoss] is not part of the sources;
    it is taken as a parameter, total as its contract says. *)
Variable loss_func : list Logit -> list Z -> Loss.
(** The value [calculate_accuracy] computes on a non-empty batch. *)
Variable accuracy : list Logit -> list Z -> Acc.
(** One gradient step of [MAML.adapt] on the clone, per parameter group. *)
Variable adapt_encoder : Loss -> Encoder -> Encoder.
Variable adapt_head : Loss -> nat -> Head -> Head.

(** [FSCLModel] / [OMLModel]: an encoder and a [ModuleList] of
    one-output class heads, [n_classes] of them. *)
Record Model : Type := mkModel {
  encoder : Encoder;
  classifiers : list Head;
  train_mode : bool
}.

(** The output dictionary once [output['labels']] has been assigned. *)
Record Output : Type := mkOutput {
  logits : list Logit;
  labels : list Z
}.

Inductive Metric : Type :=
| MLoss (l : Loss)
| MAcc (a : Acc).

(** [FSCLModel.forward(audio, total_classes_present)] *)
Definition FSCLModel_forward (m : Model) (audio : list Input)
    (total_classes_present : Z) : result (list Logit) :=
  let features := encode (train_mode m) (encoder m) audio in
  do layer_logits <-
    for_each (fun layer_logits c_layer =>
                match classifiers m !! Z.to_nat c_layer with
                | None => Raise IndexError
                | Some head => Ok (layer_logits ++ [apply_head head features])
                end)
             [] (range total_classes_present);
  torch_cat (map (fun col => [col]) layer_logits).

(** [OMLModel.forward(audio, total_classes_present, inner_loop)]: the
    loop runs over [len(self.classifiers)]; [inner_loop] only switches
    gradient tracking of the encoder, which does not change a value. *)
Definition OMLModel_forward (m : Model) (audio : list Input)
    (total_classes_present : Z) (inner_loop : bool) : result (list Logit) :=
  let features := encode (train_mode m) (encoder m) audio in
  do layer_logits <-
    for_each (fun layer_logits c_layer =>
                match classifiers m !! Z.to_nat c_layer with
                | None => Raise IndexError
                | Some head => Ok (layer_logits ++ [apply_head head features])
                end)
             [] (range (len (classifiers m)));
  torch_cat (map (fun col => [col]) layer_logits).

(** [learner.adapt(loss)] *)
Definition adapt (m : Model) (loss : Loss) : Model :=
  {| encoder := adapt_encoder loss (encoder m);
     classifiers := imap (adapt_head loss) (classifiers m);
     train_mode := train_mode m |}.

(** [GradientLearningBase.calculate_accuracy(output)]: the division by
    [len(labels)] raises on an empty batch. *)
Definition calculate_accuracy (output : Output) : result Acc :=
  match labels output with
  | [] => Raise ZeroDivisionError
  | _ => Ok (accuracy (logits output) (labels output))
  end.

(** The inner training loop shared by all stages:
    [for step in range(steps): output = learner(...); output['labels'] = ...;
     support_error = self.loss_func(output); learner.adapt(support_error)].
    [output] is a local of [meta_learn] and survives the loop. *)
Fixpoint adapt_steps (steps : nat) (forward : Model -> result (list Logit))
    (support_labels : list Z) (learner : Model) (output : option Output)
    : result (Model * option Output) :=
  match steps with
  | O => Ok (learner, output)
  | S steps' =>
      do lg <- forward learner;
      let out := {| logits := lg; labels := support_labels |} in
      let support_error := loss_func (logits out) (labels out) in
      adapt_steps steps' forward support_labels (adapt learner support_error)
                  (Some out)
  end.

(** Reading the local [output] after a loop that may not have run. *)
Definition read_output (output : option Output) : result Output :=
  match output with
  | None => Raise UnboundLocalError
  | Some o => Ok o
  end.

(** The selection of the final query set, the same text in both
    learners: at most five positions per class of [query_labels]. *)
Definition final_query (query_inputs : list (list Input))
    (query_labels : list (list Z)) : result (list Input * list Z) :=
  do query_inputs <- torch_cat query_inputs;
  do query_labels <- torch_cat query_labels;
  let testing_indexes :=
    map (fun c => take 5 (where_eq query_labels c)) (unique query_labels) in
  do testing_indexes <- torch_cat testing_indexes;
  do query_inputs <- gather query_inputs testing_indexes;
  do query_labels <- gather query_labels testing_indexes;
  Ok (query_inputs, query_labels).

(** The selection and split of one class batch:
    [return_indexes], the two indexings and [split_batch]. *)
Definition iteration_split (_inputs : list Input) (labels : list Z)
    (class_batch : list Z)
    : result (list Input * list Z * list Input * list Z) :=
  do iteration_indexes <- return_indexes labels class_batch;
  do iteration_inputs <- gather_list _inputs iteration_indexes;
  do iteration_labels <- gather_list labels iteration_indexes;
  split_batch iteration_inputs iteration_labels.

(** *** FSCL *)

Record FSCL : Type := mkFSCL {
  fscl_model : Model;
  fscl_n_classes_start : Z;
  fscl_n_class_additions : Z;
  fscl_training_steps : Z;
  fscl_initial_training_steps : Z;
  fscl_quick_adapt : bool;
  fscl_k_shot : Z
}.

(** The locals of [FSCL.meta_learn] that live across class batches. *)
Record fscl_state : Type := mkFsclState {
  fs_learner : Model;
  fs_total_classes_present : Z;
  fs_query_inputs : list (list Input);
  fs_query_labels : list (list Z);
  fs_quick_update_inputs : list (list Input);
  fs_quick_update_labels : list (list Z);
  fs_output : option Output;
  fs_logging : gmap string Metric
}.

(** Lines 243-262: the first class batch. *)
Definition FSCL_first_batch (self : FSCL) (_inputs : list Input)
    (labels : list Z) (learner : Model) (class_batches : list (list Z))
    : result fscl_state :=
  do class_batch <-
    match class_batches !! 0%nat with
    | None => Raise IndexError
    | Some b => Ok b
    end;
  do '(support_input, support_labels, query_input, query_labels) <-
    iteration_split _inputs labels class_batch;
  do quick_input <- stride (fscl_k_shot self) support_input;
  do quick_labels <- stride (fscl_k_shot self) support_labels;
  let total_classes_present := len class_batch in
  do '(learner, output) <-
    adapt_steps (Z.to_nat (fscl_initial_training_steps self))
      (fun m => FSCLModel_forward m support_input total_classes_present)
      support_labels learner None;
  do out <- read_output output;
  do acc <- calculate_accuracy out;
  Ok {| fs_learner := learner;
        fs_total_classes_present := total_classes_present;
        fs_query_inputs := [query_input];
        fs_query_labels := [query_labels];
        fs_quick_update_inputs := [quick_input];
        fs_quick_update_labels := [quick_labels];
        fs_output := output;
        fs_logging := <["step_0_inner_accuracy" := MAcc acc]> ∅ |}.

(** Lines 265-284: the body of the loop over [class_batches[1:]]. *)
Definition FSCL_next_batch (self : FSCL) (_inputs : list Input)
    (labels : list Z) (st : fscl_state) (item : nat * list Z)
    : result fscl_state :=
  let '(i, class_batch) := item in
  do '(support_input, support_labels, query_input, query_labels) <-
    iteration_split _inputs labels class_batch;
  do quick_input <- stride (fscl_k_shot self) support_input;
  do quick_labels <- stride (fscl_k_shot self) support_labels;
  let total_classes_present := fs_total_classes_present st + len class_batch in
  do '(learner, output) <-
    adapt_steps (Z.to_nat (fscl_training_steps self))
      (fun m => FSCLModel_forward m support_input total_classes_present)
      support_labels (fs_learner st) (fs_output st);
  do out <- read_output output;
  do acc <- calculate_accuracy out;
  Ok {| fs_learner := learner;
        fs_total_classes_present := total_classes_present;
        fs_query_inputs := fs_query_inputs st ++ [query_input];
        fs_query_labels := fs_query_labels st ++ [query_labels];
        fs_quick_update_inputs := fs_quick_update_inputs st ++ [quick_input];
        fs_quick_update_labels := fs_quick_update_labels st ++ [quick_labels];
        fs_output := output;
        fs_logging :=
          <["step_" +:+ pretty (S i) +:+ "_inner_accuracy" := MAcc acc]>
            (fs_logging st) |}.

(** The class batches [0 .. i] processed, from the randomized labels. *)
Definition FSCL_batches (self : FSCL) (_inputs : list Input)
    (labels : list Z) (learner : Model) (class_batches : list (list Z))
    : result fscl_state :=
  do st <- FSCL_first_batch self _inputs labels learner class_batches;
  for_each (FSCL_next_batch self _inputs labels) st
           (enumerate (drop 1 class_batches)).

(** Lines 287-298: the optional rehearsal step. *)
Definition FSCL_quick_adapt (self : FSCL) (st : fscl_state)
    : result fscl_state :=
  if fscl_quick_adapt self then
    do quick_update_inputs <- torch_cat (fs_quick_update_inputs st);
    do quick_update_labels <- torch_cat (fs_quick_update_labels st);
    do lg <- FSCLModel_forward (fs_learner st) quick_update_inputs
               (fs_total_classes_present st);
    let out := {| logits := lg; labels := quick_update_labels |} in
    let quick_update_error := loss_func (logits out) (labels out) in
    let learner := adapt (fs_learner st) quick_update_error in
    do quick_update_accuracy <- calculate_accuracy out;
    Ok {| fs_learner := learner;
          fs_total_classes_present := fs_total_classes_present st;
          fs_query_inputs := fs_query_inputs st;
          fs_query_labels := fs_query_labels st;
          fs_quick_update_inputs := fs_quick_update_inputs st;
          fs_quick_update_labels := fs_quick_update_labels st;
          fs_output := Some out;
          fs_logging :=
            <["quick_update_inner_accuracy" := MAcc quick_update_accuracy]>
              (fs_logging st) |}
  else Ok st.

(** [learner.eval()] *)
Definition eval_mode (m : Model) : Model :=
  {| encoder := encoder m; classifiers := classifiers m; train_mode := false |}.

(** [self.model.clone()] followed by [learner.train()] *)
Definition clone_for_training (m : Model) : Model :=
  {| encoder := encoder m; classifiers := classifiers m; train_mode := true |}.

(** Lines 300-318: the final evaluation. The second component is the
    output dictionary the error and the accuracy are computed from. *)
Definition FSCL_final (st : fscl_state)
    : result (gmap string Metric * Output) :=
  let learner := eval_mode (fs_learner st) in
  do '(query_inputs, query_labels) <-
    final_query (fs_query_inputs st) (fs_query_labels st);
  do lg <- FSCLModel_forward learner query_inputs (fs_total_classes_present st);
  let out := {| logits := lg; labels := query_labels |} in
  let query_error := loss_func (logits out) (labels out) in
  do query_accuracy <- calculate_accuracy out;
  Ok (<["query_accuracy" := MAcc query_accuracy]>
        (<["query_error" := MLoss query_error]> (fs_logging st)), out).

(** [FSCL.meta_learn(batch)], with the permutation [perm] drawn by
    [return_random_labels]. *)
Definition FSCL_meta_learn_out (self : FSCL) (perm : list nat)
    (batch : list Input * list Z) : result (gmap string Metric * Output) :=
  let '(_inputs, labels) := batch in
  do labels <- return_random_labels perm labels;
  let learner := clone_for_training (fscl_model self) in
  do class_batches <-
    return_label_batches (fscl_n_classes_start self)
                         (fscl_n_class_additions self) labels;
  do st <- FSCL_batches self _inputs labels learner class_batches;
  do st <- FSCL_quick_adapt self st;
  FSCL_final st.

Definition FSCL_meta_learn (self : FSCL) (perm : list nat)
    (batch : list Input * list Z) : result (gmap string Metric) :=
  do '(logging, _) <- FSCL_meta_learn_out self perm batch;
  Ok logging.

(** *** OML *)

Record OML : Type := mkOML {
  oml_model : Model;
  oml_n_classes_start : Z;
  oml_n_class_additions : Z;
  oml_training_steps : Z
}.

Record oml_state : Type := mkOmlState {
  os_learner : Model;
  os_total_classes_present : Z;
  os_query_inputs : list (list Input);
  os_query_labels : list (list Z);
  os_output : option Output;
  os_logging : gmap string Metric
}.

(** Lines 370-384: the body of the loop over all class batches. *)
Definition OML_batch (self : OML) (_inputs : list Input) (labels : list Z)
    (st : oml_state) (item : nat * list Z) : result oml_state :=
  let '(i, class_batch) := item in
  let total_classes_present := os_total_classes_present st + len class_batch in
  do '(support_input, support_labels, query_input, query_labels) <-
    iteration_split _inputs labels class_batch;
  do '(learner, output) <-
    adapt_steps (Z.to_nat (oml_training_steps self))
      (fun m => OMLModel_forward m support_input total_classes_present true)
      support_labels (os_learner st) (os_output st);
  do out <- read_output output;
  do acc <- calculate_accuracy out;
  Ok {| os_learner := learner;
        os_total_classes_present := total_classes_present;
        os_query_inputs := os_query_inputs st ++ [query_input];
        os_query_labels := os_query_labels st ++ [query_labels];
        os_output := output;
        os_logging :=
          <["step_" +:+ pretty (S i) +:+ "_inner_accuracy" := MAcc acc]>
            (os_logging st) |}.

Definition OML_init (learner : Model) : oml_state :=
  {| os_learner := learner;
     os_total_classes_present := 0;
     os_query_inputs := [];
     os_query_labels := [];
     os_output := None;
     os_logging := ∅ |}.

Definition OML_batches (self : OML) (_inputs : list Input) (labels : list Z)
    (learner : Model) (class_batches : list (list Z)) : result oml_state :=
  for_each (OML_batch self _inputs labels) (OML_init learner)
           (enumerate class_batches).

(** Lines 386-403: the final evaluation. *)
Definition OML_final (st : oml_state) : result (gmap string Metric * Output) :=
  let learner := eval_mode (os_learner st) in
  do '(query_inputs, query_labels) <-
    final_query (os_query_inputs st) (os_query_labels st);
  do lg <- OMLModel_forward learner query_inputs
             (os_total_classes_present st) false;
  let out := {| logits := lg; labels := query_labels |} in
  let query_error := loss_func (logits out) (labels out) in
  do query_accuracy <- calculate_accuracy out;
  Ok (<["query_accuracy" := MAcc query_accuracy]>
        (<["query_error" := MLoss query_error]> (os_logging st)), out).

Definition OML_meta_learn_out (self : OML) (perm : list nat)
    (batch : list Input * list Z) : result (gmap string Metric * Output) :=
  let '(_inputs, labels) := batch in
  do labels <- return_random_labels perm labels;
  let learner := clone_for_training (oml_model self) in
  do class_batches <-
    return_label_batches (oml_n_classes_start self)
                         (oml_n_class_additions self) labels;
  do st <- OML_batches self _inputs labels learner class_batches;
  OML_final st.

Definition OML_meta_learn (self : OML) (perm : list nat)
    (batch : list Input * list Z) : result (gmap string Metric) :=
  do '(logging, _) <- OML_meta_learn_out self perm batch;
  Ok logging.

End ContinualLearners.

(** A concrete instance to run the learners on: a head is the number it
    answers with, a loss is the number of logit columns it was computed
    from, a gradient step leaves the numbers alone. *)
Module Toy.
Definition model (n_way : nat) : @Model unit Z :=
  {| encoder := tt; classifiers := map Z.of_nat (seq 0 n_way);
     train_mode := false |}.
Definition encode (_ : bool) (_ : unit) (_ : list Z) : unit := tt.
Definition apply_head (h : Z) (_ : unit) : Z := h.
Definition loss_func (lg : list Z) (_ : list Z) : Z := len lg.
Definition accuracy (lg : list Z) (lb : list Z) : Z := len lb.
Definition adapt_encoder (_ : Z) (e : unit) : unit := e.
Definition adapt_head (_ : Z) (_ : nat) (h : Z) : Z := h.

Definition fscl (n_way : nat) (ns na steps init_steps k_shot : Z) (quick : bool) :=
  mkFSCL (model n_way) ns na steps init_steps quick k_shot.
Definition oml (n_way : nat) (ns na steps : Z) :=
  mkOML (model n_way) ns na steps.

Definition run_fscl n_way ns na steps init_steps k_shot quick perm
    (labels : list Z) :=
  FSCL_meta_learn_out encode apply_head loss_func accuracy adapt_encoder
    adapt_head (fscl n_way ns na steps init_steps k_shot quick) perm
    (labels, labels).
Definition run_oml n_way ns na steps perm (labels : list Z) :=
  OML_meta_learn_out encode apply_head loss_func accuracy adapt_encoder
    adapt_head (oml n_way ns na steps) perm (labels, labels).
End Toy.

(** ** Reptile and VanillaMAML *)

Section WholeModelLearners.

Context {Input Tensor Scalar Logits Loss Acc OptState : Type}.
Local Open Scope prog_scope.

(** Elementwise tensor arithmetic, whatever its rounding. *)
Variable tadd tsub : Tensor -> Tensor -> Tensor.
Variable tscale : Tensor -> Scalar -> Tensor.
(** Python float arithmetic of the learning-rate schedule:
    [int / int] for a non-zero divisor, [1 - x] and [x * y]. *)
Variable int_truediv : Z -> Z -> Scalar.
Variable one_minus : Scalar -> Scalar.
Variable smul : Scalar -> Scalar -> Scalar.

(** The network as a function of its named parameters. The network, the
    loss and the accuracy are taken on a batch with as many inputs as
    labels, where they return. *)
Variable forward : gmap string Tensor -> list Input -> Logits.
Variable loss_func : Logits -> list Z -> Loss.
Variable accuracy : Logits -> list Z -> Acc.
(** [loss.backward()] at the current parameters. *)
Variable gradients : gmap string Tensor -> list Input -> list Z
                     -> gmap string Tensor.
(** [opt.step()] of the inner Adam optimizer. *)
Variable adam_step : OptState -> gmap string Tensor -> gmap string Tensor
                     -> gmap string Tensor * OptState.
(** [learner.adapt(loss)] of the MAML wrapper, on the clone. *)
Variable maml_adapt : gmap string Tensor -> gmap string Tensor
                      -> gmap string Tensor.

Inductive WMetric : Type :=
| WLoss (l : Loss)
| WAcc (a : Acc).

Definition calculate_accuracy_w (lg : Logits) (labels : list Z) : result Acc :=
  match labels with
  | [] => Raise ZeroDivisionError
  | _ => Ok (accuracy lg labels)
  end.

(** *** Reptile *)

(** The attributes of a [Reptile] object that outlive a call. *)
Record Reptile : Type := mkReptile {
  rp_params : gmap string Tensor;      (* self.model, by parameter name *)
  rp_opt_state : OptState;             (* the inner optimizer *)
  rp_outer_steps : Z;
  rp_training : bool;
  rp_train_update_steps : Z;
  rp_initial_lr : Scalar;
  rp_augmentation : option (list Input -> list Input);
  rp_max_steps : Z                     (* self.trainer.max_steps *)
}.

Definition set_params (d : gmap string Tensor) (self : Reptile) : Reptile :=
  {| rp_params := d;
     rp_opt_state := rp_opt_state self;
     rp_outer_steps := rp_outer_steps self;
     rp_training := rp_training self;
     rp_train_update_steps := rp_train_update_steps self;
     rp_initial_lr := rp_initial_lr self;
     rp_augmentation := rp_augmentation self;
     rp_max_steps := rp_max_steps self |}.

(** [opt.step()]: the parameters of the live model and the optimizer
    state are overwritten together. *)
Definition opt_step (grads : gmap string Tensor) (self : Reptile) : Reptile :=
  let '(p, o) := adam_step (rp_opt_state self) (rp_params self) grads in
  {| rp_params := p;
     rp_opt_state := o;
     rp_outer_steps := rp_outer_steps self;
     rp_training := rp_training self;
     rp_train_update_steps := rp_train_update_steps self;
     rp_initial_lr := rp_initial_lr self;
     rp_augmentation := rp_augmentation self;
     rp_max_steps := rp_max_steps self |}.

Definition incr_outer_steps (self : Reptile) : Reptile :=
  {| rp_params := rp_params self;
     rp_opt_state := rp_opt_state self;
     rp_outer_steps := rp_outer_steps self + 1;
     rp_training := rp_training self;
     rp_train_update_steps := rp_train_update_steps self;
     rp_initial_lr := rp_initial_lr self;
     rp_augmentation := rp_augmentation self;
     rp_max_steps := rp_max_steps self |}.

(** [self.model.load_state_dict(d)] (strict): the names must be those
    of the model; the values are then copied into the live tensors. *)
Definition load_state_dict (d : gmap string Tensor) : prog Reptile unit :=
  let* names := read (fun self => dom (rp_params self)) in
  if decide (dom d = names) then write (set_params d)
  else throw RuntimeError.

(** One pass of the inner loop, lines 154-162. *)
Definition reptile_inner_step (support_input : list Input)
    (support_labels : list Z) : prog Reptile unit :=
  let* x :=
    read (fun self =>
            if rp_training self then
              match rp_augmentation self with
              | Some aug => aug support_input
              | None => support_input
              end
            else support_input) in
  let* grads := read (fun self => gradients (rp_params self) x support_labels) in
  write (opt_step grads).

(** The dictionary comprehension of line 173. [new_weights] is the
    state dict of the live model and is read here, before the load;
    [old_weights] is the deep copy taken at entry. *)
Definition interpolate (old_weights new_weights : gmap string Tensor)
    (current_lr : Scalar) : result (gmap string Tensor) :=
  if decide (dom old_weights ⊆ dom new_weights) then
    Ok (map_imap (fun name w0 =>
                    match new_weights !! name with
                    | Some w1 => Some (tadd w0 (tscale (tsub w1 w0) current_lr))
                    | None => None
                    end) old_weights)
  else Raise KeyError.

(** Line 171 *)
Definition current_lr_of (self : Reptile) : result Scalar :=
  if rp_max_steps self =? 0 then Raise ZeroDivisionError
  else Ok (smul (rp_initial_lr self)
             (one_minus (int_truediv (rp_outer_steps self) (rp_max_steps self)))).

(** Lines 169-176: the outer update in training mode, the restore in
    evaluation mode. *)
Definition reptile_outer_update (old_weights : gmap string Tensor)
    : prog Reptile unit :=
  let* training := read rp_training in
  if training : bool then
    let* new_weights := read rp_params in
    let* current_lr := pbind (read current_lr_of) lift in
    let* d := lift (interpolate old_weights new_weights current_lr) in
    load_state_dict d ;;
    write incr_outer_steps
  else load_state_dict old_weights.

(** [Reptile.meta_learn(batch)] *)
Definition Reptile_meta_learn (batch : list Input * list Z)
    : prog Reptile (gmap string WMetric) :=
  let '(_inputs, labels) := batch in
  let* '(support_input, support_labels, query_input, query_labels) :=
    lift (split_batch _inputs labels) in
  let* old_weights := read rp_params in
  let* steps := read rp_train_update_steps in
  repeat_prog (Z.to_nat steps)
    (reptile_inner_step support_input support_labels) ;;
  let* lg := read (fun self => forward (rp_params self) query_input) in
  let query_error := loss_func lg query_labels in
  let* query_accuracy := lift (calculate_accuracy_w lg query_labels) in
  reptile_outer_update old_weights ;;
  ret (<["query_accuracy" := WAcc query_accuracy]>
         (<["query_error" := WLoss query_error]> ∅)).

(** The parameters after [n] passes of the inner loop. *)
Definition after_inner_loop (support_input : list Input)
    (support_labels : list Z) (self : Reptile) : Reptile :=
  final (repeat_prog (Z.to_nat (rp_train_update_steps self))
           (reptile_inner_step support_input support_labels) self).

(** *** VanillaMAML *)

Record VanillaMAML : Type := mkVanillaMAML {
  vm_params : gmap string Tensor;      (* self.model, the MAML wrapper *)
  vm_training : bool;
  vm_train_update_steps : Z;
  vm_augmentation : option (list Input -> list Input)
}.

(** The fast training loop on the clone, lines 116-123. *)
Fixpoint vm_adapt_steps (steps : nat) (x : list Input) (labels : list Z)
    (learner : gmap string Tensor) : gmap string Tensor :=
  match steps with
  | O => learner
  | S steps' =>
      vm_adapt_steps steps' x labels
        (maml_adapt learner (gradients learner x labels))
  end.

(** [VanillaMAML.meta_learn(batch)]: [self.model.clone()] is the only
    access to the object's parameters. *)
Definition VanillaMAML_meta_learn (batch : list Input * list Z)
    : prog VanillaMAML (gmap string WMetric) :=
  let '(_inputs, labels) := batch in
  let* '(support_input, support_labels, query_input, query_labels) :=
    lift (split_batch _inputs labels) in
  let* learner := read vm_params in
  let* x :=
    read (fun self =>
            if vm_training self then
              match vm_augmentation self with
              | Some aug => aug support_input
              | None => support_input
              end
            else support_input) in
  let* steps := read vm_train_update_steps in
  let learner := vm_adapt_steps (Z.to_nat steps) x support_labels learner in
  let lg := forward learner query_input in
  let query_error := loss_func lg query_labels in
  let* query_accuracy := lift (calculate_accuracy_w lg query_labels) in
  ret (<["query_accuracy" := WAcc query_accuracy]>
         (<["query_error" := WLoss query_error]> ∅)).

End WholeModelLearners.

(** A concrete Reptile to run: tensors and scalars are integers, the
    gradient of every parameter is one, and an optimizer step adds the
    gradient. The quotient [outer_steps / max_steps] of the learning rate
    is taken with [Z.div], which is the quotient of the code only where
    the division is exact: the runs below are all at [outer_steps = 0]. *)
Module ToyReptile.
Definition forward (p : gmap string Z) (x : list Z) : Z := len x.
Definition loss_func (lg : Z) (y : list Z) : Z := lg.
Definition accuracy (lg : Z) (y : list Z) : Z := len y.
Definition gradients (p : gmap string Z) (x : list Z) (y : list Z)
    : gmap string Z :=
  (fun _ => 1) <$> p.
Definition adam_step (o : unit) (p g : gmap string Z) : gmap string Z * unit :=
  (map_imap (fun name w => Some (w + default 0 (g !! name))) p, o).
Definition one_minus (x : Z) : Z := 1 - x.

Definition reptile (training : bool) : @Reptile Z Z Z unit :=
  {| rp_params := {["w" := 10]};
     rp_opt_state := tt;
     rp_outer_steps := 0;
     rp_training := training;
     rp_train_update_steps := 2;
     rp_initial_lr := 3;
     rp_augmentation := None;
     rp_max_steps := 4 |}.

Definition meta_learn (batch : list Z * list Z) :=
  Reptile_meta_learn Z.add Z.sub Z.mul Z.div one_minus Z.mul
    forward loss_func accuracy gradients adam_step batch.

Definition batch : list Z * list Z := ([7; 8; 9; 6], [0; 1; 0; 1]).
End ToyReptile.

(** ** The base class *)

(** A call [f(a1, ..., an)] of a function declared with [n_params]
    positional parameters (after [self]) and neither defaults nor
    [*args]: the arguments are bound before the body runs. *)
Definition call {Arg A} (n_params : nat) (body : list Arg -> result A)
    (args : list Arg) : result A :=
  if decide (length args = n_params) then body args else Raise TypeError.

(** [def meta_learn(self): raise NotImplementedError(...)] *)
Definition GradientLearningBase_meta_learn {Arg A} : list Arg -> result A :=
  call 0 (fun _ => Raise (NotImplementedError "User must impliment this method")).

(** [training_step(self, batch, batch_idx)]; [meta_learn] is the method
    the class of [self] provides. *)
Definition training_step {Batch M}
    (meta_learn : list Batch -> result (gmap string M))
    (batch : Batch) (batch_idx : Z) : result M :=
  do output <- meta_learn [batch];
  match output !! "query_error" with
  | None => Raise KeyError
  | Some v => Ok v
  end.

(** [validation_step(self, batch, batch_idx)] *)
Definition validation_step {Batch M}
    (meta_learn : list Batch -> result (gmap string M))
    (batch : Batch) (batch_idx : Z) : result unit :=
  do output <- meta_learn [batch];
  Ok tt.

(** ** Names of the module [algorithms.py] *)

Inductive top_stmt : Type :=
| FromImport (module name : string)     (* from module import name *)
| ImportAs (module alias : string)      (* import module as alias *)
| Import (package : string)             (* import package *)
| Def (name : string)
| Class (name : string).

Definition bound_name (s : top_stmt) : string :=
  match s with
  | FromImport _ name => name
  | ImportAs _ alias => alias
  | Import package => package
  | Def name => name
  | Class name => name
  end.

(** The top-level statements of the module, in order. *)
Definition algorithms_py : list top_stmt :=
  [ FromImport "copy" "deepcopy";
    FromImport "learn2learn.algorithms" "MAML";
    ImportAs "pytorch_lightning" "pl";
    Import "torch";
    ImportAs "torch.nn.functional" "F";
    Def "return_random_labels";
    Def "return_indexes";
    Class "GradientLearningBase";
    Class "VanillaMAML";
    Class "Reptile";
    Class "FSCL";
    Class "OML" ].

Definition module_globals : gset string :=
  list_to_set (map bound_name algorithms_py).

(** The functions and constants of Python's [builtins] module, and the
    exception classes the sources name. *)
Definition python_builtins : gset string :=
  list_to_set
    [ "abs"; "aiter"; "all"; "anext"; "any"; "ascii"; "bin"; "bool";
      "breakpoint"; "bytearray"; "bytes"; "callable"; "chr"; "classmethod";
      "compile"; "complex"; "delattr"; "dict"; "dir"; "divmod"; "enumerate";
      "eval"; "exec"; "filter"; "float"; "format"; "frozenset"; "getattr";
      "globals"; "hasattr"; "hash"; "help"; "hex"; "id"; "input"; "int";
      "isinstance"; "issubclass"; "iter"; "len"; "list"; "locals"; "map";
      "max"; "memoryview"; "min"; "next"; "object"; "oct"; "open"; "ord";
      "pow"; "print"; "property"; "range"; "repr"; "reversed"; "round";
      "set"; "setattr"; "slice"; "sorted"; "staticmethod"; "str"; "sum";
      "super"; "tuple"; "type"; "vars"; "zip"; "__import__";
      "True"; "False"; "None"; "NotImplemented"; "Ellipsis"; "__debug__";
      "NotImplementedError"; "Exception" ].

(** Evaluation of a name inside a function body. *)
Definition lookup_name (locals : gset string) (name : string) : result unit :=
  if decide (name ∈ locals) then Ok tt
  else if decide (name ∈ module_globals) then Ok tt
  else if decide (name ∈ python_builtins) then Ok tt
  else Raise (NameError name).

(** The names an expression evaluates, in evaluation order. *)
Definition lookup_names (locals : gset string) (names : list string)
    : result unit :=
  for_each (fun _ name => lookup_name locals name) tt names.

(** The parameters of [VanillaMAML.__init__]. *)
Definition VanillaMAML_init_locals : gset string :=
  list_to_set
    [ "self"; "model"; "train_update_steps"; "test_update_steps"; "loss_func";
      "optim_config"; "k_shot"; "first_order"; "augmentation"; "__class__" ].

(** [VanillaMAML(model, train_update_steps, ...)]: the body of [__init__],
    statement by statement, then the object. In a call the callee is
    evaluated before the arguments, in an assignment the right-hand side
    before the target. *)
Definition VanillaMAML_new {Input Tensor : Type}
    (model : gmap string Tensor) (train_update_steps : Z)
    (augmentation : option (list Input -> list Input))
    : result (@VanillaMAML Input Tensor) :=
  let locals := VanillaMAML_init_locals in
  (* super().__init__(train_update_steps, test_update_steps, loss_func,
                      optim_config, k_shot) *)
  do _ <- lookup_names locals
            ["super"; "train_update_steps"; "test_update_steps"; "loss_func";
             "optim_config"; "k_shot"];
  (* self.model = l2l.algorithms.MAML(model, lr=optim_config[...],
                                      first_order=first_order, ...) *)
  do _ <- lookup_names locals
            ["l2l"; "model"; "optim_config"; "first_order"; "self"];
  (* self.augmentation = augmentation *)
  do _ <- lookup_names locals ["augmentation"; "self"];
  (* self.configure_optimizers() *)
  do _ <- lookup_names locals ["self"];
  Ok {| vm_params := model;
        vm_training := true;
        vm_train_update_steps := train_update_steps;
        vm_augmentation := augmentation |}.

(** The parameters of [FSCL.__init__], whose body names [MAML] itself. *)
Definition FSCL_init_names : result unit :=
  let locals : gset string :=
    list_to_set
      [ "self"; "model"; "n_classes_start"; "n_class_additions";
        "training_steps"; "quick_adapt"; "intial_training_steps"; "loss_func";
        "optim_config"; "k_shot"; "__class__" ] in
  do _ <- lookup_names locals ["super"; "optim_config"; "k_shot"];
  do _ <- lookup_names locals ["n_classes_start"; "self"];
  do _ <- lookup_names locals ["n_class_additions"; "self"];
  do _ <- lookup_names locals ["training_steps"; "self"];
  do _ <- lookup_names locals ["intial_training_steps"; "self"];
  do _ <- lookup_names locals ["loss_func"; "self"];
  do _ <- lookup_names locals ["quick_adapt"; "self"];
  do _ <- lookup_names locals ["MAML"; "model"; "optim_config"; "self"];
  lookup_names locals ["self"].

(** The slice pass [i] of the loop of [return_label_batches] appends. *)
Definition addition (u : list Z) (ns na : Z) (i : Z) : list Z :=
  py_slice u (ns + na * i) (ns + na * (i + 1)).

(** The class batches form an ordered partition of the classes of the
    episode whose first batch has exactly [n_classes_start] classes. *)
Definition partition_with_exact_first (ns na : Z) (batch_labels : list Z)
    : Prop :=
  exists bs,
    return_label_batches ns na batch_labels = Ok bs /\
    (forall x, x ∈ concat bs <-> x ∈ batch_labels) /\
    NoDup (concat bs) /\
    exists first, bs !! 0%nat = Some first /\ len first = ns.

(** What the inner loop of Reptile leaves alone: the names of the
    parameters and every attribute but the tensors and the optimizer. *)
Definition same_settings {Input Tensor Scalar OptState : Type}
    (s s' : @Reptile Input Tensor Scalar OptState) : Prop :=
  dom (rp_params s') = dom (rp_params s) /\
  rp_outer_steps s' = rp_outer_steps s /\
  rp_training s' = rp_training s /\
  rp_train_update_steps s' = rp_train_update_steps s /\
  rp_initial_lr s' = rp_initial_lr s /\
  rp_max_steps s' = rp_max_steps s.

(** Every class of [classes], in order, [k] times: the labels of the
    support half and of the query half when each class has [2k]
    examples. *)
Definition k_of_each (k : nat) (classes : list Z) : list Z :=
  concat ((fun c => replicate k c) <$> classes).

(** The sum of the class counts of a list of class batches. *)
Definition sum_counts (class_batches : list (list Z)) : Z :=
  foldr (fun class_batch acc => len class_batch + acc) 0 class_batches.

(** The locals of [meta_learn] once class batch [i] has been processed:
    the run over the class batches [0 .. i]. *)
Definition FSCL_after_batch {Input Features Logit Loss Acc Encoder Head : Type}
    (encode : bool -> Encoder -> list Input -> Features)
    (apply_head : Head -> Features -> Logit)
    (loss_func : list Logit -> list Z -> Loss)
    (accuracy : list Logit -> list Z -> Acc)
    (adapt_encoder : Loss -> Encoder -> Encoder)
    (adapt_head : Loss -> nat -> Head -> Head)
    (self : FSCL) (_inputs : list Input) (labels : list Z) (learner : Model)
    (class_batches : list (list Z)) (i : nat) : result fscl_state :=
  FSCL_batches encode apply_head loss_func accuracy adapt_encoder adapt_head
    self _inputs labels learner (take (S i) class_batches).

Definition OML_after_batch {Input Features Logit Loss Acc Encoder Head : Type}
    (encode : bool -> Encoder -> list Input -> Features)
    (apply_head : Head -> Features -> Logit)
    (loss_func : list Logit -> list Z -> Loss)
    (accuracy : list Logit -> list Z -> Acc)
    (adapt_encoder : Loss -> Encoder -> Encoder)
    (adapt_head : Loss -> nat -> Head -> Head)
    (self : OML) (_inputs : list Input) (labels : list Z) (learner : Model)
    (class_batches : list (list Z)) (i : nat) : result oml_state :=
  OML_batches encode apply_head loss_func accuracy adapt_encoder adapt_head
    self _inputs labels learner (take (S i) class_batches).

(** A method that never writes the parameters of its object: they are
    the same in every store an observer of the call can see. *)
Definition never_writes {S A P} (params : S -> P) (p : prog S A) (s : S)
    : Prop :=
  forall s', s' ∈ observable p s -> params s' = params s.

(** The number of examples of class [c] in a label tensor. *)
Definition count_class (c : Z) (t : list Z) : nat :=
  length (filter (fun x => x = c) t).

(** The value the converter gives the label [x] when the unique labels
    are [0 .. m-1] and [torch.randperm] drew [perm]. *)
Definition converted (perm : list nat) (x : Z) : Z :=
  default 0 ((Z.of_nat <$> perm) !! Z.to_nat x).

(** The labels are remapped by a bijection of the label set. *)
Definition relabels_bijectively (perm : list nat) (batch_labels : list Z)
    : Prop :=
  exists out,
    return_random_labels perm batch_labels = Ok out /\
    length out = length batch_labels /\
    (forall v, v ∈ out <-> v ∈ batch_labels) /\
    (forall i j x y x' y',
        batch_labels !! i = Some x -> batch_labels !! j = Some y ->
        out !! i = Some x' -> out !! j = Some y' ->
        (x' = y' <-> x = y)).

(** ** The steps Lightning calls *)

(** [meta_learn(self, batch)] of a subclass, as the bound method that
    [training_step] and [validation_step] call with one argument. *)
Definition meta_learn_method {Batch A} (meta_learn : Batch -> result A)
    : list Batch -> result A :=
  call 1 (fun args =>
            match args with
            | [batch] => meta_learn batch
            | _ => Raise TypeError
            end).

Section LightningSteps.
Context {Input Tensor Scalar Logits Loss Acc OptState : Type}.
Local Open Scope prog_scope.
Variable tadd tsub : Tensor -> Tensor -> Tensor.
Variable tscale : Tensor -> Scalar -> Tensor.
Variable int_truediv : Z -> Z -> Scalar.
Variable one_minus : Scalar -> Scalar.
Variable smul : Scalar -> Scalar -> Scalar.
Variable forward : gmap string Tensor -> list Input -> Logits.
Variable loss_func : Logits -> list Z -> Loss.
Variable accuracy : Logits -> list Z -> Acc.
Variable gradients : gmap string Tensor -> list Input -> list Z
                     -> gmap string Tensor.
Variable adam_step : OptState -> gmap string Tensor -> gmap string Tensor
                     -> gmap string Tensor * OptState.

(** [self.training = b] *)
Definition set_training (b : bool) (self : @Reptile Input Tensor Scalar OptState)
    : Reptile :=
  {| rp_params := rp_params self;
     rp_opt_state := rp_opt_state self;
     rp_outer_steps := rp_outer_steps self;
     rp_training := b;
     rp_train_update_steps := rp_train_update_steps self;
     rp_initial_lr := rp_initial_lr self;
     rp_augmentation := rp_augmentation self;
     rp_max_steps := rp_max_steps self |}.


(** [validation_step(self, batch, batch_idx)] on a [Reptile], lines 58-64;
    [torch.set_grad_enabled(True)] sets a flag of the autograd engine,
    not an attribute of the object. *)
Definition Reptile_validation_step (batch : list Input * list Z) (batch_idx : Z)
    : prog (@Reptile Input Tensor Scalar OptState) unit :=
  write (set_training false) ;;
  let* output :=
    Reptile_meta_learn tadd tsub tscale int_truediv one_minus smul forward
      loss_func accuracy gradients adam_step batch in
  ret tt.

End LightningSteps.

(** ** The training script [train_cl.py] *)

(** The exceptions of the script: those of [exn] and the two raised by
    the [assert] of [WordData.__init__] and by the read of an attribute
    that was never assigned. *)
Inductive script_exn : Type :=
| AssertionError (msg : string)
| AttributeError (attr : string)
| Builtin (e : exn).

Inductive script_result (A : Type) : Type :=
| Done (a : A)
| Fails (e : script_exn).
Arguments Done {A} a.
Arguments Fails {A} e.

Definition script_bind {A B} (m : script_result A) (k : A -> script_result B)
    : script_result B :=
  match m with
  | Done a => k a
  | Fails e => Fails e
  end.

(** The keys of the configuration the script branches on; the other keys
    are passed on to the constructors unchanged. *)
Record Config : Type := mkConfig {
  cfg_dataset : string;
  cfg_noise_labels : string;
  cfg_encoder_name : string;
  cfg_method : string;
  cfg_algorithm : string;
  cfg_precision : Z;
  cfg_n_way : Z
}.

Inductive dataset_class : Type :=
| Flickr8kWordClassification
| GoogleCommandsWordClassification.

(** A data set as the script requests it. *)
Record Dataset : Type := mkDataset {
  ds_class : dataset_class;
  ds_meta_path : string;
  ds_audio_root : string
}.

(** [WordData.__init__(self, config)], lines 27-30 *)
Definition WordData_init (config : Config) : script_result Config :=
  if bool_decide (cfg_dataset config ∈
       ["flickr8k"; "google_commands"; "fluent"; "google_commands_digit";
        "google_commands_command"])
  then Done config
  else Fails (AssertionError
    "Dataset not supported. Must be either flickr8k, google_commands, fluent").

(** The [if]/[elif] chain of [WordData.setup], lines 33-86: the two
    attributes [train_dataset] and [valiadation_dataset] when a branch
    assigns them. *)
Definition WordData_datasets (dataset : string)
    : script_result (option (Dataset * Dataset)) :=
  let google := "~/mamlcon/data/google_commands/SpeechCommands/speech_commands_v0.02" in
  if String.eqb dataset "flickr8k" then
    Done (Some
      (mkDataset Flickr8kWordClassification
         "~/mamlcon/data/flickr/flickr8k_word_splits_train.csv"
         "~/mamlcon/data/flickr/wavs/",
       mkDataset Flickr8kWordClassification
         "~/mamlcon/data/flickr/flickr8k_word_splits_validation.csv"
         "~/mamlcon/data/flickr/wavs/"))
  else if String.eqb dataset "google_commands" then
    Done (Some
      (mkDataset GoogleCommandsWordClassification
         "~/mamlcon/data/google_commands/google_commands_word_splits_train.csv"
         google,
       mkDataset GoogleCommandsWordClassification
         "~/mamlcon/data/google_commands/google_commands_word_splits_validation.csv"
         google))
  else if String.eqb dataset "google_commands_digit" then
    Done (Some
      (mkDataset GoogleCommandsWordClassification
         "~/mamlcon/data/google_commands/google_commands_word_splits_commands.csv"
         google,
       mkDataset GoogleCommandsWordClassification
         "~/mamlcon/ata/google_commands/google_commands_word_splits_digits.csv"
         google))
  else if String.eqb dataset "google_commands_commands" then
    Done (Some
      (mkDataset GoogleCommandsWordClassification
         "~/mamlcon/data/google_commands/google_commands_word_splits_digits.csv"
         google,
       mkDataset GoogleCommandsWordClassification
         "~/mamlcon/ata/google_commands/google_commands_word_splits_commands.csv"
         google))
  else if String.eqb dataset "fluent" then
    Fails (Builtin (NotImplementedError ""))
  else Done None.

(** Lines 91-98 *)
Definition noise_labels_of (noise_labels : string) : option (list Z) :=
  if String.eqb noise_labels "noise" then Some [-2]
  else if String.eqb noise_labels "unknown" then Some [-1]
  else if String.eqb noise_labels "both" then Some [-1; -2]
  else None.

(** What [setup] leaves on the object for the two samplers and loaders. *)
Record WordData : Type := mkWordData {
  train_dataset : Dataset;
  valiadation_dataset : Dataset;
  sampler_noise_labels : option (list Z)
}.

(** [WordData.setup(self)]: line 88 reads [self.train_dataset]; the two
    data set constructors and the samplers are taken to return. *)
Definition WordData_setup (self : Config) : script_result WordData :=
  script_bind (WordData_datasets (cfg_dataset self)) (fun assigned =>
  match assigned with
  | None => Fails (AttributeError "train_dataset")
  | Some (train, validation) =>
      Done (mkWordData train validation (noise_labels_of (cfg_noise_labels self)))
  end).

Inductive encoder_class : Type :=
| WordClassificationAudioCnn
| WordClassificationAudio2DCnn
| WordClassificationRnn.

Inductive algorithm_class : Type :=
| AlgFSCL
| AlgOML.

(** What [main] hands to [trainer.fit]. *)
Record Training : Type := mkTraining {
  tr_algorithm : algorithm_class;
  tr_encoder : encoder_class;
  tr_n_classes : Z;
  tr_data : WordData;
  tr_precision : Z
}.

(** The read of a local variable of [main]. *)
Definition local {A} (v : option A) : script_result A :=
  match v with
  | Some a => Done a
  | None => Fails (Builtin UnboundLocalError)
  end.

(** [main(cfg)], lines 212-288, up to the call of [trainer.fit]. The
    constructors of the encoders, of the models and of the learners and
    the calls into [wandb] and Lightning in between are taken to return;
    [encoder], [model] and [algorithm] are locals of [main]. *)
Definition main (cfg : Config) : script_result Training :=
  let encoder :=
    if String.eqb (cfg_encoder_name cfg) "1d_cnn" then
      Some WordClassificationAudioCnn
    else if String.eqb (cfg_encoder_name cfg) "2d_cnn" then
      Some WordClassificationAudio2DCnn
    else if String.eqb (cfg_encoder_name cfg) "rnn" then
      Some WordClassificationRnn
    else None in
  script_bind (WordData_init cfg) (fun data =>
  script_bind (WordData_setup data) (fun data =>
  script_bind
    (if String.eqb (cfg_method cfg) "maml" && String.eqb (cfg_algorithm cfg) "FSCL"
     then script_bind (local encoder) (fun e => Done (Some (AlgFSCL, e)))
     else Done None) (fun algorithm =>
  script_bind
    (if String.eqb (cfg_method cfg) "maml" && String.eqb (cfg_algorithm cfg) "OML"
     then script_bind (local encoder) (fun e => Done (Some (AlgOML, e)))
     else if String.eqb (cfg_method cfg) "reptile"
     then Fails (Builtin (NotImplementedError ""))
     else Done algorithm) (fun algorithm =>
  let precision :=
    if String.eqb (cfg_method cfg) "maml" then cfg_precision cfg else 32 in
  script_bind (local algorithm) (fun '(a, e) =>
  Done (mkTraining a e (cfg_n_way cfg) data precision)))))).

(** ** The unused selection of FSCL *)

(** [FSCL.return_adaption_and_query(labels)], lines 220-224: the second
    component is the list the tensor is built from. *)
Definition FSCL_return_adaption_and_query {Encoder Head}
    (self : @FSCL Encoder Head) (labels : list Z) : result (list nat * list Z) :=
  do indexes <- return_indexes labels (unique labels);
  do first_occurence <- stride (fscl_k_shot self) indexes;
  let other_occurences :=
    filter (fun i => i mod fscl_k_shot self <> 0) (range (len indexes)) in
  Ok (first_occurence, other_occurences).

(** ** Module objects, references and clones

    [meta_learn] of [VanillaMAML], [FSCL] and [OML] works on
    [learner = self.model.clone()]. Which module object a call writes is
    what decides whether the parameters of [self.model] survive a call,
    so the module objects are kept in a store and the calls are made
    through references. The store holds the object [self], its model
    included, and the module objects made by [clone()] since. *)

Inductive module_ref : Type :=
| SelfModel                 (* self.model *)
| CloneRef (l : nat).       (* an object returned by [clone()] *)

Record Object (Self M : Type) : Type := mkObject {
  this : Self;
  clones : list M
}.
Arguments mkObject {Self M} this clones.
Arguments this {Self M} o.
Arguments clones {Self M} o.

(** [for x in xs: state = body(state, x)] with a body that writes. *)
Fixpoint for_each_prog {S St X} (body : St -> X -> prog S St) (st : St)
    (xs : list X) : prog S St :=
  match xs with
  | [] => ret st
  | x :: xs' => pbind (body st x) (fun st' => for_each_prog body st' xs')
  end.

Section ModuleStore.
Context {Self M : Type}.
Local Open Scope prog_scope.
(** The attribute [model] of [self] *)
Variable get_model : Self -> M.
Variable set_model : M -> Self -> Self.

(** The module object behind a reference. References come from
    [clone()] and are live; the lookup of any other is an error. *)
Definition deref (r : module_ref) : prog (Object Self M) M :=
  match r with
  | SelfModel => read (fun s => get_model (this s))
  | CloneRef l =>
      let* found := read (fun s => clones s !! l) in
      match found with
      | Some m => ret m
      | None => throw RuntimeError
      end
  end.

(** A method that changes the module object it is called on, in place:
    [adapt(loss)], [train()], [eval()]. *)
Definition update (r : module_ref) (f : M -> M) : prog (Object Self M) unit :=
  match r with
  | SelfModel =>
      write (fun s => mkObject (set_model (f (get_model (this s))) (this s))
                               (clones s))
  | CloneRef l => write (fun s => mkObject (this s) (alter f l (clones s)))
  end.

(** [r.clone()] of learn2learn's [MAML] wrapper, as the library documents
    it: a new module object whose parameters and buffers are copies of
    those of [r]; the object [r] is left as it is. *)
Definition clone (r : module_ref) : prog (Object Self M) module_ref :=
  let* m := deref r in
  let* l := read (fun s => length (clones s)) in
  write (fun s => mkObject (this s) (clones s ++ [m])) ;;
  ret (CloneRef l).

End ModuleStore.

(** [self.a] *)
Definition attr {Self M A} (a : Self -> A) : prog (Object Self M) A :=
  read (fun s => a (this s)).

(** *** FSCL and OML on the store *)

Section ClonedLearners.
Context {Input Features Logit Loss Acc Encoder Head : Type}.
Local Open Scope prog_scope.
Variable encode : bool -> Encoder -> list Input -> Features.
Variable apply_head : Head -> Features -> Logit.
Variable loss_func : list Logit -> list Z -> Loss.
Variable accuracy : list Logit -> list Z -> Acc.
Variable adapt_encoder : Loss -> Encoder -> Encoder.
Variable adapt_head : Loss -> nat -> Head -> Head.

Local Notation "'Model'" := (@Model Encoder Head).
Local Notation "'Output'" := (@Output Logit).
Local Notation "'Metric'" := (@Metric Loss Acc).
Local Notation "'FSCL'" := (@FSCL Encoder Head).
Local Notation "'OML'" := (@OML Encoder Head).

Definition set_fscl_model (m : Model) (self : FSCL) : FSCL :=
  {| fscl_model := m;
     fscl_n_classes_start := fscl_n_classes_start self;
     fscl_n_class_additions := fscl_n_class_additions self;
     fscl_training_steps := fscl_training_steps self;
     fscl_initial_training_steps := fscl_initial_training_steps self;
     fscl_quick_adapt := fscl_quick_adapt self;
     fscl_k_shot := fscl_k_shot self |}.

Definition set_oml_model (m : Model) (self : OML) : OML :=
  {| oml_model := m;
     oml_n_classes_start := oml_n_classes_start self;
     oml_n_class_additions := oml_n_class_additions self;
     oml_training_steps := oml_training_steps self |}.

Section InnerLoop.
Context {Self : Type}.
Variable get_model : Self -> Model.
Variable set_model : Model -> Self -> Self.

(** The inner training loop on the module object [learner]:
    [output = learner(...)] reads that object and
    [learner.adapt(support_error)] updates it. *)
Fixpoint adapt_steps_on (steps : nat) (forward : Model -> result (list Logit))
    (support_labels : list Z) (learner : module_ref) (output : option Output)
    : prog (Object Self Model) (option Output) :=
  match steps with
  | O => ret output
  | S steps' =>
      let* m := deref get_model learner in
      let* lg := lift (forward m) in
      let out := {| logits := lg; labels := support_labels |} in
      let support_error := loss_func (logits out) (labels out) in
      update get_model set_model learner (fun m => adapt adapt_encoder adapt_head
                                                     m support_error) ;;
      adapt_steps_on steps' forward support_labels learner (Some out)
  end.

End InnerLoop.

(** The locals of [FSCL.meta_learn] that live across class batches;
    [learner] is a reference. *)
Record fscl_locals : Type := mkFsclLocals {
  fl_total_classes_present : Z;
  fl_query_inputs : list (list Input);
  fl_query_labels : list (list Z);
  fl_quick_update_inputs : list (list Input);
  fl_quick_update_labels : list (list Z);
  fl_output : option Output;
  fl_logging : gmap string Metric
}.

Local Notation "'fscl_deref'" := (deref (@fscl_model Encoder Head)).
Local Notation "'fscl_update'" := (update (@fscl_model Encoder Head) set_fscl_model).
Local Notation "'oml_deref'" := (deref (@oml_model Encoder Head)).
Local Notation "'oml_update'" := (update (@oml_model Encoder Head) set_oml_model).

(** Lines 243-262: the first class batch. *)
Definition FSCL_first_batch_on (_inputs : list Input) (labels : list Z)
    (learner : module_ref) (class_batches : list (list Z))
    : prog (Object FSCL Model) fscl_locals :=
  let* class_batch :=
    lift (match class_batches !! 0%nat with
          | None => Raise IndexError
          | Some b => Ok b
          end) in
  let* '(support_input, support_labels, query_input, query_labels) :=
    lift (iteration_split _inputs labels class_batch) in
  let* k_shot := attr fscl_k_shot in
  let* quick_input := lift (stride k_shot support_input) in
  let* k_shot := attr fscl_k_shot in
  let* quick_labels := lift (stride k_shot support_labels) in
  let total_classes_present := len class_batch in
  let* steps := attr fscl_initial_training_steps in
  let* output :=
    adapt_steps_on fscl_model set_fscl_model (Z.to_nat steps)
      (fun m => FSCLModel_forward encode apply_head m support_input
                  total_classes_present)
      support_labels learner None in
  let* out := lift (read_output output) in
  let* acc := lift (calculate_accuracy accuracy out) in
  ret {| fl_total_classes_present := total_classes_present;
         fl_query_inputs := [query_input];
         fl_query_labels := [query_labels];
         fl_quick_update_inputs := [quick_input];
         fl_quick_update_labels := [quick_labels];
         fl_output := output;
         fl_logging := <["step_0_inner_accuracy" := MAcc acc]> ∅ |}.

(** Lines 265-284: the body of the loop over [class_batches[1:]]. *)
Definition FSCL_next_batch_on (_inputs : list Input) (labels : list Z)
    (learner : module_ref) (st : fscl_locals) (item : nat * list Z)
    : prog (Object FSCL Model) fscl_locals :=
  let '(i, class_batch) := item in
  let* '(support_input, support_labels, query_input, query_labels) :=
    lift (iteration_split _inputs labels class_batch) in
  let* k_shot := attr fscl_k_shot in
  let* quick_input := lift (stride k_shot support_input) in
  let* k_shot := attr fscl_k_shot in
  let* quick_labels := lift (stride k_shot support_labels) in
  let total_classes_present := fl_total_classes_present st + len class_batch in
  let* steps := attr fscl_training_steps in
  let* output :=
    adapt_steps_on fscl_model set_fscl_model (Z.to_nat steps)
      (fun m => FSCLModel_forward encode apply_head m support_input
                  total_classes_present)
      support_labels learner (fl_output st) in
  let* out := lift (read_output output) in
  let* acc := lift (calculate_accuracy accuracy out) in
  ret {| fl_total_classes_present := total_classes_present;
         fl_query_inputs := fl_query_inputs st ++ [query_input];
         fl_query_labels := fl_query_labels st ++ [query_labels];
         fl_quick_update_inputs := fl_quick_update_inputs st ++ [quick_input];
         fl_quick_update_labels := fl_quick_update_labels st ++ [quick_labels];
         fl_output := output;
         fl_logging :=
           <["step_" +:+ pretty (S i) +:+ "_inner_accuracy" := MAcc acc]>
             (fl_logging st) |}.

(** Lines 287-298: the optional rehearsal step. *)
Definition FSCL_quick_adapt_on (learner : module_ref) (st : fscl_locals)
    : prog (Object FSCL Model) fscl_locals :=
  let* quick_adapt := attr fscl_quick_adapt in
  if quick_adapt : bool then
    let* quick_update_inputs := lift (torch_cat (fl_quick_update_inputs st)) in
    let* quick_update_labels := lift (torch_cat (fl_quick_update_labels st)) in
    let* m := fscl_deref learner in
    let* lg :=
      lift (FSCLModel_forward encode apply_head m quick_update_inputs
              (fl_total_classes_present st)) in
    let out := {| logits := lg; labels := quick_update_labels |} in
    let quick_update_error := loss_func (logits out) (labels out) in
    fscl_update learner (fun m => adapt adapt_encoder adapt_head m
                                    quick_update_error) ;;
    let* quick_update_accuracy := lift (calculate_accuracy accuracy out) in
    ret {| fl_total_classes_present := fl_total_classes_present st;
           fl_query_inputs := fl_query_inputs st;
           fl_query_labels := fl_query_labels st;
           fl_quick_update_inputs := fl_quick_update_inputs st;
           fl_quick_update_labels := fl_quick_update_labels st;
           fl_output := Some out;
           fl_logging :=
             <["quick_update_inner_accuracy" := MAcc quick_update_accuracy]>
               (fl_logging st) |}
  else ret st.

(** Lines 300-318: the final evaluation. *)
Definition FSCL_final_on (learner : module_ref) (st : fscl_locals)
    : prog (Object FSCL Model) (gmap string Metric) :=
  fscl_update learner eval_mode ;;               (* learner.eval() *)
  let* '(query_inputs, query_labels) :=
    lift (final_query (fl_query_inputs st) (fl_query_labels st)) in
  let* m := fscl_deref learner in
  let* lg :=
    lift (FSCLModel_forward encode apply_head m query_inputs
            (fl_total_classes_present st)) in
  let out := {| logits := lg; labels := query_labels |} in
  let query_error := loss_func (logits out) (labels out) in
  let* query_accuracy := lift (calculate_accuracy accuracy out) in
  ret (<["query_accuracy" := MAcc query_accuracy]>
         (<["query_error" := MLoss query_error]> (fl_logging st))).

(** [FSCL.meta_learn(batch)] on the store, lines 226-318. *)
Definition FSCL_meta_learn_on (perm : list nat) (batch : list Input * list Z)
    : prog (Object FSCL Model) (gmap string Metric) :=
  let '(_inputs, labels) := batch in
  let* labels := lift (return_random_labels perm labels) in
  let* learner := clone fscl_model SelfModel in  (* self.model.clone() *)
  fscl_update learner clone_for_training ;;      (* learner.train() *)
  let* n_classes_start := attr fscl_n_classes_start in
  let* n_class_additions := attr fscl_n_class_additions in
  let* class_batches :=
    lift (return_label_batches n_classes_start n_class_additions labels) in
  let* st := FSCL_first_batch_on _inputs labels learner class_batches in
  let* st :=
    for_each_prog (FSCL_next_batch_on _inputs labels learner) st
      (enumerate (drop 1 class_batches)) in
  let* st := FSCL_quick_adapt_on learner st in
  FSCL_final_on learner st.

(** The locals of [OML.meta_learn]. *)
Record oml_locals : Type := mkOmlLocals {
  ol_total_classes_present : Z;
  ol_query_inputs : list (list Input);
  ol_query_labels : list (list Z);
  ol_output : option Output;
  ol_logging : gmap string Metric
}.

(** Lines 370-384: the body of the loop over all class batches. *)
Definition OML_batch_on (_inputs : list Input) (labels : list Z)
    (learner : module_ref) (st : oml_locals) (item : nat * list Z)
    : prog (Object OML Model) oml_locals :=
  let '(i, class_batch) := item in
  let total_classes_present := ol_total_classes_present st + len class_batch in
  let* '(support_input, support_labels, query_input, query_labels) :=
    lift (iteration_split _inputs labels class_batch) in
  let* steps := attr oml_training_steps in
  let* output :=
    adapt_steps_on oml_model set_oml_model (Z.to_nat steps)
      (fun m => OMLModel_forward encode apply_head m support_input
                  total_classes_present true)
      support_labels learner (ol_output st) in
  let* out := lift (read_output output) in
  let* acc := lift (calculate_accuracy accuracy out) in
  ret {| ol_total_classes_present := total_classes_present;
         ol_query_inputs := ol_query_inputs st ++ [query_input];
         ol_query_labels := ol_query_labels st ++ [query_labels];
         ol_output := output;
         ol_logging :=
           <["step_" +:+ pretty (S i) +:+ "_inner_accuracy" := MAcc acc]>
             (ol_logging st) |}.

(** Lines 386-403: the final evaluation. *)
Definition OML_final_on (learner : module_ref) (st : oml_locals)
    : prog (Object OML Model) (gmap string Metric) :=
  oml_update learner eval_mode ;;                (* learner.eval() *)
  let* '(query_inputs, query_labels) :=
    lift (final_query (ol_query_inputs st) (ol_query_labels st)) in
  let* m := oml_deref learner in
  let* lg :=
    lift (OMLModel_forward encode apply_head m query_inputs
            (ol_total_classes_present st) false) in
  let out := {| logits := lg; labels := query_labels |} in
  let query_error := loss_func (logits out) (labels out) in
  let* query_accuracy := lift (calculate_accuracy accuracy out) in
  ret (<["query_accuracy" := MAcc query_accuracy]>
         (<["query_error" := MLoss query_error]> (ol_logging st))).

(** [OML.meta_learn(batch)] on the store, lines 352-403. *)
Definition OML_meta_learn_on (perm : list nat) (batch : list Input * list Z)
    : prog (Object OML Model) (gmap string Metric) :=
  let '(_inputs, labels) := batch in
  let* labels := lift (return_random_labels perm labels) in
  let* learner := clone oml_model SelfModel in    (* self.model.clone() *)
  oml_update learner clone_for_training ;;       (* learner.train() *)
  let* n_classes_start := attr oml_n_classes_start in
  let* n_class_additions := attr oml_n_class_additions in
  let* class_batches :=
    lift (return_label_batches n_classes_start n_class_additions labels) in
  let* st :=
    for_each_prog (OML_batch_on _inputs labels learner)
      {| ol_total_classes_present := 0;
         ol_query_inputs := [];
         ol_query_labels := [];
         ol_output := None;
         ol_logging := ∅ |}
      (enumerate class_batches) in
  OML_final_on learner st.

End ClonedLearners.

(** *** VanillaMAML on the store *)

Section ClonedVanilla.
Context {Input Tensor Logits Loss Acc : Type}.
Local Open Scope prog_scope.
Variable forward : gmap string Tensor -> list Input -> Logits.
Variable loss_func : Logits -> list Z -> Loss.
Variable accuracy : Logits -> list Z -> Acc.
Variable gradients : gmap string Tensor -> list Input -> list Z
                     -> gmap string Tensor.
Variable maml_adapt : gmap string Tensor -> gmap string Tensor
                      -> gmap string Tensor.

Definition set_vm_params (p : gmap string Tensor)
    (self : @VanillaMAML Input Tensor) : VanillaMAML :=
  {| vm_params := p;
     vm_training := vm_training self;
     vm_train_update_steps := vm_train_update_steps self;
     vm_augmentation := vm_augmentation self |}.

(** [VanillaMAML.meta_learn(batch)] on the store, lines 107-130. The mode
    flag that [learner.train()] sets on the clone is no parameter: the
    call is a write to the clone that leaves its dictionary as it is. *)
Definition VanillaMAML_meta_learn_on (batch : list Input * list Z)
    : prog (Object (@VanillaMAML Input Tensor) (gmap string Tensor))
           (gmap string (@WMetric Loss Acc)) :=
  let '(_inputs, labels) := batch in
  let* '(support_input, support_labels, query_input, query_labels) :=
    lift (split_batch _inputs labels) in
  let* learner := clone vm_params SelfModel in            (* self.model.clone() *)
  update vm_params set_vm_params learner (fun p => p) ;;  (* learner.train() *)
  let* steps := attr vm_train_update_steps in
  repeat_prog (Z.to_nat steps)
    (let* x :=
       read (fun s =>
               if vm_training (this s) then
                 match vm_augmentation (this s) with
                 | Some aug => aug support_input
                 | None => support_input
                 end
               else support_input) in
     let* p := deref vm_params learner in
     let support_gradients := gradients p x support_labels in
     update vm_params set_vm_params learner
       (fun p => maml_adapt p support_gradients)) ;;
  let* p := deref vm_params learner in
  let lg := forward p query_input in
  let query_error := loss_func lg query_labels in
  let* query_accuracy := lift (calculate_accuracy_w accuracy lg query_labels) in
  ret (<["query_accuracy" := WAcc query_accuracy]>
         (<["query_error" := WLoss query_error]> ∅)).

End ClonedVanilla.

(** *** What a call on the store leaves and shows *)

(** Every store of the run, the last included, has the object of entry. *)
Definition keeps_this {Self M A} (p : prog (Object Self M) A) : Prop :=
  forall s, Forall (fun s' => this s' = this s) (trace (p s)) /\
            this (final (p s)) = this s.

(** What a run shows of the clone at [l]: the result, the object and the
    clone after the run. *)
Definition clone_view {Self M A} (l : nat) (r : run (Object Self M) A)
    : result (A * Self * option M) :=
  match outcome r with
  | Ok a => Ok (a, this (final r), clones (final r) !! l)
  | Raise e => Raise e
  end.

Section LocalsOf.
Context {Input Logit Loss Acc Encoder Head : Type}.

(** The locals of a state whose learner is kept in the store. *)
Definition fscl_locals_of (st : @fscl_state Input Logit Loss Acc Encoder Head)
    : @fscl_locals Input Logit Loss Acc :=
  {| fl_total_classes_present := fs_total_classes_present st;
     fl_query_inputs := fs_query_inputs st;
     fl_query_labels := fs_query_labels st;
     fl_quick_update_inputs := fs_quick_update_inputs st;
     fl_quick_update_labels := fs_quick_update_labels st;
     fl_output := fs_output st;
     fl_logging := fs_logging st |}.

Definition oml_locals_of (st : @oml_state Input Logit Loss Acc Encoder Head)
    : @oml_locals Input Logit Loss Acc :=
  {| ol_total_classes_present := os_total_classes_present st;
     ol_query_inputs := os_query_inputs st;
     ol_query_labels := os_query_labels st;
     ol_output := os_output st;
     ol_logging := os_logging st |}.

End LocalsOf.

(** * Properties *)

(** ** The error monad *)

Lemma bind_Ok {A B} (m : result A) (k : A -> result B) (b : B) :
  bind m k = Ok b -> exists a, m = Ok a /\ k a = Ok b.
Proof. destruct m as [a|e]; simpl; [eauto | discriminate]. Qed.

Lemma for_each_app {S X} (body : S -> X -> result S) (s : S) (xs ys : list X) :
  for_each body s (xs ++ ys) = bind (for_each body s xs) (fun s' => for_each body s' ys).
Proof.
  revert s. induction xs as [|x xs IH]; intros s; simpl; [done|].
  destruct (body s x); simpl; auto.
Qed.

(** ** [torch.unique] *)

Lemma elem_of_insert_sorted (x y : Z) (l : list Z) :
  y ∈ insert_sorted x l <-> y = x \/ y ∈ l.
Proof.
  induction l as [|z l IH]; simpl.
  - rewrite list_elem_of_singleton, elem_of_nil. tauto.
  - destruct (Z.ltb_spec x z); [rewrite !elem_of_cons; tauto|].
    destruct (Z.eqb_spec x z); [subst; rewrite !elem_of_cons; tauto|].
    rewrite !elem_of_cons, IH. tauto.
Qed.

Lemma elem_of_unique (x : Z) (t : list Z) : x ∈ unique t <-> x ∈ t.
Proof.
  induction t as [|y t IH]; simpl; [done|].
  rewrite elem_of_insert_sorted, elem_of_cons, IH. tauto.
Qed.

Lemma insert_sorted_sorted (x : Z) (l : list Z) :
  StronglySorted Z.lt l -> StronglySorted Z.lt (insert_sorted x l).
Proof.
  induction 1 as [|z l Hs IH Hz]; simpl.
  - repeat constructor.
  - destruct (Z.ltb_spec x z).
    + constructor; [by constructor|].
      constructor; [done|]. eapply Forall_impl; [exact Hz|]. simpl; lia.
    + destruct (Z.eqb_spec x z); [by constructor|].
      constructor; [done|].
      apply Forall_forall. intros y Hy.
      apply elem_of_insert_sorted in Hy as [->|Hy]; [lia|].
      by eapply Forall_forall in Hz.
Qed.

Lemma unique_sorted (t : list Z) : StronglySorted Z.lt (unique t).
Proof.
  induction t; simpl; [constructor | by apply insert_sorted_sorted].
Qed.

Lemma sorted_lt_NoDup (l : list Z) : StronglySorted Z.lt l -> NoDup l.
Proof.
  induction 1 as [|z l Hs IH Hz]; constructor; [|done].
  intros Hin. eapply Forall_forall in Hz; [|exact Hin]. lia.
Qed.

Lemma unique_NoDup (t : list Z) : NoDup (unique t).
Proof. apply sorted_lt_NoDup, unique_sorted. Qed.

(** Two strictly ascending lists with the same elements are equal. *)
Lemma sorted_lt_ext (l1 l2 : list Z) :
  StronglySorted Z.lt l1 -> StronglySorted Z.lt l2 ->
  (forall x, x ∈ l1 <-> x ∈ l2) -> l1 = l2.
Proof.
  intros H1. revert l2. induction H1 as [|a l1 Hs1 IH Ha]; intros l2 H2 Hext.
  - destruct l2 as [|b l2]; [done|].
    pose proof (proj2 (Hext b) ltac:(left)) as Hb. by apply elem_of_nil in Hb.
  - destruct H2 as [|b l2 Hs2 Hb].
    { pose proof (proj1 (Hext a) ltac:(left)) as Ha'. by apply elem_of_nil in Ha'. }
    assert (a = b) as ->.
    { pose proof (proj1 (Hext a) ltac:(left)) as Hab.
      pose proof (proj2 (Hext b) ltac:(left)) as Hba.
      apply elem_of_cons in Hab as [?|Hab]; [done|].
      apply elem_of_cons in Hba as [?|Hba]; [done|].
      eapply Forall_forall in Ha; [|exact Hba].
      eapply Forall_forall in Hb; [|exact Hab]. lia. }
    f_equal. apply IH; [done|]. intros x. split; intros Hx.
    + pose proof (proj1 (Hext x) ltac:(by right)) as Hx'.
      apply elem_of_cons in Hx' as [->|?]; [|done].
      eapply Forall_forall in Ha; [|exact Hx]. lia.
    + pose proof (proj2 (Hext x) ltac:(by right)) as Hx'.
      apply elem_of_cons in Hx' as [->|?]; [|done].
      eapply Forall_forall in Hb; [|exact Hx]. lia.
Qed.

Lemma seqZ_sorted (lo n : Z) : StronglySorted Z.lt (seqZ lo n).
Proof.
  destruct (Z.le_gt_cases n 0) as [Hn|Hn].
  { rewrite seqZ_nil by lia. constructor. }
  rewrite <- (Z2Nat.id n) by lia. generalize (Z.to_nat n) as k. clear.
  intros k. revert lo. induction k as [|k IH]; intros lo.
  - constructor.
  - rewrite Nat2Z.inj_succ, seqZ_cons by lia.
    replace (Z.pred (Z.succ (Z.of_nat k))) with (Z.of_nat k) by lia.
    constructor; [apply IH|].
    apply Forall_forall. intros x Hx. apply elem_of_seqZ in Hx. lia.
Qed.

(** A tensor whose set of values is [lo .. lo+n-1] has exactly these as
    its unique values. *)
Lemma unique_consecutive (t : list Z) (lo n : Z) :
  (forall x, x ∈ t <-> lo <= x < lo + n) -> unique t = seqZ lo n.
Proof.
  intros H. apply sorted_lt_ext; [apply unique_sorted | apply seqZ_sorted |].
  intros x. rewrite elem_of_unique, elem_of_seqZ. apply H.
Qed.

Lemma unique_nil_inv (t : list Z) : unique t = [] -> t = [].
Proof.
  destruct t as [|x t]; [done|]. intros H.
  assert (x ∈ unique (x :: t)) as Hx by (apply elem_of_unique; left).
  rewrite H in Hx. by apply elem_of_nil in Hx.
Qed.

(** ** [max] *)

Lemma foldl_max_spec (l : list Z) (x : Z) :
  (foldl Z.max x l = x \/ foldl Z.max x l ∈ l) /\
  x <= foldl Z.max x l /\ forall y, y ∈ l -> y <= foldl Z.max x l.
Proof.
  revert x. induction l as [|z l IH]; intros x; simpl.
  - split; [by left|]. split; [lia|]. intros y Hy. by apply elem_of_nil in Hy.
  - destruct (IH (Z.max x z)) as ([He|Hi] & Hle & Hall).
    + split.
      * rewrite He. destruct (Z.max_spec x z) as [[_ ->]|[_ ->]]; [right; left | by left].
      * split; [lia|]. intros y Hy. apply elem_of_cons in Hy as [->|Hy]; [lia|auto].
    + split; [right; by right|]. split; [lia|].
      intros y Hy. apply elem_of_cons in Hy as [->|Hy]; [lia|auto].
Qed.

Lemma tensor_max_intro (t : list Z) (m : Z) :
  m ∈ t -> (forall y, y ∈ t -> y <= m) -> tensor_max t = Ok m.
Proof.
  destruct t as [|x t]; [intros H; by apply elem_of_nil in H|].
  intros Hm Hub. simpl. f_equal.
  destruct (foldl_max_spec t x) as (Hin & Hle & Hall).
  assert (foldl Z.max x t ∈ x :: t) as Hin'.
  { destruct Hin as [->|?]; [left | by right]. }
  apply Hub in Hin'.
  apply elem_of_cons in Hm as [->|Hm]; [lia|]. apply Hall in Hm. lia.
Qed.

Lemma tensor_max_seqZ (lo n : Z) :
  0 < n -> tensor_max (seqZ lo n) = Ok (lo + n - 1).
Proof.
  intros Hn. apply tensor_max_intro.
  - apply elem_of_seqZ. lia.
  - intros y Hy. apply elem_of_seqZ in Hy. lia.
Qed.

(** ** Slices *)

Lemma len_nonneg {A} (l : list A) : 0 <= len l.
Proof. unfold len. lia. Qed.

Lemma py_slice_to_take {A} (l : list A) (stop : Z) :
  0 <= stop <= len l -> py_slice_to l stop = take (Z.to_nat stop) l.
Proof.
  intros H. unfold py_slice_to, norm_index.
  destruct (Z.ltb_spec stop 0); [lia|]. by rewrite Z.min_l by lia.
Qed.

Lemma py_slice_in_range {A} (l : list A) (a b : Z) :
  0 <= a <= b -> b <= len l ->
  py_slice l a b = take (Z.to_nat (b - a)) (drop (Z.to_nat a) l).
Proof.
  intros H1 H2. unfold py_slice, norm_index.
  destruct (Z.ltb_spec a 0); [lia|]. destruct (Z.ltb_spec b 0); [lia|].
  by rewrite !Z.min_l by lia.
Qed.

Lemma py_slice_at_end {A} (l : list A) (b : Z) :
  py_slice l (len l) b = [].
Proof.
  unfold py_slice, norm_index. pose proof (len_nonneg l).
  destruct (Z.ltb_spec (len l) 0); [lia|].
  rewrite Z.min_id. rewrite drop_ge; [by rewrite take_nil|]. unfold len. lia.
Qed.

Lemma py_slice_from_neg {A} (l : list A) (k : Z) :
  0 < k <= len l -> py_slice_from l (- k) = drop (Z.to_nat (len l - k)) l.
Proof.
  intros H. unfold py_slice_from, norm_index.
  destruct (Z.ltb_spec (- k) 0); [|lia].
  rewrite Z.max_l by lia. f_equal. lia.
Qed.

Lemma take_app_take_drop {A} (l : list A) (a b : nat) :
  (a <= b)%nat -> take a l ++ take (b - a) (drop a l) = take b l.
Proof.
  intros H. rewrite <- (take_drop a (take b l)).
  rewrite take_take, Nat.min_l by lia. f_equal.
  by rewrite take_drop_commute, Nat.add_comm, Nat.sub_add.
Qed.

Lemma range_S (q : nat) : range (Z.of_nat (S q)) = range (Z.of_nat q) ++ [Z.of_nat q].
Proof. unfold range. rewrite !Nat2Z.id, seq_S, map_app. done. Qed.

Lemma range_nonpos (n : Z) : n <= 0 -> range n = [].
Proof. intros H. unfold range. by replace (Z.to_nat n) with 0%nat by lia. Qed.

(** ** [return_label_batches] *)

(** The loop of lines 207-210 appends one slice per addition. *)
Lemma foldl_snoc_map {A B} (f : B -> A) (c0 : list A) (l : list B) :
  foldl (fun classes i => classes ++ [f i]) c0 l = c0 ++ map f l.
Proof.
  revert c0. induction l as [|x l IH]; intros c0; simpl.
  - by rewrite app_nil_r.
  - rewrite IH. by rewrite <- app_assoc.
Qed.

Section LabelBatches.
Variables (u : list Z) (ns na : Z).
Hypothesis Hns : 0 <= ns.
Hypothesis Hna : 0 < na.

Lemma addition_full (i : Z) :
  0 <= i -> ns + na * (i + 1) <= len u -> length (addition u ns na i) = Z.to_nat na.
Proof.
  intros Hi Hfit. unfold addition. rewrite py_slice_in_range by nia.
  rewrite length_take, length_drop. unfold len in Hfit. nia.
Qed.

Lemma additions_concat (q : nat) :
  ns + na * Z.of_nat q <= len u ->
  concat (take (Z.to_nat ns) u :: map (addition u ns na) (range (Z.of_nat q)))
  = take (Z.to_nat (ns + na * Z.of_nat q)) u.
Proof.
  induction q as [|q IH]; intros Hfit.
  - simpl. rewrite app_nil_r. f_equal. lia.
  - rewrite range_S, map_app, app_comm_cons, concat_app, IH by nia.
    simpl. rewrite app_nil_r. unfold addition.
    rewrite py_slice_in_range by nia.
    replace (Z.to_nat (ns + na * (Z.of_nat q + 1) - (ns + na * Z.of_nat q)))
      with (Z.to_nat (ns + na * Z.of_nat (S q)) - Z.to_nat (ns + na * Z.of_nat q))%nat
      by nia.
    replace (ns + na * (Z.of_nat q + 1)) with (ns + na * Z.of_nat (S q)) by nia.
    apply take_app_take_drop. nia.
Qed.

Lemma additions_lengths (q : nat) :
  ns + na * Z.of_nat q <= len u ->
  length <$> map (addition u ns na) (range (Z.of_nat q)) = replicate q (Z.to_nat na).
Proof.
  induction q as [|q IH]; intros Hfit; [done|].
  rewrite replicate_S_end, range_S, map_app, fmap_app, IH by nia.
  f_equal. cbn [map fmap list_fmap]. by rewrite addition_full by nia.
Qed.

End LabelBatches.

Lemma set_last_snoc {A} (l : list A) (x y : A) : set_last (l ++ [x]) y = l ++ [y].
Proof.
  unfold set_last. destruct (l ++ [x]) eqn:E.
  - by destruct l.
  - by rewrite <- E, removelast_last.
Qed.

Lemma tensor_max_same_elements (t1 t2 : list Z) (m : Z) :
  (forall x, x ∈ t1 <-> x ∈ t2) -> t1 <> [] ->
  exists m, tensor_max t1 = Ok m /\ tensor_max t2 = Ok m.
Proof.
  intros Hext Hne. destruct t1 as [|x t1]; [done|].
  destruct (foldl_max_spec t1 x) as (Hin & Hle & Hall).
  exists (foldl Z.max x t1). split; [done|].
  apply tensor_max_intro.
  - apply Hext. destruct Hin as [->|?]; [left | by right].
  - intros y Hy. apply Hext, elem_of_cons in Hy as [->|Hy]; auto.
Qed.

Lemma seqZ_take (lo n : Z) (k : nat) :
  Z.of_nat k <= n -> take k (seqZ lo n) = seqZ lo (Z.of_nat k).
Proof.
  intros H. replace n with (Z.of_nat k + (n - Z.of_nat k)) by lia.
  rewrite seqZ_app by lia. rewrite take_app_length'; [done|].
  rewrite length_seqZ. lia.
Qed.

Lemma return_label_batches_consecutive_aux (ns na lo : Z) (batch_labels : list Z) :
  let u := unique batch_labels in
  let n := len u in
  u = seqZ lo n ->
  1 <= ns <= n -> 1 <= na ->
  exists bs,
    return_label_batches ns na batch_labels = Ok bs /\
    concat bs = u /\
    (n = ns -> bs = [u; []]) /\
    (0 < n - ns < na -> bs = [u]) /\
    (na <= n - ns ->
       bs !! 0%nat = Some (take (Z.to_nat ns) u) /\
       length <$> bs =
         [Z.to_nat ns] ++ replicate (Z.to_nat ((n - ns) / na) - 1) (Z.to_nat na)
         ++ [Z.to_nat (na + (n - ns) mod na)]).
Proof.
  intros u n Hu Hns Hna.
  assert (Huq : unique batch_labels = u) by reflexivity.
  assert (Hn : len u = n) by reflexivity.
  assert (Hn' : Z.of_nat (length u) = n) by reflexivity.
  clearbody n. clearbody u.
  assert (Hlabels : forall x, x ∈ batch_labels <-> lo <= x < lo + n).
  { intros x. rewrite <- elem_of_unique, Huq, Hu, elem_of_seqZ. done. }
  assert (Hbmax : tensor_max batch_labels = Ok (lo + n - 1)).
  { apply tensor_max_intro; [apply Hlabels; lia|].
    intros y Hy. apply Hlabels in Hy. lia. }
  unfold return_label_batches. rewrite !Huq, !Hn.
  unfold py_floordiv. destruct (Z.eqb_spec na 0) as [|_]; [lia|]. cbn [bind].
  rewrite foldl_snoc_map. rewrite py_slice_to_take by lia.
  change (fun i => py_slice u (ns + na * i) (ns + na * (i + 1)))
    with (addition u ns na).
  destruct (Z.leb_spec 1 (n - ns)) as [Hgt|Heq].
  - (* more classes than the first batch takes *)
    set (q := (n - ns) / na).
    assert (Hq : 0 <= q) by (apply Z.div_pos; lia).
    assert (Hdm : n - ns = na * q + (n - ns) mod na) by (apply Z.div_mod; lia).
    assert (Hr : 0 <= (n - ns) mod na < na) by (apply Z.mod_pos_bound; lia).
    set (r := (n - ns) mod na) in *.
    set (c := ns + na * q).
    assert (Hc : ns <= c <= n) by (unfold c; nia).
    assert (Hcat : concat ([take (Z.to_nat ns) u] ++ map (addition u ns na) (range q))
                   = take (Z.to_nat c) u).
    { rewrite <- (Z2Nat.id q) by lia. unfold c.
      rewrite <- (Z2Nat.id q) at 2 by lia.
      apply additions_concat; [lia | lia | rewrite Z2Nat.id by lia; fold c; lia]. }
    assert (Htake : take (Z.to_nat c) u = seqZ lo c).
    { rewrite Hu, seqZ_take by lia. f_equal. lia. }
    rewrite Hcat, Htake. rewrite tensor_max_seqZ by lia. cbn [bind].
    rewrite Hbmax. cbn [bind].
    assert (Hlens : length <$> map (addition u ns na) (range q)
                    = replicate (Z.to_nat q) (Z.to_nat na)).
    { rewrite <- (Z2Nat.id q) at 1 by lia.
      apply additions_lengths; [lia | lia | rewrite Z2Nat.id by lia; fold c; lia]. }
    destruct (Z.ltb_spec (lo + c - 1) (lo + n - 1)) as [Hlt|Hge].
    + (* a remainder is left *)
      rewrite py_slice_from_neg by lia. rewrite Hn.
      replace (n - (lo + n - 1 - (lo + c - 1))) with c by lia.
      destruct (Z.to_nat q) as [|q'] eqn:Eq.
      * (* no full addition: the first batch takes the remainder *)
        assert (q = 0) as Hq0 by lia. rewrite Hq0. simpl.
        assert (c = ns) as Hcns by (unfold c; lia). rewrite Hcns.
        rewrite take_drop. eexists; split; [done|].
        split; [simpl; by rewrite app_nil_r|].
        split; [lia|]. split; [done|]. intros ?. lia.
      * replace q with (Z.of_nat (S q')) by lia.
        rewrite range_S, map_app. cbn [map].
        rewrite app_assoc, last_last, set_last_snoc.
        eexists; split; [done|].
        replace q with (Z.of_nat (S q')) in Hcat, Hlens by lia.
        rewrite range_S, map_app in Hcat, Hlens. cbn [map] in Hcat, Hlens.
        rewrite app_assoc, concat_app in Hcat. simpl in Hcat.
        rewrite app_nil_r in Hcat.
        split.
        { rewrite concat_app. simpl. rewrite app_nil_r, app_assoc, Hcat.
          apply take_drop. }
        split; [lia|]. split; [lia|]. intros _. split; [done|].
        rewrite fmap_app in Hlens. rewrite ?Nat2Z.id, replicate_S_end in Hlens.
        apply app_inj_tail in Hlens as [Hl1 Hl2].
        rewrite fmap_app. cbn [fmap list_fmap app]. rewrite Hl1.
        replace (S q' - 1)%nat with q' by lia.
        f_equal; [by rewrite length_take, Nat.min_l by lia|].
        f_equal. cbn [fmap list_fmap]. f_equal.
        rewrite length_app, Hl2, length_drop. lia.
    + (* the additions cover every class *)
      assert (c = n) as Hcn by lia.
      assert (r = 0) as Hr0 by (unfold c in Hcn; lia).
      assert (1 <= q) as Hq1 by nia.
      eexists; split; [done|].
      split. { rewrite Hcat, Hcn. apply take_ge. lia. }
      split; [lia|]. split; [nia|]. intros _. split; [done|].
      rewrite fmap_app, Hlens. cbn [fmap list_fmap]. f_equal.
      { by rewrite length_take, Nat.min_l by lia. }
      rewrite Hr0, Z.add_0_r.
      replace (Z.to_nat q) with (S (Z.to_nat q - 1)) at 1 by lia.
      by rewrite replicate_S_end.
  - (* exactly [ns] classes: one pass, which appends an empty slice *)
    assert (n = ns) as Hnn by lia.
    assert (Hadd : addition u ns na 0 = []).
    { unfold addition. replace (ns + na * 0) with (len u) by lia.
      apply py_slice_at_end. }
    change (range 1) with [0]. cbn [map app]. rewrite Hadd.
    rewrite take_ge by lia.
    assert (Hmaxu : tensor_max u = Ok (lo + n - 1)).
    { rewrite Hu. apply tensor_max_seqZ. lia. }
    replace (concat [u; []]) with u by (simpl; by rewrite app_nil_r).
    rewrite Hmaxu. cbn [bind]. rewrite Hbmax. cbn [bind]. rewrite Z.ltb_irrefl.
    eexists; split; [done|]. split; [simpl; by rewrite !app_nil_r|].
    split; [done|]. split; [lia|]. intros ?; lia.
Qed.

(** C1 (as amended). For an episode whose distinct labels are consecutive
    integers [lo .. lo+n-1] (class ids, as the class heads need them),
    with [1 <= n_classes_start <= n] and [n_class_additions >= 1],
    [return_label_batches] returns class batches whose concatenation is
    the ascending list of the classes: every class is in exactly one
    batch and none is dropped. With exactly [n_classes_start] classes the
    result is all classes followed by one empty batch. With a remainder
    smaller than one addition ([0 < n - n_classes_start <
    n_class_additions]) the single batch holds all [n] classes, more than
    [n_classes_start]. Otherwise the first batch is the first
    [n_classes_start] classes, every further batch but the last has
    [n_class_additions] classes, and the last one has
    [n_class_additions] plus the remainder. *)
Theorem return_label_batches_partition (ns na lo : Z) (batch_labels : list Z) :
  unique batch_labels = seqZ lo (len (unique batch_labels)) ->
  1 <= ns <= len (unique batch_labels) ->
  1 <= na ->
  exists bs,
    return_label_batches ns na batch_labels = Ok bs /\
    concat bs = unique batch_labels /\
    NoDup (concat bs) /\
    (forall x, x ∈ concat bs <-> x ∈ batch_labels) /\
    (len (unique batch_labels) = ns -> bs = [unique batch_labels; []]) /\
    (0 < len (unique batch_labels) - ns < na -> bs = [unique batch_labels]) /\
    (na <= len (unique batch_labels) - ns ->
       bs !! 0%nat = Some (take (Z.to_nat ns) (unique batch_labels)) /\
       length <$> bs =
         [Z.to_nat ns]
         ++ replicate (Z.to_nat ((len (unique batch_labels) - ns) / na) - 1)
                      (Z.to_nat na)
         ++ [Z.to_nat (na + (len (unique batch_labels) - ns) mod na)]).
Proof.
  intros Hu Hns Hna.
  destruct (return_label_batches_consecutive_aux ns na lo batch_labels Hu Hns Hna)
    as (bs & Hrun & Hcat & Hsame & Hshort & Hfull).
  exists bs. split; [done|]. split; [done|].
  split; [rewrite Hcat; apply unique_NoDup|].
  split; [intros x; rewrite Hcat; apply elem_of_unique|].
  auto.
Qed.

Lemma return_label_batches_partition_witness :
  exists bs,
    return_label_batches 2 2 [0; 0; 1; 1; 2; 2; 3; 3; 4; 4] = Ok bs /\
    bs = [[0; 1]; [2; 3; 4]].
Proof.
  destruct (return_label_batches_partition 2 2 0 [0; 0; 1; 1; 2; 2; 3; 3; 4; 4])
    as (bs & Hrun & _); [reflexivity | vm_compute; split; discriminate | lia |].
  exists bs. split; [exact Hrun|].
  vm_compute in Hrun. by injection Hrun as <-.
Defined.

(** C1, as stated, fails on three classes with two examples each,
    [n_classes_start = 2] and [n_class_additions = 2]: no addition is
    full, the remaining class joins the only batch, and the first batch
    has three classes. *)
Lemma return_label_batches_first_batch_grows :
  2 <= len (unique [0; 0; 1; 1; 2; 2]) /\
  return_label_batches 2 2 [0; 0; 1; 1; 2; 2] = Ok [[0; 1; 2]] /\
  ~ partition_with_exact_first 2 2 [0; 0; 1; 1; 2; 2].
Proof.
  split; [vm_compute; discriminate|]. split; [reflexivity|].
  intros (bs & Hrun & _ & _ & first & Hfirst & Hlen).
  vm_compute in Hrun. injection Hrun as <-.
  injection Hfirst as <-. vm_compute in Hlen. discriminate.
Qed.

(** ** [return_random_labels] *)

Lemma gather_seqZ (m : nat) (perm : list nat) :
  Forall (fun p => (p < m)%nat) perm ->
  gather (seqZ 0 (Z.of_nat m)) perm = Ok (Z.of_nat <$> perm).
Proof.
  induction 1 as [|p perm Hp _ IH]; [done|]. simpl.
  rewrite lookup_seqZ_lt by lia. rewrite IH. simpl. by rewrite Z.add_0_l.
Qed.

(** The converter maps the position [i] to [random_labels[i]], and knows
    no other key. *)
Lemma build_converter_lookup (random_labels : list Z) (i : Z) :
  build_converter random_labels !! i =
  if decide (0 <= i < len random_labels) then random_labels !! Z.to_nat i
  else None.
Proof.
  unfold build_converter.
  assert (Hgen : forall k : nat, (k <= length random_labels)%nat ->
    foldl (fun d i => match random_labels !! Z.to_nat i with
                      | Some v => <[i := v]> d
                      | None => d
                      end) (∅ : gmap Z Z) (range (Z.of_nat k)) !! i
    = if decide (0 <= i < Z.of_nat k) then random_labels !! Z.to_nat i else None).
  { induction k as [|k IH]; intros Hk.
    - simpl. rewrite lookup_empty. by case_decide; [lia|].
    - rewrite range_S, foldl_app. cbn [foldl]. rewrite Nat2Z.id.
      destruct (lookup_lt_is_Some_2 random_labels k ltac:(lia)) as [v Hv].
      rewrite Hv. destruct (decide (i = Z.of_nat k)) as [->|Hne].
      + rewrite lookup_insert_eq, Nat2Z.id, Hv. clear IH. by case_decide; [|lia].
      + rewrite lookup_insert_ne by done. rewrite IH by lia. clear IH.
        repeat case_decide; try done; lia. }
  apply (Hgen (length random_labels)). done.
Qed.

(** The in-place loop computes a map over the tensor: a position is read
    before it is written and never after. *)
Lemma relabel_loop_map (converter : gmap Z Z) (f : Z -> Z) (rest : list Z) :
  forall written : list Z,
  (forall x, x ∈ rest -> converter !! x = Some (f x)) ->
  relabel_loop converter (seq (length written) (length rest)) (written ++ rest)
  = Ok (written ++ (f <$> rest)).
Proof.
  induction rest as [|x rest IH]; intros written Hconv; [done|].
  simpl. rewrite list_lookup_middle by done.
  rewrite Hconv by left.
  replace (<[length written:=f x]> (written ++ x :: rest))
    with ((written ++ [f x]) ++ rest).
  2:{ rewrite insert_app_r_alt by lia. rewrite Nat.sub_diag. simpl.
      by rewrite <- app_assoc. }
  replace (S (length written)) with (length (written ++ [f x]))
    by (rewrite length_app; simpl; lia).
  rewrite IH by (intros y Hy; apply Hconv; by right).
  by rewrite <- app_assoc.
Qed.

Lemma relabel_loop_KeyError (converter : gmap Z Z) (rest : list Z) :
  forall written : list Z,
  (exists x, x ∈ rest /\ converter !! x = None) ->
  relabel_loop converter (seq (length written) (length rest)) (written ++ rest)
  = Raise KeyError.
Proof.
  induction rest as [|x rest IH]; intros written (y & Hy & Hnone).
  { by apply elem_of_nil in Hy. }
  simpl. rewrite list_lookup_middle by done.
  destruct (converter !! x) as [v|] eqn:Hx; [|done].
  replace (<[length written:=v]> (written ++ x :: rest))
    with ((written ++ [v]) ++ rest).
  2:{ rewrite insert_app_r_alt by lia. rewrite Nat.sub_diag. simpl.
      by rewrite <- app_assoc. }
  replace (S (length written)) with (length (written ++ [v]))
    by (rewrite length_app; simpl; lia).
  apply IH. exists y. split; [|done].
  apply elem_of_cons in Hy as [->|Hy]; [congruence | done].
Qed.

Section RandomLabels.
Variables (perm : list nat) (batch_labels : list Z) (m : nat).
Hypothesis Hclasses : unique batch_labels = seqZ 0 (Z.of_nat m).
Hypothesis Hperm : perm ≡ₚ seq 0 m.

Lemma perm_bounded : Forall (fun p => (p < m)%nat) perm.
Proof.
  apply Forall_forall. intros p Hp. rewrite Hperm in Hp.
  apply elem_of_seq in Hp. lia.
Qed.

Lemma perm_length : length perm = m.
Proof. by rewrite Hperm, length_seq. Qed.

Lemma random_labels_NoDup : NoDup (Z.of_nat <$> perm).
Proof.
  apply NoDup_fmap; [apply Nat2Z.inj'|]. rewrite Hperm. apply NoDup_seq.
Qed.

Lemma label_bounded (x : Z) : x ∈ batch_labels <-> 0 <= x < Z.of_nat m.
Proof. rewrite <- elem_of_unique, Hclasses, elem_of_seqZ. lia. Qed.

Lemma random_label_bounded (v : Z) :
  v ∈ (Z.of_nat <$> perm) <-> 0 <= v < Z.of_nat m.
Proof.
  rewrite list_elem_of_fmap. split.
  - intros (p & -> & Hp). rewrite Hperm in Hp. apply elem_of_seq in Hp. lia.
  - intros Hv. exists (Z.to_nat v). split; [lia|].
    rewrite Hperm. apply elem_of_seq. lia.
Qed.

Lemma converter_total (x : Z) :
  x ∈ batch_labels ->
  build_converter (Z.of_nat <$> perm) !! x = Some (converted perm x) /\
  (Z.of_nat <$> perm) !! Z.to_nat x = Some (converted perm x).
Proof.
  intros Hx. apply label_bounded in Hx.
  rewrite build_converter_lookup. unfold len, converted.
  rewrite length_fmap, perm_length.
  destruct (lookup_lt_is_Some_2 (Z.of_nat <$> perm) (Z.to_nat x)) as [v Hv].
  { rewrite length_fmap, perm_length. lia. }
  rewrite Hv. simpl. by case_decide; [|lia].
Qed.

Lemma converted_inj (x y : Z) :
  x ∈ batch_labels -> y ∈ batch_labels -> converted perm x = converted perm y -> x = y.
Proof.
  intros Hx Hy Heq.
  destruct (converter_total x Hx) as [_ Hlx].
  destruct (converter_total y Hy) as [_ Hly].
  rewrite Heq in Hlx.
  pose proof (NoDup_lookup _ _ _ _ random_labels_NoDup Hlx Hly) as Hxy.
  apply label_bounded in Hx, Hy. lia.
Qed.

Lemma return_random_labels_fmap :
  return_random_labels perm batch_labels = Ok (converted perm <$> batch_labels).
Proof.
  unfold return_random_labels. rewrite Hclasses.
  rewrite gather_seqZ by apply perm_bounded. cbn [bind].
  apply (relabel_loop_map _ (converted perm) batch_labels []).
  intros x Hx. by apply converter_total.
Qed.

Lemma converted_values (v : Z) :
  v ∈ (converted perm <$> batch_labels) <-> v ∈ batch_labels.
Proof.
  rewrite list_elem_of_fmap. split.
  - intros (x & -> & Hx). apply label_bounded, random_label_bounded.
    destruct (converter_total x Hx) as [_ Hl].
    by eapply list_elem_of_lookup_2.
  - intros Hv. apply label_bounded, random_label_bounded in Hv.
    apply list_elem_of_lookup in Hv as [i Hi].
    assert (Hlt : (i < m)%nat).
    { apply lookup_lt_Some in Hi. by rewrite length_fmap, perm_length in Hi. }
    assert (Hin : Z.of_nat i ∈ batch_labels) by (apply label_bounded; lia).
    exists (Z.of_nat i). split; [|done].
    unfold converted. by rewrite Nat2Z.id, Hi.
Qed.

End RandomLabels.

(** C2 (as amended). When the distinct labels of the episode are exactly
    [0 .. m-1] and [torch.randperm(m)] returns a permutation of
    [0 .. m-1], [return_random_labels] returns a sequence of the same
    length whose set of values is the set of input values, and in which
    two positions carry the same value exactly when they did in the
    input. *)
Theorem return_random_labels_bijection (perm : list nat) (batch_labels : list Z) :
  unique batch_labels = seqZ 0 (len (unique batch_labels)) ->
  perm ≡ₚ seq 0 (length (unique batch_labels)) ->
  relabels_bijectively perm batch_labels.
Proof.
  intros Hclasses Hperm.
  exists (converted perm <$> batch_labels).
  split; [by eapply return_random_labels_fmap|].
  split; [apply length_fmap|].
  split; [intros v; by eapply converted_values|].
  intros i j x y x' y' Hx Hy Hx' Hy'.
  rewrite list_lookup_fmap, Hx in Hx'. rewrite list_lookup_fmap, Hy in Hy'.
  simpl in Hx', Hy'. injection Hx' as <-. injection Hy' as <-.
  split; [|by intros ->].
  eapply converted_inj; eauto; by eapply list_elem_of_lookup_2.
Qed.

Lemma return_random_labels_bijection_witness :
  relabels_bijectively [2; 0; 1]%nat [0; 0; 1; 1; 2; 2] /\
  return_random_labels [2; 0; 1]%nat [0; 0; 1; 1; 2; 2] = Ok [2; 2; 0; 0; 1; 1].
Proof.
  split; [|reflexivity].
  apply return_random_labels_bijection; [reflexivity|].
  change (length (unique [0; 0; 1; 1; 2; 2])) with 3%nat. simpl.
  rewrite (Permutation_swap 0%nat 2%nat [1%nat]).
  apply perm_skip. apply Permutation_swap.
Defined.

(** C2, as stated, fails on labels that are not [0 .. m-1]: the converter
    is keyed by position, the label 5 is no key, and the call raises
    whichever permutation is drawn. *)
Lemma return_random_labels_raises_off_range :
  return_random_labels [0; 1]%nat [5; 5; 7; 7] = Raise KeyError /\
  return_random_labels [1; 0]%nat [5; 5; 7; 7] = Raise KeyError /\
  ~ relabels_bijectively [1; 0]%nat [5; 5; 7; 7].
Proof.
  split; [reflexivity|]. split; [reflexivity|].
  intros (out & Hrun & _). vm_compute in Hrun. discriminate.
Qed.

(** ** [return_indexes] and [split_batch] *)

Lemma where_eq_from_spec (t : list Z) (c : Z) (i : nat) :
  Forall (fun j => (i <= j)%nat /\ t !! (j - i)%nat = Some c) (where_eq_from i t c).
Proof.
  revert i. induction t as [|x t IH]; intros i; simpl; [constructor|].
  assert (Htail : Forall (fun j => (i <= j)%nat /\ (x :: t) !! (j - i)%nat = Some c)
                         (where_eq_from (S i) t c)).
  { eapply Forall_impl; [apply IH|]. intros j [Hle Hj]. split; [lia|].
    replace (j - i)%nat with (S (j - S i)) by lia. done. }
  destruct (Z.eqb_spec x c) as [->|_]; [|done].
  constructor; [|done]. split; [lia|]. by rewrite Nat.sub_diag.
Qed.

Lemma where_eq_spec (t : list Z) (c : Z) :
  Forall (fun j => t !! j = Some c) (where_eq t c).
Proof.
  eapply Forall_impl; [apply (where_eq_from_spec t c 0)|].
  intros j [_ Hj]. by rewrite Nat.sub_0_r in Hj.
Qed.

Lemma where_eq_from_length (t : list Z) (c : Z) (i : nat) :
  length (where_eq_from i t c) = count_class c t.
Proof.
  revert i. unfold count_class. induction t as [|x t IH]; intros i; simpl; [done|].
  rewrite filter_cons. destruct (Z.eqb_spec x c) as [->|Hne].
  - rewrite decide_True by done. simpl. by rewrite IH.
  - rewrite decide_False by done. apply IH.
Qed.

Lemma where_eq_length (t : list Z) (c : Z) :
  length (where_eq t c) = count_class c t.
Proof. apply where_eq_from_length. Qed.

(** Halving a list of even length. *)
Lemma evens_odds_length {A} (l : list A) :
  (length (evens l) + length (odds l) = length l)%nat /\
  (length (odds l) <= length (evens l) <= S (length (odds l)))%nat.
Proof.
  induction l as [|x l IH]; simpl; [lia|]. lia.
Qed.

Lemma evens_odds_app {A} (l1 l2 : list A) (h : nat) :
  length l1 = (2 * h)%nat ->
  evens (l1 ++ l2) = evens l1 ++ evens l2 /\
  odds (l1 ++ l2) = odds l1 ++ odds l2.
Proof.
  revert l1. induction h as [|h IH]; intros l1 Hl.
  - by destruct l1.
  - destruct l1 as [|x [|y l1]]; simpl in Hl; try lia.
    destruct (IH l1 ltac:(lia)) as [He Ho]. simpl. by rewrite He, Ho.
Qed.

Lemma evens_odds_half {A} (l : list A) (h : nat) :
  length l = (2 * h)%nat -> length (evens l) = h /\ length (odds l) = h.
Proof.
  revert l. induction h as [|h IH]; intros l Hl.
  - by destruct l.
  - destruct l as [|x [|y l]]; simpl in Hl; try lia.
    destruct (IH l ltac:(lia)) as [He Ho]. simpl. lia.
Qed.

Lemma evens_odds_Forall {A} (P : A -> Prop) (l : list A) :
  Forall P l -> Forall P (evens l) /\ Forall P (odds l).
Proof.
  induction 1 as [|x l Hx _ [He Ho]]; simpl; [split; constructor|].
  split; [by constructor | done].
Qed.

Lemma evens_odds_concat {A} (runs : list (list A)) (h : nat) :
  Forall (fun r => length r = (2 * h)%nat) runs ->
  evens (concat runs) = concat (evens <$> runs) /\
  odds (concat runs) = concat (odds <$> runs).
Proof.
  induction 1 as [|r runs Hr _ [He Ho]]; [done|]. simpl.
  destruct (evens_odds_app r (concat runs) h Hr) as [-> ->].
  by rewrite He, Ho.
Qed.

(** Indexing. *)
Lemma gather_app {A} (t : list A) (idx1 idx2 : list nat) (r1 r2 : list A) :
  gather t idx1 = Ok r1 -> gather t idx2 = Ok r2 ->
  gather t (idx1 ++ idx2) = Ok (r1 ++ r2).
Proof.
  revert r1. induction idx1 as [|i idx1 IH]; intros r1 H1 H2; simpl in *.
  - by injection H1 as <-.
  - destruct (t !! i) as [x|]; [|done].
    apply bind_Ok in H1 as (xs & Hxs & Hr). injection Hr as <-.
    by rewrite (IH xs Hxs H2).
Qed.

Lemma gather_constant (t : list Z) (c : Z) (idx : list nat) :
  Forall (fun j => t !! j = Some c) idx ->
  gather t idx = Ok (replicate (length idx) c).
Proof.
  induction 1 as [|i idx Hi _ IH]; [done|]. simpl. by rewrite Hi, IH.
Qed.

Lemma gather_total {A} (t : list A) (idx : list nat) :
  Forall (fun j => (j < length t)%nat) idx ->
  exists r, gather t idx = Ok r /\ length r = length idx.
Proof.
  induction 1 as [|i idx Hi _ (r & Hr & Hlen)]; [by exists []|]. simpl.
  destruct (lookup_lt_is_Some_2 t i Hi) as [x Hx]. rewrite Hx, Hr.
  exists (x :: r). simpl. by rewrite Hlen.
Qed.

Lemma gather_runs (t : list Z) (classes : list Z) (sub : Z -> list nat) :
  (forall c, Forall (fun j => t !! j = Some c) (sub c)) ->
  gather t (concat (sub <$> classes))
  = Ok (concat ((fun c => replicate (length (sub c)) c) <$> classes)).
Proof.
  intros Hsub. induction classes as [|c classes IH]; [done|]. simpl.
  apply gather_app; [by apply gather_constant | done].
Qed.

Lemma count_class_replicate (c c' : Z) (n : nat) :
  count_class c (replicate n c') = if decide (c' = c) then n else 0%nat.
Proof.
  unfold count_class. induction n as [|n IH]; simpl; [by case_decide|].
  rewrite filter_cons. destruct (decide (c' = c)); simpl; lia.
Qed.

Lemma count_class_app (c : Z) (t1 t2 : list Z) :
  count_class c (t1 ++ t2) = (count_class c t1 + count_class c t2)%nat.
Proof. unfold count_class. by rewrite filter_app, length_app. Qed.

Lemma count_class_runs (c : Z) (classes : list Z) (n : Z -> nat) :
  NoDup classes ->
  count_class c (concat ((fun c' => replicate (n c') c') <$> classes))
  = if decide (c ∈ classes) then n c else 0%nat.
Proof.
  induction 1 as [|c' classes Hnot _ IH]; cbn [fmap list_fmap concat].
  - destruct (decide (c ∈ [])) as [Hin|_]; [by apply elem_of_nil in Hin | done].
  - rewrite count_class_app, count_class_replicate, IH. clear IH.
    destruct (decide (c' = c)) as [->|Hne].
    + destruct (decide (c ∈ classes)); [done|].
      destruct (decide (c ∈ c :: classes)) as [_|Hout]; [lia|].
      exfalso. apply Hout. left.
    + destruct (decide (c ∈ classes)) as [Hin|Hout].
      * destruct (decide (c ∈ c' :: classes)) as [_|Hout]; [done|].
        exfalso. apply Hout. by right.
      * destruct (decide (c ∈ c' :: classes)) as [Hin|_]; [|done].
        apply elem_of_cons in Hin as [->|Hin]; done.
Qed.

Lemma length_concat_constant {A} (runs : list (list A)) (h : nat) :
  Forall (fun r => length r = h) runs ->
  length (concat runs) = (length runs * h)%nat.
Proof.
  induction 1 as [|r runs Hr _ IH]; [done|]. simpl.
  rewrite length_app, Hr, IH. lia.
Qed.

Lemma chunk2_halves {A} (l1 l2 : list A) :
  length l1 = length l2 -> (1 <= length l1)%nat ->
  chunk2 (l1 ++ l2) = Ok (l1, l2).
Proof.
  intros Heq Hpos. unfold chunk2. rewrite length_app.
  destruct (length l1 + length l2)%nat as [|[|n]] eqn:E; [lia | lia |].
  assert (Nat.div2 (S (S (S n))) = length l1) as ->.
  { rewrite <- E, <- Heq. replace (S (length l1 + length l1)) with (S (2 * length l1)) by lia.
    apply Nat.div2_succ_double. }
  by rewrite take_app_length, drop_app_length.
Qed.

Section EvenClasses.
Context {Input : Type}.
Variables (_inputs : list Input) (labels classes : list Z) (k : nat).
Hypothesis Hinputs : length _inputs = length labels.
Hypothesis Hnodup : NoDup classes.
Hypothesis Hclasses : classes <> [].
Hypothesis Hk : (1 <= k)%nat.
Hypothesis Hcount : forall c, c ∈ classes -> count_class c labels = (2 * k)%nat.

Lemma runs_even : Forall (fun r => length r = (2 * k)%nat) (where_eq labels <$> classes).
Proof.
  apply Forall_fmap, Forall_forall. intros c Hc. simpl.
  rewrite where_eq_length. by apply Hcount.
Qed.

Lemma half_runs_length (half : list nat -> list nat) :
  (forall l, length l = (2 * k)%nat -> length (half l) = k) ->
  length (concat (half <$> (where_eq labels <$> classes))) = (length classes * k)%nat.
Proof.
  intros Hhalf. rewrite (length_concat_constant _ k).
  - by rewrite !length_fmap.
  - apply Forall_fmap. eapply Forall_impl; [apply runs_even|]. simpl. auto.
Qed.

Lemma half_runs_labels (half : list nat -> list nat) :
  (forall l, length l = (2 * k)%nat -> length (half l) = k) ->
  (forall P l, Forall P l -> Forall P (half l)) ->
  gather labels (concat (half <$> (where_eq labels <$> classes)))
  = Ok (concat ((fun c => replicate k c) <$> classes)).
Proof.
  intros Hhalf Hsub. rewrite <- list_fmap_compose.
  rewrite (gather_runs labels classes (half ∘ where_eq labels)).
  2:{ intros c. apply Hsub, where_eq_spec. }
  do 2 f_equal. apply list_fmap_ext. intros i c Hc. simpl. f_equal.
  apply Hhalf. rewrite where_eq_length. apply Hcount.
  by eapply list_elem_of_lookup_2.
Qed.

Lemma half_runs_inputs (half : list nat -> list nat) :
  (forall l, length l = (2 * k)%nat -> length (half l) = k) ->
  (forall P l, Forall P l -> Forall P (half l)) ->
  exists r, gather _inputs (concat (half <$> (where_eq labels <$> classes))) = Ok r /\
            length r = (length classes * k)%nat.
Proof.
  intros Hhalf Hsub.
  destruct (gather_total _inputs (concat (half <$> (where_eq labels <$> classes))))
    as (r & Hr & Hlen).
  - apply Forall_concat, Forall_fmap, Forall_fmap, Forall_forall.
    intros c _. simpl. apply Hsub.
    eapply Forall_impl; [apply where_eq_spec|]. simpl. intros j Hj.
    rewrite Hinputs. by eapply lookup_lt_Some.
  - exists r. split; [done|]. rewrite Hlen. by apply half_runs_length.
Qed.

(** With every class of the batch present [2k] times, the support half
    and the query half both list each class [k] times, in class order. *)
Lemma iteration_split_even :
  exists support_input query_input,
    iteration_split _inputs labels classes
    = Ok (support_input, concat ((fun c => replicate k c) <$> classes),
          query_input, concat ((fun c => replicate k c) <$> classes)) /\
    length support_input = (length classes * k)%nat /\
    length query_input = (length classes * k)%nat.
Proof.
  assert (Hev : forall l : list nat, length l = (2 * k)%nat -> length (evens l) = k)
    by (intros l Hl; by apply evens_odds_half).
  assert (Hod : forall l : list nat, length l = (2 * k)%nat -> length (odds l) = k)
    by (intros l Hl; by apply evens_odds_half).
  assert (Hevs : forall (P : nat -> Prop) l, Forall P l -> Forall P (evens l))
    by (intros P l Hl; by apply evens_odds_Forall).
  assert (Hods : forall (P : nat -> Prop) l, Forall P l -> Forall P (odds l))
    by (intros P l Hl; by apply evens_odds_Forall).
  destruct (half_runs_inputs evens Hev Hevs) as (si & Hsi & Hsilen).
  destruct (half_runs_inputs odds Hod Hods) as (qi & Hqi & Hqilen).
  pose proof (half_runs_labels evens Hev Hevs) as Hsl.
  pose proof (half_runs_labels odds Hod Hods) as Hql.
  pose proof (half_runs_length evens Hev) as Helen.
  exists si, qi. split; [|done].
  assert (Hm : (1 <= length classes)%nat) by (destruct classes; [done | simpl; lia]).
  unfold iteration_split, return_indexes, torch_cat.
  destruct (map (where_eq labels) classes) as [|r0 runs] eqn:Eruns.
  { destruct classes; [done | discriminate]. }
  rewrite <- Eruns. change (map (where_eq labels) classes) with (where_eq labels <$> classes).
  cbn [bind].
  destruct (evens_odds_concat _ k runs_even) as [-> ->].
  unfold gather_list.
  destruct (concat (evens <$> (where_eq labels <$> classes)) ++
            concat (odds <$> (where_eq labels <$> classes))) as [|i0 idx] eqn:Eidx.
  { apply (f_equal length) in Eidx. rewrite length_app, Helen in Eidx.
    simpl in Eidx. nia. }
  rewrite <- Eidx.
  rewrite (gather_app _ _ _ _ _ Hsi Hqi). cbn [bind].
  rewrite (gather_app _ _ _ _ _ Hsl Hql). cbn [bind].
  unfold split_batch.
  rewrite chunk2_halves by (rewrite ?Hsilen, ?Hqilen; nia). cbn [bind].
  rewrite chunk2_halves; [done | done |].
  rewrite (length_concat_constant _ k).
  - rewrite length_fmap. nia.
  - apply Forall_fmap, Forall_forall. intros c _. simpl. apply length_replicate.
Qed.

End EvenClasses.

(** C6. Let [classes] be a non-empty list of distinct classes (all the
    classes of the episode, or one class batch), each present [2k] times
    in the episode, [k >= 1]. The sequence reordered by [return_indexes]
    and cut at the midpoint by [split_batch] gives a support set and a
    query set of the same size, each holding exactly [k] examples, that
    is half, of every class. *)
Theorem split_batch_halves_every_class {Input : Type}
    (_inputs : list Input) (labels classes : list Z) (k : nat) :
  length _inputs = length labels ->
  NoDup classes -> classes <> [] -> (1 <= k)%nat ->
  (forall c, c ∈ classes -> count_class c labels = (2 * k)%nat) ->
  exists idx selected_inputs selected_labels
         support_input support_labels query_input query_labels,
    return_indexes labels classes = Ok idx /\
    gather_list _inputs idx = Ok selected_inputs /\
    gather_list labels idx = Ok selected_labels /\
    split_batch selected_inputs selected_labels
    = Ok (support_input, support_labels, query_input, query_labels) /\
    length support_input = length support_labels /\
    length query_input = length query_labels /\
    length support_labels = length query_labels /\
    (forall c, c ∈ classes ->
       count_class c support_labels = k /\ count_class c query_labels = k).
Proof.
  intros Hinputs Hnodup Hne Hk Hcount.
  destruct (iteration_split_even _inputs labels classes k Hinputs Hnodup Hne Hk Hcount)
    as (si & qi & Hrun & Hsi & Hqi).
  unfold iteration_split in Hrun.
  apply bind_Ok in Hrun as (idx & Hidx & Hrun).
  apply bind_Ok in Hrun as (sel_in & Hsel_in & Hrun).
  apply bind_Ok in Hrun as (sel_lb & Hsel_lb & Hrun).
  exists idx, sel_in, sel_lb, si, (concat ((fun c => replicate k c) <$> classes)),
    qi, (concat ((fun c => replicate k c) <$> classes)).
  assert (Hlen : length (concat ((fun c => replicate k c) <$> classes))
                 = (length classes * k)%nat).
  { rewrite (length_concat_constant _ k); [by rewrite length_fmap|].
    apply Forall_fmap, Forall_forall. intros c _. simpl. apply length_replicate. }
  repeat (split; [first [done | congruence]|]).
  intros c Hc. rewrite (count_class_runs c classes (fun _ => k)) by done.
  by rewrite decide_True by done.
Qed.

Lemma split_batch_halves_every_class_witness :
  exists support_labels query_labels,
    (do idx <- return_indexes [2; 0; 1; 0; 2; 1; 1; 0; 2; 0; 1; 2] [0; 1; 2];
     do sel <- gather_list [2; 0; 1; 0; 2; 1; 1; 0; 2; 0; 1; 2] idx;
     split_batch sel sel)
    = Ok (support_labels, support_labels, query_labels, query_labels) /\
    (forall c, c ∈ [0; 1; 2] ->
       count_class c support_labels = 2%nat /\ count_class c query_labels = 2%nat).
Proof.
  destruct (split_batch_halves_every_class
              [2; 0; 1; 0; 2; 1; 1; 0; 2; 0; 1; 2]
              [2; 0; 1; 0; 2; 1; 1; 0; 2; 0; 1; 2] [0; 1; 2] 2)
    as (idx & si & sl & a & b & c & d & Hidx & Hsi & Hsl & Hsplit & _ & _ & _ & Hcount).
  - reflexivity.
  - repeat constructor; rewrite ?elem_of_cons, ?elem_of_nil; lia.
  - discriminate.
  - lia.
  - intros c Hc. rewrite !elem_of_cons, elem_of_nil in Hc.
    destruct Hc as [->|[->|[->|[]]]]; reflexivity.
  - exists b, d. rewrite Hidx. cbn [bind]. rewrite Hsl. cbn [bind].
    split; [|exact Hcount].
    rewrite Hsi in Hsl. injection Hsl as ->.
    rewrite Hsplit. vm_compute in Hidx. injection Hidx as <-.
    vm_compute in Hsi. injection Hsi as <-.
    vm_compute in Hsplit. by injection Hsplit as <- <- <- <-.
Defined.

(** ** The base class and the names of the module *)

(** The sibling that works: [FSCL.__init__] names [MAML], which the
    module imports. *)
Lemma FSCL_init_names_resolve : FSCL_init_names = Ok tt.
Proof. by vm_compute. Qed.

(** C10. Whatever the arguments, constructing a [VanillaMAML] raises
    [NameError] for [l2l]: the module binds [MAML] but neither imports nor
    defines [l2l]. No [VanillaMAML] object exists, so its [meta_learn]
    cannot be called. *)
Theorem VanillaMAML_new_raises_NameError {Input Tensor : Type}
    (model : gmap string Tensor) (train_update_steps : Z)
    (augmentation : option (list Input -> list Input)) :
  ("MAML" ∈ module_globals) /\
  ("l2l" ∉ module_globals) /\
  VanillaMAML_new model train_update_steps augmentation = Raise (NameError "l2l") /\
  ~ exists self : @VanillaMAML Input Tensor,
      VanillaMAML_new model train_update_steps augmentation = Ok self.
Proof.
  assert (Hrun : VanillaMAML_new model train_update_steps augmentation
                 = Raise (NameError "l2l")).
  { unfold VanillaMAML_new.
    replace (lookup_names VanillaMAML_init_locals
               ["super"; "train_update_steps"; "test_update_steps"; "loss_func";
                "optim_config"; "k_shot"]) with (Ok tt) by (by vm_compute).
    cbn [bind].
    replace (lookup_names VanillaMAML_init_locals
               ["l2l"; "model"; "optim_config"; "first_order"; "self"])
      with (@Raise unit (NameError "l2l")) by (by vm_compute).
    done. }
  split; [by vm_compute|]. split; [by vm_compute|]. split; [done|].
  intros [self Hself]. congruence.
Qed.

(** C8 at the failing input. [GradientLearningBase.meta_learn] is declared
    without a [batch] parameter, so the call [self.meta_learn(batch)] of
    [training_step] and [validation_step] fails while binding the
    argument, with [TypeError]; the [NotImplementedError] of the body is
    only reached by a call without argument. *)
Theorem base_meta_learn_with_batch_raises_TypeError {Batch M : Type}
    (batch : Batch) (batch_idx : Z) :
  @training_step Batch M GradientLearningBase_meta_learn batch batch_idx
  = Raise TypeError /\
  @validation_step Batch M GradientLearningBase_meta_learn batch batch_idx
  = Raise TypeError /\
  @GradientLearningBase_meta_learn Batch (gmap string M) [batch]
  = Raise TypeError /\
  @GradientLearningBase_meta_learn Batch (gmap string M) []
  = Raise (NotImplementedError "User must impliment this method").
Proof. repeat split. Qed.

(** ** Programs over a store *)

Lemma pbind_Ok {S A B} (m : prog S A) (k : A -> prog S B) (s : S) (a : A) :
  outcome (m s) = Ok a ->
  trace (pbind m k s) = trace (m s) ++ trace (k a (final (m s))) /\
  final (pbind m k s) = final (k a (final (m s))) /\
  outcome (pbind m k s) = outcome (k a (final (m s))).
Proof. intros H. unfold pbind. by rewrite H. Qed.

Lemma pbind_Raise {S A B} (m : prog S A) (k : A -> prog S B) (s : S) (e : exn) :
  outcome (m s) = Raise e ->
  trace (pbind m k s) = trace (m s) /\
  final (pbind m k s) = final (m s) /\
  outcome (pbind m k s) = Raise e.
Proof. intros H. unfold pbind. by rewrite H. Qed.

Lemma repeat_prog_trace {S} (P : S -> S -> Prop) (body : prog S unit) :
  (forall s, P s s) ->
  (forall s1 s2 s3, P s1 s2 -> P s2 s3 -> P s1 s3) ->
  (forall s, outcome (body s) = Ok tt /\ P s (final (body s)) /\
             Forall (P s) (trace (body s))) ->
  forall n s,
    outcome (repeat_prog n body s) = Ok tt /\
    P s (final (repeat_prog n body s)) /\
    Forall (P s) (trace (repeat_prog n body s)).
Proof.
  intros Hrefl Htrans Hbody. induction n as [|n IH]; intros s.
  - simpl. repeat split; [apply Hrefl | constructor].
  - simpl. unfold pbind. destruct (Hbody s) as (Hout & Hfin & Htr).
    rewrite Hout. simpl.
    destruct (IH (final (body s))) as (Hout' & Hfin' & Htr').
    split; [done|]. split; [by eapply Htrans|].
    apply Forall_app. split; [done|].
    eapply Forall_impl; [exact Htr'|]. intros s'. simpl. by apply Htrans.
Qed.

(** ** Reptile *)

Section ReptileProperties.
Context {Input Tensor Scalar Logits Loss Acc OptState : Type}.
Variable tadd tsub : Tensor -> Tensor -> Tensor.
Variable tscale : Tensor -> Scalar -> Tensor.
Variable int_truediv : Z -> Z -> Scalar.
Variable one_minus : Scalar -> Scalar.
Variable smul : Scalar -> Scalar -> Scalar.
Variable forward : gmap string Tensor -> list Input -> Logits.
Variable loss_func : Logits -> list Z -> Loss.
Variable accuracy : Logits -> list Z -> Acc.
Variable gradients : gmap string Tensor -> list Input -> list Z
                     -> gmap string Tensor.
Variable adam_step : OptState -> gmap string Tensor -> gmap string Tensor
                     -> gmap string Tensor * OptState.
(** The optimizer updates the tensors it was given, under their names. *)
Hypothesis adam_names : forall o p g, dom (adam_step o p g).1 = dom p.

Local Notation "'inner_step'" :=
  (@reptile_inner_step Input Tensor Scalar OptState gradients adam_step).
Local Notation "'meta_learn'" :=
  (@Reptile_meta_learn Input Tensor Scalar Logits Loss Acc OptState
     tadd tsub tscale int_truediv one_minus smul forward loss_func accuracy
     gradients adam_step).

Lemma inner_step_run (x : list Input) (y : list Z) (s : Reptile) :
  outcome (inner_step x y s) = Ok tt /\
  same_settings s (final (inner_step x y s)) /\
  Forall (same_settings s) (trace (inner_step x y s)).
Proof.
  unfold reptile_inner_step, pbind, read, write, opt_step. simpl.
  match goal with |- context [adam_step ?o ?p ?g] =>
    pose proof (adam_names o p g) as Hd; destruct (adam_step o p g) as [p' o'] end.
  simpl in Hd. unfold same_settings. simpl.
  repeat split; try done. repeat constructor; done.
Qed.

Lemma inner_loop_run (n : nat) (x : list Input) (y : list Z) (s : Reptile) :
  outcome (repeat_prog n (inner_step x y) s) = Ok tt /\
  same_settings s (final (repeat_prog n (inner_step x y) s)) /\
  Forall (same_settings s) (trace (repeat_prog n (inner_step x y) s)).
Proof.
  apply (repeat_prog_trace same_settings).
  - intros s0. by repeat split.
  - intros s1 s2 s3 (?&?&?&?&?&?) (?&?&?&?&?&?). repeat split; congruence.
  - intros s0. apply inner_step_run.
Qed.

Lemma interpolate_lookup (old new d : gmap string Tensor) (lr : Scalar) :
  interpolate tadd tsub tscale old new lr = Ok d ->
  dom d = dom old /\
  forall name w0 w1, old !! name = Some w0 -> new !! name = Some w1 ->
    d !! name = Some (tadd w0 (tscale (tsub w1 w0) lr)).
Proof.
  unfold interpolate. case_decide as Hsub; [|done]. intros [= <-].
  split.
  - apply set_eq. intros name. rewrite !elem_of_dom, map_lookup_imap.
    destruct (old !! name) as [w0|] eqn:Hold; simpl; [|by split; intros [? ?]].
    assert (is_Some (new !! name)) as [w1 Hw1].
    { apply elem_of_dom, Hsub, elem_of_dom. eauto. }
    rewrite Hw1. split; eauto.
  - intros name w0 w1 Hold Hnew. rewrite map_lookup_imap, Hold. simpl.
    by rewrite Hnew.
Qed.

Lemma interpolate_total (old new : gmap string Tensor) (lr : Scalar) :
  dom new = dom old -> exists d, interpolate tadd tsub tscale old new lr = Ok d.
Proof.
  intros Hdom. unfold interpolate. rewrite decide_True; [eauto|].
  by rewrite Hdom.
Qed.

Local Notation "'outer_update'" :=
  (@reptile_outer_update Input Tensor Scalar OptState
     tadd tsub tscale int_truediv one_minus smul).

(** The outer update, when it completes. *)
Lemma outer_update_inv (old : gmap string Tensor) (s : Reptile) :
  outcome (outer_update old s) = Ok tt ->
  if rp_training s then
    exists lr d,
      current_lr_of int_truediv one_minus smul s = Ok lr /\
      interpolate tadd tsub tscale old (rp_params s) lr = Ok d /\
      final (outer_update old s) = incr_outer_steps (set_params d s)
  else final (outer_update old s) = set_params old s.
Proof.
  unfold reptile_outer_update, load_state_dict.
  cbv beta delta [pbind read lift write throw].
  cbn [outcome final trace].
  destruct (rp_training s); cbn [outcome final trace].
  - destruct (current_lr_of int_truediv one_minus smul s) as [lr|e];
      cbn [outcome final trace]; [|done].
    destruct (interpolate tadd tsub tscale old (rp_params s) lr) as [d|e] eqn:Hd;
      cbn [outcome final trace]; [|done].
    case_decide; cbn [outcome final trace]; [|done].
    intros _. by exists lr, d.
  - case_decide; cbn [outcome final trace]; done.
Qed.

(** The outer update completes when the names agree and, in training
    mode, the schedule has a non-zero horizon. *)
Lemma outer_update_total (old : gmap string Tensor) (s : Reptile) :
  dom (rp_params s) = dom old ->
  (rp_training s = true -> rp_max_steps s <> 0) ->
  outcome (outer_update old s) = Ok tt.
Proof.
  intros Hdom Hmax.
  unfold reptile_outer_update, load_state_dict.
  cbv beta delta [pbind read lift write throw].
  cbn [outcome final trace].
  destruct (rp_training s); cbn [outcome final trace].
  - unfold current_lr_of. destruct (Z.eqb_spec (rp_max_steps s) 0) as [|_];
      [by destruct Hmax|]. cbn [outcome final trace].
    destruct (interpolate_total old (rp_params s)
                (smul (rp_initial_lr s)
                   (one_minus (int_truediv (rp_outer_steps s) (rp_max_steps s))))
                Hdom) as [d Hd].
    rewrite Hd. cbn [outcome final trace].
    apply interpolate_lookup in Hd as [Hdd _].
    rewrite decide_True by congruence. done.
  - by rewrite decide_True by done.
Qed.

Lemma meta_learn_phases (_inputs : list Input) (labels : list Z) (self : Reptile)
    (si : list Input) (sl : list Z) (qi : list Input) (ql : list Z) :
  split_batch _inputs labels = Ok (si, sl, qi, ql) ->
  let s1 := after_inner_loop gradients adam_step si sl self in
  let r := meta_learn (_inputs, labels) self in
  match calculate_accuracy_w accuracy (forward (rp_params s1) qi) ql with
  | Raise e => outcome r = Raise e /\ final r = s1
  | Ok acc =>
      final r = final (outer_update (rp_params self) s1) /\
      trace r = trace (repeat_prog (Z.to_nat (rp_train_update_steps self))
                         (inner_step si sl) self)
                ++ trace (outer_update (rp_params self) s1) /\
      match outcome (outer_update (rp_params self) s1) with
      | Ok _ => exists log, outcome r = Ok log
      | Raise e => outcome r = Raise e
      end
  end.
Proof.
  intros Hsplit s1 r. subst s1 r. unfold after_inner_loop.
  destruct (inner_loop_run (Z.to_nat (rp_train_update_steps self)) si sl self)
    as (Hloop & _ & _).
  unfold Reptile_meta_learn. cbv beta delta [pbind lift read ret]. rewrite Hsplit.
  cbn [outcome final trace]. rewrite Hloop. cbn [outcome final trace].
  destruct (calculate_accuracy_w accuracy _ ql) as [acc|e];
    cbn [outcome final trace]; [|done].
  destruct (outcome (outer_update (rp_params self) _)) as [[]|e];
    cbn [outcome final trace]; rewrite ?app_nil_r; eauto.
Qed.

(** The stored parameters when the call returns, and when it does. *)
Lemma Reptile_meta_learn_returns (_inputs : list Input) (labels : list Z)
    (self : Reptile) (si : list Input) (sl : list Z) (qi : list Input)
    (ql : list Z) :
  split_batch _inputs labels = Ok (si, sl, qi, ql) ->
  let W0 := rp_params self in
  let W1 := rp_params (after_inner_loop gradients adam_step si sl self) in
  let L := smul (rp_initial_lr self)
             (one_minus (int_truediv (rp_outer_steps self) (rp_max_steps self))) in
  let r := meta_learn (_inputs, labels) self in
  (forall log, outcome r = Ok log ->
     if rp_training self then
       dom (rp_params (final r)) = dom W0 /\
       dom W1 = dom W0 /\
       (forall name w0 w1, W0 !! name = Some w0 -> W1 !! name = Some w1 ->
          rp_params (final r) !! name = Some (tadd w0 (tscale (tsub w1 w0) L))) /\
       rp_outer_steps (final r) = rp_outer_steps self + 1
     else rp_params (final r) = W0) /\
  (ql <> [] -> (rp_training self = true -> rp_max_steps self <> 0) ->
   exists log, outcome r = Ok log).
Proof.
  intros Hsplit W0 W1 L r. subst W0 W1 L r.
  pose proof (meta_learn_phases _inputs labels self si sl qi ql Hsplit) as Hph.
  cbv zeta in Hph.
  destruct (inner_loop_run (Z.to_nat (rp_train_update_steps self)) si sl self)
    as (_ & (Hdom & Hsteps & Htr & _ & Hlr & Hmax) & _).
  fold (after_inner_loop gradients adam_step si sl self) in Hdom, Hsteps, Htr, Hlr, Hmax.
  set (s1 := after_inner_loop gradients adam_step si sl self) in *.
  split.
  - intros log Hlog.
    destruct (calculate_accuracy_w accuracy (forward (rp_params s1) qi) ql)
      as [acc|e]; [|destruct Hph; congruence].
    destruct Hph as (Hfin & _ & Hout).
    destruct (outcome (outer_update (rp_params self) s1)) as [[]|e] eqn:Hupd;
      [|congruence].
    apply outer_update_inv in Hupd. rewrite Htr in Hupd.
    destruct (rp_training self).
    + destruct Hupd as (lr & d & Hlr' & Hd & Hfin').
      rewrite Hfin, Hfin'. simpl.
      unfold current_lr_of in Hlr'. rewrite Hmax, Hsteps, Hlr in Hlr'.
      destruct (rp_max_steps self =? 0); [done|]. injection Hlr' as <-.
      apply interpolate_lookup in Hd as [Hdd Hlook].
      repeat split; auto. by rewrite Hsteps.
    + by rewrite Hfin, Hupd.
  - intros Hql Hmax0.
    assert (Hacc : exists acc,
               calculate_accuracy_w accuracy (forward (rp_params s1) qi) ql = Ok acc).
    { unfold calculate_accuracy_w. destruct ql; [done | eauto]. }
    destruct Hacc as [acc Hacc]. rewrite Hacc in Hph.
    destruct Hph as (_ & _ & Hout).
    rewrite (outer_update_total (rp_params self) s1) in Hout; [done | done |].
    rewrite Htr, Hmax. done.
Qed.

(** C4. Let [W0] be the parameters at entry, [W1] the parameters after
    the inner loop on the support half and [L] the learning rate of the
    linear schedule. Whenever [Reptile.meta_learn] returns, the stored
    parameters are, name by name, [W0 + (W1 - W0) * L] in training mode
    (and the step counter has advanced by one), and [W0] itself in
    evaluation mode. The call does return when the query half is not
    empty and, in training mode, the trainer's [max_steps] is not zero. *)
Theorem Reptile_meta_learn_interpolates (_inputs : list Input) (labels : list Z)
    (self : Reptile) (si : list Input) (sl : list Z) (qi : list Input)
    (ql : list Z) :
  split_batch _inputs labels = Ok (si, sl, qi, ql) ->
  let W0 := rp_params self in
  let W1 := rp_params (after_inner_loop gradients adam_step si sl self) in
  let L := smul (rp_initial_lr self)
             (one_minus (int_truediv (rp_outer_steps self) (rp_max_steps self))) in
  let r := meta_learn (_inputs, labels) self in
  (forall log, outcome r = Ok log ->
     if rp_training self then
       dom (rp_params (final r)) = dom W0 /\
       dom W1 = dom W0 /\
       (forall name w0 w1, W0 !! name = Some w0 -> W1 !! name = Some w1 ->
          rp_params (final r) !! name = Some (tadd w0 (tscale (tsub w1 w0) L))) /\
       rp_outer_steps (final r) = rp_outer_steps self + 1
     else rp_params (final r) = W0) /\
  (ql <> [] -> (rp_training self = true -> rp_max_steps self <> 0) ->
   exists log, outcome r = Ok log).
Proof. apply Reptile_meta_learn_returns. Qed.

(** An evaluation call that returns has restored the parameters. *)
Lemma reptile_eval_restores (batch : list Input * list Z) (self : Reptile)
    (log : gmap string WMetric) :
  rp_training self = false ->
  outcome (meta_learn batch self) = Ok log ->
  rp_params (final (meta_learn batch self)) = rp_params self.
Proof.
  intros Heval Hlog. destruct batch as [_inputs labels].
  destruct (split_batch _inputs labels) as [[[[si sl] qi] ql]|e] eqn:Hsplit.
  - destruct (Reptile_meta_learn_returns _inputs labels self si sl qi ql Hsplit)
      as [Hinv _].
    specialize (Hinv log Hlog). by rewrite Heval in Hinv.
  - unfold Reptile_meta_learn in Hlog. cbv beta delta [pbind lift] in Hlog.
    rewrite Hsplit in Hlog.
    discriminate.
Qed.

End ReptileProperties.

Lemma toy_adam_names (o : unit) (p g : gmap string Z) :
  dom (ToyReptile.adam_step o p g).1 = dom p.
Proof.
  unfold ToyReptile.adam_step. simpl. apply set_eq. intros name.
  rewrite !elem_of_dom, map_lookup_imap.
  destruct (p !! name); simpl; split; intros [? ?]; eauto; done.
Qed.

Lemma Reptile_meta_learn_interpolates_witness :
  rp_params (final (ToyReptile.meta_learn ToyReptile.batch (ToyReptile.reptile true)))
    !! "w" = Some (10 + (12 - 10) * (3 * (1 - 0 / 4))) /\
  rp_params (final (ToyReptile.meta_learn ToyReptile.batch (ToyReptile.reptile false)))
  = {["w" := 10]}.
Proof.
  split.
  - destruct (Reptile_meta_learn_interpolates Z.add Z.sub Z.mul Z.div
                ToyReptile.one_minus Z.mul ToyReptile.forward ToyReptile.loss_func
                ToyReptile.accuracy ToyReptile.gradients ToyReptile.adam_step
                toy_adam_names [7; 8; 9; 6] [0; 1; 0; 1] (ToyReptile.reptile true)
                [7; 8] [0; 1] [9; 6] [0; 1] eq_refl) as [Hinv Htot].
    destruct Htot as [log Hlog]; [discriminate | discriminate |].
    specialize (Hinv log Hlog). cbn [rp_training ToyReptile.reptile] in Hinv.
    destruct Hinv as (_ & _ & Hlookup & _).
    apply (Hlookup "w" 10 12); by vm_compute.
  - destruct (Reptile_meta_learn_interpolates Z.add Z.sub Z.mul Z.div
                ToyReptile.one_minus Z.mul ToyReptile.forward ToyReptile.loss_func
                ToyReptile.accuracy ToyReptile.gradients ToyReptile.adam_step
                toy_adam_names [7; 8; 9; 6] [0; 1; 0; 1] (ToyReptile.reptile false)
                [7; 8] [0; 1] [9; 6] [0; 1] eq_refl) as [Hinv Htot].
    destruct Htot as [log Hlog]; [discriminate | discriminate |].
    exact (Hinv log Hlog).
Defined.

(** ** Who writes the persistent parameters *)

(** *** Programs that leave the object alone *)

Section KeepsThis.
Context {Self M : Type}.
Variable get_model : Self -> M.
Variable set_model : M -> Self -> Self.

Lemma keeps_ret {A} (a : A) : keeps_this (ret (S := Object Self M) a).
Proof. intros s. by split; [constructor|]. Qed.

Lemma keeps_throw {A} (e : exn) : keeps_this (throw (S := Object Self M) (A := A) e).
Proof. intros s. by split; [constructor|]. Qed.

Lemma keeps_lift {A} (r : result A) : keeps_this (lift (S := Object Self M) r).
Proof. intros s. by split; [constructor|]. Qed.

Lemma keeps_read {A} (f : Object Self M -> A) : keeps_this (read f).
Proof. intros s. by split; [constructor|]. Qed.

Lemma keeps_attr {A} (a : Self -> A) : keeps_this (attr (M := M) a).
Proof. apply keeps_read. Qed.

Lemma keeps_pbind {A B} (m : prog (Object Self M) A)
    (k : A -> prog (Object Self M) B) :
  keeps_this m -> (forall a, keeps_this (k a)) -> keeps_this (pbind m k).
Proof.
  intros Hm Hk s. destruct (Hm s) as [Htr Hfin]. unfold pbind.
  destruct (outcome (m s)) as [a|e]; cbn [trace final]; [|done].
  destruct (Hk a (final (m s))) as [Htr' Hfin']. split.
  - apply Forall_app. split; [done|].
    eapply Forall_impl; [exact Htr'|]. simpl. intros s' ->. done.
  - by rewrite Hfin'.
Qed.

Lemma keeps_deref (r : module_ref) : keeps_this (deref get_model r).
Proof.
  destruct r as [|l]; [apply keeps_read|]. unfold deref.
  apply keeps_pbind; [apply keeps_read|].
  intros [m|]; [apply keeps_ret | apply keeps_throw].
Qed.

(** A write to a clone is no write to the object. *)
Lemma keeps_update_clone (l : nat) (f : M -> M) :
  keeps_this (update get_model set_model (CloneRef l) f).
Proof. intros s. cbn. by split; [repeat constructor|]. Qed.

Lemma keeps_pbind_outcome {A B} (m : prog (Object Self M) A)
    (k : A -> prog (Object Self M) B) :
  keeps_this m ->
  (forall s a, outcome (m s) = Ok a -> keeps_this (k a)) ->
  keeps_this (pbind m k).
Proof.
  intros Hm Hk s. destruct (Hm s) as [Htr Hfin]. unfold pbind.
  destruct (outcome (m s)) as [a|e] eqn:Hout; cbn [trace final]; [|done].
  destruct (Hk s a Hout (final (m s))) as [Htr' Hfin']. split.
  - apply Forall_app. split; [done|].
    eapply Forall_impl; [exact Htr'|]. simpl. intros s' ->. done.
  - by rewrite Hfin'.
Qed.

Lemma keeps_clone (r : module_ref) : keeps_this (clone get_model r).
Proof.
  unfold clone. apply keeps_pbind; [apply keeps_deref|]. intros m.
  apply keeps_pbind; [apply keeps_read|]. intros l.
  apply keeps_pbind; [|intros _; apply keeps_ret].
  intros s. cbn. by split; [repeat constructor|].
Qed.

(** [clone()] answers with a reference to a clone. *)
Lemma deref_final (r : module_ref) (s : Object Self M) :
  final (deref get_model r s) = s.
Proof.
  destruct r as [|l]; [reflexivity|]. unfold deref.
  destruct (pbind_Ok (read (fun s0 : Object Self M => clones s0 !! l))
              (fun found => match found with
                            | Some m => ret m
                            | None => throw RuntimeError
                            end) s (clones s !! l) eq_refl) as (_ & -> & _).
  by destruct (clones s !! l).
Qed.

Lemma clone_outcome (r : module_ref) (s : Object Self M) (a : module_ref) :
  outcome (clone get_model r s) = Ok a -> a = CloneRef (length (clones s)).
Proof.
  unfold clone.
  destruct (outcome (deref get_model r s)) as [m|e] eqn:Hm.
  - match goal with |- outcome (pbind _ ?k s) = _ -> _ =>
      destruct (pbind_Ok (deref get_model r) k s m Hm) as (_ & _ & ->) end.
    rewrite deref_final. cbn. by intros [= <-].
  - match goal with |- outcome (pbind _ ?k s) = _ -> _ =>
      destruct (pbind_Raise (deref get_model r) k s e Hm) as (_ & _ & ->) end.
    done.
Qed.

(** [clone()] leaves the object alone and answers with a clone. *)
Lemma keeps_clone_then {B} (r : module_ref)
    (k : module_ref -> prog (Object Self M) B) :
  (forall l, keeps_this (k (CloneRef l))) ->
  keeps_this (pbind (clone get_model r) k).
Proof.
  intros Hk. apply keeps_pbind_outcome; [apply keeps_clone|].
  intros s a Ha. apply clone_outcome in Ha as ->. apply Hk.
Qed.

Lemma keeps_repeat (n : nat) (body : prog (Object Self M) unit) :
  keeps_this body -> keeps_this (repeat_prog n body).
Proof.
  intros Hb. induction n as [|n IH]; [apply keeps_ret|].
  cbn [repeat_prog]. apply keeps_pbind; [done|]. by intros _.
Qed.

Lemma keeps_for_each {St X} (body : St -> X -> prog (Object Self M) St)
    (xs : list X) :
  (forall st x, keeps_this (body st x)) ->
  forall st, keeps_this (for_each_prog body st xs).
Proof.
  intros Hb. induction xs as [|x xs IH]; intros st; [apply keeps_ret|].
  cbn [for_each_prog]. apply keeps_pbind; [apply Hb | apply IH].
Qed.

Lemma keeps_never_writes {A} (p : prog (Object Self M) A) (s : Object Self M) :
  keeps_this p -> never_writes this p s.
Proof.
  intros Hp s' Hs'. unfold observable in Hs'.
  apply elem_of_cons in Hs' as [->|Hs']; [done|].
  destruct (Hp s) as [Htr _]. rewrite Forall_forall in Htr. by apply Htr.
Qed.

(** A write through [SelfModel] is seen. *)
Lemma update_self_writes (f : M -> M) (s : Object Self M) :
  set_model (f (get_model (this s))) (this s) <> this s ->
  ~ never_writes this (update get_model set_model SelfModel f) s.
Proof.
  intros Hne Hnever. apply Hne.
  apply (Hnever (mkObject (set_model (f (get_model (this s))) (this s)) (clones s))).
  unfold observable. cbn. right. left.
Qed.

End KeepsThis.

(** One step of the proof that a program leaves the object alone: by
    the shape of the program. *)
Ltac keeps_step :=
  lazymatch goal with
  | |- keeps_this (pbind _ _) => apply keeps_pbind; [|intros ?]
  | |- keeps_this (ret _) => apply keeps_ret
  | |- keeps_this (lift _) => apply keeps_lift
  | |- keeps_this (attr _) => apply keeps_attr
  | |- keeps_this (read _) => apply keeps_read
  | |- keeps_this (throw _) => apply keeps_throw
  | |- keeps_this (deref _ _) => apply keeps_deref
  | |- keeps_this (update _ _ (CloneRef _) _) => apply keeps_update_clone
  | |- keeps_this (match ?x with _ => _ end) => destruct x
  end.

Section ClonedLearnersKeep.
Context {Input Features Logit Loss Acc Encoder Head : Type}.
Variable encode : bool -> Encoder -> list Input -> Features.
Variable apply_head : Head -> Features -> Logit.
Variable loss_func : list Logit -> list Z -> Loss.
Variable accuracy : list Logit -> list Z -> Acc.
Variable adapt_encoder : Loss -> Encoder -> Encoder.
Variable adapt_head : Loss -> nat -> Head -> Head.

Lemma keeps_adapt_steps_on {Self} (get_model : Self -> @Model Encoder Head)
    (set_model : @Model Encoder Head -> Self -> Self) (steps : nat)
    (forward : @Model Encoder Head -> result (list Logit))
    (support_labels : list Z) (l : nat) (output : option (@Output Logit)) :
  keeps_this (adapt_steps_on loss_func adapt_encoder adapt_head get_model set_model
                steps forward support_labels (CloneRef l) output).
Proof.
  revert output. induction steps as [|n IH]; intros output; cbn [adapt_steps_on].
  - apply keeps_ret.
  - repeat keeps_step. apply IH.
Qed.

Lemma keeps_FSCL_first_batch_on (_inputs : list Input) (labels : list Z)
    (l : nat) (class_batches : list (list Z)) :
  keeps_this (FSCL_first_batch_on encode apply_head loss_func accuracy
                adapt_encoder adapt_head _inputs labels (CloneRef l) class_batches).
Proof.
  unfold FSCL_first_batch_on. repeat keeps_step. apply keeps_adapt_steps_on.
Qed.

Lemma keeps_FSCL_next_batch_on (_inputs : list Input) (labels : list Z) (l : nat)
    (st : @fscl_locals Input Logit Loss Acc) (item : nat * list Z) :
  keeps_this (FSCL_next_batch_on encode apply_head loss_func accuracy
                adapt_encoder adapt_head _inputs labels (CloneRef l) st item).
Proof.
  unfold FSCL_next_batch_on. destruct item as [i cb].
  repeat keeps_step. apply keeps_adapt_steps_on.
Qed.

Lemma keeps_FSCL_quick_adapt_on (l : nat) (st : @fscl_locals Input Logit Loss Acc) :
  keeps_this (FSCL_quick_adapt_on encode apply_head loss_func accuracy
                adapt_encoder adapt_head (CloneRef l) st).
Proof. unfold FSCL_quick_adapt_on. repeat keeps_step. Qed.

Lemma keeps_FSCL_final_on (l : nat) (st : @fscl_locals Input Logit Loss Acc) :
  keeps_this (FSCL_final_on encode apply_head loss_func accuracy (CloneRef l) st).
Proof. unfold FSCL_final_on. repeat keeps_step. Qed.

Lemma keeps_FSCL_meta_learn_on (perm : list nat) (batch : list Input * list Z) :
  keeps_this (FSCL_meta_learn_on encode apply_head loss_func accuracy
                adapt_encoder adapt_head perm batch).
Proof.
  unfold FSCL_meta_learn_on. destruct batch as [_inputs labels].
  keeps_step; [keeps_step|]. apply keeps_clone_then. intros l.
  repeat keeps_step.
  - apply keeps_FSCL_first_batch_on.
  - apply keeps_for_each. intros st x. apply keeps_FSCL_next_batch_on.
  - apply keeps_FSCL_quick_adapt_on.
  - apply keeps_FSCL_final_on.
Qed.

Lemma keeps_OML_batch_on (_inputs : list Input) (labels : list Z) (l : nat)
    (st : @oml_locals Input Logit Loss Acc) (item : nat * list Z) :
  keeps_this (OML_batch_on encode apply_head loss_func accuracy
                adapt_encoder adapt_head _inputs labels (CloneRef l) st item).
Proof.
  unfold OML_batch_on. destruct item as [i cb].
  repeat keeps_step. apply keeps_adapt_steps_on.
Qed.

Lemma keeps_OML_final_on (l : nat) (st : @oml_locals Input Logit Loss Acc) :
  keeps_this (OML_final_on encode apply_head loss_func accuracy (CloneRef l) st).
Proof. unfold OML_final_on. repeat keeps_step. Qed.

Lemma keeps_OML_meta_learn_on (perm : list nat) (batch : list Input * list Z) :
  keeps_this (OML_meta_learn_on encode apply_head loss_func accuracy
                adapt_encoder adapt_head perm batch).
Proof.
  unfold OML_meta_learn_on. destruct batch as [_inputs labels].
  keeps_step; [keeps_step|]. apply keeps_clone_then. intros l.
  repeat keeps_step.
  - apply keeps_for_each. intros st x. apply keeps_OML_batch_on.
  - apply keeps_OML_final_on.
Qed.

End ClonedLearnersKeep.

Section ClonedVanillaKeep.
Context {Input Tensor Logits Loss Acc : Type}.
Variable forward : gmap string Tensor -> list Input -> Logits.
Variable loss_func : Logits -> list Z -> Loss.
Variable accuracy : Logits -> list Z -> Acc.
Variable gradients : gmap string Tensor -> list Input -> list Z
                     -> gmap string Tensor.
Variable maml_adapt : gmap string Tensor -> gmap string Tensor
                      -> gmap string Tensor.

Lemma keeps_VanillaMAML_meta_learn_on (batch : list Input * list Z) :
  keeps_this (VanillaMAML_meta_learn_on forward loss_func accuracy gradients
                maml_adapt batch).
Proof.
  unfold VanillaMAML_meta_learn_on. destruct batch as [_inputs labels].
  keeps_step; [keeps_step|]. destruct a as [[[si sl] qi] ql].
  apply keeps_clone_then. intros l.
  repeat keeps_step. apply keeps_repeat. repeat keeps_step.
Qed.

End ClonedVanillaKeep.

(** ** The calls on the store compute what the calls on values compute *)

Section CloneView.
Context {Self M : Type}.
Variable get_model : Self -> M.
Variable set_model : M -> Self -> Self.
Variable l : nat.

Lemma view_outcome {A} (r : run (Object Self M) A) :
  outcome r = do '(a, _, _) <- clone_view l r; Ok a.
Proof. unfold clone_view. by destruct (outcome r). Qed.

Lemma view_ret {A} (a : A) (s : Object Self M) :
  clone_view l (ret a s) = Ok (a, this s, clones s !! l).
Proof. done. Qed.

Lemma view_bind {A B} (p : prog (Object Self M) A)
    (k : A -> prog (Object Self M) B) (s : Object Self M) :
  clone_view l (pbind p k s)
  = match outcome (p s) with
    | Ok a => clone_view l (k a (final (p s)))
    | Raise e => Raise e
    end.
Proof. unfold clone_view, pbind. by destruct (outcome (p s)). Qed.

Lemma view_bind_lift {A B} (r : result A) (k : A -> prog (Object Self M) B)
    (s : Object Self M) :
  clone_view l (pbind (lift r) k s) = do a <- r; clone_view l (k a s).
Proof. rewrite view_bind. by destruct r. Qed.

Lemma view_bind_read {A B} (f : Object Self M -> A)
    (k : A -> prog (Object Self M) B) (s : Object Self M) :
  clone_view l (pbind (read f) k s) = clone_view l (k (f s) s).
Proof. by rewrite view_bind. Qed.

Lemma view_bind_attr {A B} (f : Self -> A) (k : A -> prog (Object Self M) B)
    (s : Object Self M) :
  clone_view l (pbind (attr f) k s) = clone_view l (k (f (this s)) s).
Proof. unfold attr. by rewrite view_bind_read. Qed.

Lemma view_bind_deref {B} (k : M -> prog (Object Self M) B)
    (s : Object Self M) (m : M) :
  clones s !! l = Some m ->
  clone_view l (pbind (deref get_model (CloneRef l)) k s) = clone_view l (k m s).
Proof.
  intros Hs. rewrite view_bind.
  assert (Hd : deref get_model (CloneRef l) s = mkRun [] s (Ok m)).
  { unfold deref, pbind, read. cbn. by rewrite Hs. }
  by rewrite Hd.
Qed.

Lemma view_bind_update {B} (f : M -> M) (k : unit -> prog (Object Self M) B)
    (s : Object Self M) (m : M) :
  clones s !! l = Some m ->
  exists s', this s' = this s /\ clones s' !! l = Some (f m) /\
             clone_view l (pbind (update get_model set_model (CloneRef l) f) k s)
             = clone_view l (k tt s').
Proof.
  intros Hs. exists (mkObject (this s) (alter f l (clones s))).
  split; [done|]. split; [|by rewrite view_bind].
  cbn [clones]. rewrite list_lookup_alter_eq, Hs. done.
Qed.

Lemma view_bind_Ok {A B} (p : prog (Object Self M) A)
    (k : A -> prog (Object Self M) B) (s : Object Self M) (a : A)
    (self : Self) (m : M) :
  clone_view l (p s) = Ok (a, self, Some m) ->
  exists s', this s' = self /\ clones s' !! l = Some m /\
             clone_view l (pbind p k s) = clone_view l (k a s').
Proof.
  intros Hp. exists (final (p s)). rewrite view_bind.
  unfold clone_view in Hp. revert Hp.
  destruct (outcome (p s)); [|by intros [=]].
  by intros [= -> Ht Hc].
Qed.

Lemma view_bind_Raise {A B} (p : prog (Object Self M) A)
    (k : A -> prog (Object Self M) B) (s : Object Self M) (e : exn) :
  clone_view l (p s) = Raise e -> clone_view l (pbind p k s) = Raise e.
Proof.
  intros Hp. rewrite view_bind.
  unfold clone_view in Hp. revert Hp.
  destruct (outcome (p s)); [by intros [=] | by intros [= ->]].
Qed.

End CloneView.

(** [self.model.clone()] puts a copy of the model at a new location. *)
Lemma view_bind_clone {Self M B} (get_model : Self -> M)
    (k : module_ref -> prog (Object Self M) B) (s : Object Self M) :
  let l := length (clones s) in
  exists s', this s' = this s /\ clones s' !! l = Some (get_model (this s)) /\
             clone_view l (pbind (clone get_model SelfModel) k s)
             = clone_view l (k (CloneRef l) s').
Proof.
  intros l. exists (mkObject (this s) (clones s ++ [get_model (this s)])).
  split; [done|]. split.
  - cbn. rewrite lookup_app_r by done. by rewrite Nat.sub_diag.
  - by rewrite view_bind.
Qed.

(** Runs a sub-program whose view is known. *)
Ltac view_sub H s' Ht Hc :=
  lazymatch type of H with
  | clone_view ?l (?p ?s) = Ok (?a, _, _) =>
      lazymatch goal with
      | |- context [clone_view l (pbind p ?k s)] =>
          destruct (view_bind_Ok l p k s a _ _ H) as (s' & Ht & Hc & ->)
      end
  | clone_view ?l (?p ?s) = Raise ?e =>
      lazymatch goal with
      | |- context [clone_view l (pbind p ?k s)] =>
          rewrite (view_bind_Raise l p k s e H); cbn [bind]
      end
  end.

Ltac locals_simpl :=
  cbn [fscl_locals_of fl_total_classes_present fl_query_inputs fl_query_labels
       fl_quick_update_inputs fl_quick_update_labels fl_output fl_logging
       oml_locals_of ol_total_classes_present ol_query_inputs ol_query_labels
       ol_output ol_logging].

(** Runs a read of an attribute or the lift of a computation on values. *)
Ltac view_step :=
  first
    [ rewrite view_bind_attr
    | rewrite view_bind_lift;
      lazymatch goal with
      | |- context [bind ?r (fun _ => clone_view _ _)] =>
          destruct r; cbn [bind]; [|done];
          repeat match goal with x : (_ * _)%type |- _ => destruct x end
      end ].

Section ClonedLearnersRefine.
Context {Input Features Logit Loss Acc Encoder Head : Type}.
Variable encode : bool -> Encoder -> list Input -> Features.
Variable apply_head : Head -> Features -> Logit.
Variable loss_func : list Logit -> list Z -> Loss.
Variable accuracy : list Logit -> list Z -> Acc.
Variable adapt_encoder : Loss -> Encoder -> Encoder.
Variable adapt_head : Loss -> nat -> Head -> Head.

Local Notation "'Model'" := (@Model Encoder Head).
Local Notation "'Output'" := (@Output Logit).

Lemma adapt_steps_on_view {Self} (get_model : Self -> Model)
    (set_model : Model -> Self -> Self) (l : nat) (steps : nat)
    (forward : Model -> result (list Logit)) (support_labels : list Z) :
  forall (output : option Output) (s : Object Self Model) (m : Model),
  clones s !! l = Some m ->
  clone_view l (adapt_steps_on loss_func adapt_encoder adapt_head get_model
                  set_model steps forward support_labels (CloneRef l) output s)
  = do '(m', out) <- adapt_steps loss_func adapt_encoder adapt_head steps
                       forward support_labels m output;
    Ok (out, this s, Some m').
Proof.
  induction steps as [|n IH]; intros output s m Hs;
    cbn [adapt_steps_on adapt_steps].
  - by rewrite view_ret, Hs.
  - rewrite (view_bind_deref _ _ _ _ _ Hs), view_bind_lift.
    destruct (forward m) as [lg|e]; cbn [bind]; [|done].
    match goal with |- clone_view _ (pbind (update _ _ _ ?f) ?k _) = _ =>
      destruct (view_bind_update get_model set_model l f k s m Hs)
        as (s' & Ht & Hc & ->) end.
    by rewrite (IH _ _ _ Hc), Ht.
Qed.

Lemma FSCL_first_batch_on_view (l : nat) (_inputs : list Input)
    (labels : list Z) (class_batches : list (list Z))
    (s : Object (@FSCL Encoder Head) Model) (m : Model) :
  clones s !! l = Some m ->
  clone_view l (FSCL_first_batch_on encode apply_head loss_func accuracy
                  adapt_encoder adapt_head _inputs labels (CloneRef l)
                  class_batches s)
  = do st <- FSCL_first_batch encode apply_head loss_func accuracy
               adapt_encoder adapt_head (this s) _inputs labels m class_batches;
    Ok (fscl_locals_of st, this s, Some (fs_learner st)).
Proof.
  intros Hs. unfold FSCL_first_batch_on, FSCL_first_batch.
  rewrite view_bind_lift. destruct (class_batches !! 0%nat) as [cb|];
    cbn [bind]; [|done].
  rewrite view_bind_lift.
  destruct (iteration_split _inputs labels cb) as [[[[si sl] qi] ql]|e];
    cbn [bind]; [|done].
  rewrite view_bind_attr, view_bind_lift.
  destruct (stride (fscl_k_shot (this s)) si) as [qui|e]; cbn [bind]; [|done].
  rewrite view_bind_attr, view_bind_lift.
  destruct (stride (fscl_k_shot (this s)) sl) as [qul|e]; cbn [bind]; [|done].
  rewrite view_bind_attr.
  pose proof (adapt_steps_on_view (@fscl_model Encoder Head) set_fscl_model l
                (Z.to_nat (fscl_initial_training_steps (this s)))
                (fun m => FSCLModel_forward encode apply_head m si (len cb))
                sl None s m Hs) as Hsub.
  destruct (adapt_steps _ _ _ _ _ _ _ _) as [[m' out]|e]; cbn [bind] in Hsub |- *.
  - view_sub Hsub s' Ht Hc.
    rewrite view_bind_lift. destruct (read_output out) as [o|e]; cbn [bind]; [|done].
    rewrite view_bind_lift.
    destruct (calculate_accuracy accuracy o) as [acc|e]; cbn [bind]; [|done].
    by rewrite view_ret, Ht, Hc.
  - by view_sub Hsub s' Ht Hc.
Qed.

Lemma FSCL_next_batch_on_view (l : nat) (_inputs : list Input)
    (labels : list Z) (item : nat * list Z)
    (st : @fscl_state Input Logit Loss Acc Encoder Head)
    (s : Object (@FSCL Encoder Head) Model) :
  clones s !! l = Some (fs_learner st) ->
  clone_view l (FSCL_next_batch_on encode apply_head loss_func accuracy
                  adapt_encoder adapt_head _inputs labels (CloneRef l)
                  (fscl_locals_of st) item s)
  = do st' <- FSCL_next_batch encode apply_head loss_func accuracy
                adapt_encoder adapt_head (this s) _inputs labels st item;
    Ok (fscl_locals_of st', this s, Some (fs_learner st')).
Proof.
  intros Hs. unfold FSCL_next_batch_on, FSCL_next_batch.
  destruct item as [i cb]. locals_simpl. do 5 view_step. rewrite view_bind_attr.
  match goal with |- clone_view _ (pbind (adapt_steps_on _ _ _ _ _ ?n ?f ?sl _ ?o) _ _) = _ =>
    pose proof (adapt_steps_on_view (@fscl_model Encoder Head) set_fscl_model l
                  n f sl o s _ Hs) as Hsub end.
  destruct (adapt_steps _ _ _ _ _ _ _ _) as [[m' out]|e]; cbn [bind] in Hsub |- *.
  - view_sub Hsub s' Ht Hc. do 2 view_step.
    by rewrite view_ret, Ht, Hc.
  - by view_sub Hsub s' Ht Hc.
Qed.

Lemma FSCL_loop_view (l : nat) (_inputs : list Input) (labels : list Z)
    (items : list (nat * list Z)) :
  forall (st : @fscl_state Input Logit Loss Acc Encoder Head)
         (s : Object (@FSCL Encoder Head) Model),
  clones s !! l = Some (fs_learner st) ->
  clone_view l (for_each_prog
                  (FSCL_next_batch_on encode apply_head loss_func accuracy
                     adapt_encoder adapt_head _inputs labels (CloneRef l))
                  (fscl_locals_of st) items s)
  = do st' <- for_each (FSCL_next_batch encode apply_head loss_func accuracy
                          adapt_encoder adapt_head (this s) _inputs labels)
                st items;
    Ok (fscl_locals_of st', this s, Some (fs_learner st')).
Proof.
  induction items as [|item items IH]; intros st s Hs;
    cbn [for_each_prog for_each].
  - by rewrite view_ret, Hs.
  - pose proof (FSCL_next_batch_on_view l _inputs labels item st s Hs) as Hsub.
    destruct (FSCL_next_batch _ _ _ _ _ _ _ _ _ _ _) as [st'|e];
      cbn [bind] in Hsub |- *.
    + view_sub Hsub s' Ht Hc. by rewrite (IH st' s' Hc), Ht.
    + by view_sub Hsub s' Ht Hc.
Qed.

Lemma FSCL_quick_adapt_on_view (l : nat)
    (st : @fscl_state Input Logit Loss Acc Encoder Head)
    (s : Object (@FSCL Encoder Head) Model) :
  clones s !! l = Some (fs_learner st) ->
  clone_view l (FSCL_quick_adapt_on encode apply_head loss_func accuracy
                  adapt_encoder adapt_head (CloneRef l) (fscl_locals_of st) s)
  = do st' <- FSCL_quick_adapt encode apply_head loss_func accuracy
                adapt_encoder adapt_head (this s) st;
    Ok (fscl_locals_of st', this s, Some (fs_learner st')).
Proof.
  intros Hs. unfold FSCL_quick_adapt_on, FSCL_quick_adapt. locals_simpl.
  rewrite view_bind_attr. destruct (fscl_quick_adapt (this s)).
  - do 2 view_step. rewrite (view_bind_deref _ _ _ _ _ Hs). view_step.
    match goal with |- clone_view _ (pbind (update _ _ _ ?f) ?k _) = _ =>
      destruct (view_bind_update (@fscl_model Encoder Head) set_fscl_model l
                  f k s _ Hs) as (s' & Ht & Hc & ->) end.
    view_step. by rewrite view_ret, Ht, Hc.
  - by rewrite view_ret, Hs.
Qed.

Lemma FSCL_final_on_view (l : nat)
    (st : @fscl_state Input Logit Loss Acc Encoder Head)
    (s : Object (@FSCL Encoder Head) Model) :
  clones s !! l = Some (fs_learner st) ->
  clone_view l (FSCL_final_on encode apply_head loss_func accuracy
                  (CloneRef l) (fscl_locals_of st) s)
  = do '(logging, _) <- FSCL_final encode apply_head loss_func accuracy st;
    Ok (logging, this s, Some (eval_mode (fs_learner st))).
Proof.
  intros Hs. unfold FSCL_final_on, FSCL_final. locals_simpl.
  match goal with |- clone_view _ (pbind (update _ _ _ ?f) ?k _) = _ =>
    destruct (view_bind_update (@fscl_model Encoder Head) set_fscl_model l
                f k s _ Hs) as (s' & Ht & Hc & ->) end.
  view_step. rewrite (view_bind_deref _ _ _ _ _ Hc). do 2 view_step.
  by rewrite view_ret, Ht, Hc.
Qed.

(** [FSCL.meta_learn] on the store returns what it returns on values. *)
Lemma FSCL_meta_learn_on_outcome (perm : list nat)
    (batch : list Input * list Z) (s : Object (@FSCL Encoder Head) Model) :
  outcome (FSCL_meta_learn_on encode apply_head loss_func accuracy
             adapt_encoder adapt_head perm batch s)
  = FSCL_meta_learn encode apply_head loss_func accuracy adapt_encoder
      adapt_head (this s) perm batch.
Proof.
  rewrite (view_outcome (length (clones s))).
  unfold FSCL_meta_learn_on, FSCL_meta_learn, FSCL_meta_learn_out, FSCL_batches.
  destruct batch as [_inputs labels]. view_step.
  match goal with |- context [clone_view _ (pbind (clone _ _) ?k _)] =>
    destruct (view_bind_clone (@fscl_model Encoder Head) k s)
      as (s1 & Ht1 & Hc1 & ->) end.
  match goal with |- context [clone_view _ (pbind (update _ _ _ ?f) ?k _)] =>
    destruct (view_bind_update (@fscl_model Encoder Head) set_fscl_model _
                f k s1 _ Hc1) as (s2 & Ht2 & Hc2 & ->) end.
  rewrite Ht1 in Ht2. rewrite !view_bind_attr, Ht2. view_step.
  match goal with
  | |- context [pbind (FSCL_first_batch_on _ _ _ _ _ _ _ ?lb _ ?cbs) _ _] =>
      pose proof (FSCL_first_batch_on_view _ _inputs lb cbs s2 _ Hc2) as Hsub
  end.
  rewrite Ht2 in Hsub.
  destruct (FSCL_first_batch _ _ _ _ _ _ _ _ _ _ _) as [st0|e];
    cbn [bind] in Hsub |- *; [|by view_sub Hsub s' Ht Hc].
  view_sub Hsub s3 Ht3 Hc3. clear Hsub.
  match goal with
  | |- context [pbind (for_each_prog (FSCL_next_batch_on _ _ _ _ _ _ _ ?lb _)
                         _ ?items) _ _] =>
      pose proof (FSCL_loop_view _ _inputs lb items st0 s3 Hc3) as Hsub
  end.
  rewrite Ht3 in Hsub.
  destruct (for_each _ _ _) as [st1|e];
    cbn [bind] in Hsub |- *; [|by view_sub Hsub s' Ht Hc].
  view_sub Hsub s4 Ht4 Hc4. clear Hsub.
  pose proof (FSCL_quick_adapt_on_view _ st1 s4 Hc4) as Hsub.
  rewrite Ht4 in Hsub.
  destruct (FSCL_quick_adapt _ _ _ _ _ _ _ _) as [st2|e];
    cbn [bind] in Hsub |- *; [|by view_sub Hsub s' Ht Hc].
  view_sub Hsub s5 Ht5 Hc5. clear Hsub.
  rewrite (FSCL_final_on_view _ st2 s5 Hc5).
  destruct (FSCL_final _ _ _ _ _) as [[logging out]|e]; by cbn [bind].
Qed.

Lemma OML_batch_on_view (l : nat) (_inputs : list Input)
    (labels : list Z) (item : nat * list Z)
    (st : @oml_state Input Logit Loss Acc Encoder Head)
    (s : Object (@OML Encoder Head) Model) :
  clones s !! l = Some (os_learner st) ->
  clone_view l (OML_batch_on encode apply_head loss_func accuracy
                  adapt_encoder adapt_head _inputs labels (CloneRef l)
                  (oml_locals_of st) item s)
  = do st' <- OML_batch encode apply_head loss_func accuracy
                adapt_encoder adapt_head (this s) _inputs labels st item;
    Ok (oml_locals_of st', this s, Some (os_learner st')).
Proof.
  intros Hs. unfold OML_batch_on, OML_batch.
  destruct item as [i cb]. locals_simpl. view_step. rewrite view_bind_attr.
  match goal with |- clone_view _ (pbind (adapt_steps_on _ _ _ _ _ ?n ?f ?sl _ ?o) _ _) = _ =>
    pose proof (adapt_steps_on_view (@oml_model Encoder Head) set_oml_model l
                  n f sl o s _ Hs) as Hsub end.
  destruct (adapt_steps _ _ _ _ _ _ _ _) as [[m' out]|e]; cbn [bind] in Hsub |- *.
  - view_sub Hsub s' Ht Hc. do 2 view_step.
    by rewrite view_ret, Ht, Hc.
  - by view_sub Hsub s' Ht Hc.
Qed.

Lemma OML_loop_view (l : nat) (_inputs : list Input) (labels : list Z)
    (items : list (nat * list Z)) :
  forall (st : @oml_state Input Logit Loss Acc Encoder Head)
         (s : Object (@OML Encoder Head) Model),
  clones s !! l = Some (os_learner st) ->
  clone_view l (for_each_prog
                  (OML_batch_on encode apply_head loss_func accuracy
                     adapt_encoder adapt_head _inputs labels (CloneRef l))
                  (oml_locals_of st) items s)
  = do st' <- for_each (OML_batch encode apply_head loss_func accuracy
                          adapt_encoder adapt_head (this s) _inputs labels)
                st items;
    Ok (oml_locals_of st', this s, Some (os_learner st')).
Proof.
  induction items as [|item items IH]; intros st s Hs;
    cbn [for_each_prog for_each].
  - by rewrite view_ret, Hs.
  - pose proof (OML_batch_on_view l _inputs labels item st s Hs) as Hsub.
    destruct (OML_batch _ _ _ _ _ _ _ _ _ _ _) as [st'|e];
      cbn [bind] in Hsub |- *.
    + view_sub Hsub s' Ht Hc. by rewrite (IH st' s' Hc), Ht.
    + by view_sub Hsub s' Ht Hc.
Qed.

Lemma OML_final_on_view (l : nat)
    (st : @oml_state Input Logit Loss Acc Encoder Head)
    (s : Object (@OML Encoder Head) Model) :
  clones s !! l = Some (os_learner st) ->
  clone_view l (OML_final_on encode apply_head loss_func accuracy
                  (CloneRef l) (oml_locals_of st) s)
  = do '(logging, _) <- OML_final encode apply_head loss_func accuracy st;
    Ok (logging, this s, Some (eval_mode (os_learner st))).
Proof.
  intros Hs. unfold OML_final_on, OML_final. locals_simpl.
  match goal with |- clone_view _ (pbind (update _ _ _ ?f) ?k _) = _ =>
    destruct (view_bind_update (@oml_model Encoder Head) set_oml_model l
                f k s _ Hs) as (s' & Ht & Hc & ->) end.
  view_step. rewrite (view_bind_deref _ _ _ _ _ Hc). do 2 view_step.
  by rewrite view_ret, Ht, Hc.
Qed.

(** [OML.meta_learn] on the store returns what it returns on values. *)
Lemma OML_meta_learn_on_outcome (perm : list nat)
    (batch : list Input * list Z) (s : Object (@OML Encoder Head) Model) :
  outcome (OML_meta_learn_on encode apply_head loss_func accuracy
             adapt_encoder adapt_head perm batch s)
  = OML_meta_learn encode apply_head loss_func accuracy adapt_encoder
      adapt_head (this s) perm batch.
Proof.
  rewrite (view_outcome (length (clones s))).
  unfold OML_meta_learn_on, OML_meta_learn, OML_meta_learn_out, OML_batches.
  destruct batch as [_inputs labels]. view_step.
  match goal with |- context [clone_view _ (pbind (clone _ _) ?k _)] =>
    destruct (view_bind_clone (@oml_model Encoder Head) k s)
      as (s1 & Ht1 & Hc1 & ->) end.
  match goal with |- context [clone_view _ (pbind (update _ _ _ ?f) ?k _)] =>
    destruct (view_bind_update (@oml_model Encoder Head) set_oml_model _
                f k s1 _ Hc1) as (s2 & Ht2 & Hc2 & ->) end.
  rewrite Ht1 in Ht2. rewrite !view_bind_attr, Ht2. view_step.
  match goal with
  | |- context [pbind (for_each_prog (OML_batch_on _ _ _ _ _ _ _ ?lb _)
                         _ ?items) _ _] =>
      pose proof (OML_loop_view _ _inputs lb items
                    (OML_init (clone_for_training (oml_model (this s))))
                    s2 Hc2) as Hsub
  end.
  rewrite Ht2 in Hsub. unfold OML_init in Hsub |- *.
  unfold oml_locals_of at 1 in Hsub.
  cbn [os_total_classes_present os_query_inputs os_query_labels os_output
       os_logging] in Hsub.
  destruct (for_each _ _ _) as [st1|e];
    cbn [bind] in Hsub |- *; [|by view_sub Hsub s' Ht Hc].
  view_sub Hsub s3 Ht3 Hc3. clear Hsub.
  rewrite (OML_final_on_view _ st1 s3 Hc3).
  destruct (OML_final _ _ _ _ _) as [[logging out]|e]; by cbn [bind].
Qed.

End ClonedLearnersRefine.

Section ClonedVanillaRefine.
Context {Input Tensor Logits Loss Acc : Type}.
Variable forward : gmap string Tensor -> list Input -> Logits.
Variable loss_func : Logits -> list Z -> Loss.
Variable accuracy : Logits -> list Z -> Acc.
Variable gradients : gmap string Tensor -> list Input -> list Z
                     -> gmap string Tensor.
Variable maml_adapt : gmap string Tensor -> gmap string Tensor
                      -> gmap string Tensor.

(** The input of the fast training loop: augmented while training. *)
Local Notation "'vm_support' self si" :=
  (if vm_training self then
     match vm_augmentation self with
     | Some aug => aug si
     | None => si
     end
   else si) (at level 10, self at level 9, si at level 9, only parsing).

Lemma VanillaMAML_loop_view (l : nat) (support_input : list Input)
    (support_labels : list Z) (n : nat) :
  forall (s : Object (@VanillaMAML Input Tensor) (gmap string Tensor))
         (p : gmap string Tensor),
  clones s !! l = Some p ->
  clone_view l
    (repeat_prog n
       (pbind (read (fun s => vm_support (this s) support_input))
          (fun x =>
             pbind (deref vm_params (CloneRef l))
               (fun p =>
                  update vm_params set_vm_params (CloneRef l)
                    (fun p0 => maml_adapt p0 (gradients p x support_labels)))))
       s)
  = Ok (tt, this s,
        Some (vm_adapt_steps gradients maml_adapt n
                (vm_support (this s) support_input) support_labels p)).
Proof.
  induction n as [|n IH]; intros s p Hs; cbn [repeat_prog vm_adapt_steps].
  - by rewrite view_ret, Hs.
  - match goal with |- clone_view l (pbind ?body ?k s) = _ =>
      assert (Hbody : clone_view l (body s)
                      = Ok (tt, this s,
                            Some (maml_adapt p
                                    (gradients p
                                       (vm_support (this s) support_input)
                                       support_labels))));
      [|destruct (view_bind_Ok l body k s tt _ _ Hbody) as (s' & Ht & Hc & ->)]
    end.
    { rewrite view_bind_read, (view_bind_deref _ _ _ _ _ Hs).
      unfold clone_view. cbn. by rewrite list_lookup_alter_eq, Hs. }
    by rewrite (IH _ _ Hc), Ht.
Qed.

(** [VanillaMAML.meta_learn] on the store returns what it returns when
    the clone is a value. *)
Lemma VanillaMAML_meta_learn_on_outcome (batch : list Input * list Z)
    (s : Object (@VanillaMAML Input Tensor) (gmap string Tensor)) :
  outcome (VanillaMAML_meta_learn_on forward loss_func accuracy gradients
             maml_adapt batch s)
  = outcome (VanillaMAML_meta_learn forward loss_func accuracy gradients
               maml_adapt batch (this s)).
Proof.
  rewrite (view_outcome (length (clones s))).
  unfold VanillaMAML_meta_learn_on, VanillaMAML_meta_learn.
  destruct batch as [_inputs labels]. rewrite view_bind_lift.
  destruct (split_batch _inputs labels) as [[[[si sl] qi] ql]|e];
    cbn [bind]; [|done].
  match goal with |- context [clone_view _ (pbind (clone _ _) ?k _)] =>
    destruct (view_bind_clone (@vm_params Input Tensor) k s)
      as (s1 & Ht1 & Hc1 & ->) end.
  match goal with |- context [clone_view _ (pbind (update _ _ _ ?f) ?k _)] =>
    destruct (view_bind_update (@vm_params Input Tensor) set_vm_params _
                f k s1 _ Hc1) as (s2 & Ht2 & Hc2 & ->) end.
  rewrite Ht1 in Ht2. rewrite view_bind_attr, Ht2.
  pose proof (VanillaMAML_loop_view (length (clones s)) si sl
                (Z.to_nat (vm_train_update_steps (this s))) s2 _ Hc2) as Hsub.
  view_sub Hsub s3 Ht3 Hc3. rewrite (view_bind_deref _ _ _ _ _ Hc3).
  rewrite view_bind_lift, Ht2.
  cbv beta delta [pbind lift read ret]. cbn [outcome final trace].
  destruct (calculate_accuracy_w accuracy _ ql); by cbn [bind outcome].
Qed.

End ClonedVanillaRefine.

(** *** The persistent parameters across a call *)

Section PersistentParameters.
Context {Input Features Logit Loss Acc Encoder Head : Type}.
Context {Tensor Scalar Logits WholeLoss WholeAcc OptState : Type}.
(* the continual learners *)
Variable encode : bool -> Encoder -> list Input -> Features.
Variable apply_head : Head -> Features -> Logit.
Variable head_loss : list Logit -> list Z -> Loss.
Variable head_accuracy : list Logit -> list Z -> Acc.
Variable adapt_encoder : Loss -> Encoder -> Encoder.
Variable adapt_head : Loss -> nat -> Head -> Head.
(* the learners over a whole parameter dictionary *)
Variable tadd tsub : Tensor -> Tensor -> Tensor.
Variable tscale : Tensor -> Scalar -> Tensor.
Variable int_truediv : Z -> Z -> Scalar.
Variable one_minus : Scalar -> Scalar.
Variable smul : Scalar -> Scalar -> Scalar.
Variable forward : gmap string Tensor -> list Input -> Logits.
Variable loss_func : Logits -> list Z -> WholeLoss.
Variable accuracy : Logits -> list Z -> WholeAcc.
Variable gradients : gmap string Tensor -> list Input -> list Z
                     -> gmap string Tensor.
Variable adam_step : OptState -> gmap string Tensor -> gmap string Tensor
                     -> gmap string Tensor * OptState.
Variable maml_adapt : gmap string Tensor -> gmap string Tensor
                      -> gmap string Tensor.
Hypothesis adam_names : forall o p g, dom (adam_step o p g).1 = dom p.

(** C5 (as amended). The variants that adapt a clone, [VanillaMAML],
    [FSCL] and [OML], never write their object in [meta_learn]: started
    in any store, whatever clones it holds already, every write of the
    call goes to the module object that [self.model.clone()] made, so at
    every point where the call can be abandoned, and after an exception,
    the object and with it the parameters of [self.model] are those at
    entry; what the call returns or raises is what the adaptation of the
    clone gives. [Reptile] trains the live model: an evaluation call
    restores the parameters at entry when it returns. *)
Theorem clone_variants_never_write
    (perm : list nat) (batch : list Input * list Z)
    (vanilla : Object (@VanillaMAML Input Tensor) (gmap string Tensor))
    (fscl : Object (@FSCL Encoder Head) (@Model Encoder Head))
    (oml : Object (@OML Encoder Head) (@Model Encoder Head))
    (reptile : @Reptile Input Tensor Scalar OptState)
    (log : gmap string (@WMetric WholeLoss WholeAcc)) :
  (never_writes this
     (VanillaMAML_meta_learn_on forward loss_func accuracy gradients maml_adapt
        batch) vanilla /\
   outcome (VanillaMAML_meta_learn_on forward loss_func accuracy gradients
              maml_adapt batch vanilla)
   = outcome (VanillaMAML_meta_learn forward loss_func accuracy gradients
                maml_adapt batch (this vanilla))) /\
  (never_writes this
     (FSCL_meta_learn_on encode apply_head head_loss head_accuracy
        adapt_encoder adapt_head perm batch) fscl /\
   outcome (FSCL_meta_learn_on encode apply_head head_loss head_accuracy
              adapt_encoder adapt_head perm batch fscl)
   = FSCL_meta_learn encode apply_head head_loss head_accuracy
       adapt_encoder adapt_head (this fscl) perm batch) /\
  (never_writes this
     (OML_meta_learn_on encode apply_head head_loss head_accuracy
        adapt_encoder adapt_head perm batch) oml /\
   outcome (OML_meta_learn_on encode apply_head head_loss head_accuracy
              adapt_encoder adapt_head perm batch oml)
   = OML_meta_learn encode apply_head head_loss head_accuracy
       adapt_encoder adapt_head (this oml) perm batch) /\
  (rp_training reptile = false ->
   outcome (Reptile_meta_learn tadd tsub tscale int_truediv one_minus smul
              forward loss_func accuracy gradients adam_step batch reptile)
   = Ok log ->
   rp_params (final (Reptile_meta_learn tadd tsub tscale int_truediv one_minus
                       smul forward loss_func accuracy gradients adam_step
                       batch reptile))
   = rp_params reptile).
Proof.
  split; [split|].
  { apply keeps_never_writes, keeps_VanillaMAML_meta_learn_on. }
  { apply VanillaMAML_meta_learn_on_outcome. }
  split; [split|].
  { apply keeps_never_writes, keeps_FSCL_meta_learn_on. }
  { apply FSCL_meta_learn_on_outcome. }
  split; [split|].
  { apply keeps_never_writes, keeps_OML_meta_learn_on. }
  { apply OML_meta_learn_on_outcome. }
  intros Heval Hlog. by eapply reptile_eval_restores.
Qed.

End PersistentParameters.

Lemma clone_variants_never_write_witness :
  let descend := fun p g : gmap string Z =>
    map_imap (fun name w => Some (w - default 0 (g !! name))) p in
  let sharpen := fun (_ : Z) (_ : nat) (h : Z) => h + 1 in
  let episode := [0; 0; 1; 1; 2; 2] in
  let vanilla := mkObject (@mkVanillaMAML Z Z {["w" := 10]} true 2 None) [] in
  let fscl := mkObject (Toy.fscl 3 2 1 1 1 1 true) [] in
  let oml := mkObject (Toy.oml 3 2 1 1) [] in
  let vanilla_run :=
    VanillaMAML_meta_learn_on ToyReptile.forward ToyReptile.loss_func
      ToyReptile.accuracy ToyReptile.gradients descend ToyReptile.batch in
  let fscl_run :=
    FSCL_meta_learn_on Toy.encode Toy.apply_head Toy.loss_func Toy.accuracy
      Toy.adapt_encoder sharpen [0; 1; 2]%nat (episode, episode) in
  let oml_run :=
    OML_meta_learn_on Toy.encode Toy.apply_head Toy.loss_func Toy.accuracy
      Toy.adapt_encoder sharpen [0; 1; 2]%nat (episode, episode) in
  (Forall (fun s => vm_params (this s) = {["w" := 10]})
     (observable vanilla_run vanilla) /\
   clones (final (vanilla_run vanilla)) = [{["w" := 8]}] /\
   length (observable vanilla_run vanilla) = 5%nat /\
   (exists log, outcome (vanilla_run vanilla) = Ok log)) /\
  (Forall (fun s => classifiers (fscl_model (this s)) = [0; 1; 2])
     (observable fscl_run fscl) /\
   classifiers <$> clones (final (fscl_run fscl)) = [[3; 4; 5]] /\
   length (observable fscl_run fscl) = 7%nat /\
   (exists log, outcome (fscl_run fscl) = Ok log)) /\
  (Forall (fun s => classifiers (oml_model (this s)) = [0; 1; 2])
     (observable oml_run oml) /\
   classifiers <$> clones (final (oml_run oml)) = [[2; 3; 4]] /\
   length (observable oml_run oml) = 6%nat /\
   (exists log, outcome (oml_run oml) = Ok log)) /\
  rp_params (final (ToyReptile.meta_learn ToyReptile.batch (ToyReptile.reptile false)))
  = rp_params (ToyReptile.reptile false).
Proof.
  intros descend sharpen episode vanilla fscl oml vanilla_run fscl_run oml_run.
  pose proof (clone_variants_never_write
                Toy.encode Toy.apply_head Toy.loss_func Toy.accuracy
                Toy.adapt_encoder sharpen
                Z.add Z.sub Z.mul Z.div ToyReptile.one_minus Z.mul
                ToyReptile.forward ToyReptile.loss_func ToyReptile.accuracy
                ToyReptile.gradients ToyReptile.adam_step descend
                toy_adam_names [0; 1; 2]%nat ToyReptile.batch
                vanilla fscl oml (ToyReptile.reptile false)
                (<["query_accuracy" := WAcc 2]> (<["query_error" := WLoss 2]> ∅)))
    as ((Hvanilla & _) & _ & _ & Hrestore).
  pose proof (clone_variants_never_write
                Toy.encode Toy.apply_head Toy.loss_func Toy.accuracy
                Toy.adapt_encoder sharpen
                Z.add Z.sub Z.mul Z.div ToyReptile.one_minus Z.mul
                ToyReptile.forward ToyReptile.loss_func ToyReptile.accuracy
                ToyReptile.gradients ToyReptile.adam_step descend
                toy_adam_names [0; 1; 2]%nat (episode, episode)
                vanilla fscl oml (ToyReptile.reptile false)
                (<["query_accuracy" := WAcc 2]> (<["query_error" := WLoss 2]> ∅)))
    as (_ & (Hfscl & _) & (Homl & _) & _).
  split; [|split; [|split]].
  - split; [|split; [|split]]; [|by vm_compute..|].
    + apply Forall_forall. intros s Hs. by rewrite (Hvanilla s Hs).
    + assert (Hreturns : match outcome (vanilla_run vanilla) with
                         | Ok _ => True
                         | Raise _ => False
                         end) by (vm_compute; exact I).
      revert Hreturns.
      destruct (outcome (vanilla_run vanilla)) as [log|e]; [|done].
      by exists log.
  - split; [|split; [|split]]; [|by vm_compute..|].
    + apply Forall_forall. intros s Hs. by rewrite (Hfscl s Hs).
    + assert (Hreturns : match outcome (fscl_run fscl) with
                         | Ok _ => True
                         | Raise _ => False
                         end) by (vm_compute; exact I).
      revert Hreturns.
      destruct (outcome (fscl_run fscl)) as [log|e]; [|done].
      by exists log.
  - split; [|split; [|split]]; [|by vm_compute..|].
    + apply Forall_forall. intros s Hs. by rewrite (Homl s Hs).
    + assert (Hreturns : match outcome (oml_run oml) with
                         | Ok _ => True
                         | Raise _ => False
                         end) by (vm_compute; exact I).
      revert Hreturns.
      destruct (outcome (oml_run oml)) as [log|e]; [|done].
      by exists log.
  - apply Hrestore; [reflexivity | vm_compute; reflexivity].
Defined.

(** C5, as stated, fails for Reptile: after the first pass of the inner
    loop the live parameter [w] is 11, not the 10 of entry, and a call
    abandoned there leaves it so. *)
Lemma reptile_writes_live_parameters :
  set_params {["w" := 11]} (ToyReptile.reptile true)
    ∈ observable (ToyReptile.meta_learn ToyReptile.batch) (ToyReptile.reptile true) /\
  ~ never_writes rp_params (ToyReptile.meta_learn ToyReptile.batch)
      (ToyReptile.reptile true).
Proof.
  assert (Hin : set_params {["w" := 11]} (ToyReptile.reptile true)
                ∈ observable (ToyReptile.meta_learn ToyReptile.batch)
                    (ToyReptile.reptile true)).
  { vm_compute. right. left. }
  split; [exact Hin|].
  intros Hnever. specialize (Hnever _ Hin).
  apply (f_equal (fun d : gmap string Z => d !! "w")) in Hnever.
  vm_compute in Hnever. discriminate.
Qed.

(** ** Labels that pass [return_random_labels] *)

(** A strictly ascending list of [n] integers inside [lo .. lo+n-1] is
    that interval. *)
Lemma sorted_lt_full (l : list Z) :
  forall lo, StronglySorted Z.lt l ->
  (forall x, x ∈ l -> lo <= x < lo + len l) -> l = seqZ lo (len l).
Proof.
  induction l as [|a l IH]; intros lo Hs Hb; [done|].
  apply StronglySorted_inv in Hs as [Hs Ha].
  assert (Hlen : len (a :: l) = 1 + len l) by (unfold len; simpl; lia).
  rewrite Hlen in *.
  pose proof (Hb a ltac:(left)) as Hab.
  assert (Hl : l = seqZ (a + 1) (len l)).
  { apply IH; [done|]. intros x Hx.
    pose proof (Hb x ltac:(by right)) as Hxb.
    eapply Forall_forall in Ha; [|exact Hx]. lia. }
  assert (a = lo) as ->.
  { destruct l as [|b l]; [unfold len in Hab; simpl in Hab; lia|].
    assert (Hlast : a + 1 + len (b :: l) - 1 ∈ b :: l).
    { rewrite Hl at 2. apply elem_of_seqZ. unfold len. simpl. lia. }
    pose proof (Hb _ ltac:(right; exact Hlast)). lia. }
  rewrite seqZ_cons by (pose proof (len_nonneg l); lia).
  f_equal. replace (Z.pred (1 + len l)) with (len l) by lia.
  by replace (Z.succ lo) with (lo + 1) by lia.
Qed.

Lemma gather_length {A} (t : list A) (idx : list nat) (r : list A) :
  gather t idx = Ok r -> length r = length idx.
Proof.
  revert r. induction idx as [|i idx IH]; intros r H; simpl in H.
  - by injection H as <-.
  - destruct (t !! i); [|done]. apply bind_Ok in H as (xs & Hxs & Hr).
    injection Hr as <-. simpl. by rewrite (IH xs).
Qed.

(** The call succeeds only on labels that are exactly [0 .. m-1]. *)
Lemma return_random_labels_Ok_inv (perm : list nat) (batch_labels out : list Z) :
  length perm = length (unique batch_labels) ->
  return_random_labels perm batch_labels = Ok out ->
  unique batch_labels = seqZ 0 (len (unique batch_labels)).
Proof.
  intros Hperm Hrun. unfold return_random_labels in Hrun.
  apply bind_Ok in Hrun as (random_labels & Hgather & Hloop).
  apply gather_length in Hgather.
  apply sorted_lt_full; [apply unique_sorted|].
  intros x Hx. rewrite elem_of_unique in Hx.
  destruct (build_converter random_labels !! x) as [v|] eqn:Hconv.
  - rewrite build_converter_lookup in Hconv.
    destruct (decide (0 <= x < len random_labels)) as [Hb|Hb]; [|done].
    unfold len in Hb |- *. lia.
  - rewrite (relabel_loop_KeyError _ batch_labels []) in Hloop; [done|].
    by exists x.
Qed.

Lemma return_random_labels_classes (perm : list nat) (batch_labels out : list Z) :
  perm ≡ₚ seq 0 (length (unique batch_labels)) ->
  return_random_labels perm batch_labels = Ok out ->
  unique batch_labels = seqZ 0 (len (unique batch_labels)) /\
  out = converted perm <$> batch_labels /\
  unique out = unique batch_labels.
Proof.
  intros Hperm Hrun.
  assert (Hlen : length perm = length (unique batch_labels))
    by (by rewrite Hperm, length_seq).
  pose proof (return_random_labels_Ok_inv _ _ _ Hlen Hrun) as Hu.
  pose proof (return_random_labels_fmap perm batch_labels _ Hu Hperm) as Hout.
  rewrite Hrun in Hout. injection Hout as ->.
  split; [done|]. split; [done|].
  apply sorted_lt_ext; [apply unique_sorted | apply unique_sorted |].
  intros x. rewrite !elem_of_unique. by eapply converted_values.
Qed.

(** ** An episode with exactly [n_classes_start] classes *)

Lemma raises_bind_l {A B} (m : result A) (k : A -> result B) :
  raises m -> raises (bind m k).
Proof. intros [e ->]. by exists e. Qed.

Lemma raises_bind_r {A B} (m : result A) (k : A -> result B) :
  (forall a, m = Ok a -> raises (k a)) -> raises (bind m k).
Proof. intros Hk. destruct m as [a|e]; simpl; [by apply Hk | by exists e]. Qed.

Lemma return_label_batches_exact (ns na : Z) (batch_labels : list Z) :
  batch_labels <> [] -> na <> 0 -> len (unique batch_labels) = ns ->
  return_label_batches ns na batch_labels = Ok [unique batch_labels; []].
Proof.
  intros Hne Hna Hns. unfold return_label_batches.
  unfold py_floordiv. destruct (Z.eqb_spec na 0) as [|_]; [done|]. cbn [bind].
  rewrite foldl_snoc_map.
  destruct (Z.leb_spec 1 (len (unique batch_labels) - ns)) as [|_]; [lia|].
  change (range 1) with [0]. cbn [map app].
  rewrite py_slice_to_take by (pose proof (len_nonneg (unique batch_labels)); lia).
  rewrite take_ge by (unfold len in Hns; lia).
  replace (ns + na * 0) with (len (unique batch_labels)) by lia.
  rewrite py_slice_at_end.
  replace (concat [unique batch_labels; []]) with (unique batch_labels)
    by (simpl; by rewrite app_nil_r).
  destruct (tensor_max_same_elements (unique batch_labels) batch_labels 0)
    as (m & Hm1 & Hm2).
  { intros x. apply elem_of_unique. }
  { intros Hu. by apply unique_nil_inv in Hu. }
  rewrite Hm1, Hm2. cbn [bind]. by rewrite Z.ltb_irrefl.
Qed.

Lemma return_label_batches_exact_raises_or (ns na : Z) (batch_labels : list Z) :
  len (unique batch_labels) = ns ->
  raises (return_label_batches ns na batch_labels) \/
  return_label_batches ns na batch_labels = Ok [unique batch_labels; []].
Proof.
  intros Hns. destruct (decide (na = 0)) as [->|Hna].
  { left. by exists ZeroDivisionError. }
  destruct batch_labels as [|x t].
  { left. exists RuntimeError. unfold return_label_batches, py_floordiv.
    destruct (Z.eqb_spec na 0) as [|_]; [done|]. cbn [bind].
    rewrite foldl_snoc_map. change (unique []) with (@nil Z) in *.
    change (len []) with 0 in *. subst ns.
    change (1 <=? 0 - 0) with false. cbv iota.
    change (range 1) with [0]. cbn [map app]. unfold py_slice, py_slice_to.
    by rewrite drop_nil, !take_nil. }
  right. by apply return_label_batches_exact.
Qed.

Lemma for_each_raises {S X} (body : S -> X -> result S) (x : X) (xs : list X) :
  x ∈ xs -> (forall s, raises (body s x)) -> forall s, raises (for_each body s xs).
Proof.
  intros Hx Hbody. induction xs as [|y xs IH]; intros s.
  { by apply elem_of_nil in Hx. }
  simpl. apply elem_of_cons in Hx as [<-|Hx].
  - apply raises_bind_l, Hbody.
  - apply raises_bind_r. intros s' _. by apply IH.
Qed.

(** ** Sums of class counts, enumerations *)

Lemma sum_counts_app (l1 l2 : list (list Z)) :
  sum_counts (l1 ++ l2) = sum_counts l1 + sum_counts l2.
Proof. induction l1 as [|b l1 IH]; simpl; [done|]. rewrite IH. lia. Qed.

Lemma sum_counts_nonneg (l : list (list Z)) : 0 <= sum_counts l.
Proof. induction l as [|b l IH]; simpl; [done|]. unfold len. lia. Qed.

Lemma sum_counts_concat (l : list (list Z)) : sum_counts l = len (concat l).
Proof.
  induction l as [|b l IH]; simpl; [done|]. rewrite IH. unfold len.
  rewrite length_app. lia.
Qed.

Lemma sum_counts_take_mono (l : list (list Z)) (i j : nat) :
  (i <= j)%nat -> sum_counts (take i l) <= sum_counts (take j l).
Proof.
  intros Hij. replace j with (i + (j - i))%nat by lia.
  rewrite <- take_take_drop, sum_counts_app.
  pose proof (sum_counts_nonneg (take (j - i) (drop i l))). lia.
Qed.

Lemma sum_counts_take_le (l : list (list Z)) (i : nat) :
  sum_counts (take i l) <= sum_counts l.
Proof.
  rewrite <- (take_drop i l) at 2. rewrite sum_counts_app.
  pose proof (sum_counts_nonneg (drop i l)). lia.
Qed.

Lemma zip_seq_snoc {X} (k : nat) (l : list X) (x : X) :
  zip (seq k (length (l ++ [x]))) (l ++ [x])
  = zip (seq k (length l)) l ++ [((k + length l)%nat, x)].
Proof.
  revert k. induction l as [|y l IH]; intros k; simpl.
  - by rewrite Nat.add_0_r.
  - rewrite IH. by rewrite Nat.add_succ_r.
Qed.

Lemma enumerate_snoc {X} (l : list X) (x : X) :
  enumerate (l ++ [x]) = enumerate l ++ [(length l, x)].
Proof. unfold enumerate. by rewrite zip_seq_snoc. Qed.

Lemma bind_assoc {A B C} (m : result A) (f : A -> result B) (g : B -> result C) :
  bind (bind m f) g = bind m (fun a => bind (f a) g).
Proof. by destruct m. Qed.

Lemma bind_ret {A} (m : result A) : bind m Ok = m.
Proof. by destruct m. Qed.

Lemma for_each_snoc {S X} (body : S -> X -> result S) (s : S) (xs : list X) (x : X) :
  for_each body s (xs ++ [x]) = bind (for_each body s xs) (fun s' => body s' x).
Proof.
  rewrite for_each_app. destruct (for_each body s xs); simpl; [|done].
  apply bind_ret.
Qed.

(** ** Lists of class batches *)

Lemma elem_of_concat {A} (x : A) (ls : list (list A)) :
  x ∈ concat ls <-> exists l, l ∈ ls /\ x ∈ l.
Proof.
  induction ls as [|l ls IH]; simpl.
  - split; [intros H; by apply elem_of_nil in H|].
    intros (l & H & _). by apply elem_of_nil in H.
  - rewrite elem_of_app, IH. split.
    + intros [Hx|(l' & Hl' & Hx)]; [exists l; split; [left | done]|].
      exists l'. split; [by right | done].
    + intros (l' & Hl' & Hx). apply elem_of_cons in Hl' as [->|Hl']; [by left|].
      right. eauto.
Qed.

Lemma NoDup_concat_elem {A} (l : list A) (ls : list (list A)) :
  NoDup (concat ls) -> l ∈ ls -> NoDup l.
Proof.
  induction ls as [|l' ls IH]; intros Hnd Hl; [by apply elem_of_nil in Hl|].
  simpl in Hnd. apply NoDup_app in Hnd as (Hl' & _ & Hls).
  apply elem_of_cons in Hl as [->|Hl]; auto.
Qed.

Lemma concat_fmap_concat {A B} (f : A -> list B) (ls : list (list A)) :
  concat ((fun l => concat (f <$> l)) <$> ls) = concat (f <$> concat ls).
Proof.
  induction ls as [|l ls IH]; [done|]. cbn [fmap list_fmap concat].
  rewrite fmap_app, concat_app. by rewrite <- IH.
Qed.

Lemma count_class_fmap_inj (f : Z -> Z) (l : list Z) (c : Z) :
  (forall x, x ∈ l -> f x = f c -> x = c) ->
  count_class (f c) (f <$> l) = count_class c l.
Proof.
  unfold count_class. induction l as [|x l IH]; intros Hinj; [done|].
  cbn [fmap list_fmap]. rewrite !filter_cons.
  assert (IH' : length (filter (fun y => y = f c) (f <$> l))
                = length (filter (fun y => y = c) l)).
  { apply IH. intros y Hy. apply Hinj. by right. }
  destruct (decide (x = c)) as [->|Hne].
  - rewrite decide_True by done. simpl. by rewrite IH'.
  - rewrite decide_False; [done|]. intros Heq. apply Hne, Hinj; [left | done].
Qed.

Lemma k_of_each_app (k : nat) (l1 l2 : list Z) :
  k_of_each k (l1 ++ l2) = k_of_each k l1 ++ k_of_each k l2.
Proof. unfold k_of_each. by rewrite fmap_app, concat_app. Qed.

Lemma length_k_of_each (k : nat) (classes : list Z) :
  length (k_of_each k classes) = (length classes * k)%nat.
Proof.
  unfold k_of_each. rewrite (length_concat_constant _ k); [by rewrite length_fmap|].
  apply Forall_fmap, Forall_forall. intros c _. simpl. apply length_replicate.
Qed.

Lemma count_class_k_of_each (k : nat) (classes : list Z) (c : Z) :
  NoDup classes ->
  count_class c (k_of_each k classes) = if decide (c ∈ classes) then k else 0%nat.
Proof. intros Hnd. by apply (count_class_runs c classes (fun _ => k)). Qed.

Lemma count_class_elem (c : Z) (t : list Z) : c ∈ t -> (1 <= count_class c t)%nat.
Proof.
  unfold count_class. induction t as [|x t IH]; intros Hc.
  { by apply elem_of_nil in Hc. }
  rewrite filter_cons. destruct (decide (x = c)) as [|Hne]; [simpl; lia|].
  apply elem_of_cons in Hc as [->|Hc]; [done | by apply IH].
Qed.

(** ** The episode after [return_random_labels] and [return_label_batches] *)

Lemma randomized_episode (perm : list nat) (labels labels' : list Z) (ns na : Z)
    (class_batches : list (list Z)) (k : nat) :
  perm ≡ₚ seq 0 (length (unique labels)) ->
  (forall c, c ∈ labels -> count_class c labels = (2 * k)%nat) ->
  1 <= ns <= len (unique labels) -> 1 <= na ->
  return_random_labels perm labels = Ok labels' ->
  return_label_batches ns na labels' = Ok class_batches ->
  length labels' = length labels /\
  class_batches <> [] /\
  NoDup (concat class_batches) /\
  (forall c, c ∈ concat class_batches <-> c ∈ labels) /\
  (forall c, c ∈ concat class_batches -> count_class c labels' = (2 * k)%nat).
Proof.
  intros Hperm Hcount Hns Hna Hrand Hbatches.
  destruct (return_random_labels_classes _ _ _ Hperm Hrand) as (Hu & -> & Hu').
  assert (Hcons : unique (converted perm <$> labels)
                  = seqZ 0 (len (unique (converted perm <$> labels))))
    by (by rewrite Hu', <- Hu).
  destruct (return_label_batches_consecutive_aux ns na 0 _ Hcons) as (bs & Hbs & Hcat & _);
    [by rewrite Hu' | done |].
  rewrite Hbatches in Hbs. injection Hbs as <-.
  assert (Hsame : forall c, c ∈ concat class_batches <-> c ∈ labels).
  { intros c. rewrite Hcat, Hu'. apply elem_of_unique. }
  split; [apply length_fmap|]. split.
  { intros ->. simpl in Hcat. rewrite Hu' in Hcat. symmetry in Hcat.
    apply (f_equal len) in Hcat. change (len []) with 0 in Hcat. lia. }
  split; [rewrite Hcat; apply unique_NoDup|]. split; [done|].
  intros c Hc. apply Hsame in Hc as Hc'.
  apply (converted_values perm labels _ Hu Hperm) in Hc'.
  apply list_elem_of_fmap in Hc' as (c0 & -> & Hc0).
  rewrite count_class_fmap_inj.
  - by apply Hcount.
  - intros x Hx Heq. exact (converted_inj perm labels _ Hu Hperm x c0 Hx Hc0 Heq).
Qed.

(** ** The final query set *)

Lemma count_class_absent (c : Z) (t : list Z) : c ∉ t -> count_class c t = 0%nat.
Proof.
  unfold count_class. induction t as [|x t IH]; intros Hc; [done|].
  rewrite filter_cons. rewrite not_elem_of_cons in Hc. destruct Hc as [Hne Hc].
  rewrite decide_False by done. by apply IH.
Qed.

Lemma count_class_present (c : Z) (t : list Z) :
  (1 <= count_class c t)%nat -> c ∈ t.
Proof.
  intros Hc. destruct (decide (c ∈ t)) as [|Hout]; [done|].
  rewrite count_class_absent in Hc by done. lia.
Qed.

Lemma torch_cat_Ok {A} (ts : list (list A)) (t : list A) :
  torch_cat ts = Ok t -> t = concat ts /\ ts <> [].
Proof. destruct ts; [done|]. by intros [= <-]. Qed.

(** The labels [final_query] selects: every class of the accumulated
    query labels, in ascending order, with at most five examples each. *)
Lemma final_query_labels {Input : Type} (query_inputs : list (list Input))
    (query_labels : list (list Z)) (qi : list Input) (ql : list Z) :
  final_query query_inputs query_labels = Ok (qi, ql) ->
  ql = concat ((fun c => replicate (5 `min` count_class c (concat query_labels)) c)
                 <$> unique (concat query_labels)) /\
  length qi = length ql.
Proof.
  unfold final_query. intros Hrun.
  apply bind_Ok in Hrun as (inputs & Hin & Hrun).
  apply bind_Ok in Hrun as (lbls & Hlb & Hrun).
  apply torch_cat_Ok in Hlb as [-> _].
  apply bind_Ok in Hrun as (idx & Hidx & Hrun).
  apply torch_cat_Ok in Hidx as [-> _].
  apply bind_Ok in Hrun as (qi' & Hqi & Hrun).
  apply bind_Ok in Hrun as (ql' & Hql & Hrun).
  injection Hrun as <- <-.
  change (map (fun c => take 5 (where_eq (concat query_labels) c)))
    with (fmap (M := list) (fun c => take 5 (where_eq (concat query_labels) c)))
    in Hql, Hqi.
  rewrite (gather_runs (concat query_labels) (unique (concat query_labels))
             (fun c => take 5 (where_eq (concat query_labels) c))) in Hql.
  2:{ intros c. apply Forall_take, where_eq_spec. }
  injection Hql as <-. split.
  - f_equal. apply list_fmap_ext. intros _ c _. simpl.
    by rewrite length_take, where_eq_length.
  - apply gather_length in Hqi. rewrite Hqi.
    rewrite !length_concat. f_equal. rewrite <- !list_fmap_compose.
    apply list_fmap_ext. intros _ c _. simpl. by rewrite length_replicate.
Qed.

(** At most five examples of a class, and all of them when there are
    fewer. *)
Lemma final_query_counts {Input : Type} (query_inputs : list (list Input))
    (query_labels : list (list Z)) (qi : list Input) (ql : list Z) (c : Z) :
  final_query query_inputs query_labels = Ok (qi, ql) ->
  count_class c ql = (5 `min` count_class c (concat query_labels))%nat.
Proof.
  intros Hrun. apply final_query_labels in Hrun as [-> _].
  rewrite (count_class_runs c (unique (concat query_labels))
             (fun c => (5 `min` count_class c (concat query_labels))%nat))
    by apply unique_NoDup.
  destruct (decide (c ∈ unique (concat query_labels))) as [|Hout]; [done|].
  rewrite elem_of_unique in Hout. rewrite count_class_absent by done. lia.
Qed.

Lemma final_query_total {Input : Type} (query_inputs : list (list Input))
    (query_labels : list (list Z)) :
  query_inputs <> [] -> concat query_labels <> [] ->
  length (concat query_inputs) = length (concat query_labels) ->
  exists qi ql, final_query query_inputs query_labels = Ok (qi, ql).
Proof.
  intros Hqi Hql Hlen. unfold final_query.
  destruct query_inputs as [|x xs]; [done|]. cbn [torch_cat bind].
  destruct query_labels as [|y ys]; [done|]. cbn [torch_cat bind].
  set (L := concat (y :: ys)) in *. set (I := concat (x :: xs)) in *.
  destruct (unique L) as [|c cs] eqn:Hu.
  { by apply unique_nil_inv in Hu. }
  rewrite <- Hu. replace (map (fun c => take 5 (where_eq L c)) (unique L))
    with (fmap (M := list) (fun c => take 5 (where_eq L c)) (unique L)) by done.
  assert (Hcat : torch_cat ((fun c => take 5 (where_eq L c)) <$> unique L)
                 = Ok (concat ((fun c => take 5 (where_eq L c)) <$> unique L))).
  { rewrite Hu. done. }
  rewrite Hcat. cbn [bind].
  destruct (gather_total I (concat ((fun c => take 5 (where_eq L c)) <$> unique L)))
    as (qi & Hgi & _).
  { apply Forall_concat, Forall_fmap, Forall_forall. intros c' _. simpl.
    apply Forall_take. eapply Forall_impl; [apply where_eq_spec|].
    simpl. intros j Hj. rewrite Hlen. by eapply lookup_lt_Some. }
  rewrite Hgi. cbn [bind].
  rewrite (gather_runs L (unique L) (fun c => take 5 (where_eq L c))).
  2:{ intros c'. apply Forall_take, where_eq_spec. }
  cbn [bind]. eauto.
Qed.

(** ** The continual learners *)

Section ContinualProperties.
Context {Input Features Logit Loss Acc Encoder Head : Type}.
Variable encode : bool -> Encoder -> list Input -> Features.
Variable apply_head : Head -> Features -> Logit.
Variable loss_func : list Logit -> list Z -> Loss.
Variable accuracy : list Logit -> list Z -> Acc.
Variable adapt_encoder : Loss -> Encoder -> Encoder.
Variable adapt_head : Loss -> nat -> Head -> Head.

Local Notation "'fscl_next'" :=
  (FSCL_next_batch encode apply_head loss_func accuracy adapt_encoder adapt_head).
Local Notation "'fscl_first'" :=
  (FSCL_first_batch encode apply_head loss_func accuracy adapt_encoder adapt_head).
Local Notation "'fscl_batches'" :=
  (FSCL_batches encode apply_head loss_func accuracy adapt_encoder adapt_head).
Local Notation "'oml_batch'" :=
  (OML_batch encode apply_head loss_func accuracy adapt_encoder adapt_head).
Local Notation "'oml_batches'" :=
  (OML_batches encode apply_head loss_func accuracy adapt_encoder adapt_head).
Local Notation "'fscl_meta_learn_out'" :=
  (FSCL_meta_learn_out encode apply_head loss_func accuracy adapt_encoder adapt_head).
Local Notation "'oml_meta_learn_out'" :=
  (OML_meta_learn_out encode apply_head loss_func accuracy adapt_encoder adapt_head).
Local Notation "'fscl_meta_learn'" :=
  (FSCL_meta_learn encode apply_head loss_func accuracy adapt_encoder adapt_head).
Local Notation "'oml_meta_learn'" :=
  (OML_meta_learn encode apply_head loss_func accuracy adapt_encoder adapt_head).

Lemma iteration_split_nil (_inputs : list Input) (labels : list Z) :
  iteration_split _inputs labels [] = Raise RuntimeError.
Proof. reflexivity. Qed.

Lemma fscl_next_empty_batch (self : FSCL) (_inputs : list Input) (labels : list Z)
    (i : nat) (st : fscl_state) :
  raises (fscl_next self _inputs labels st (i, [])).
Proof. by exists RuntimeError. Qed.

Lemma oml_batch_empty_batch (self : OML) (_inputs : list Input) (labels : list Z)
    (i : nat) (st : oml_state) :
  raises (oml_batch self _inputs labels st (i, [])).
Proof. by exists RuntimeError. Qed.

Lemma fscl_batches_trailing_empty (self : FSCL) (_inputs : list Input)
    (labels : list Z) (learner : Model) (first : list Z) :
  raises (fscl_batches self _inputs labels learner [first; []]).
Proof.
  unfold FSCL_batches. apply raises_bind_r. intros st _.
  apply (for_each_raises _ (0%nat, [])); [left|].
  intros s. apply fscl_next_empty_batch.
Qed.

Lemma oml_batches_trailing_empty (self : OML) (_inputs : list Input)
    (labels : list Z) (learner : Model) (first : list Z) :
  raises (oml_batches self _inputs labels learner [first; []]).
Proof.
  unfold OML_batches.
  apply (for_each_raises _ (1%nat, [])); [right; left|].
  intros s. apply oml_batch_empty_batch.
Qed.

Lemma fscl_meta_learn_exact_raises (self : FSCL) (perm : list nat)
    (_inputs : list Input) (labels : list Z) :
  perm ≡ₚ seq 0 (length (unique labels)) ->
  len (unique labels) = fscl_n_classes_start self ->
  raises (fscl_meta_learn self perm (_inputs, labels)).
Proof.
  intros Hperm Hns. unfold FSCL_meta_learn, FSCL_meta_learn_out.
  apply raises_bind_l, raises_bind_r. intros labels' Hlabels'.
  destruct (return_random_labels_classes _ _ _ Hperm Hlabels') as (_ & _ & Hu).
  destruct (return_label_batches_exact_raises_or (fscl_n_classes_start self)
              (fscl_n_class_additions self) labels') as [Hr| ->].
  { by rewrite Hu. }
  { by apply raises_bind_l. }
  cbn [bind]. apply raises_bind_l, fscl_batches_trailing_empty.
Qed.

Lemma oml_meta_learn_exact_raises (self : OML) (perm : list nat)
    (_inputs : list Input) (labels : list Z) :
  perm ≡ₚ seq 0 (length (unique labels)) ->
  len (unique labels) = oml_n_classes_start self ->
  raises (oml_meta_learn self perm (_inputs, labels)).
Proof.
  intros Hperm Hns. unfold OML_meta_learn, OML_meta_learn_out.
  apply raises_bind_l, raises_bind_r. intros labels' Hlabels'.
  destruct (return_random_labels_classes _ _ _ Hperm Hlabels') as (_ & _ & Hu).
  destruct (return_label_batches_exact_raises_or (oml_n_classes_start self)
              (oml_n_class_additions self) labels') as [Hr| ->].
  { by rewrite Hu. }
  { by apply raises_bind_l. }
  cbn [bind]. apply raises_bind_l, oml_batches_trailing_empty.
Qed.

(** C9. When the episode has exactly [n_classes_start] classes,
    [return_label_batches] returns all classes followed by an empty batch
    (for a non-empty episode and a non-zero [n_class_additions]),
    [return_indexes] raises on the empty batch, and both
    [FSCL.meta_learn] and [OML.meta_learn] raise, whatever the model, the
    inputs and the permutation drawn. *)
Theorem exact_start_count_raises (fscl : FSCL) (oml : OML) (perm : list nat)
    (_inputs : list Input) (labels : list Z) :
  perm ≡ₚ seq 0 (length (unique labels)) ->
  len (unique labels) = fscl_n_classes_start fscl ->
  len (unique labels) = oml_n_classes_start oml ->
  (labels <> [] -> fscl_n_class_additions fscl <> 0 ->
   return_label_batches (fscl_n_classes_start fscl) (fscl_n_class_additions fscl)
     labels = Ok [unique labels; []]) /\
  return_indexes labels [] = Raise RuntimeError /\
  raises (fscl_meta_learn fscl perm (_inputs, labels)) /\
  raises (oml_meta_learn oml perm (_inputs, labels)).
Proof.
  intros Hperm Hf Ho.
  split; [intros Hne Hna; by apply return_label_batches_exact|].
  split; [done|].
  split; [by apply fscl_meta_learn_exact_raises | by apply oml_meta_learn_exact_raises].
Qed.

(** *** The class heads behind the logits *)

Lemma heads_loop (m : @Model Encoder Head) (features : Features) (n : nat) (acc0 acc : list Logit) :
  for_each (fun layer_logits c_layer =>
              match classifiers m !! Z.to_nat c_layer with
              | None => Raise IndexError
              | Some head => Ok (layer_logits ++ [apply_head head features])
              end) acc0 (range (Z.of_nat n)) = Ok acc ->
  length acc = (length acc0 + n)%nat /\ (n <= length (classifiers m))%nat.
Proof.
  revert acc. induction n as [|n IH]; intros acc Hrun.
  - simpl in Hrun. injection Hrun as <-. lia.
  - rewrite range_S, for_each_app in Hrun.
    apply bind_Ok in Hrun as (acc1 & Hacc1 & Hlast).
    apply IH in Hacc1 as [Hlen Hle]. simpl in Hlast. rewrite Nat2Z.id in Hlast.
    destruct (classifiers m !! n) as [head|] eqn:Hhead; [|done].
    simpl in Hlast. injection Hlast as <-.
    apply lookup_lt_Some in Hhead. rewrite length_app. simpl. lia.
Qed.

Lemma heads_loop_total (m : @Model Encoder Head) (features : Features) (n : nat) (acc0 : list Logit) :
  (n <= length (classifiers m))%nat ->
  exists acc,
    for_each (fun layer_logits c_layer =>
                match classifiers m !! Z.to_nat c_layer with
                | None => Raise IndexError
                | Some head => Ok (layer_logits ++ [apply_head head features])
                end) acc0 (range (Z.of_nat n)) = Ok acc.
Proof.
  induction n as [|n IH]; intros Hn; [by exists acc0|].
  destruct IH as [acc Hacc]; [lia|].
  rewrite range_S, for_each_app, Hacc. simpl. rewrite Nat2Z.id.
  destruct (lookup_lt_is_Some_2 (classifiers m) n Hn) as [head ->]. eauto.
Qed.

Lemma torch_cat_columns (cols : list Logit) (lg : list Logit) :
  torch_cat (map (fun col => [col]) cols) = Ok lg -> lg = cols /\ cols <> [].
Proof.
  destruct cols as [|c cols]; [done|]. intros [= <-]. split; [|done].
  change (concat (map (fun col => [col]) (c :: cols)))
    with (c :: concat (map (fun col => [col]) cols)).
  f_equal. induction cols as [|c' cols IH]; [done|]. simpl. by rewrite IH.
Qed.

(** [FSCLModel.forward] computes the logits from exactly
    [total_classes_present] heads and raises beyond the heads it has. *)
Lemma FSCLModel_forward_heads (m : @Model Encoder Head) (audio : list Input)
    (total_classes_present : Z) (lg : list Logit) :
  FSCLModel_forward encode apply_head m audio total_classes_present = Ok lg ->
  len lg = total_classes_present /\
  1 <= total_classes_present <= len (classifiers m).
Proof.
  unfold FSCLModel_forward. intros Hrun.
  apply bind_Ok in Hrun as (cols & Hcols & Hcat).
  apply torch_cat_columns in Hcat as [-> Hne].
  destruct (Z.le_gt_cases total_classes_present 0) as [Hle|Hgt].
  { rewrite range_nonpos in Hcols by done. simpl in Hcols. by injection Hcols as <-. }
  rewrite <- (Z2Nat.id total_classes_present) in Hcols by lia.
  apply heads_loop in Hcols as [Hlen Hle]. unfold len. simpl in Hlen. lia.
Qed.

Lemma FSCLModel_forward_total (m : @Model Encoder Head) (audio : list Input)
    (total_classes_present : Z) :
  1 <= total_classes_present <= len (classifiers m) ->
  exists lg,
    FSCLModel_forward encode apply_head m audio total_classes_present = Ok lg.
Proof.
  intros Hb. unfold FSCLModel_forward.
  destruct (heads_loop_total m (encode (train_mode m) (encoder m) audio)
              (Z.to_nat total_classes_present) [])
    as [cols Hcols]; [unfold len in Hb; lia|].
  pose proof (heads_loop _ _ _ _ _ Hcols) as [Hlen _].
  rewrite Z2Nat.id in Hcols by lia. rewrite Hcols. cbn [bind].
  destruct cols as [|c cols]; [simpl in Hlen; lia|]. simpl. eauto.
Qed.

(** [OMLModel.forward] computes the logits from all the heads of the
    model, whatever [total_classes_present] is. *)
Lemma OMLModel_forward_heads (m : @Model Encoder Head) (audio : list Input)
    (total_classes_present : Z) (inner_loop : bool) (lg : list Logit) :
  OMLModel_forward encode apply_head m audio total_classes_present inner_loop
  = Ok lg ->
  len lg = len (classifiers m) /\ 1 <= len (classifiers m).
Proof.
  unfold OMLModel_forward. intros Hrun.
  apply bind_Ok in Hrun as (cols & Hcols & Hcat).
  apply torch_cat_columns in Hcat as [-> Hne].
  unfold len in Hcols. apply heads_loop in Hcols as [Hlen _].
  unfold len. simpl in Hlen. destruct cols; [done|]. simpl in *. lia.
Qed.

Lemma OMLModel_forward_total (m : @Model Encoder Head) (audio : list Input)
    (total_classes_present : Z) (inner_loop : bool) :
  1 <= len (classifiers m) ->
  exists lg,
    OMLModel_forward encode apply_head m audio total_classes_present inner_loop
    = Ok lg.
Proof.
  intros Hb. unfold OMLModel_forward.
  destruct (heads_loop_total m (encode (train_mode m) (encoder m) audio)
              (length (classifiers m)) []) as [cols Hcols]; [lia|].
  pose proof (heads_loop _ _ _ _ _ Hcols) as [Hlen _].
  unfold len at 1. rewrite Hcols. cbn [bind].
  destruct cols as [|c cols]; [unfold len in Hb; simpl in Hlen; lia|]. simpl. eauto.
Qed.

Lemma adapt_heads (m : @Model Encoder Head) (loss : Loss) :
  length (classifiers (adapt adapt_encoder adapt_head m loss))
  = length (classifiers m).
Proof. unfold adapt. simpl. apply length_imap. Qed.

(** The inner loop keeps the number of heads; the output it leaves is the
    one it found when it runs no step, and else comes from a forward
    pass on a model with as many heads. *)
Lemma adapt_steps_inv (P : list Logit -> Prop) (steps : nat)
    (fwd : @Model Encoder Head -> result (list Logit)) (support_labels : list Z)
    (learner learner' : @Model Encoder Head) (output output' : option (@Output Logit)) :
  (forall m lg, length (classifiers m) = length (classifiers learner) ->
                fwd m = Ok lg -> P lg) ->
  adapt_steps loss_func adapt_encoder adapt_head steps fwd support_labels
    learner output = Ok (learner', output') ->
  length (classifiers learner') = length (classifiers learner) /\
  train_mode learner' = train_mode learner /\
  ((steps = 0%nat /\ output' = output) \/
   ((1 <= steps)%nat /\
    exists lg, P lg /\ output' = Some {| logits := lg; labels := support_labels |})).
Proof.
  revert learner output. induction steps as [|n IH]; intros learner output HP Hrun.
  - simpl in Hrun. injection Hrun as <- <-. auto.
  - simpl in Hrun. apply bind_Ok in Hrun as (lg & Hlg & Hrun).
    apply IH in Hrun as (Hlen & Hmode & Hout).
    2:{ intros m lg' Hm. apply HP. by rewrite Hm, adapt_heads. }
    rewrite adapt_heads in Hlen. split; [done|]. split; [done|]. right.
    split; [lia|]. destruct Hout as [[-> ->]|[_ (lg' & Hlg' & ->)]].
    + exists lg. split; [|done]. exact (HP learner lg eq_refl Hlg).
    + by exists lg'.
Qed.

Lemma adapt_steps_total (steps : nat) (fwd : @Model Encoder Head -> result (list Logit))
    (support_labels : list Z) (learner : @Model Encoder Head) (output : option (@Output Logit)) :
  (forall m, length (classifiers m) = length (classifiers learner) ->
             exists lg, fwd m = Ok lg) ->
  exists learner' output',
    adapt_steps loss_func adapt_encoder adapt_head steps fwd support_labels
      learner output = Ok (learner', output').
Proof.
  revert learner output. induction steps as [|n IH]; intros learner output Hfwd.
  - simpl. eauto.
  - simpl. destruct (Hfwd learner eq_refl) as [lg ->]. cbn [bind].
    apply IH. intros m Hm. apply Hfwd. by rewrite Hm, adapt_heads.
Qed.

(** *** One class batch *)

Lemma read_output_Ok (output : option (@Output Logit)) (out : Output) :
  read_output output = Ok out -> output = Some out.
Proof. destruct output; simpl; congruence. Qed.

Lemma fscl_first_inv (self : FSCL) (_inputs : list Input) (labels : list Z)
    (learner : @Model Encoder Head) (class_batches : list (list Z))
    (st : fscl_state) :
  fscl_first self _inputs labels learner class_batches = Ok st ->
  exists class_batch si sl qi ql out,
    class_batches !! 0%nat = Some class_batch /\
    iteration_split _inputs labels class_batch = Ok (si, sl, qi, ql) /\
    fs_total_classes_present st = len class_batch /\
    fs_query_inputs st = [qi] /\ fs_query_labels st = [ql] /\
    length (classifiers (fs_learner st)) = length (classifiers learner) /\
    fs_output st = Some out /\
    len (logits out) = len class_batch /\
    len class_batch <= len (classifiers learner).
Proof.
  unfold FSCL_first_batch. intros Hrun.
  apply bind_Ok in Hrun as (cb & Hcb & Hrun).
  apply bind_Ok in Hrun as ([[[si sl] qi] ql] & Hsplit & Hrun).
  apply bind_Ok in Hrun as (quick_in & _ & Hrun).
  apply bind_Ok in Hrun as (quick_lb & _ & Hrun).
  apply bind_Ok in Hrun as ([learner' output] & Hsteps & Hrun).
  apply bind_Ok in Hrun as (out & Hout & Hrun).
  apply bind_Ok in Hrun as (acc & _ & Hrun).
  injection Hrun as <-. cbn [fs_total_classes_present fs_query_inputs
    fs_query_labels fs_learner fs_output].
  apply read_output_Ok in Hout as ->.
  apply (adapt_steps_inv
           (fun lg => len lg = len cb /\ len cb <= len (classifiers learner)))
    in Hsteps as (Hlen & _ & Hout).
  2:{ intros m lg Hm Hfwd. apply FSCLModel_forward_heads in Hfwd.
      unfold len in *. rewrite <- Hm. lia. }
  destruct Hout as [[_ ?]|[_ (lg & [Hlg Hle] & [= ->])]]; [done|].
  exists cb, si, sl, qi, ql, {| logits := lg; labels := sl |}.
  destruct (class_batches !! 0%nat); [|done]. injection Hcb as ->.
  repeat split; done.
Qed.

Lemma fscl_next_inv (self : FSCL) (_inputs : list Input) (labels : list Z)
    (st st' : fscl_state) (i : nat) (class_batch : list Z) :
  fscl_next self _inputs labels st (i, class_batch) = Ok st' ->
  exists si sl qi ql out,
    iteration_split _inputs labels class_batch = Ok (si, sl, qi, ql) /\
    fs_total_classes_present st'
    = fs_total_classes_present st + len class_batch /\
    fs_query_inputs st' = fs_query_inputs st ++ [qi] /\
    fs_query_labels st' = fs_query_labels st ++ [ql] /\
    length (classifiers (fs_learner st')) = length (classifiers (fs_learner st)) /\
    fs_output st' = Some out /\
    ((fscl_training_steps self <= 0 /\ fs_output st = Some out) \/
     (len (logits out) = fs_total_classes_present st' /\
      fs_total_classes_present st' <= len (classifiers (fs_learner st)))).
Proof.
  unfold FSCL_next_batch. intros Hrun.
  apply bind_Ok in Hrun as ([[[si sl] qi] ql] & Hsplit & Hrun).
  apply bind_Ok in Hrun as (quick_in & _ & Hrun).
  apply bind_Ok in Hrun as (quick_lb & _ & Hrun).
  apply bind_Ok in Hrun as ([learner' output] & Hsteps & Hrun).
  apply bind_Ok in Hrun as (out & Hout & Hrun).
  apply bind_Ok in Hrun as (acc & _ & Hrun).
  injection Hrun as <-. cbn [fs_total_classes_present fs_query_inputs
    fs_query_labels fs_learner fs_output].
  apply read_output_Ok in Hout as ->.
  apply (adapt_steps_inv
           (fun lg => len lg = fs_total_classes_present st + len class_batch /\
                      fs_total_classes_present st + len class_batch
                      <= len (classifiers (fs_learner st))))
    in Hsteps as (Hlen & _ & Hout).
  2:{ intros m lg Hm Hfwd. apply FSCLModel_forward_heads in Hfwd.
      unfold len in *. rewrite <- Hm. lia. }
  exists si, sl, qi, ql, out. repeat (split; [done|]).
  destruct Hout as [[Hz Hsame]|[_ (lg & [Hlg Hle] & [= ->])]].
  - left. split; [lia | done].
  - right. done.
Qed.

Lemma oml_batch_inv (self : OML) (_inputs : list Input) (labels : list Z)
    (st st' : oml_state) (i : nat) (class_batch : list Z) :
  oml_batch self _inputs labels st (i, class_batch) = Ok st' ->
  exists si sl qi ql out,
    iteration_split _inputs labels class_batch = Ok (si, sl, qi, ql) /\
    os_total_classes_present st'
    = os_total_classes_present st + len class_batch /\
    os_query_inputs st' = os_query_inputs st ++ [qi] /\
    os_query_labels st' = os_query_labels st ++ [ql] /\
    length (classifiers (os_learner st')) = length (classifiers (os_learner st)) /\
    os_output st' = Some out /\
    ((oml_training_steps self <= 0 /\ os_output st = Some out) \/
     len (logits out) = len (classifiers (os_learner st))).
Proof.
  unfold OML_batch. intros Hrun.
  apply bind_Ok in Hrun as ([[[si sl] qi] ql] & Hsplit & Hrun).
  apply bind_Ok in Hrun as ([learner' output] & Hsteps & Hrun).
  apply bind_Ok in Hrun as (out & Hout & Hrun).
  apply bind_Ok in Hrun as (acc & _ & Hrun).
  injection Hrun as <-. cbn [os_total_classes_present os_query_inputs
    os_query_labels os_learner os_output].
  apply read_output_Ok in Hout as ->.
  apply (adapt_steps_inv
           (fun lg => len lg = len (classifiers (os_learner st))))
    in Hsteps as (Hlen & _ & Hout).
  2:{ intros m lg Hm Hfwd. apply OMLModel_forward_heads in Hfwd.
      unfold len in *. rewrite <- Hm. lia. }
  exists si, sl, qi, ql, out. repeat (split; [done|]).
  destruct Hout as [[Hz Hsame]|[_ (lg & Hlg & [= ->])]].
  - left. split; [lia | done].
  - right. done.
Qed.

(** *** The run over a prefix of the class batches *)

Lemma fscl_batches_snoc (self : FSCL) (_inputs : list Input) (labels : list Z)
    (learner : @Model Encoder Head) (first : list Z) (rest : list (list Z))
    (class_batch : list Z) :
  fscl_batches self _inputs labels learner ((first :: rest) ++ [class_batch])
  = bind (fscl_batches self _inputs labels learner (first :: rest))
         (fun st => fscl_next self _inputs labels st (length rest, class_batch)).
Proof.
  unfold FSCL_batches.
  change (fscl_first self _inputs labels learner ((first :: rest) ++ [class_batch]))
    with (fscl_first self _inputs labels learner (first :: rest)).
  rewrite bind_assoc.
  change (drop 1 ((first :: rest) ++ [class_batch])) with (rest ++ [class_batch]).
  change (drop 1 (first :: rest)) with rest.
  destruct (fscl_first self _inputs labels learner (first :: rest)) as [st|e];
    [|done].
  cbn [bind]. by rewrite enumerate_snoc, for_each_snoc.
Qed.

Lemma oml_batches_snoc (self : OML) (_inputs : list Input) (labels : list Z)
    (learner : @Model Encoder Head) (done : list (list Z)) (class_batch : list Z) :
  oml_batches self _inputs labels learner (done ++ [class_batch])
  = bind (oml_batches self _inputs labels learner done)
         (fun st => oml_batch self _inputs labels st (length done, class_batch)).
Proof. unfold OML_batches. by rewrite enumerate_snoc, for_each_snoc. Qed.

Local Notation "'fscl_after'" :=
  (FSCL_after_batch encode apply_head loss_func accuracy adapt_encoder adapt_head).
Local Notation "'oml_after'" :=
  (OML_after_batch encode apply_head loss_func accuracy adapt_encoder adapt_head).

Lemma fscl_after_batch_0 (self : FSCL) (_inputs : list Input) (labels : list Z)
    (learner : @Model Encoder Head) (class_batches : list (list Z)) :
  fscl_after self _inputs labels learner class_batches 0
  = fscl_first self _inputs labels learner class_batches.
Proof.
  unfold FSCL_after_batch, FSCL_batches.
  destruct class_batches as [|first rest]; [done|].
  change (take 1 (first :: rest)) with [first].
  change (fscl_first self _inputs labels learner [first])
    with (fscl_first self _inputs labels learner (first :: rest)).
  apply bind_ret.
Qed.

Lemma fscl_after_batch_S (self : FSCL) (_inputs : list Input) (labels : list Z)
    (learner : @Model Encoder Head) (class_batches : list (list Z)) (i : nat)
    (class_batch : list Z) :
  class_batches !! S i = Some class_batch ->
  fscl_after self _inputs labels learner class_batches (S i)
  = bind (fscl_after self _inputs labels learner class_batches i)
         (fun st => fscl_next self _inputs labels st (i, class_batch)).
Proof.
  intros Hcb. unfold FSCL_after_batch.
  rewrite (take_S_r _ _ _ Hcb).
  destruct class_batches as [|first rest]; [done|].
  change (take (S i) (first :: rest)) with (first :: take i rest).
  rewrite fscl_batches_snoc.
  apply lookup_lt_Some in Hcb. simpl in Hcb.
  replace (length (take i rest)) with i by (rewrite length_take; lia). done.
Qed.

Lemma oml_after_batch_0 (self : OML) (_inputs : list Input) (labels : list Z)
    (learner : @Model Encoder Head) (class_batches : list (list Z))
    (class_batch : list Z) :
  class_batches !! 0%nat = Some class_batch ->
  oml_after self _inputs labels learner class_batches 0
  = oml_batch self _inputs labels (OML_init learner) (0%nat, class_batch).
Proof.
  intros Hcb. unfold OML_after_batch.
  destruct class_batches as [|first rest]; [done|]. injection Hcb as ->.
  change (take 1 (class_batch :: rest)) with ([] ++ [class_batch]).
  by rewrite oml_batches_snoc.
Qed.

Lemma oml_after_batch_S (self : OML) (_inputs : list Input) (labels : list Z)
    (learner : @Model Encoder Head) (class_batches : list (list Z)) (i : nat)
    (class_batch : list Z) :
  class_batches !! S i = Some class_batch ->
  oml_after self _inputs labels learner class_batches (S i)
  = bind (oml_after self _inputs labels learner class_batches i)
         (fun st => oml_batch self _inputs labels st (S i, class_batch)).
Proof.
  intros Hcb. unfold OML_after_batch.
  rewrite (take_S_r _ _ _ Hcb), oml_batches_snoc.
  apply lookup_lt_Some in Hcb.
  replace (length (take (S i) class_batches)) with (S i)
    by (rewrite length_take; lia). done.
Qed.

(** The locals after class batch [i]. *)
Lemma fscl_after_batch_inv (self : FSCL) (_inputs : list Input) (labels : list Z)
    (learner : @Model Encoder Head) (class_batches : list (list Z)) (i : nat)
    (st : fscl_state) :
  (i < length class_batches)%nat ->
  fscl_after self _inputs labels learner class_batches i = Ok st ->
  fs_total_classes_present st = sum_counts (take (S i) class_batches) /\
  length (classifiers (fs_learner st)) = length (classifiers learner) /\
  exists out,
    fs_output st = Some out /\
    (1 <= fscl_training_steps self ->
     len (logits out) = fs_total_classes_present st /\
     fs_total_classes_present st <= len (classifiers learner)).
Proof.
  revert st. induction i as [|i IH]; intros st Hi Hrun.
  - rewrite fscl_after_batch_0 in Hrun.
    apply fscl_first_inv in Hrun
      as (cb & si & sl & qi & ql & out & Hcb & _ & Htcp & _ & _ & Hlen & Hout & Hlg & Hle).
    destruct class_batches as [|first rest]; [done|]. injection Hcb as ->.
    simpl. rewrite Z.add_0_r. split; [done|]. split; [done|].
    exists out. split; [done|]. intros _. rewrite Htcp. done.
  - destruct (lookup_lt_is_Some_2 class_batches (S i) Hi) as [cb Hcb].
    rewrite (fscl_after_batch_S _ _ _ _ _ _ _ Hcb) in Hrun.
    apply bind_Ok in Hrun as (st0 & Hst0 & Hnext).
    apply IH in Hst0 as (Htcp0 & Hlen0 & _); [|lia].
    apply fscl_next_inv in Hnext
      as (si & sl & qi & ql & out & _ & Htcp & _ & _ & Hlen & Hout & Hheads).
    split.
    { rewrite Htcp, Htcp0, (take_S_r _ (S i) cb Hcb), sum_counts_app. simpl. lia. }
    split; [congruence|].
    exists out. split; [done|]. intros Hsteps.
    destruct Hheads as [[Hz _]|[Hlg Hle]]; [lia|].
    split; [done|]. unfold len in *. rewrite <- Hlen0. exact Hle.
Qed.

Lemma oml_after_batch_inv (self : OML) (_inputs : list Input) (labels : list Z)
    (learner : @Model Encoder Head) (class_batches : list (list Z)) (i : nat)
    (st : oml_state) :
  (i < length class_batches)%nat ->
  oml_after self _inputs labels learner class_batches i = Ok st ->
  os_total_classes_present st = sum_counts (take (S i) class_batches) /\
  length (classifiers (os_learner st)) = length (classifiers learner) /\
  exists out,
    os_output st = Some out /\
    (1 <= oml_training_steps self ->
     len (logits out) = len (classifiers learner)).
Proof.
  revert st. induction i as [|i IH]; intros st Hi Hrun.
  - destruct (lookup_lt_is_Some_2 class_batches 0 Hi) as [cb Hcb].
    rewrite (oml_after_batch_0 _ _ _ _ _ _ Hcb) in Hrun.
    apply oml_batch_inv in Hrun
      as (si & sl & qi & ql & out & _ & Htcp & _ & _ & Hlen & Hout & Hheads).
    rewrite (take_S_r _ 0 cb Hcb). simpl in *.
    split; [lia|]. split; [done|].
    exists out. split; [done|]. intros Hsteps.
    destruct Hheads as [[Hz _]|Hlg]; [lia | done].
  - destruct (lookup_lt_is_Some_2 class_batches (S i) Hi) as [cb Hcb].
    rewrite (oml_after_batch_S _ _ _ _ _ _ _ Hcb) in Hrun.
    apply bind_Ok in Hrun as (st0 & Hst0 & Hnext).
    apply IH in Hst0 as (Htcp0 & Hlen0 & _); [|lia].
    apply oml_batch_inv in Hnext
      as (si & sl & qi & ql & out & _ & Htcp & _ & _ & Hlen & Hout & Hheads).
    split.
    { rewrite Htcp, Htcp0, (take_S_r _ (S i) cb Hcb), sum_counts_app. simpl. lia. }
    split; [congruence|].
    exists out. split; [done|]. intros Hsteps.
    destruct Hheads as [[Hz _]|Hlg]; [lia|].
    unfold len in *. by rewrite <- Hlen0.
Qed.

(** When the run over all class batches succeeds, so did every prefix. *)
Lemma fscl_after_batch_prefix (self : FSCL) (_inputs : list Input)
    (labels : list Z) (learner : @Model Encoder Head)
    (class_batches : list (list Z)) (i j : nat) (st : fscl_state) :
  (i <= j)%nat -> (j < length class_batches)%nat ->
  fscl_after self _inputs labels learner class_batches j = Ok st ->
  exists st', fscl_after self _inputs labels learner class_batches i = Ok st'.
Proof.
  revert st. induction j as [|j IH]; intros st Hij Hj Hrun.
  - replace i with 0%nat by lia. eauto.
  - destruct (decide (i = S j)) as [->|Hne]; [eauto|].
    destruct (lookup_lt_is_Some_2 class_batches (S j) Hj) as [cb Hcb].
    rewrite (fscl_after_batch_S _ _ _ _ _ _ _ Hcb) in Hrun.
    apply bind_Ok in Hrun as (st0 & Hst0 & _).
    eapply IH; [lia | lia | exact Hst0].
Qed.

Lemma oml_after_batch_prefix (self : OML) (_inputs : list Input)
    (labels : list Z) (learner : @Model Encoder Head)
    (class_batches : list (list Z)) (i j : nat) (st : oml_state) :
  (i <= j)%nat -> (j < length class_batches)%nat ->
  oml_after self _inputs labels learner class_batches j = Ok st ->
  exists st', oml_after self _inputs labels learner class_batches i = Ok st'.
Proof.
  revert st. induction j as [|j IH]; intros st Hij Hj Hrun.
  - replace i with 0%nat by lia. eauto.
  - destruct (decide (i = S j)) as [->|Hne]; [eauto|].
    destruct (lookup_lt_is_Some_2 class_batches (S j) Hj) as [cb Hcb].
    rewrite (oml_after_batch_S _ _ _ _ _ _ _ Hcb) in Hrun.
    apply bind_Ok in Hrun as (st0 & Hst0 & _).
    eapply IH; [lia | lia | exact Hst0].
Qed.

(** C3 (as amended). In [FSCL.meta_learn] and [OML.meta_learn], once
    class batch [i] has been processed, [total_classes_present] is the sum
    of the class counts of the batches [0 .. i]; it does not decrease from
    one batch to the next, and it stays below any bound on the sum over
    all batches, which for an episode of consecutive labels is the number
    of its classes (at most [n_way] by the sampler). [FSCLModel] computes
    the logits from exactly [total_classes_present] heads and raises
    beyond the [n_way] heads it has. [OMLModel] computes the logits from
    all its [n_way] heads, whatever [total_classes_present] is. *)
Theorem total_classes_present_invariant (fscl : FSCL) (oml : OML)
    (_inputs : list Input) (labels : list Z) (learner : @Model Encoder Head)
    (class_batches : list (list Z)) (i : nat) :
  (i < length class_batches)%nat ->
  (forall st,
     fscl_after fscl _inputs labels learner class_batches i = Ok st ->
     fs_total_classes_present st = sum_counts (take (S i) class_batches) /\
     (forall j st', (j <= i)%nat ->
        fscl_after fscl _inputs labels learner class_batches j = Ok st' ->
        fs_total_classes_present st' <= fs_total_classes_present st) /\
     (forall n_way, sum_counts class_batches <= n_way ->
        fs_total_classes_present st <= n_way) /\
     (forall out, fs_output st = Some out -> 1 <= fscl_training_steps fscl ->
        len (logits out) = fs_total_classes_present st /\
        fs_total_classes_present st <= len (classifiers learner))) /\
  (forall st,
     oml_after oml _inputs labels learner class_batches i = Ok st ->
     os_total_classes_present st = sum_counts (take (S i) class_batches) /\
     (forall j st', (j <= i)%nat ->
        oml_after oml _inputs labels learner class_batches j = Ok st' ->
        os_total_classes_present st' <= os_total_classes_present st) /\
     (forall n_way, sum_counts class_batches <= n_way ->
        os_total_classes_present st <= n_way) /\
     (forall out, os_output st = Some out -> 1 <= oml_training_steps oml ->
        len (logits out) = len (classifiers learner))) /\
  (forall ns na lo,
     unique labels = seqZ lo (len (unique labels)) ->
     1 <= ns <= len (unique labels) -> 1 <= na ->
     return_label_batches ns na labels = Ok class_batches ->
     sum_counts class_batches = len (unique labels)) /\
  (forall m audio total_classes_present lg,
     FSCLModel_forward encode apply_head m audio total_classes_present = Ok lg ->
     len lg = total_classes_present /\
     1 <= total_classes_present <= len (classifiers m)) /\
  (forall m audio total_classes_present inner_loop lg,
     OMLModel_forward encode apply_head m audio total_classes_present inner_loop
     = Ok lg ->
     len lg = len (classifiers m)).
Proof.
  intros Hi. split; [|split; [|split; [|split]]].
  - intros st Hrun.
    destruct (fscl_after_batch_inv _ _ _ _ _ _ _ Hi Hrun)
      as (Htcp & _ & out & Hout & Hheads).
    split; [done|]. split; [|split].
    + intros j st' Hj Hrun'.
      assert (Hjl : (j < length class_batches)%nat) by lia.
      destruct (fscl_after_batch_inv _ _ _ _ _ _ _ Hjl Hrun') as (Htcp' & _).
      rewrite Htcp, Htcp'. apply sum_counts_take_mono. lia.
    + intros n_way Hn. rewrite Htcp.
      pose proof (sum_counts_take_le class_batches (S i)). lia.
    + intros out' Hout' Hsteps. rewrite Hout in Hout'. injection Hout' as <-. auto.
  - intros st Hrun.
    destruct (oml_after_batch_inv _ _ _ _ _ _ _ Hi Hrun)
      as (Htcp & _ & out & Hout & Hheads).
    split; [done|]. split; [|split].
    + intros j st' Hj Hrun'.
      assert (Hjl : (j < length class_batches)%nat) by lia.
      destruct (oml_after_batch_inv _ _ _ _ _ _ _ Hjl Hrun') as (Htcp' & _).
      rewrite Htcp, Htcp'. apply sum_counts_take_mono. lia.
    + intros n_way Hn. rewrite Htcp.
      pose proof (sum_counts_take_le class_batches (S i)). lia.
    + intros out' Hout' Hsteps. rewrite Hout in Hout'. injection Hout' as <-. auto.
  - intros ns na lo Hu Hns Hna Hrun.
    destruct (return_label_batches_consecutive_aux ns na lo labels Hu Hns Hna)
      as (bs & Hbs & Hcat & _).
    rewrite Hrun in Hbs. injection Hbs as <-.
    by rewrite sum_counts_concat, Hcat.
  - apply FSCLModel_forward_heads.
  - intros m audio tcp inner_loop lg Hrun.
    by apply OMLModel_forward_heads in Hrun as [? _].
Qed.

(** *** The query halves kept for the final evaluation *)

Lemma iteration_split_even_inv (_inputs : list Input) (labels class_batch : list Z)
    (k : nat) (si : list Input) (sl : list Z) (qi : list Input) (ql : list Z) :
  length _inputs = length labels -> NoDup class_batch -> (1 <= k)%nat ->
  (forall c, c ∈ class_batch -> count_class c labels = (2 * k)%nat) ->
  iteration_split _inputs labels class_batch = Ok (si, sl, qi, ql) ->
  class_batch <> [] /\
  sl = k_of_each k class_batch /\ ql = k_of_each k class_batch /\
  length si = length sl /\ length qi = length ql.
Proof.
  intros Hin Hnd Hk Hcount Hrun.
  assert (Hne : class_batch <> []) by (intros ->; discriminate).
  destruct (iteration_split_even _inputs labels class_batch k Hin Hnd Hne Hk Hcount)
    as (si' & qi' & Hrun' & Hsi & Hqi).
  rewrite Hrun in Hrun'. injection Hrun' as -> -> -> ->.
  fold (k_of_each k class_batch). rewrite length_k_of_each. done.
Qed.

Section EvenEpisode.
Variables (_inputs : list Input) (labels : list Z) (k : nat).
Variable class_batches : list (list Z).
Hypothesis Hinputs : length _inputs = length labels.
Hypothesis Hk : (1 <= k)%nat.
Hypothesis Hpartition : NoDup (concat class_batches).
Hypothesis Hcount :
  forall c, c ∈ concat class_batches -> count_class c labels = (2 * k)%nat.

Lemma batch_split_even (i : nat) (class_batch : list Z)
    (si : list Input) (sl : list Z) (qi : list Input) (ql : list Z) :
  class_batches !! i = Some class_batch ->
  iteration_split _inputs labels class_batch = Ok (si, sl, qi, ql) ->
  class_batch <> [] /\
  sl = k_of_each k class_batch /\ ql = k_of_each k class_batch /\
  length si = length sl /\ length qi = length ql.
Proof.
  intros Hcb Hrun. apply list_elem_of_lookup_2 in Hcb.
  eapply iteration_split_even_inv; eauto.
  - by eapply NoDup_concat_elem.
  - intros c Hc. apply Hcount, elem_of_concat. eauto.
Qed.

Lemma fscl_query_halves (self : FSCL) (learner : @Model Encoder Head) (i : nat)
    (st : fscl_state) :
  (i < length class_batches)%nat ->
  fscl_after self _inputs labels learner class_batches i = Ok st ->
  concat (fs_query_labels st) = k_of_each k (concat (take (S i) class_batches)) /\
  length (concat (fs_query_inputs st)) = length (concat (fs_query_labels st)) /\
  fs_query_inputs st <> [].
Proof.
  revert st. induction i as [|i IH]; intros st Hi Hrun.
  - rewrite fscl_after_batch_0 in Hrun.
    apply fscl_first_inv in Hrun
      as (cb & si & sl & qi & ql & out & Hcb & Hsplit & _ & Hqi & Hql & _).
    destruct (batch_split_even 0 cb si sl qi ql Hcb Hsplit) as (_ & _ & -> & _ & Hlen).
    rewrite Hqi, Hql, (take_S_r _ 0 cb Hcb). simpl. rewrite !app_nil_r.
    split; [done|]. split; [done|]. done.
  - destruct (lookup_lt_is_Some_2 class_batches (S i) Hi) as [cb Hcb].
    rewrite (fscl_after_batch_S _ _ _ _ _ _ _ Hcb) in Hrun.
    apply bind_Ok in Hrun as (st0 & Hst0 & Hnext).
    apply IH in Hst0 as (Hlabels0 & Hlen0 & _); [|lia].
    apply fscl_next_inv in Hnext
      as (si & sl & qi & ql & out & Hsplit & _ & Hqi & Hql & _).
    destruct (batch_split_even (S i) cb si sl qi ql Hcb Hsplit)
      as (_ & _ & -> & _ & Hlen).
    rewrite Hqi, Hql, (take_S_r _ (S i) cb Hcb), !concat_app, k_of_each_app.
    simpl. rewrite !app_nil_r, !length_app, Hlabels0, Hlen0, Hlen, Hlabels0.
    split; [done|]. split; [done|]. by destruct (fs_query_inputs st0).
Qed.

Lemma oml_query_halves (self : OML) (learner : @Model Encoder Head) (i : nat)
    (st : oml_state) :
  (i < length class_batches)%nat ->
  oml_after self _inputs labels learner class_batches i = Ok st ->
  concat (os_query_labels st) = k_of_each k (concat (take (S i) class_batches)) /\
  length (concat (os_query_inputs st)) = length (concat (os_query_labels st)) /\
  os_query_inputs st <> [].
Proof.
  revert st. induction i as [|i IH]; intros st Hi Hrun.
  - destruct (lookup_lt_is_Some_2 class_batches 0 Hi) as [cb Hcb].
    rewrite (oml_after_batch_0 _ _ _ _ _ _ Hcb) in Hrun.
    apply oml_batch_inv in Hrun
      as (si & sl & qi & ql & out & Hsplit & _ & Hqi & Hql & _).
    destruct (batch_split_even 0 cb si sl qi ql Hcb Hsplit) as (_ & _ & -> & _ & Hlen).
    rewrite Hqi, Hql, (take_S_r _ 0 cb Hcb). simpl. rewrite !app_nil_r.
    split; [done|]. split; [done|]. done.
  - destruct (lookup_lt_is_Some_2 class_batches (S i) Hi) as [cb Hcb].
    rewrite (oml_after_batch_S _ _ _ _ _ _ _ Hcb) in Hrun.
    apply bind_Ok in Hrun as (st0 & Hst0 & Hnext).
    apply IH in Hst0 as (Hlabels0 & Hlen0 & _); [|lia].
    apply oml_batch_inv in Hnext
      as (si & sl & qi & ql & out & Hsplit & _ & Hqi & Hql & _).
    destruct (batch_split_even (S i) cb si sl qi ql Hcb Hsplit)
      as (_ & _ & -> & _ & Hlen).
    rewrite Hqi, Hql, (take_S_r _ (S i) cb Hcb), !concat_app, k_of_each_app.
    simpl. rewrite !app_nil_r, !length_app, Hlabels0, Hlen0, Hlen, Hlabels0.
    split; [done|]. split; [done|]. by destruct (os_query_inputs st0).
Qed.

End EvenEpisode.

(** *** The final evaluation *)

Lemma fscl_batches_full (self : FSCL) (_inputs : list Input) (labels : list Z)
    (learner : @Model Encoder Head) (class_batches : list (list Z)) :
  fscl_batches self _inputs labels learner class_batches
  = fscl_after self _inputs labels learner class_batches
      (length class_batches - 1).
Proof.
  unfold FSCL_after_batch. by rewrite take_ge by lia.
Qed.

Lemma oml_batches_full (self : OML) (_inputs : list Input) (labels : list Z)
    (learner : @Model Encoder Head) (class_batches : list (list Z)) :
  oml_batches self _inputs labels learner class_batches
  = oml_after self _inputs labels learner class_batches
      (length class_batches - 1).
Proof.
  unfold OML_after_batch. by rewrite take_ge by lia.
Qed.

Lemma FSCL_quick_adapt_queries (self : FSCL) (st st' : fscl_state) :
  FSCL_quick_adapt encode apply_head loss_func accuracy adapt_encoder adapt_head
    self st = Ok st' ->
  fs_query_inputs st' = fs_query_inputs st /\
  fs_query_labels st' = fs_query_labels st /\
  fs_total_classes_present st' = fs_total_classes_present st.
Proof.
  unfold FSCL_quick_adapt. destruct (fscl_quick_adapt self).
  - intros Hrun.
    apply bind_Ok in Hrun as (? & _ & Hrun).
    apply bind_Ok in Hrun as (? & _ & Hrun).
    apply bind_Ok in Hrun as (? & _ & Hrun).
    apply bind_Ok in Hrun as (? & _ & Hrun).
    by injection Hrun as <-.
  - by intros [= <-].
Qed.

Lemma FSCL_final_labels (st : fscl_state) (log : gmap string Metric)
    (out : @Output Logit) :
  FSCL_final encode apply_head loss_func accuracy st = Ok (log, out) ->
  exists qi,
    final_query (fs_query_inputs st) (fs_query_labels st) = Ok (qi, labels out) /\
    len (logits out) = fs_total_classes_present st.
Proof.
  unfold FSCL_final. intros Hrun.
  apply bind_Ok in Hrun as ([qi ql] & Hq & Hrun).
  apply bind_Ok in Hrun as (lg & Hlg & Hrun).
  apply bind_Ok in Hrun as (acc & _ & Hrun).
  injection Hrun as _ <-. exists qi. split; [done|].
  by apply FSCLModel_forward_heads in Hlg as [? _].
Qed.

Lemma OML_final_labels (st : oml_state) (log : gmap string Metric)
    (out : @Output Logit) :
  OML_final encode apply_head loss_func accuracy st = Ok (log, out) ->
  exists qi,
    final_query (os_query_inputs st) (os_query_labels st) = Ok (qi, labels out).
Proof.
  unfold OML_final. intros Hrun.
  apply bind_Ok in Hrun as ([qi ql] & Hq & Hrun).
  apply bind_Ok in Hrun as (lg & Hlg & Hrun).
  apply bind_Ok in Hrun as (acc & _ & Hrun).
  injection Hrun as _ <-. by exists qi.
Qed.

(** The labels of the final evaluation, from the accumulated query
    halves of an episode with [2k] examples per class. *)
Lemma final_labels_even (class_batches : list (list Z)) (labels : list Z) (k : nat)
    (query_inputs : list (list Input)) (query_labels : list (list Z))
    (qi : list Input) (ql : list Z) :
  NoDup (concat class_batches) ->
  (forall c, c ∈ concat class_batches <-> c ∈ labels) ->
  (1 <= k)%nat ->
  concat query_labels = k_of_each k (concat class_batches) ->
  final_query query_inputs query_labels = Ok (qi, ql) ->
  (forall c, c ∈ labels -> count_class c ql = (5 `min` k)%nat) /\
  (forall c, c ∈ ql -> c ∈ labels).
Proof.
  intros Hnd Hsame Hk Hq Hrun.
  assert (Hcount : forall c, count_class c ql
                     = (5 `min` (if decide (c ∈ concat class_batches) then k else 0))%nat).
  { intros c. rewrite (final_query_counts _ _ _ _ c Hrun), Hq.
    by rewrite count_class_k_of_each. }
  split.
  - intros c Hc. rewrite Hcount. by rewrite decide_True by (by apply Hsame).
  - intros c Hc. apply count_class_elem in Hc. rewrite Hcount in Hc.
    destruct (decide (c ∈ concat class_batches)) as [Hin|_]; [by apply Hsame|].
    simpl in Hc. lia.
Qed.

End ContinualProperties.

(** ** The final evaluation, as it is performed *)

(** The positions [final_query] selects: of every class of the
    accumulated query labels, in ascending order of the classes, its
    first five positions. *)
Lemma final_query_selection {Input : Type} (query_inputs : list (list Input))
    (query_labels : list (list Z)) (qi : list Input) (ql : list Z) :
  final_query query_inputs query_labels = Ok (qi, ql) ->
  let all_labels := concat query_labels in
  let testing_indexes :=
    concat ((fun c => take 5 (where_eq all_labels c)) <$> unique all_labels) in
  gather (concat query_inputs) testing_indexes = Ok qi /\
  gather all_labels testing_indexes = Ok ql.
Proof.
  unfold final_query. intros Hrun.
  apply bind_Ok in Hrun as (inputs & Hin & Hrun).
  apply bind_Ok in Hrun as (lbls & Hlb & Hrun).
  apply torch_cat_Ok in Hin as [-> _]. apply torch_cat_Ok in Hlb as [-> _].
  apply bind_Ok in Hrun as (idx & Hidx & Hrun).
  apply torch_cat_Ok in Hidx as [-> _].
  apply bind_Ok in Hrun as (qi' & Hqi & Hrun).
  apply bind_Ok in Hrun as (ql' & Hql & [= <- <-]).
  done.
Qed.

Section FinalEvaluation.
Context {Input Features Logit Loss Acc Encoder Head : Type}.
Variable encode : bool -> Encoder -> list Input -> Features.
Variable apply_head : Head -> Features -> Logit.
Variable loss_func : list Logit -> list Z -> Loss.
Variable accuracy : list Logit -> list Z -> Acc.
Variable adapt_encoder : Loss -> Encoder -> Encoder.
Variable adapt_head : Loss -> nat -> Head -> Head.

Local Notation "'fscl_batches'" :=
  (FSCL_batches encode apply_head loss_func accuracy adapt_encoder adapt_head).
Local Notation "'oml_batches'" :=
  (OML_batches encode apply_head loss_func accuracy adapt_encoder adapt_head).
Local Notation "'fscl_quick_adapt'" :=
  (FSCL_quick_adapt encode apply_head loss_func accuracy adapt_encoder adapt_head).
Local Notation "'fscl_meta_learn_out'" :=
  (FSCL_meta_learn_out encode apply_head loss_func accuracy adapt_encoder adapt_head).
Local Notation "'oml_meta_learn_out'" :=
  (OML_meta_learn_out encode apply_head loss_func accuracy adapt_encoder adapt_head).

(** What [FSCL.meta_learn] evaluates at the end, from the locals [st]
    left by the class batches and the quick update. *)
Lemma FSCL_final_evaluates (st : @fscl_state Input Logit Loss Acc Encoder Head)
    (log : gmap string (@Metric Loss Acc)) (out : @Output Logit) :
  FSCL_final encode apply_head loss_func accuracy st = Ok (log, out) ->
  exists query_inputs,
    final_query (fs_query_inputs st) (fs_query_labels st)
    = Ok (query_inputs, labels out) /\
    FSCLModel_forward encode apply_head (eval_mode (fs_learner st)) query_inputs
      (fs_total_classes_present st) = Ok (logits out) /\
    labels out <> [] /\
    log = <["query_accuracy" := MAcc (accuracy (logits out) (labels out))]>
            (<["query_error" := MLoss (loss_func (logits out) (labels out))]>
               (fs_logging st)).
Proof.
  unfold FSCL_final. intros Hrun.
  apply bind_Ok in Hrun as ([qi ql] & Hq & Hrun).
  apply bind_Ok in Hrun as (lg & Hlg & Hrun).
  apply bind_Ok in Hrun as (acc & Hacc & [= <- <-]).
  unfold calculate_accuracy in Hacc. cbn [labels logits] in *.
  exists qi. destruct ql as [|y ys]; [done|]. injection Hacc as <-. done.
Qed.

Lemma OML_final_evaluates (st : @oml_state Input Logit Loss Acc Encoder Head)
    (log : gmap string (@Metric Loss Acc)) (out : @Output Logit) :
  OML_final encode apply_head loss_func accuracy st = Ok (log, out) ->
  exists query_inputs,
    final_query (os_query_inputs st) (os_query_labels st)
    = Ok (query_inputs, labels out) /\
    OMLModel_forward encode apply_head (eval_mode (os_learner st)) query_inputs
      (os_total_classes_present st) false = Ok (logits out) /\
    labels out <> [] /\
    log = <["query_accuracy" := MAcc (accuracy (logits out) (labels out))]>
            (<["query_error" := MLoss (loss_func (logits out) (labels out))]>
               (os_logging st)).
Proof.
  unfold OML_final. intros Hrun.
  apply bind_Ok in Hrun as ([qi ql] & Hq & Hrun).
  apply bind_Ok in Hrun as (lg & Hlg & Hrun).
  apply bind_Ok in Hrun as (acc & Hacc & [= <- <-]).
  unfold calculate_accuracy in Hacc. cbn [labels logits] in *.
  exists qi. destruct ql as [|y ys]; [done|]. injection Hacc as <-. done.
Qed.

(** C7 (as amended). When [FSCL.meta_learn] or [OML.meta_learn] returns,
    the final evaluation has run the learner, in evaluation mode, on the
    selected query examples and logged the loss and the accuracy of that
    output. The selection takes, of every class of the accumulated query
    halves, its first five query examples, or all of them when there are
    fewer, inputs and labels at the same positions. In an episode with
    the same even number [2k] of examples of every class ([k >= 1]) the
    accumulated query halves hold [k] examples of every class of the
    episode, so that the evaluation is over every class of the episode and
    no other, with [min(5, k)] examples each. *)
Theorem final_query_five_per_class (fscl : @FSCL Encoder Head)
    (oml : @OML Encoder Head) (perm : list nat)
    (_inputs : list Input) (episode_labels : list Z) :
  (forall log out,
     fscl_meta_learn_out fscl perm (_inputs, episode_labels) = Ok (log, out) ->
     exists labels' class_batches st0 st query_inputs,
       return_random_labels perm episode_labels = Ok labels' /\
       return_label_batches (fscl_n_classes_start fscl)
         (fscl_n_class_additions fscl) labels' = Ok class_batches /\
       fscl_batches fscl _inputs labels' (clone_for_training (fscl_model fscl))
         class_batches = Ok st0 /\
       fscl_quick_adapt fscl st0 = Ok st /\
       let all_labels := concat (fs_query_labels st) in
       let testing_indexes :=
         concat ((fun c => take 5 (where_eq all_labels c)) <$> unique all_labels) in
       gather (concat (fs_query_inputs st)) testing_indexes = Ok query_inputs /\
       gather all_labels testing_indexes = Ok (labels out) /\
       FSCLModel_forward encode apply_head (eval_mode (fs_learner st))
         query_inputs (fs_total_classes_present st) = Ok (logits out) /\
       log = <["query_accuracy" := MAcc (accuracy (logits out) (labels out))]>
               (<["query_error" := MLoss (loss_func (logits out) (labels out))]>
                  (fs_logging st)) /\
       (forall c, count_class c (labels out)
                  = (5 `min` count_class c all_labels)%nat) /\
       (forall k : nat,
          length _inputs = length episode_labels -> (1 <= k)%nat ->
          (forall c, c ∈ episode_labels ->
                     count_class c episode_labels = (2 * k)%nat) ->
          perm ≡ₚ seq 0 (length (unique episode_labels)) ->
          1 <= fscl_n_classes_start fscl <= len (unique episode_labels) ->
          1 <= fscl_n_class_additions fscl ->
          all_labels = k_of_each k (concat class_batches) /\
          (forall c, c ∈ episode_labels ->
                     count_class c (labels out) = (5 `min` k)%nat) /\
          (forall c, c ∈ labels out -> c ∈ episode_labels))) /\
  (forall log out,
     oml_meta_learn_out oml perm (_inputs, episode_labels) = Ok (log, out) ->
     exists labels' class_batches st query_inputs,
       return_random_labels perm episode_labels = Ok labels' /\
       return_label_batches (oml_n_classes_start oml)
         (oml_n_class_additions oml) labels' = Ok class_batches /\
       oml_batches oml _inputs labels' (clone_for_training (oml_model oml))
         class_batches = Ok st /\
       let all_labels := concat (os_query_labels st) in
       let testing_indexes :=
         concat ((fun c => take 5 (where_eq all_labels c)) <$> unique all_labels) in
       gather (concat (os_query_inputs st)) testing_indexes = Ok query_inputs /\
       gather all_labels testing_indexes = Ok (labels out) /\
       OMLModel_forward encode apply_head (eval_mode (os_learner st))
         query_inputs (os_total_classes_present st) false = Ok (logits out) /\
       log = <["query_accuracy" := MAcc (accuracy (logits out) (labels out))]>
               (<["query_error" := MLoss (loss_func (logits out) (labels out))]>
                  (os_logging st)) /\
       (forall c, count_class c (labels out)
                  = (5 `min` count_class c all_labels)%nat) /\
       (forall k : nat,
          length _inputs = length episode_labels -> (1 <= k)%nat ->
          (forall c, c ∈ episode_labels ->
                     count_class c episode_labels = (2 * k)%nat) ->
          perm ≡ₚ seq 0 (length (unique episode_labels)) ->
          1 <= oml_n_classes_start oml <= len (unique episode_labels) ->
          1 <= oml_n_class_additions oml ->
          all_labels = k_of_each k (concat class_batches) /\
          (forall c, c ∈ episode_labels ->
                     count_class c (labels out) = (5 `min` k)%nat) /\
          (forall c, c ∈ labels out -> c ∈ episode_labels))).
Proof.
  split.
  - intros log out Hrun. unfold FSCL_meta_learn_out in Hrun.
    apply bind_Ok in Hrun as (labels' & Hrand & Hrun).
    apply bind_Ok in Hrun as (cbs & Hcbs & Hrun).
    apply bind_Ok in Hrun as (st0 & Hst0 & Hrun).
    apply bind_Ok in Hrun as (st & Hquick & Hfinal).
    apply FSCL_final_evaluates in Hfinal as (qi & Hq & Hfwd & _ & Hlog).
    pose proof (final_query_selection _ _ _ _ Hq) as [Hgi Hgl].
    exists labels', cbs, st0, st, qi. do 8 (split; [done|]). split.
    { intros c. by apply (final_query_counts _ _ _ _ c Hq). }
    intros k Hinputs Hk Hcount Hperm Hns Hna.
    destruct (randomized_episode _ _ _ _ _ _ k Hperm Hcount Hns Hna Hrand Hcbs)
      as (Hlen & Hne & Hnd & Hsame & Hcount').
    rewrite fscl_batches_full in Hst0.
    assert (Hin' : length _inputs = length labels') by congruence.
    assert (Hi : (length cbs - 1 < length cbs)%nat)
      by (destruct cbs; [done | simpl; lia]).
    destruct (fscl_query_halves encode apply_head loss_func accuracy adapt_encoder
                adapt_head _inputs labels' k cbs Hin' Hk Hnd Hcount'
                fscl _ _ st0 Hi Hst0) as (Hql & _).
    rewrite take_ge in Hql by lia.
    apply FSCL_quick_adapt_queries in Hquick as (Hqi' & Hql' & _).
    rewrite <- Hql' in Hql. split; [done|].
    by eapply final_labels_even.
  - intros log out Hrun. unfold OML_meta_learn_out in Hrun.
    apply bind_Ok in Hrun as (labels' & Hrand & Hrun).
    apply bind_Ok in Hrun as (cbs & Hcbs & Hrun).
    apply bind_Ok in Hrun as (st & Hst & Hfinal).
    apply OML_final_evaluates in Hfinal as (qi & Hq & Hfwd & _ & Hlog).
    pose proof (final_query_selection _ _ _ _ Hq) as [Hgi Hgl].
    exists labels', cbs, st, qi. do 7 (split; [done|]). split.
    { intros c. by apply (final_query_counts _ _ _ _ c Hq). }
    intros k Hinputs Hk Hcount Hperm Hns Hna.
    destruct (randomized_episode _ _ _ _ _ _ k Hperm Hcount Hns Hna Hrand Hcbs)
      as (Hlen & Hne & Hnd & Hsame & Hcount').
    rewrite oml_batches_full in Hst.
    assert (Hin' : length _inputs = length labels') by congruence.
    assert (Hi : (length cbs - 1 < length cbs)%nat)
      by (destruct cbs; [done | simpl; lia]).
    destruct (oml_query_halves encode apply_head loss_func accuracy adapt_encoder
                adapt_head _inputs labels' k cbs Hin' Hk Hnd Hcount'
                oml _ _ st Hi Hst) as (Hql & _).
    rewrite take_ge in Hql by lia. split; [done|].
    by eapply final_labels_even.
Qed.

End FinalEvaluation.

Lemma final_query_five_per_class_witness :
  let episode := replicate 12 0 ++ replicate 12 1 ++ replicate 12 2 in
  exists log out,
    Toy.run_fscl 3 2 1 1 1 6 true [2; 0; 1]%nat episode = Ok (log, out) /\
    (forall c, c ∈ episode -> count_class c (labels out) = 5%nat) /\
    log !! "query_error" = Some (MLoss (Toy.loss_func (logits out) (labels out))).
Proof.
  intros episode.
  assert (Hcount : forall c, c ∈ episode -> count_class c episode = (2 * 6)%nat).
  { intros c Hc. unfold episode in Hc.
    rewrite !elem_of_app, !elem_of_replicate in Hc.
    destruct Hc as [[-> _]|[[-> _]|[-> _]]]; vm_compute; reflexivity. }
  assert (Hperm : [2; 0; 1]%nat ≡ₚ seq 0 (length (unique episode))).
  { apply (bool_decide_unpack _). by vm_compute. }
  assert (Hns : 1 <= fscl_n_classes_start (Toy.fscl 3 2 1 1 1 6 true)
                <= len (unique episode))
    by (split; [simpl; lia | by vm_compute]).
  assert (Hreturns : match Toy.run_fscl 3 2 1 1 1 6 true [2; 0; 1]%nat episode with
                     | Ok _ => True
                     | Raise _ => False
                     end) by (vm_compute; exact I).
  pose proof (final_query_five_per_class Toy.encode Toy.apply_head Toy.loss_func
                Toy.accuracy Toy.adapt_encoder Toy.adapt_head
                (Toy.fscl 3 2 1 1 1 6 true) (Toy.oml 3 2 1 1) [2; 0; 1]%nat
                episode episode) as [Hfscl _].
  revert Hreturns Hfscl. fold (Toy.run_fscl 3 2 1 1 1 6 true [2; 0; 1]%nat episode).
  destruct (Toy.run_fscl 3 2 1 1 1 6 true [2; 0; 1]%nat episode)
    as [[log out]|e]; [|done].
  intros _ Hfscl. exists log, out. split; [reflexivity|].
  destruct (Hfscl log out eq_refl)
    as (labels' & cbs & st0 & st & qi & _ & _ & _ & _ & _ & _ & _ & Hlog & _ & Heven).
  destruct (Heven 6%nat eq_refl ltac:(lia) Hcount Hperm Hns ltac:(simpl; lia))
    as (_ & Hfive & _).
  split; [exact Hfive|].
  rewrite Hlog. rewrite lookup_insert_ne by done. by rewrite lookup_insert_eq.
Defined.

(** C7, as stated, fails: class [0] has a single example, which falls in
    the support half of its class batch; both learners are trained on it
    and return without having evaluated it. *)
Lemma final_query_misses_class_without_query_example :
  let episode := [0; 1; 1; 1; 2; 2] in
  return_label_batches 2 1 episode = Ok [[0; 1]; [2]] /\
  (exists log out,
     Toy.run_fscl 3 2 1 1 1 1 false [0; 1; 2]%nat episode = Ok (log, out) /\
     labels out = [1; 1; 2]) /\
  (exists log out,
     Toy.run_oml 3 2 1 1 [0; 1; 2]%nat episode = Ok (log, out) /\
     labels out = [1; 1; 2]) /\
  0 ∈ episode /\ count_class 0 [1; 1; 2] = 0%nat.
Proof.
  intros episode. split; [by vm_compute|]. split; [|split; [|split]].
  - assert (Hrun : match Toy.run_fscl 3 2 1 1 1 1 false [0; 1; 2]%nat episode with
                   | Ok (_, out) => labels out = [1; 1; 2]
                   | Raise _ => False
                   end) by (vm_compute; reflexivity).
    revert Hrun.
    destruct (Toy.run_fscl 3 2 1 1 1 1 false [0; 1; 2]%nat episode)
      as [[log out]|e]; [|done].
    intros Hrun. by exists log, out.
  - assert (Hrun : match Toy.run_oml 3 2 1 1 [0; 1; 2]%nat episode with
                   | Ok (_, out) => labels out = [1; 1; 2]
                   | Raise _ => False
                   end) by (vm_compute; reflexivity).
    revert Hrun.
    destruct (Toy.run_oml 3 2 1 1 [0; 1; 2]%nat episode)
      as [[log out]|e]; [|done].
    intros Hrun. by exists log, out.
  - left.
  - by vm_compute.
Qed.

Lemma exact_start_count_raises_witness :
  return_label_batches 2 1 [0; 0; 1; 1] = Ok [[0; 1]; []] /\
  raises (FSCL_meta_learn Toy.encode Toy.apply_head Toy.loss_func Toy.accuracy
            Toy.adapt_encoder Toy.adapt_head (Toy.fscl 2 2 1 1 1 2 true)
            [1; 0]%nat ([0; 0; 1; 1], [0; 0; 1; 1])) /\
  raises (OML_meta_learn Toy.encode Toy.apply_head Toy.loss_func Toy.accuracy
            Toy.adapt_encoder Toy.adapt_head (Toy.oml 2 2 1 1)
            [1; 0]%nat ([0; 0; 1; 1], [0; 0; 1; 1])).
Proof.
  destruct (exact_start_count_raises Toy.encode Toy.apply_head Toy.loss_func
              Toy.accuracy Toy.adapt_encoder Toy.adapt_head
              (Toy.fscl 2 2 1 1 1 2 true) (Toy.oml 2 2 1 1) [1; 0]%nat
              [0; 0; 1; 1] [0; 0; 1; 1])
    as (Hbatches & _ & Hf & Ho).
  - change (length (unique [0; 0; 1; 1])) with 2%nat. apply Permutation_swap.
  - reflexivity.
  - reflexivity.
  - split; [|split; assumption].
    apply Hbatches; [discriminate | simpl; lia].
Defined.

Lemma total_classes_present_invariant_witness :
  exists st,
    FSCL_after_batch Toy.encode Toy.apply_head Toy.loss_func Toy.accuracy
      Toy.adapt_encoder Toy.adapt_head (Toy.fscl 4 2 1 1 1 2 true)
      [0; 0; 1; 1; 2; 2; 3; 3] [0; 0; 1; 1; 2; 2; 3; 3]
      (clone_for_training (Toy.model 4)) [[0; 1]; [2]; [3]] 1 = Ok st /\
    fs_total_classes_present st = 3.
Proof.
  destruct (total_classes_present_invariant Toy.encode Toy.apply_head
              Toy.loss_func Toy.accuracy Toy.adapt_encoder Toy.adapt_head
              (Toy.fscl 4 2 1 1 1 2 true) (Toy.oml 4 2 1 1)
              [0; 0; 1; 1; 2; 2; 3; 3] [0; 0; 1; 1; 2; 2; 3; 3]
              (clone_for_training (Toy.model 4)) [[0; 1]; [2]; [3]] 1)
    as (Hfscl & _); [simpl; lia|].
  destruct (FSCL_after_batch Toy.encode Toy.apply_head Toy.loss_func Toy.accuracy
              Toy.adapt_encoder Toy.adapt_head (Toy.fscl 4 2 1 1 1 2 true)
              [0; 0; 1; 1; 2; 2; 3; 3] [0; 0; 1; 1; 2; 2; 3; 3]
              (clone_for_training (Toy.model 4)) [[0; 1]; [2]; [3]] 1)
    as [st|e] eqn:Hrun; [|vm_compute in Hrun; discriminate].
  exists st. split; [reflexivity|].
  destruct (Hfscl st eq_refl) as [-> _]. reflexivity.
Defined.

(** C3, as stated, fails for OML on the episode [0,0,1,1,2,2,3,3] with
    [n_classes_start = 2], [n_class_additions = 1] and four heads: after
    the first class batch [total_classes_present] is 2, the class count of
    that batch, while the logits were computed from all four heads. *)
Lemma OML_logits_use_every_head :
  return_label_batches 2 1 [0; 0; 1; 1; 2; 2; 3; 3] = Ok [[0; 1]; [2]; [3]] /\
  exists st out,
    OML_after_batch Toy.encode Toy.apply_head Toy.loss_func Toy.accuracy
      Toy.adapt_encoder Toy.adapt_head (Toy.oml 4 2 1 1)
      [0; 0; 1; 1; 2; 2; 3; 3] [0; 0; 1; 1; 2; 2; 3; 3]
      (clone_for_training (Toy.model 4)) [[0; 1]; [2]; [3]] 0 = Ok st /\
    os_output st = Some out /\
    os_total_classes_present st = 2 /\
    sum_counts (take 1 [[0; 1]; [2]; [3]]) = 2 /\
    len (logits out) = 4 /\
    len (logits out) <> os_total_classes_present st.
Proof.
  split; [reflexivity|].
  destruct (OML_after_batch Toy.encode Toy.apply_head Toy.loss_func Toy.accuracy
              Toy.adapt_encoder Toy.adapt_head (Toy.oml 4 2 1 1)
              [0; 0; 1; 1; 2; 2; 3; 3] [0; 0; 1; 1; 2; 2; 3; 3]
              (clone_for_training (Toy.model 4)) [[0; 1]; [2]; [3]] 0)
    as [st|e] eqn:Hrun; [|vm_compute in Hrun; discriminate].
  vm_compute in Hrun. injection Hrun as <-.
  eexists _, _. split; [reflexivity|]. split; [reflexivity|].
  split; [reflexivity|]. split; [reflexivity|]. split; [reflexivity|].
  vm_compute. discriminate.
Qed.

(** * Further properties *)

(** ** More on [split_batch] *)

Lemma div2_succ_ceil (n : nat) :
  (Nat.div2 (S n) + Nat.div2 n = n)%nat /\ (Nat.div2 n <= Nat.div2 (S n) <= S (Nat.div2 n))%nat.
Proof.
  destruct (Nat.Even_or_Odd n) as [[h ->]|[h ->]].
  - rewrite Nat.div2_succ_double, Nat.div2_double. lia.
  - replace (S (2 * h + 1)) with (2 * (S h))%nat by lia.
    replace (2 * h + 1)%nat with (S (2 * h)) by lia.
    rewrite Nat.div2_succ_double, Nat.div2_double. lia.
Qed.

Lemma chunk2_Ok {A} (t a b : list A) :
  chunk2 t = Ok (a, b) ->
  a ++ b = t /\ length t <> 1%nat /\
  length a = Nat.div2 (S (length t)) /\ length b = Nat.div2 (length t).
Proof.
  unfold chunk2. intros H.
  assert (Hne : length t <> 1%nat) by (intros E; rewrite E in H; discriminate).
  pose proof (div2_succ_ceil (length t)) as Hd.
  remember (Nat.div2 (S (length t))) as d eqn:Ed.
  assert (H' : Ok (take d t, drop d t) = Ok (a, b)).
  { destruct (length t) as [|[|n]]; [by subst d | done | by subst d]. }
  injection H' as <- <-.
  split; [apply take_drop|]. split; [done|].
  rewrite length_take, length_drop. lia.
Qed.

Lemma chunk2_Raise {A} (t : list A) (e : exn) :
  chunk2 t = Raise e <-> length t = 1%nat /\ e = ValueError.
Proof.
  unfold chunk2. destruct (length t) as [|[|n]]; split; try done.
  - by intros [? _].
  - by intros [= <-].
  - by intros [_ ->].
  - by intros [? _].
Qed.

Lemma split_batch_result {A} (_input : list A) (labels : list Z) :
  match split_batch _input labels with
  | Ok (support_input, support_labels, query_input, query_labels) =>
      support_input ++ query_input = _input /\
      support_labels ++ query_labels = labels /\
      length support_input = Nat.div2 (S (length _input)) /\
      length query_input = Nat.div2 (length _input) /\
      length support_labels = Nat.div2 (S (length labels)) /\
      length query_labels = Nat.div2 (length labels) /\
      length _input <> 1%nat /\ length labels <> 1%nat
  | Raise e =>
      e = ValueError /\ (length _input = 1%nat \/ length labels = 1%nat)
  end.
Proof.
  unfold split_batch.
  destruct (chunk2 _input) as [[si qi]|e] eqn:Hi; cbn [bind].
  - apply chunk2_Ok in Hi as (Hi1 & Hi2 & Hi3 & Hi4).
    destruct (chunk2 labels) as [[sl ql]|e] eqn:Hl; cbn [bind].
    + apply chunk2_Ok in Hl as (Hl1 & Hl2 & Hl3 & Hl4). done.
    + apply chunk2_Raise in Hl as [? ->]. auto.
  - apply chunk2_Raise in Hi as [? ->]. auto.
Qed.

(** X1. [split_batch] cuts both tensors after the first half, rounded up;
    it raises [ValueError] exactly when one of them has a single row. *)
Theorem split_batch_halves {A} (_input : list A) (labels : list Z) :
  match split_batch _input labels with
  | Ok (support_input, support_labels, query_input, query_labels) =>
      support_input ++ query_input = _input /\
      support_labels ++ query_labels = labels /\
      length support_input = Nat.div2 (S (length _input)) /\
      length query_input = Nat.div2 (length _input) /\
      length support_labels = Nat.div2 (S (length labels)) /\
      length query_labels = Nat.div2 (length labels) /\
      length _input <> 1%nat /\ length labels <> 1%nat
  | Raise e =>
      e = ValueError /\ (length _input = 1%nat \/ length labels = 1%nat)
  end.
Proof. apply split_batch_result. Qed.

(** ** More on [return_indexes] *)

Lemma evens_odds_Permutation {A} (l : list A) : evens l ++ odds l ≡ₚ l.
Proof.
  assert (H : forall n (l : list A), (length l <= n)%nat -> evens l ++ odds l ≡ₚ l).
  { clear l. induction n as [|n IH]; intros l Hl.
    - destruct l; [done | simpl in Hl; lia].
    - destruct l as [|x [|y l]]; [done | done |]. simpl.
      constructor. rewrite <- Permutation_middle. constructor.
      apply IH. simpl in Hl. lia. }
  by apply (H (length l)).
Qed.

Lemma elem_of_where_eq_from (t : list Z) (c : Z) (i j : nat) :
  j ∈ where_eq_from i t c <-> (i <= j)%nat /\ t !! (j - i)%nat = Some c.
Proof.
  revert i. induction t as [|x t IH]; intros i; simpl.
  - rewrite elem_of_nil. split; [done|]. by intros [_ ?].
  - assert (Htail : j ∈ where_eq_from (S i) t c
                    <-> (S i <= j)%nat /\ (x :: t) !! (j - i)%nat = Some c).
    { rewrite IH. split; intros [Hle Hj]; (split; [lia|]).
      - by replace (j - i)%nat with (S (j - S i)) by lia.
      - by replace (j - i)%nat with (S (j - S i)) in Hj by lia. }
    destruct (Z.eqb_spec x c) as [->|Hne].
    + rewrite elem_of_cons, Htail. split.
      * intros [->|[Hle Hj]]; [|split; [lia | done]].
        split; [lia|]. by rewrite Nat.sub_diag.
      * intros [Hle Hj]. destruct (decide (j = i)) as [|Hji]; [by left|].
        right. split; [lia | done].
    + rewrite Htail. split; intros [Hle Hj]; [split; [lia | done]|].
      destruct (decide (j = i)) as [->|Hji].
      * rewrite Nat.sub_diag in Hj. simpl in Hj. congruence.
      * split; [lia | done].
Qed.

Lemma elem_of_where_eq (t : list Z) (c : Z) (j : nat) :
  j ∈ where_eq t c <-> t !! j = Some c.
Proof.
  unfold where_eq. rewrite elem_of_where_eq_from, Nat.sub_0_r.
  split; [by intros [_ ?] | intros ?; split; [lia | done]].
Qed.

Lemma where_eq_from_NoDup (t : list Z) (c : Z) (i : nat) :
  NoDup (where_eq_from i t c).
Proof.
  revert i. induction t as [|x t IH]; intros i; simpl; [constructor|].
  destruct (x =? c); [|apply IH].
  constructor; [|apply IH]. rewrite elem_of_where_eq_from. lia.
Qed.

Lemma where_eq_runs_NoDup (t : list Z) (classes : list Z) :
  NoDup classes -> NoDup (concat (where_eq t <$> classes)).
Proof.
  induction 1 as [|c classes Hc _ IH]; [constructor|]. simpl.
  apply NoDup_app. split; [apply where_eq_from_NoDup|]. split; [|done].
  intros j Hj Hin. apply elem_of_where_eq in Hj.
  apply elem_of_concat in Hin as (run & Hrun & Hjr).
  apply list_elem_of_fmap in Hrun as (c' & -> & Hc').
  apply elem_of_where_eq in Hjr. congruence.
Qed.

Lemma return_indexes_result (batch_labels classes : list Z) :
  match return_indexes batch_labels classes with
  | Raise e => e = RuntimeError /\ classes = []
  | Ok idx =>
      classes <> [] /\
      idx ≡ₚ concat (where_eq batch_labels <$> classes) /\
      (forall i, i ∈ idx <-> exists c, c ∈ classes /\ batch_labels !! i = Some c) /\
      (forall i, i ∈ idx -> (i < length batch_labels)%nat) /\
      (NoDup classes -> NoDup idx)
  end.
Proof.
  unfold return_indexes, torch_cat.
  destruct classes as [|c classes]; [done|].
  set (cs := c :: classes). change (map (where_eq batch_labels) cs)
    with (where_eq batch_labels <$> cs).
  destruct (where_eq batch_labels <$> cs) as [|r rs] eqn:E; [done|].
  rewrite <- E. clear E r rs. cbn [bind].
  pose proof (evens_odds_Permutation (concat (where_eq batch_labels <$> cs))) as Hp.
  assert (Hin : forall i, i ∈ evens (concat (where_eq batch_labels <$> cs)) ++
                              odds (concat (where_eq batch_labels <$> cs))
                <-> exists c, c ∈ cs /\ batch_labels !! i = Some c).
  { intros i. rewrite Hp, elem_of_concat. split.
    - intros (run & Hrun & Hi). apply list_elem_of_fmap in Hrun as (c' & -> & Hc').
      apply elem_of_where_eq in Hi. eauto.
    - intros (c' & Hc' & Hi). exists (where_eq batch_labels c').
      split; [apply list_elem_of_fmap; eauto | by apply elem_of_where_eq]. }
  split; [done|]. split; [done|]. split; [done|]. split.
  - intros i Hi. apply Hin in Hi as (c' & _ & Hi). by eapply lookup_lt_Some.
  - intros Hnd. rewrite Hp. by apply where_eq_runs_NoDup.
Qed.

(** X2. [return_indexes] raises exactly on an empty list of classes;
    otherwise its result is a rearrangement of the positions of the
    classes, class after class: it holds a position if and only if the
    label there is one of the classes, without repetition when the
    classes are distinct, and every position is inside the tensor. *)
Theorem return_indexes_selects (batch_labels classes : list Z) :
  match return_indexes batch_labels classes with
  | Raise e => e = RuntimeError /\ classes = []
  | Ok idx =>
      classes <> [] /\
      idx ≡ₚ concat (where_eq batch_labels <$> classes) /\
      (forall i, i ∈ idx <-> exists c, c ∈ classes /\ batch_labels !! i = Some c) /\
      (forall i, i ∈ idx -> (i < length batch_labels)%nat) /\
      (NoDup classes -> NoDup idx)
  end.
Proof. apply return_indexes_result. Qed.

(** ** More on [return_random_labels] *)

Lemma relabel_loop_only_KeyError (converter : gmap Z Z) (rest : list Z) (e : exn) :
  forall written : list Z,
  relabel_loop converter (seq (length written) (length rest)) (written ++ rest)
  = Raise e -> e = KeyError.
Proof.
  induction rest as [|x rest IH]; intros written Hrun; [done|].
  simpl in Hrun. rewrite list_lookup_middle in Hrun by done.
  destruct (converter !! x) as [v|] eqn:Hx; [|congruence].
  replace (<[length written:=v]> (written ++ x :: rest))
    with ((written ++ [v]) ++ rest) in Hrun.
  2:{ rewrite insert_app_r_alt by lia. rewrite Nat.sub_diag. simpl.
      by rewrite <- app_assoc. }
  replace (S (length written)) with (length (written ++ [v])) in Hrun
    by (rewrite length_app; simpl; lia).
  by eapply IH.
Qed.

(** X3. with a permutation of [0 .. m-1] drawn, [return_random_labels]
    returns exactly when the distinct labels are [0 .. m-1], and then
    every label [x] has become [perm[x]]; on any other labels it raises
    [KeyError]. *)
Theorem return_random_labels_domain (perm : list nat) (batch_labels : list Z) :
  perm ≡ₚ seq 0 (length (unique batch_labels)) ->
  match return_random_labels perm batch_labels with
  | Ok out =>
      unique batch_labels = seqZ 0 (len (unique batch_labels)) /\
      length out = length batch_labels /\
      forall i x, batch_labels !! i = Some x ->
        exists p, perm !! Z.to_nat x = Some p /\ out !! i = Some (Z.of_nat p)
  | Raise e =>
      e = KeyError /\
      unique batch_labels <> seqZ 0 (len (unique batch_labels))
  end.
Proof.
  intros Hperm.
  destruct (return_random_labels perm batch_labels) as [out|e] eqn:Hrun.
  - destruct (return_random_labels_classes _ _ _ Hperm Hrun) as (Hu & -> & _).
    split; [done|]. split; [apply length_fmap|].
    intros i x Hx. rewrite list_lookup_fmap, Hx. simpl.
    destruct (converter_total perm batch_labels _ Hu Hperm x) as [_ Hc].
    { by eapply list_elem_of_lookup_2. }
    rewrite list_lookup_fmap in Hc.
    destruct (perm !! Z.to_nat x) as [p|] eqn:Hp; [|done].
    simpl in Hc. injection Hc as <-. eauto.
  - split.
    + unfold return_random_labels in Hrun.
      destruct (gather_total (unique batch_labels) perm) as (rl & Hrl & _).
      { apply Forall_forall. intros p Hp. rewrite Hperm in Hp.
        apply elem_of_seq in Hp. lia. }
      rewrite Hrl in Hrun. cbn [bind] in Hrun.
      exact (relabel_loop_only_KeyError (build_converter rl) batch_labels e [] Hrun).
    + intros Hu.
      rewrite (return_random_labels_fmap perm batch_labels _ Hu Hperm) in Hrun.
      discriminate.
Qed.

Lemma return_random_labels_domain_witness :
  match return_random_labels [1; 2; 0]%nat [0; 1; 1; 2] with
  | Ok out =>
      unique [0; 1; 1; 2] = seqZ 0 (len (unique [0; 1; 1; 2])) /\
      length out = length [0; 1; 1; 2] /\
      forall i x, [0; 1; 1; 2] !! i = Some x ->
        exists p, [1; 2; 0]%nat !! Z.to_nat x = Some p /\
                  out !! i = Some (Z.of_nat p)
  | Raise e =>
      e = KeyError /\ unique [0; 1; 1; 2] <> seqZ 0 (len (unique [0; 1; 1; 2]))
  end.
Proof.
  apply return_random_labels_domain.
  apply (bool_decide_unpack _). by vm_compute.
Defined.

(** X4. relabelling the output of [return_random_labels] with
    the inverse permutation gives the original labels back. *)
Theorem return_random_labels_round_trip (perm inverse : list nat)
    (batch_labels out : list Z) :
  perm ≡ₚ seq 0 (length (unique batch_labels)) ->
  inverse ≡ₚ seq 0 (length (unique batch_labels)) ->
  (forall i p, perm !! i = Some p -> inverse !! p = Some i) ->
  return_random_labels perm batch_labels = Ok out ->
  return_random_labels inverse out = Ok batch_labels.
Proof.
  intros Hperm Hinv Hround Hrun.
  destruct (return_random_labels_classes _ _ _ Hperm Hrun) as (Hu & -> & Hu').
  rewrite (return_random_labels_fmap inverse (converted perm <$> batch_labels)
             (length (unique batch_labels))).
  - f_equal. rewrite <- list_fmap_compose.
    rewrite <- (list_fmap_id batch_labels) at 2.
    apply list_fmap_ext. intros i x Hx. simpl.
    destruct (converter_total perm batch_labels _ Hu Hperm x) as [_ Hc].
    { by eapply list_elem_of_lookup_2. }
    rewrite list_lookup_fmap in Hc.
    destruct (perm !! Z.to_nat x) as [p|] eqn:Hp; [|done].
    simpl in Hc. injection Hc as Hc. rewrite <- Hc.
    unfold converted at 1. rewrite Nat2Z.id, list_lookup_fmap, (Hround _ _ Hp).
    simpl. apply list_elem_of_lookup_2 in Hx.
    apply (label_bounded batch_labels _ Hu) in Hx. lia.
  - by rewrite Hu'.
  - done.
Qed.

Lemma return_random_labels_round_trip_witness :
  return_random_labels [2; 0; 1]%nat [1; 2; 2; 0] = Ok [0; 1; 1; 2].
Proof.
  apply (return_random_labels_round_trip [1; 2; 0]%nat [2; 0; 1]%nat
           [0; 1; 1; 2] [1; 2; 2; 0]).
  - apply (bool_decide_unpack _); by vm_compute.
  - apply (bool_decide_unpack _); by vm_compute.
  - intros [|[|[|i]]] p [= <-]; reflexivity.
  - reflexivity.
Defined.

(** ** [return_label_batches] on arbitrary integer labels *)

Lemma sorted_lt_gap (l : list Z) (i j : nat) (a b : Z) :
  StronglySorted Z.lt l -> (i <= j)%nat ->
  l !! i = Some a -> l !! j = Some b -> Z.of_nat j - Z.of_nat i <= b - a.
Proof.
  intros Hs. revert i j a b.
  induction Hs as [|x l Hs IH Hx]; intros i j a b Hij Hi Hj.
  { done. }
  destruct i as [|i], j as [|j]; simpl in *; try lia.
  - injection Hi as ->. injection Hj as ->. lia.
  - injection Hi as ->.
    destruct l as [|y l]; [done|].
    pose proof (IH 0%nat j y b ltac:(lia) eq_refl Hj) as Hg.
    assert (a < y).
    { eapply Forall_forall in Hx; [exact Hx|]. left. }
    lia.
  - pose proof (IH i j a b ltac:(lia) Hi Hj). lia.
Qed.

Lemma elem_of_take_1 {A} (y : A) (k : nat) (l : list A) : y ∈ take k l -> y ∈ l.
Proof. intros H. rewrite <- (take_drop k l). apply elem_of_app. by left. Qed.

Lemma elem_of_drop_1 {A} (y : A) (k : nat) (l : list A) : y ∈ drop k l -> y ∈ l.
Proof. intros H. rewrite <- (take_drop k l). apply elem_of_app. by right. Qed.

Lemma sorted_lt_take (l : list Z) (k : nat) :
  StronglySorted Z.lt l -> StronglySorted Z.lt (take k l).
Proof.
  intros Hs. revert k. induction Hs as [|x l Hs IH Hx]; intros [|k]; simpl;
    try constructor.
  - apply IH.
  - apply Forall_forall. intros y Hy.
    assert (Hyl : y ∈ l) by (by eapply elem_of_take_1).
    eapply Forall_forall in Hx; [exact Hx | exact Hyl].
Qed.

Lemma tensor_max_sorted (l : list Z) (n : nat) (m : Z) :
  StronglySorted Z.lt l -> length l = S n -> l !! n = Some m ->
  tensor_max l = Ok m.
Proof.
  intros Hs Hlen Hm. apply tensor_max_intro.
  - by eapply list_elem_of_lookup_2.
  - intros y Hy. apply list_elem_of_lookup in Hy as [i Hi].
    assert (i <= n)%nat by (apply lookup_lt_Some in Hi; lia).
    assert (Hle : (i <= n)%nat) by lia.
    pose proof (sorted_lt_gap l i n y m Hs Hle Hi Hm). lia.
Qed.

(** X5. On int64 labels, consecutive or not, that lie less than [2^63]
    apart (so that the int64 subtraction of line 215 does not wrap and
    [total_missing] is the number computed here), with
    [1 <= n_classes_start <= n] and [n_class_additions >= 1],
    [return_label_batches] returns, never drops a class and never
    invents one: the classes found in the batches are exactly the
    classes of the episode. *)
Theorem return_label_batches_covers (ns na : Z) (batch_labels : list Z) :
  Forall (fun x => - 2 ^ 63 <= x < 2 ^ 63) batch_labels ->
  (forall x y, x ∈ batch_labels -> y ∈ batch_labels -> y - x < 2 ^ 63) ->
  1 <= ns <= len (unique batch_labels) -> 1 <= na ->
  exists bs,
    return_label_batches ns na batch_labels = Ok bs /\
    forall x, x ∈ concat bs <-> x ∈ batch_labels.
Proof.
  intros _ _ Hns Hna.
  set (u := unique batch_labels) in *. set (n := len u) in *.
  assert (Hus : StronglySorted Z.lt u) by apply unique_sorted.
  assert (Hne : batch_labels <> []).
  { intros ->. unfold n, u in Hns. change (len (unique [])) with 0 in Hns. lia. }
  destruct (decide (n = ns)) as [Heq|Hgt].
  { exists [u; []]. split; [apply return_label_batches_exact; [done | lia | done]|].
    intros x. simpl. rewrite app_nil_r. apply elem_of_unique. }
  assert (Hn' : Z.of_nat (length u) = n) by reflexivity.
  destruct (lookup_lt_is_Some_2 u (Z.to_nat n - 1)) as [bmax Hbmax]; [lia|].
  assert (Hmaxu : tensor_max u = Ok bmax).
  { apply (tensor_max_sorted u (Z.to_nat n - 1)); [done | lia | done]. }
  assert (Hmaxb : tensor_max batch_labels = Ok bmax).
  { destruct (tensor_max_same_elements u batch_labels 0) as (m & Hm1 & Hm2).
    - intros x. apply elem_of_unique.
    - intros Hu. apply unique_nil_inv in Hu. done.
    - congruence. }
  unfold return_label_batches. fold u. fold n.
  unfold py_floordiv. destruct (Z.eqb_spec na 0) as [|_]; [lia|]. cbn [bind].
  rewrite foldl_snoc_map. rewrite py_slice_to_take by (fold n; lia).
  change (fun i => py_slice u (ns + na * i) (ns + na * (i + 1)))
    with (addition u ns na).
  destruct (Z.leb_spec 1 (n - ns)) as [_|]; [|lia].
  set (q := (n - ns) / na).
  assert (Hq : 0 <= q) by (apply Z.div_pos; lia).
  assert (Hdm : n - ns = na * q + (n - ns) mod na) by (apply Z.div_mod; lia).
  assert (Hr : 0 <= (n - ns) mod na < na) by (apply Z.mod_pos_bound; lia).
  set (c := ns + na * q).
  assert (Hc : ns <= c <= n) by (unfold c; nia).
  assert (Hcat : concat ([take (Z.to_nat ns) u] ++ map (addition u ns na) (range q))
                 = take (Z.to_nat c) u).
  { rewrite <- (Z2Nat.id q) by lia. unfold c.
    rewrite <- (Z2Nat.id q) at 2 by lia.
    apply additions_concat; [lia | lia | fold n; rewrite Z2Nat.id by lia; fold c; lia]. }
  rewrite Hcat.
  destruct (lookup_lt_is_Some_2 u (Z.to_nat c - 1)) as [cmax Hcmax]; [lia|].
  assert (Hmaxc : tensor_max (take (Z.to_nat c) u) = Ok cmax).
  { apply (tensor_max_sorted _ (Z.to_nat c - 1)).
    - by apply sorted_lt_take.
    - rewrite length_take. lia.
    - rewrite lookup_take_lt by lia. done. }
  rewrite Hmaxc. cbn [bind]. rewrite Hmaxb. cbn [bind].
  assert (Hle : (Z.to_nat c - 1 <= Z.to_nat n - 1)%nat) by lia.
  pose proof (sorted_lt_gap u _ _ _ _ Hus Hle Hcmax Hbmax) as Hgap.
  destruct (Z.ltb_spec cmax bmax) as [Hlt|Hge].
  - eexists. split; [done|]. intros x.
    assert (Hconcat : forall (l : list (list Z)) (extra : list Z),
               l <> [] ->
               concat (set_last l (List.last l [] ++ extra)) = concat l ++ extra).
    { intros l extra Hl. destruct (exists_last Hl) as (l' & y & ->).
      rewrite last_last, set_last_snoc, !concat_app. simpl.
      by rewrite !app_nil_r, app_assoc. }
    rewrite Hconcat by (by destruct (map (addition u ns na) (range q))).
    rewrite Hcat, elem_of_app, <- (elem_of_unique x batch_labels). fold u.
    split.
    + intros [Hx|Hx]; [by eapply elem_of_take_1|].
      unfold py_slice_from in Hx. by eapply elem_of_drop_1.
    + intros Hx. apply list_elem_of_lookup in Hx as [i Hi].
      destruct (decide (i < Z.to_nat c)%nat) as [Hic|Hic].
      * left. apply list_elem_of_lookup. exists i. by rewrite lookup_take_lt.
      * right. unfold py_slice_from, norm_index. fold n.
        destruct (Z.ltb_spec (- (bmax - cmax)) 0) as [_|]; [|lia].
        apply list_elem_of_lookup.
        set (d := Z.to_nat (Z.max (- (bmax - cmax) + n) 0)).
        assert (d <= Z.to_nat c)%nat by (unfold d; lia).
        exists (i - d)%nat. rewrite lookup_drop.
        by replace (d + (i - d))%nat with i by lia.
  - assert (c = n) as Hcn by lia.
    eexists. split; [done|]. intros x. rewrite Hcat, Hcn.
    rewrite take_ge by lia. apply elem_of_unique.
Qed.

Lemma return_label_batches_covers_witness :
  exists bs,
    return_label_batches 1 2 [0; 1; 2; 6] = Ok bs /\
    forall x, x ∈ concat bs <-> x ∈ [0; 1; 2; 6].
Proof.
  assert (Hrange : Forall (fun x => 0 <= x <= 6) [0; 1; 2; 6])
    by (repeat constructor; lia).
  apply return_label_batches_covers; [| |by vm_compute | lia].
  - eapply Forall_impl; [exact Hrange|]. simpl. lia.
  - intros x y Hx Hy. rewrite Forall_forall in Hrange.
    apply Hrange in Hx, Hy. lia.
Defined.

(** ** The two model wrappers, in closed form *)

Section Forward.
Context {Input Features Logit Encoder Head : Type}.
Variable encode : bool -> Encoder -> list Input -> Features.
Variable apply_head : Head -> Features -> Logit.

Lemma heads_loop_explicit (m : @Model Encoder Head) (features : Features) (n : nat)
    (acc0 : list Logit) :
  for_each (fun layer_logits c_layer =>
              match classifiers m !! Z.to_nat c_layer with
              | None => Raise IndexError
              | Some head => Ok (layer_logits ++ [apply_head head features])
              end) acc0 (range (Z.of_nat n))
  = if decide (n <= length (classifiers m))%nat
    then Ok (acc0 ++ ((fun head => apply_head head features) <$> take n (classifiers m)))
    else Raise IndexError.
Proof.
  induction n as [|n IH].
  - change (range (Z.of_nat 0)) with (@nil Z). cbn [for_each].
    destruct (decide (0 <= length (classifiers m))%nat); [|lia].
    by rewrite take_0, app_nil_r.
  - rewrite range_S, for_each_app, IH. clear IH.
    destruct (decide (S n <= length (classifiers m))%nat) as [Hle|Hgt].
    + rewrite decide_True by lia. cbn [bind for_each]. rewrite Nat2Z.id.
      destruct (lookup_lt_is_Some_2 (classifiers m) n Hle) as [head Hhead].
      rewrite Hhead. cbn [bind]. rewrite (take_S_r _ _ _ Hhead), fmap_app.
      by rewrite app_assoc.
    + destruct (decide (n <= length (classifiers m))%nat) as [Hle|_]; [|done].
      cbn [bind for_each]. rewrite Nat2Z.id.
      rewrite lookup_ge_None_2 by lia. done.
Qed.

Lemma torch_cat_singletons (l : list Logit) :
  l <> [] -> torch_cat (map (fun col => [col]) l) = Ok l.
Proof.
  intros Hl. assert (Hcat : concat (map (fun col : Logit => [col]) l) = l).
  { clear. induction l; simpl; congruence. }
  destruct l; [done|]. unfold torch_cat. cbn [map]. cbn [map] in Hcat.
  by rewrite Hcat.
Qed.

Lemma FSCLModel_forward_cases (m : @Model Encoder Head)
    (audio : list Input) (total_classes_present : Z) :
  FSCLModel_forward encode apply_head m audio total_classes_present
  = if decide (total_classes_present <= 0) then Raise RuntimeError
    else if decide (total_classes_present <= len (classifiers m)) then
      Ok ((fun head => apply_head head (encode (train_mode m) (encoder m) audio))
            <$> take (Z.to_nat total_classes_present) (classifiers m))
    else Raise IndexError.
Proof.
  unfold FSCLModel_forward.
  destruct (decide (total_classes_present <= 0)) as [Hle|Hgt].
  { by rewrite range_nonpos by done. }
  rewrite <- (Z2Nat.id total_classes_present) at 1 by lia.
  rewrite heads_loop_explicit. unfold len.
  destruct (decide (total_classes_present <= Z.of_nat (length (classifiers m))))
    as [Hle|Hgt'].
  - rewrite decide_True by lia. cbn [bind app].
    apply torch_cat_singletons. intros E. apply (f_equal length) in E.
    rewrite length_fmap, length_take in E. simpl in E. lia.
  - by rewrite decide_False by lia.
Qed.

(** X6. [FSCLModel.forward] answers with the outputs of the first
    [total_classes_present] heads, in order. It raises [RuntimeError]
    (an empty [torch.cat]) when [total_classes_present <= 0] and
    [IndexError] when it exceeds the heads of the model. *)
Theorem FSCLModel_forward_closed_form (m : @Model Encoder Head)
    (audio : list Input) (total_classes_present : Z) :
  FSCLModel_forward encode apply_head m audio total_classes_present
  = if decide (total_classes_present <= 0) then Raise RuntimeError
    else if decide (total_classes_present <= len (classifiers m)) then
      Ok ((fun head => apply_head head (encode (train_mode m) (encoder m) audio))
            <$> take (Z.to_nat total_classes_present) (classifiers m))
    else Raise IndexError.
Proof. apply FSCLModel_forward_cases. Qed.

(** X7. [OMLModel.forward] answers with the outputs of all the heads of
    the model; neither [total_classes_present] nor [inner_loop] changes
    its value, and it raises only for a model without heads. *)
Theorem OMLModel_forward_closed_form (m : @Model Encoder Head)
    (audio : list Input) (total_classes_present : Z) (inner_loop : bool) :
  OMLModel_forward encode apply_head m audio total_classes_present inner_loop
  = match classifiers m with
    | [] => Raise RuntimeError
    | _ => Ok ((fun head => apply_head head (encode (train_mode m) (encoder m) audio))
                 <$> classifiers m)
    end.
Proof.
  unfold OMLModel_forward, len. rewrite heads_loop_explicit.
  rewrite decide_True by lia. cbn [bind app]. rewrite firstn_all.
  destruct (classifiers m) as [|h hs]; [done|].
  by apply torch_cat_singletons.
Qed.

(** X8. [FSCLModel.forward] with more classes present keeps the
    columns of the classes that were present before: the logits for [n]
    classes are the first [n] columns of the logits for [n' >= n]. *)
Theorem FSCLModel_forward_prefix (m : @Model Encoder Head) (audio : list Input)
    (n n' : Z) (lg lg' : list Logit) :
  n <= n' ->
  FSCLModel_forward encode apply_head m audio n = Ok lg ->
  FSCLModel_forward encode apply_head m audio n' = Ok lg' ->
  lg = take (Z.to_nat n) lg'.
Proof.
  intros Hn. rewrite !FSCLModel_forward_cases.
  repeat case_decide; try done. intros [= <-] [= <-].
  rewrite <- fmap_take, take_take. f_equal. f_equal. lia.
Qed.

End Forward.

(** ** Strides *)

Lemma stride_from_skip {A} (k s : nat) (c : A) (rest : list A) :
  stride_from k s (replicate s c ++ rest) = stride_from k 0 rest.
Proof. induction s as [|s IH]; simpl; [done | apply IH]. Qed.

Lemma stride_from_k_of_each (k : nat) (classes : list Z) :
  (1 <= k)%nat -> stride_from k 0 (k_of_each k classes) = classes.
Proof.
  intros Hk. unfold k_of_each. induction classes as [|c classes IH]; [done|].
  cbn [fmap list_fmap concat].
  replace k with (S (Nat.pred k)) at 2 by lia. cbn [replicate app stride_from].
  by rewrite stride_from_skip, IH.
Qed.

Lemma stride_from_nonempty {A} (k : nat) (l : list A) :
  l <> [] -> stride_from k 0 l <> [].
Proof. by destruct l. Qed.

Lemma k_of_each_nonempty (k : nat) (classes : list Z) :
  (1 <= k)%nat -> classes <> [] -> k_of_each k classes <> [].
Proof.
  intros Hk Hc E. apply (f_equal length) in E.
  rewrite length_k_of_each in E. destruct classes; [done|]. simpl in E. lia.
Qed.

(** ** Valid episodes run to the end *)

Section ValidEpisode.
Context {Input Features Logit Loss Acc Encoder Head : Type}.
Variable encode : bool -> Encoder -> list Input -> Features.
Variable apply_head : Head -> Features -> Logit.
Variable loss_func : list Logit -> list Z -> Loss.
Variable accuracy : list Logit -> list Z -> Acc.
Variable adapt_encoder : Loss -> Encoder -> Encoder.
Variable adapt_head : Loss -> nat -> Head -> Head.

Local Notation "'fscl_next'" :=
  (FSCL_next_batch encode apply_head loss_func accuracy adapt_encoder adapt_head).
Local Notation "'fscl_first'" :=
  (FSCL_first_batch encode apply_head loss_func accuracy adapt_encoder adapt_head).
Local Notation "'fscl_after'" :=
  (FSCL_after_batch encode apply_head loss_func accuracy adapt_encoder adapt_head).
Local Notation "'oml_batch'" :=
  (OML_batch encode apply_head loss_func accuracy adapt_encoder adapt_head).
Local Notation "'oml_after'" :=
  (OML_after_batch encode apply_head loss_func accuracy adapt_encoder adapt_head).
Local Notation "'steps_of'" :=
  (adapt_steps loss_func adapt_encoder adapt_head).

(** The inner loop with a forward pass that succeeds on every model with
    the heads of the learner. *)
Lemma adapt_steps_run (steps : nat)
    (fwd : @Model Encoder Head -> result (list Logit)) (support_labels : list Z)
    (learner : @Model Encoder Head) (output : option (@Output Logit)) :
  (forall m, length (classifiers m) = length (classifiers learner) ->
             exists lg, fwd m = Ok lg) ->
  exists learner' output',
    steps_of steps fwd support_labels learner output = Ok (learner', output') /\
    length (classifiers learner') = length (classifiers learner) /\
    ((steps = 0%nat /\ output' = output) \/
     ((1 <= steps)%nat /\ exists lg,
        output' = Some {| logits := lg; labels := support_labels |})).
Proof.
  intros Hfwd.
  destruct (adapt_steps_total loss_func adapt_encoder adapt_head steps fwd
              support_labels learner output Hfwd) as (learner' & output' & Hrun).
  exists learner', output'. split; [done|].
  apply (adapt_steps_inv loss_func adapt_encoder adapt_head (fun _ => True))
    in Hrun as (Hlen & _ & Hout); [|done].
  split; [done|]. destruct Hout as [?|[? (lg & _ & ?)]]; eauto.
Qed.

Variables (_inputs : list Input) (episode_labels : list Z) (k : nat).
Variable class_batches : list (list Z).
Hypothesis Hinputs : length _inputs = length episode_labels.
Hypothesis Hk : (1 <= k)%nat.
Hypothesis Hpartition : NoDup (concat class_batches).
Hypothesis Hcount :
  forall c, c ∈ concat class_batches -> count_class c episode_labels = (2 * k)%nat.
Hypothesis Hnonempty : Forall (fun class_batch => class_batch <> []) class_batches.

Lemma batch_split_total (i : nat) (class_batch : list Z) :
  class_batches !! i = Some class_batch ->
  exists si qi,
    iteration_split _inputs episode_labels class_batch
    = Ok (si, k_of_each k class_batch, qi, k_of_each k class_batch) /\
    class_batch <> [] /\ 1 <= len class_batch.
Proof.
  intros Hcb. apply list_elem_of_lookup_2 in Hcb as Hin.
  assert (Hne : class_batch <> []) by (by eapply Forall_forall in Hnonempty).
  destruct (iteration_split_even _inputs episode_labels class_batch k) as (si & qi & Hrun & _);
    [done | by eapply NoDup_concat_elem | done | done | |].
  { intros c Hc. apply Hcount, elem_of_concat. eauto. }
  exists si, qi. split; [done|]. split; [done|].
  unfold len. destruct class_batch; [done | simpl; lia].
Qed.

Section FSCLRun.
Variable self : @FSCL Encoder Head.
Variable learner : @Model Encoder Head.
Hypothesis Hheads : sum_counts class_batches <= len (classifiers learner).
Hypothesis Hinit : 1 <= fscl_initial_training_steps self.
Hypothesis Hkshot : 1 <= fscl_k_shot self.

Local Notation "'fscl_good' i st" :=
  (fs_total_classes_present st = sum_counts (take (S i) class_batches) /\
   length (classifiers (fs_learner st)) = length (classifiers learner) /\
   (exists out, fs_output st = Some out /\ labels out <> []) /\
   fs_quick_update_inputs st <> [] /\
   fs_quick_update_labels st
   = ((fun cb => stride_from (Z.to_nat (fscl_k_shot self)) 0 (k_of_each k cb))
        <$> take (S i) class_batches) /\
   dom (fs_logging st)
   = (list_to_set ((fun j : nat => "step_" +:+ pretty j +:+ "_inner_accuracy")
                     <$> seq 0 (S i)) : gset string))
  (at level 10, i at level 9, st at level 9, only parsing).

Lemma stride_Ok {A} (t : list A) :
  stride (fscl_k_shot self) t = Ok (stride_from (Z.to_nat (fscl_k_shot self)) 0 t).
Proof. unfold stride. destruct (Z.leb_spec (fscl_k_shot self) 0); [lia | done]. Qed.

Lemma fscl_first_total :
  (0 < length class_batches)%nat ->
  exists st, fscl_after self _inputs episode_labels learner class_batches 0 = Ok st /\
             fscl_good 0 st.
Proof.
  intros Hlen. rewrite fscl_after_batch_0.
  destruct (lookup_lt_is_Some_2 class_batches 0 Hlen) as [cb Hcb].
  destruct (batch_split_total 0 cb Hcb) as (si & qi & Hsplit & Hne & Hpos).
  unfold FSCL_first_batch. rewrite Hcb. cbn [bind]. rewrite Hsplit. cbn [bind].
  rewrite !stride_Ok. cbn [bind].
  assert (Hle : len cb <= len (classifiers learner)).
  { pose proof (sum_counts_take_le class_batches 1) as Hs.
    rewrite (take_S_r _ 0 cb Hcb) in Hs. simpl in Hs. lia. }
  destruct (adapt_steps_run (Z.to_nat (fscl_initial_training_steps self))
              (fun m => FSCLModel_forward encode apply_head m si (len cb))
              (k_of_each k cb) learner None)
    as (learner' & output' & Hrun & Hh & Hout).
  { intros m Hm. apply FSCLModel_forward_total. unfold len in *. rewrite Hm. lia. }
  rewrite Hrun. cbn [bind].
  destruct Hout as [[Hz _]|[_ (lg & ->)]]; [lia|]. cbn [read_output bind].
  unfold calculate_accuracy. cbn [labels].
  pose proof (k_of_each_nonempty k cb Hk Hne) as Hsl.
  destruct (k_of_each k cb) as [|x xs] eqn:E; [done|]. cbn [bind].
  eexists. split; [done|].
  cbn [fs_total_classes_present fs_learner fs_output fs_quick_update_inputs
       fs_quick_update_labels fs_logging].
  rewrite (take_S_r _ 0 cb Hcb), take_0. cbn [app fmap list_fmap].
  rewrite E. split; [unfold sum_counts; simpl; lia|].
  split; [done|]. split; [by eexists|]. split; [done|]. split; [done|].
  { rewrite dom_insert_L, dom_empty_L. cbn [seq fmap list_fmap list_to_set].
    assert (Hkey : "step_" +:+ pretty 0%nat +:+ "_inner_accuracy"
                   = "step_0_inner_accuracy") by (by vm_compute).
    rewrite Hkey. set_solver. }
Qed.

Lemma fscl_next_total (i : nat) (cb : list Z)
    (st : @fscl_state Input Logit Loss Acc Encoder Head) :
  class_batches !! S i = Some cb ->
  fscl_good i st ->
  exists st', fscl_next self _inputs episode_labels st (i, cb) = Ok st' /\
              fscl_good (S i) st'.
Proof.
  intros Hcb (Htcp & Hh & (out0 & Hout0 & Hne0) & Hqi & Hql & Hlog).
  destruct (batch_split_total (S i) cb Hcb) as (si & qi & Hsplit & Hne & Hpos).
  unfold FSCL_next_batch. rewrite Hsplit. cbn [bind].
  rewrite !stride_Ok. cbn [bind].
  assert (Hsum : sum_counts (take (S (S i)) class_batches)
                 = fs_total_classes_present st + len cb).
  { rewrite (take_S_r _ (S i) cb Hcb), sum_counts_app, Htcp. simpl. lia. }
  assert (Hle : 1 <= fs_total_classes_present st + len cb
                <= len (classifiers learner)).
  { pose proof (sum_counts_take_le class_batches (S (S i))).
    pose proof (sum_counts_nonneg (take (S i) class_batches)). lia. }
  destruct (adapt_steps_run (Z.to_nat (fscl_training_steps self))
              (fun m => FSCLModel_forward encode apply_head m si
                          (fs_total_classes_present st + len cb))
              (k_of_each k cb) (fs_learner st) (fs_output st))
    as (learner' & output' & Hrun & Hh' & Hout).
  { intros m Hm. apply FSCLModel_forward_total. unfold len in *.
    rewrite Hm, Hh. lia. }
  rewrite Hrun. cbn [bind].
  pose proof (k_of_each_nonempty k cb Hk Hne) as Hsl.
  assert (Hout' : exists out, output' = Some out /\ labels out <> []).
  { destruct Hout as [[_ ->]|[_ (lg & ->)]]; eauto. }
  destruct Hout' as (out & -> & Hlab). cbn [read_output bind].
  unfold calculate_accuracy. destruct (labels out) as [|x xs] eqn:E; [done|].
  cbn [bind]. eexists. split; [done|].
  cbn [fs_total_classes_present fs_learner fs_output fs_quick_update_inputs
       fs_quick_update_labels fs_logging].
  rewrite Hsum, Hh', Hh, Hql, (take_S_r _ (S i) cb Hcb), fmap_app.
  repeat split; try done.
  - exists out. by rewrite E.
  - by destruct (fs_quick_update_inputs st).
  - rewrite dom_insert_L, Hlog, (seq_S (S i)), fmap_app, list_to_set_app_L.
    cbn [fmap list_fmap list_to_set]. rewrite union_empty_r_L.
    apply (comm_L (∪)).
Qed.

Lemma fscl_after_total (i : nat) :
  (i < length class_batches)%nat ->
  exists st, fscl_after self _inputs episode_labels learner class_batches i = Ok st /\
             fscl_good i st.
Proof.
  induction i as [|i IH]; intros Hi.
  - apply fscl_first_total. lia.
  - destruct IH as (st & Hst & Hgood); [lia|].
    destruct (lookup_lt_is_Some_2 class_batches (S i) Hi) as [cb Hcb].
    rewrite (fscl_after_batch_S _ _ _ _ _ _ _ _ _ _ _ _ _ Hcb), Hst. cbn [bind].
    by apply fscl_next_total.
Qed.

(** The rehearsal step and the final evaluation. *)
Lemma fscl_quick_adapt_total (i : nat)
    (st : @fscl_state Input Logit Loss Acc Encoder Head) :
  (i < length class_batches)%nat ->
  fscl_good i st ->
  exists st',
    FSCL_quick_adapt encode apply_head loss_func accuracy adapt_encoder adapt_head
      self st = Ok st' /\
    fs_query_inputs st' = fs_query_inputs st /\
    fs_query_labels st' = fs_query_labels st /\
    fs_total_classes_present st' = fs_total_classes_present st /\
    length (classifiers (fs_learner st')) = length (classifiers learner) /\
    (fscl_quick_adapt self = false -> st' = st) /\
    (fscl_quick_adapt self = true ->
     exists acc, fs_logging st'
       = <["quick_update_inner_accuracy" := MAcc acc]> (fs_logging st)).
Proof.
  intros Hi (Htcp & Hh & _ & Hqi & Hql & _).
  unfold FSCL_quick_adapt. destruct (fscl_quick_adapt self); [|by exists st].
  destruct (fs_quick_update_inputs st) as [|x xs] eqn:Ex; [done|].
  cbn [torch_cat bind].
  destruct (lookup_lt_is_Some_2 class_batches 0) as [cb0 Hcb0]; [lia|].
  destruct (batch_split_total 0 cb0 Hcb0) as (_ & _ & _ & Hne0 & Hpos0).
  assert (Htake : take (S i) class_batches = cb0 :: take i (drop 1 class_batches)).
  { destruct class_batches as [|b bs]; [done|]. simpl in *.
    injection Hcb0 as ->. by rewrite drop_0. }
  rewrite Htake in Hql. cbn [fmap list_fmap] in Hql. rewrite Hql.
  cbn [torch_cat bind].
  destruct (FSCLModel_forward_total encode apply_head (fs_learner st)
              (concat (x :: xs)) (fs_total_classes_present st)) as [lg Hlg].
  { pose proof (sum_counts_take_le class_batches (S i)).
    pose proof (sum_counts_take_mono class_batches 1 (S i) ltac:(lia)) as Hm.
    rewrite (take_S_r _ 0 cb0 Hcb0) in Hm. simpl in Hm.
    unfold len in *. rewrite Hh. lia. }
  rewrite Hlg. cbn [bind]. unfold calculate_accuracy. cbn [labels logits].
  pose proof (stride_from_nonempty (Z.to_nat (fscl_k_shot self)) _
                (k_of_each_nonempty k cb0 Hk Hne0)) as Hs.
  destruct (stride_from (Z.to_nat (fscl_k_shot self)) 0 (k_of_each k cb0))
    as [|y ys] eqn:Ey; [done|].
  cbn [concat app bind]. eexists. split; [done|].
  cbn [fs_query_inputs fs_query_labels fs_total_classes_present fs_learner
       fs_logging adapt classifiers].
  rewrite length_imap. repeat split; try done. eauto.
Qed.

Lemma fscl_final_total (i : nat)
    (st : @fscl_state Input Logit Loss Acc Encoder Head) :
  (i < length class_batches)%nat ->
  length (classifiers (fs_learner st)) = length (classifiers learner) ->
  fs_total_classes_present st = sum_counts (take (S i) class_batches) ->
  concat (fs_query_labels st) = k_of_each k (concat (take (S i) class_batches)) ->
  length (concat (fs_query_inputs st)) = length (concat (fs_query_labels st)) ->
  fs_query_inputs st <> [] ->
  exists acc out,
    FSCL_final encode apply_head loss_func accuracy st
    = Ok (<["query_accuracy" := MAcc acc]>
            (<["query_error" := MLoss (loss_func (logits out) (labels out))]>
               (fs_logging st)), out) /\
    len (logits out) = fs_total_classes_present st.
Proof.
  intros Hi Hh Htcp Hql Hlen Hqi.
  destruct (lookup_lt_is_Some_2 class_batches 0) as [cb0 Hcb0]; [lia|].
  destruct (batch_split_total 0 cb0 Hcb0) as (_ & _ & _ & Hne0 & Hpos0).
  assert (Hin0 : forall c, c ∈ cb0 -> c ∈ concat (take (S i) class_batches)).
  { intros c Hc. apply elem_of_concat. exists cb0. split; [|done].
    apply list_elem_of_lookup. exists 0%nat. rewrite lookup_take_lt by lia. done. }
  assert (Hnd : NoDup (concat (take (S i) class_batches))).
  { pose proof Hpartition as Hp.
    rewrite <- (take_drop (S i) class_batches), concat_app in Hp.
    by apply NoDup_app in Hp as [? _]. }
  destruct (final_query_total (fs_query_inputs st) (fs_query_labels st))
    as (qi & ql & Hfq); [done| |done|].
  { rewrite Hql. destruct cb0 as [|c0 cb0']; [done|].
    intros E.
    pose proof (count_class_k_of_each k (concat (take (S i) class_batches)) c0 Hnd)
      as Hc.
    rewrite E in Hc. rewrite decide_True in Hc by (apply Hin0; left).
    change (count_class c0 []) with 0%nat in Hc. lia. }
  unfold FSCL_final. rewrite Hfq. cbn [bind].
  destruct (FSCLModel_forward_total encode apply_head (eval_mode (fs_learner st))
              qi (fs_total_classes_present st)) as [lg Hlg].
  { pose proof (sum_counts_take_le class_batches (S i)).
    pose proof (sum_counts_take_mono class_batches 1 (S i) ltac:(lia)) as Hm.
    rewrite (take_S_r _ 0 cb0 Hcb0) in Hm. simpl in Hm.
    unfold len in *. cbn [eval_mode classifiers]. rewrite Hh. lia. }
  rewrite Hlg. cbn [bind]. unfold calculate_accuracy. cbn [labels logits].
  assert (Hne : ql <> []).
  { destruct cb0 as [|c0 cb0']; [done|]. intros ->.
    pose proof (final_query_counts _ _ _ _ c0 Hfq) as Hc.
    rewrite Hql, count_class_k_of_each in Hc by done.
    rewrite decide_True in Hc by (apply Hin0; left).
    change (count_class c0 []) with 0%nat in Hc. lia. }
  destruct ql as [|y ys]; [done|]. cbn [bind].
  eexists _, {| logits := lg; labels := y :: ys |}. split; [done|].
  cbn [logits]. by apply FSCLModel_forward_heads in Hlg as [? _].
Qed.

End FSCLRun.
End ValidEpisode.

(** ** A well-formed episode *)

(** The two label functions on a well-formed episode: classes
    [0 .. n-1], [2k] samples of each, fewer start classes than classes. *)
Lemma valid_episode_batches (perm : list nat) (episode_labels : list Z)
    (ns na : Z) (k : nat) :
  unique episode_labels = seqZ 0 (len (unique episode_labels)) ->
  perm ≡ₚ seq 0 (length (unique episode_labels)) ->
  (forall c, c ∈ episode_labels -> count_class c episode_labels = (2 * k)%nat) ->
  1 <= ns < len (unique episode_labels) -> 1 <= na ->
  exists labels' class_batches,
    return_random_labels perm episode_labels = Ok labels' /\
    return_label_batches ns na labels' = Ok class_batches /\
    length labels' = length episode_labels /\
    NoDup (concat class_batches) /\
    (forall c, c ∈ concat class_batches <-> c ∈ episode_labels) /\
    (forall c, c ∈ concat class_batches -> count_class c labels' = (2 * k)%nat) /\
    Forall (fun class_batch => class_batch <> []) class_batches /\
    sum_counts class_batches = len (unique episode_labels) /\
    length class_batches
    = (Z.to_nat ((len (unique episode_labels) - ns) / na) + 1)%nat.
Proof.
  intros Hu Hperm Hcount Hns Hna.
  pose proof (return_random_labels_fmap perm episode_labels _ Hu Hperm) as Hrand.
  destruct (return_random_labels_classes _ _ _ Hperm Hrand) as (_ & _ & Hu').
  set (labels' := converted perm <$> episode_labels) in *.
  set (n := len (unique episode_labels)) in *.
  assert (Hcons : unique labels' = seqZ 0 (len (unique labels')))
    by (rewrite Hu'; exact Hu).
  destruct (return_label_batches_consecutive_aux ns na 0 _ Hcons)
    as (bs & Hbs & Hcat & _ & Hone & Hmany); [rewrite Hu'; fold n; lia | done |].
  rewrite Hu' in Hone, Hmany, Hcat. fold n in Hone, Hmany.
  destruct (randomized_episode perm episode_labels labels' ns na bs k)
    as (Hlen & _ & Hnd & Hsame & Hcnt); try done; [fold n; lia|].
  exists labels', bs. do 6 (split; [done|]).
  assert (Hsum : sum_counts bs = n) by (by rewrite sum_counts_concat, Hcat).
  destruct (decide (n - ns < na)) as [Hsmall|Hbig].
  - assert (Hb : bs = [unique episode_labels]) by (apply Hone; lia).
    clear Hone Hmany. subst bs. split; [|split; [done|]].
    + apply Forall_singleton. intros E. rewrite E in Hsum.
      change (sum_counts [[]]) with 0 in Hsum. lia.
    + rewrite Z.div_small by lia. done.
  - destruct Hmany as [_ Hlens]; [lia|].
    assert (Hq : 1 <= (n - ns) / na).
    { apply Z.div_le_lower_bound; lia. }
    pose proof (Z.mod_pos_bound (n - ns) na ltac:(lia)) as Hrem.
    split; [|split; [done|]].
    + apply Forall_forall. intros b Hb ->.
      assert (Hin : 0%nat ∈ length <$> bs).
      { apply list_elem_of_fmap. by exists []. }
      rewrite Hlens in Hin. rewrite !elem_of_app in Hin.
      destruct Hin as [Hin|[Hin|Hin]].
      * apply list_elem_of_singleton in Hin. lia.
      * apply elem_of_replicate in Hin. lia.
      * apply list_elem_of_singleton in Hin. lia.
    + apply (f_equal length) in Hlens.
      rewrite length_fmap, !length_app, length_replicate in Hlens. simpl in Hlens.
      lia.
Qed.

Section WellFormedEpisode.
Context {Input Features Logit Loss Acc Encoder Head : Type}.
Variable encode : bool -> Encoder -> list Input -> Features.
Variable apply_head : Head -> Features -> Logit.
Variable loss_func : list Logit -> list Z -> Loss.
Variable accuracy : list Logit -> list Z -> Acc.
Variable adapt_encoder : Loss -> Encoder -> Encoder.
Variable adapt_head : Loss -> nat -> Head -> Head.

Variables (perm : list nat) (_inputs : list Input) (episode_labels : list Z).
Variable k : nat.
Hypothesis Hinputs : length _inputs = length episode_labels.
Hypothesis Hk : (1 <= k)%nat.
Hypothesis Hclasses :
  unique episode_labels = seqZ 0 (len (unique episode_labels)).
Hypothesis Hperm : perm ≡ₚ seq 0 (length (unique episode_labels)).
Hypothesis Hcount :
  forall c, c ∈ episode_labels -> count_class c episode_labels = (2 * k)%nat.

(** X9. on a well-formed episode ([2k] examples of each of the
    classes [0 .. n-1], as many inputs as labels) [FSCL.meta_learn]
    returns whenever [1 <= n_classes_start < n], [n_class_additions >= 1],
    the model has at least [n] heads, [initial_training_steps >= 1] and
    [k_shot >= 1]. The log then holds [query_accuracy], [query_error],
    [quick_update_inner_accuracy] when [quick_adapt] is set, and one
    [step_j_inner_accuracy] for each of the
    [(n - n_classes_start) // n_class_additions + 1] class batches,
    numbered from 0; the query error is computed from [n] logit columns. *)
Theorem FSCL_meta_learn_total (self : @FSCL Encoder Head) :
  1 <= fscl_n_classes_start self < len (unique episode_labels) ->
  1 <= fscl_n_class_additions self ->
  len (unique episode_labels) <= len (classifiers (fscl_model self)) ->
  1 <= fscl_initial_training_steps self ->
  1 <= fscl_k_shot self ->
  exists logging,
    FSCL_meta_learn encode apply_head loss_func accuracy adapt_encoder adapt_head
      self perm (_inputs, episode_labels) = Ok logging /\
    dom logging
    = {[ "query_accuracy"; "query_error" ]}
      ∪ (if fscl_quick_adapt self then {[ "quick_update_inner_accuracy" ]} else ∅)
      ∪ list_to_set
          ((fun j : nat => "step_" +:+ pretty j +:+ "_inner_accuracy")
             <$> seq 0 (Z.to_nat ((len (unique episode_labels)
                                   - fscl_n_classes_start self)
                                  / fscl_n_class_additions self) + 1)) /\
    exists lg ql,
      logging !! "query_error" = Some (MLoss (loss_func lg ql)) /\
      len lg = len (unique episode_labels).
Proof.
  intros Hns Hna Hheads Hinit Hkshot.
  destruct (valid_episode_batches perm episode_labels _ _ k
              Hclasses Hperm Hcount Hns Hna)
    as (labels' & bs & Hrand & Hbs & Hlen & Hnd & Hsame & Hcnt & Hne & Hsum & Hn).
  assert (Hin' : length _inputs = length labels') by congruence.
  set (learner := clone_for_training (fscl_model self)).
  assert (Hh : sum_counts bs <= len (classifiers learner)) by (by rewrite Hsum).
  assert (Hi : (length bs - 1 < length bs)%nat) by lia.
  destruct (fscl_after_total encode apply_head loss_func accuracy adapt_encoder
              adapt_head _inputs labels' k bs Hin' Hk Hnd Hcnt Hne self learner
              Hh Hinit Hkshot _ Hi) as (st & Hst & Hgood).
  destruct (fscl_query_halves encode apply_head loss_func accuracy adapt_encoder
              adapt_head _inputs labels' k bs Hin' Hk Hnd Hcnt self learner _ st
              Hi Hst) as (Hql & Hqlen & Hqi).
  destruct (fscl_quick_adapt_total encode apply_head loss_func accuracy
              adapt_encoder adapt_head _inputs labels' k bs Hin' Hk Hnd Hcnt Hne
              self learner Hh _ st Hi Hgood)
    as (st' & Hquick & Hqi' & Hql' & Htcp' & Hh' & Hoff & Hon).
  destruct Hgood as (Htcp & _ & _ & _ & _ & Hlog).
  destruct (fscl_final_total encode apply_head loss_func accuracy _inputs labels'
              k bs Hin' Hk Hnd Hcnt Hne learner Hh _ st' Hi Hh')
    as (acc & out & Hfinal & Hcols).
  { by rewrite Htcp'. } { by rewrite Hql'. } { by rewrite Hqi', Hql'. }
  { by rewrite Hqi'. }
  unfold FSCL_meta_learn, FSCL_meta_learn_out. rewrite Hrand. cbn [bind].
  rewrite Hbs. cbn [bind]. fold learner. rewrite fscl_batches_full, Hst.
  cbn [bind]. rewrite Hquick. cbn [bind]. rewrite Hfinal. cbn [bind].
  eexists. split; [done|]. split.
  - rewrite !dom_insert_L.
    replace (S (length bs - 1)) with (length bs) in Hlog by lia.
    rewrite Hn in Hlog.
    destruct (fscl_quick_adapt self) eqn:Eq.
    + destruct (Hon eq_refl) as [qacc ->]. rewrite dom_insert_L, Hlog.
      rewrite <- !(assoc_L (∪)). done.
    + rewrite (Hoff eq_refl), Hlog.
      rewrite union_empty_r_L, <- !(assoc_L (∪)). done.
  - exists (logits out), (labels out).
    rewrite lookup_insert_ne by done. rewrite lookup_insert_eq. split; [done|].
    rewrite Hcols, Htcp', Htcp.
    replace (S (length bs - 1)) with (length bs) by lia.
    rewrite take_ge by lia. done.
Qed.

End WellFormedEpisode.

Lemma FSCL_meta_learn_total_witness :
  let episode := [0; 1; 2; 0; 1; 2; 0; 1; 2; 0; 1; 2] in
  let self := Toy.fscl 3 1 1 1 1 2 true in
  exists logging,
    FSCL_meta_learn Toy.encode Toy.apply_head Toy.loss_func Toy.accuracy
      Toy.adapt_encoder Toy.adapt_head self [2; 0; 1]%nat (episode, episode)
    = Ok logging /\
    dom logging
    = {[ "query_accuracy"; "query_error" ]}
      ∪ {[ "quick_update_inner_accuracy" ]}
      ∪ list_to_set
          ((fun j : nat => "step_" +:+ pretty j +:+ "_inner_accuracy")
             <$> seq 0 (Z.to_nat ((len (unique episode) - 1) / 1) + 1)) /\
    exists lg ql,
      logging !! "query_error" = Some (MLoss (Toy.loss_func lg ql)) /\
      len lg = len (unique episode).
Proof.
  intros episode self.
  assert (Hcount : forall c, c ∈ episode -> count_class c episode = (2 * 2)%nat).
  { intros c Hc. unfold episode in Hc. repeat (apply elem_of_cons in Hc as [->|Hc]);
      try (vm_compute; reflexivity). by apply elem_of_nil in Hc. }
  assert (Hperm : [2; 0; 1]%nat ≡ₚ seq 0 (length (unique episode))).
  { apply (bool_decide_unpack _). by vm_compute. }
  apply (FSCL_meta_learn_total Toy.encode Toy.apply_head Toy.loss_func Toy.accuracy
           Toy.adapt_encoder Toy.adapt_head [2; 0; 1]%nat episode episode 2
           eq_refl ltac:(lia) eq_refl Hperm Hcount self).
  - split; [simpl; lia | by vm_compute].
  - simpl; lia.
  - by vm_compute.
  - simpl; lia.
  - simpl; lia.
Defined.

Section OMLRun.
Context {Input Features Logit Loss Acc Encoder Head : Type}.
Variable encode : bool -> Encoder -> list Input -> Features.
Variable apply_head : Head -> Features -> Logit.
Variable loss_func : list Logit -> list Z -> Loss.
Variable accuracy : list Logit -> list Z -> Acc.
Variable adapt_encoder : Loss -> Encoder -> Encoder.
Variable adapt_head : Loss -> nat -> Head -> Head.

Local Notation "'oml_batch'" :=
  (OML_batch encode apply_head loss_func accuracy adapt_encoder adapt_head).
Local Notation "'oml_after'" :=
  (OML_after_batch encode apply_head loss_func accuracy adapt_encoder adapt_head).

Variables (_inputs : list Input) (episode_labels : list Z) (k : nat).
Variable class_batches : list (list Z).
Hypothesis Hinputs : length _inputs = length episode_labels.
Hypothesis Hk : (1 <= k)%nat.
Hypothesis Hpartition : NoDup (concat class_batches).
Hypothesis Hcount :
  forall c, c ∈ concat class_batches -> count_class c episode_labels = (2 * k)%nat.
Hypothesis Hnonempty : Forall (fun class_batch => class_batch <> []) class_batches.

Variable self : @OML Encoder Head.
Variable learner : @Model Encoder Head.
Hypothesis Hheads : 1 <= len (classifiers learner).
Hypothesis Hsteps : 1 <= oml_training_steps self.

Lemma oml_batch_total (i : nat) (cb : list Z)
    (st : @oml_state Input Logit Loss Acc Encoder Head) :
  class_batches !! i = Some cb ->
  length (classifiers (os_learner st)) = length (classifiers learner) ->
  exists st' out,
    oml_batch self _inputs episode_labels st (i, cb) = Ok st' /\
    os_total_classes_present st' = os_total_classes_present st + len cb /\
    length (classifiers (os_learner st')) = length (classifiers learner) /\
    os_output st' = Some out /\
    dom (os_logging st')
    = {[ "step_" +:+ pretty (S i) +:+ "_inner_accuracy" ]} ∪ dom (os_logging st).
Proof.
  intros Hcb Hh.
  destruct (batch_split_total _inputs episode_labels k class_batches
              Hinputs Hk Hpartition Hcount Hnonempty i cb Hcb)
    as (si & qi & Hsplit & Hne & Hpos).
  unfold OML_batch. rewrite Hsplit. cbn [bind].
  destruct (adapt_steps_run loss_func adapt_encoder adapt_head
              (Z.to_nat (oml_training_steps self))
              (fun m => OMLModel_forward encode apply_head m si
                          (os_total_classes_present st + len cb) true)
              (k_of_each k cb) (os_learner st) (os_output st))
    as (learner' & output' & Hrun & Hh' & Hout).
  { intros m Hm. apply OMLModel_forward_total. unfold len in *.
    rewrite Hm, Hh. lia. }
  rewrite Hrun. cbn [bind].
  destruct Hout as [[Hz _]|[_ (lg & ->)]]; [lia|]. cbn [read_output bind].
  unfold calculate_accuracy. cbn [labels].
  pose proof (k_of_each_nonempty k cb Hk Hne) as Hsl.
  destruct (k_of_each k cb) as [|x xs] eqn:E; [done|]. cbn [bind].
  eexists _, _. split; [done|].
  cbn [os_total_classes_present os_learner os_output os_logging].
  rewrite dom_insert_L, Hh', Hh. done.
Qed.

Lemma oml_after_total (i : nat) :
  (i < length class_batches)%nat ->
  exists st,
    oml_after self _inputs episode_labels learner class_batches i = Ok st /\
    os_total_classes_present st = sum_counts (take (S i) class_batches) /\
    length (classifiers (os_learner st)) = length (classifiers learner) /\
    dom (os_logging st)
    = (list_to_set ((fun j : nat => "step_" +:+ pretty j +:+ "_inner_accuracy")
                      <$> seq 1 (S i)) : gset string).
Proof.
  induction i as [|i IH]; intros Hi.
  - destruct (lookup_lt_is_Some_2 class_batches 0 Hi) as [cb Hcb].
    rewrite (oml_after_batch_0 _ _ _ _ _ _ _ _ _ _ _ _ Hcb).
    destruct (oml_batch_total 0 cb (OML_init learner) Hcb eq_refl)
      as (st & out & Hst & Htcp & Hh & _ & Hlog).
    exists st. split; [done|]. rewrite Htcp, Hlog, (take_S_r _ 0 cb Hcb), take_0.
    split; [unfold sum_counts; simpl; lia|]. split; [done|].
    cbn [OML_init os_logging seq fmap list_fmap list_to_set].
    by rewrite dom_empty_L.
  - destruct IH as (st0 & Hst0 & Htcp0 & Hh0 & Hlog0); [lia|].
    destruct (lookup_lt_is_Some_2 class_batches (S i) Hi) as [cb Hcb].
    rewrite (oml_after_batch_S _ _ _ _ _ _ _ _ _ _ _ _ _ Hcb), Hst0. cbn [bind].
    destruct (oml_batch_total (S i) cb st0 Hcb Hh0)
      as (st & out & Hst & Htcp & Hh & _ & Hlog).
    exists st. split; [done|].
    rewrite Htcp, Hlog, Hlog0, Htcp0, (take_S_r _ (S i) cb Hcb), sum_counts_app.
    split; [unfold sum_counts; simpl; lia|]. split; [done|].
    rewrite (seq_S (S i)), fmap_app, list_to_set_app_L.
    cbn [fmap list_fmap list_to_set Nat.add]. rewrite union_empty_r_L.
    apply (comm_L (∪)).
Qed.

Lemma oml_final_total (i : nat)
    (st : @oml_state Input Logit Loss Acc Encoder Head) :
  (i < length class_batches)%nat ->
  length (classifiers (os_learner st)) = length (classifiers learner) ->
  concat (os_query_labels st) = k_of_each k (concat (take (S i) class_batches)) ->
  length (concat (os_query_inputs st)) = length (concat (os_query_labels st)) ->
  os_query_inputs st <> [] ->
  exists acc out,
    OML_final encode apply_head loss_func accuracy st
    = Ok (<["query_accuracy" := MAcc acc]>
            (<["query_error" := MLoss (loss_func (logits out) (labels out))]>
               (os_logging st)), out) /\
    len (logits out) = len (classifiers learner).
Proof.
  intros Hi Hh Hql Hlen Hqi.
  destruct (lookup_lt_is_Some_2 class_batches 0) as [cb0 Hcb0]; [lia|].
  destruct (batch_split_total _inputs episode_labels k class_batches
              Hinputs Hk Hpartition Hcount Hnonempty 0 cb0 Hcb0)
    as (_ & _ & _ & Hne0 & Hpos0).
  assert (Hin0 : forall c, c ∈ cb0 -> c ∈ concat (take (S i) class_batches)).
  { intros c Hc. apply elem_of_concat. exists cb0. split; [|done].
    apply list_elem_of_lookup. exists 0%nat. rewrite lookup_take_lt by lia. done. }
  assert (Hnd : NoDup (concat (take (S i) class_batches))).
  { pose proof Hpartition as Hp.
    rewrite <- (take_drop (S i) class_batches), concat_app in Hp.
    by apply NoDup_app in Hp as [? _]. }
  destruct (final_query_total (os_query_inputs st) (os_query_labels st))
    as (qi & ql & Hfq); [done| |done|].
  { rewrite Hql. destruct cb0 as [|c0 cb0']; [done|].
    intros E.
    pose proof (count_class_k_of_each k (concat (take (S i) class_batches)) c0 Hnd)
      as Hc.
    rewrite E in Hc. rewrite decide_True in Hc by (apply Hin0; left).
    change (count_class c0 []) with 0%nat in Hc. lia. }
  unfold OML_final. rewrite Hfq. cbn [bind].
  destruct (OMLModel_forward_total encode apply_head (eval_mode (os_learner st))
              qi (os_total_classes_present st) false) as [lg Hlg].
  { unfold len in *. cbn [eval_mode classifiers]. rewrite Hh. lia. }
  rewrite Hlg. cbn [bind]. unfold calculate_accuracy. cbn [labels logits].
  assert (Hne : ql <> []).
  { destruct cb0 as [|c0 cb0']; [done|]. intros ->.
    pose proof (final_query_counts _ _ _ _ c0 Hfq) as Hc.
    rewrite Hql, count_class_k_of_each in Hc by done.
    rewrite decide_True in Hc by (apply Hin0; left).
    change (count_class c0 []) with 0%nat in Hc. lia. }
  destruct ql as [|y ys]; [done|]. cbn [bind].
  eexists _, {| logits := lg; labels := y :: ys |}. split; [done|].
  cbn [logits]. apply OMLModel_forward_heads in Hlg as [-> _].
  unfold len. cbn [eval_mode classifiers]. by rewrite Hh.
Qed.

End OMLRun.

Section WellFormedEpisodeOML.
Context {Input Features Logit Loss Acc Encoder Head : Type}.
Variable encode : bool -> Encoder -> list Input -> Features.
Variable apply_head : Head -> Features -> Logit.
Variable loss_func : list Logit -> list Z -> Loss.
Variable accuracy : list Logit -> list Z -> Acc.
Variable adapt_encoder : Loss -> Encoder -> Encoder.
Variable adapt_head : Loss -> nat -> Head -> Head.

Variables (perm : list nat) (_inputs : list Input) (episode_labels : list Z).
Variable k : nat.
Hypothesis Hinputs : length _inputs = length episode_labels.
Hypothesis Hk : (1 <= k)%nat.
Hypothesis Hclasses :
  unique episode_labels = seqZ 0 (len (unique episode_labels)).
Hypothesis Hperm : perm ≡ₚ seq 0 (length (unique episode_labels)).
Hypothesis Hcount :
  forall c, c ∈ episode_labels -> count_class c episode_labels = (2 * k)%nat.

(** X10. on a well-formed episode [OML.meta_learn] returns whenever
    [1 <= n_classes_start < n], [n_class_additions >= 1], the model has at
    least [n] heads and [training_steps >= 1]. The log then holds
    [query_accuracy], [query_error] and one [step_j_inner_accuracy] for
    each class batch, numbered from 1; the query error is computed from
    as many logit columns as the model has heads. *)
Theorem OML_meta_learn_total (self : @OML Encoder Head) :
  1 <= oml_n_classes_start self < len (unique episode_labels) ->
  1 <= oml_n_class_additions self ->
  len (unique episode_labels) <= len (classifiers (oml_model self)) ->
  1 <= oml_training_steps self ->
  exists logging,
    OML_meta_learn encode apply_head loss_func accuracy adapt_encoder adapt_head
      self perm (_inputs, episode_labels) = Ok logging /\
    dom logging
    = {[ "query_accuracy"; "query_error" ]}
      ∪ list_to_set
          ((fun j : nat => "step_" +:+ pretty j +:+ "_inner_accuracy")
             <$> seq 1 (Z.to_nat ((len (unique episode_labels)
                                   - oml_n_classes_start self)
                                  / oml_n_class_additions self) + 1)) /\
    exists lg ql,
      logging !! "query_error" = Some (MLoss (loss_func lg ql)) /\
      len lg = len (classifiers (oml_model self)).
Proof.
  intros Hns Hna Hheads Hsteps.
  destruct (valid_episode_batches perm episode_labels _ _ k
              Hclasses Hperm Hcount Hns Hna)
    as (labels' & bs & Hrand & Hbs & Hlen & Hnd & Hsame & Hcnt & Hne & Hsum & Hn).
  assert (Hin' : length _inputs = length labels') by congruence.
  set (learner := clone_for_training (oml_model self)).
  assert (Hh : 1 <= len (classifiers learner)) by (cbn; lia).
  assert (Hi : (length bs - 1 < length bs)%nat) by lia.
  destruct (oml_after_total encode apply_head loss_func accuracy adapt_encoder
              adapt_head _inputs labels' k bs Hin' Hk Hnd Hcnt Hne self learner
              Hh Hsteps _ Hi) as (st & Hst & Htcp & Hh' & Hlog).
  destruct (oml_query_halves encode apply_head loss_func accuracy adapt_encoder
              adapt_head _inputs labels' k bs Hin' Hk Hnd Hcnt self learner _ st
              Hi Hst) as (Hql & Hqlen & Hqi).
  destruct (oml_final_total encode apply_head loss_func accuracy _inputs labels'
              k bs Hin' Hk Hnd Hcnt Hne learner Hh _ st Hi Hh' Hql Hqlen Hqi)
    as (acc & out & Hfinal & Hcols).
  unfold OML_meta_learn, OML_meta_learn_out. rewrite Hrand. cbn [bind].
  rewrite Hbs. cbn [bind]. fold learner. rewrite oml_batches_full, Hst.
  cbn [bind]. rewrite Hfinal. cbn [bind].
  eexists. split; [done|]. split.
  - rewrite !dom_insert_L.
    replace (S (length bs - 1)) with (length bs) in Hlog by lia.
    rewrite Hn in Hlog. rewrite Hlog, <- !(assoc_L (∪)). done.
  - exists (logits out), (labels out).
    rewrite lookup_insert_ne by done. rewrite lookup_insert_eq. by split.
Qed.

End WellFormedEpisodeOML.

Lemma OML_meta_learn_total_witness :
  let episode := [0; 1; 2; 0; 1; 2; 0; 1; 2; 0; 1; 2] in
  let self := Toy.oml 4 1 1 1 in
  exists logging,
    OML_meta_learn Toy.encode Toy.apply_head Toy.loss_func Toy.accuracy
      Toy.adapt_encoder Toy.adapt_head self [2; 0; 1]%nat (episode, episode)
    = Ok logging /\
    dom logging
    = {[ "query_accuracy"; "query_error" ]}
      ∪ list_to_set
          ((fun j : nat => "step_" +:+ pretty j +:+ "_inner_accuracy")
             <$> seq 1 (Z.to_nat ((len (unique episode) - 1) / 1) + 1)) /\
    exists lg ql,
      logging !! "query_error" = Some (MLoss (Toy.loss_func lg ql)) /\
      len lg = len (classifiers (oml_model self)).
Proof.
  intros episode self.
  assert (Hcount : forall c, c ∈ episode -> count_class c episode = (2 * 2)%nat).
  { intros c Hc. unfold episode in Hc. repeat (apply elem_of_cons in Hc as [->|Hc]);
      try (vm_compute; reflexivity). by apply elem_of_nil in Hc. }
  assert (Hperm : [2; 0; 1]%nat ≡ₚ seq 0 (length (unique episode))).
  { apply (bool_decide_unpack _). by vm_compute. }
  apply (OML_meta_learn_total Toy.encode Toy.apply_head Toy.loss_func Toy.accuracy
           Toy.adapt_encoder Toy.adapt_head [2; 0; 1]%nat episode episode 2
           eq_refl ltac:(lia) eq_refl Hperm Hcount self).
  - split; [simpl; lia | by vm_compute].
  - simpl; lia.
  - by vm_compute.
  - simpl; lia.
Defined.

Lemma FSCLModel_forward_prefix_witness :
  FSCLModel_forward Toy.encode Toy.apply_head (Toy.model 3) [7; 8] 2
  = Ok (take (Z.to_nat 2) [0; 1; 2]).
Proof.
  pose proof (FSCLModel_forward_prefix Toy.encode Toy.apply_head (Toy.model 3)
                [7; 8] 2 3 [0; 1] [0; 1; 2] ltac:(lia) eq_refl eq_refl) as H.
  rewrite <- H. reflexivity.
Defined.

Section NoSteps.
Context {Input Features Logit Loss Acc Encoder Head : Type}.
Variable encode : bool -> Encoder -> list Input -> Features.
Variable apply_head : Head -> Features -> Logit.
Variable loss_func : list Logit -> list Z -> Loss.
Variable accuracy : list Logit -> list Z -> Acc.
Variable adapt_encoder : Loss -> Encoder -> Encoder.
Variable adapt_head : Loss -> nat -> Head -> Head.

(** X11. with [initial_training_steps <= 0] the first inner loop
    is empty, [output] is never assigned, and [FSCL.meta_learn] raises on
    every batch. *)
Theorem FSCL_meta_learn_needs_initial_step (self : @FSCL Encoder Head)
    (perm : list nat) (batch : list Input * list Z) :
  fscl_initial_training_steps self <= 0 ->
  raises (FSCL_meta_learn encode apply_head loss_func accuracy adapt_encoder
            adapt_head self perm batch).
Proof.
  intros Hinit. destruct batch as [_inputs episode_labels].
  unfold FSCL_meta_learn, FSCL_meta_learn_out.
  apply raises_bind_l. apply raises_bind_r. intros labels' _.
  apply raises_bind_r. intros class_batches _.
  apply raises_bind_l. unfold FSCL_batches. apply raises_bind_l.
  unfold FSCL_first_batch.
  apply raises_bind_r. intros cb _.
  apply raises_bind_r. intros [[[si sl] qi] ql] _.
  apply raises_bind_r. intros quick_input _.
  apply raises_bind_r. intros quick_labels _.
  replace (Z.to_nat (fscl_initial_training_steps self)) with 0%nat by lia.
  cbn [adapt_steps bind read_output]. by exists UnboundLocalError.
Qed.

(** X12. with [training_steps <= 0] the inner loop of the first
    class batch is empty, [output] is never assigned, and
    [OML.meta_learn] raises on every batch. *)
Theorem OML_meta_learn_needs_training_step (self : @OML Encoder Head)
    (perm : list nat) (batch : list Input * list Z) :
  oml_training_steps self <= 0 ->
  raises (OML_meta_learn encode apply_head loss_func accuracy adapt_encoder
            adapt_head self perm batch).
Proof.
  intros Hsteps. destruct batch as [_inputs episode_labels].
  unfold OML_meta_learn, OML_meta_learn_out.
  apply raises_bind_l. apply raises_bind_r. intros labels' _.
  apply raises_bind_r. intros class_batches _.
  destruct class_batches as [|cb rest].
  - cbn [OML_batches enumerate length seq zip zip_with for_each bind].
    unfold OML_final. cbn [OML_init os_query_inputs os_query_labels final_query
      torch_cat bind]. by exists RuntimeError.
  - apply raises_bind_l. unfold OML_batches.
    cbn [enumerate length seq zip zip_with for_each].
    apply raises_bind_l. unfold OML_batch.
    apply raises_bind_r. intros [[[si sl] qi] ql] _.
    replace (Z.to_nat (oml_training_steps self)) with 0%nat by lia.
    cbn [adapt_steps bind read_output OML_init os_output os_learner].
    by exists UnboundLocalError.
Qed.

End NoSteps.

Lemma FSCL_meta_learn_needs_initial_step_witness :
  raises (FSCL_meta_learn Toy.encode Toy.apply_head Toy.loss_func Toy.accuracy
            Toy.adapt_encoder Toy.adapt_head (Toy.fscl 3 1 1 1 0 2 true)
            [2; 0; 1]%nat
            ([0; 1; 2; 0; 1; 2; 0; 1; 2; 0; 1; 2],
             [0; 1; 2; 0; 1; 2; 0; 1; 2; 0; 1; 2])).
Proof.
  apply FSCL_meta_learn_needs_initial_step. simpl. lia.
Defined.

Lemma OML_meta_learn_needs_training_step_witness :
  raises (OML_meta_learn Toy.encode Toy.apply_head Toy.loss_func Toy.accuracy
            Toy.adapt_encoder Toy.adapt_head (Toy.oml 3 1 1 0)
            [2; 0; 1]%nat
            ([0; 1; 2; 0; 1; 2; 0; 1; 2; 0; 1; 2],
             [0; 1; 2; 0; 1; 2; 0; 1; 2; 0; 1; 2])).
Proof.
  apply OML_meta_learn_needs_training_step. simpl. lia.
Defined.

(** ** [training_step] on the continual learners *)

Section TrainingStep.
Context {Input Features Logit Loss Acc Encoder Head : Type}.
Variable encode : bool -> Encoder -> list Input -> Features.
Variable apply_head : Head -> Features -> Logit.
Variable loss_func : list Logit -> list Z -> Loss.
Variable accuracy : list Logit -> list Z -> Acc.
Variable adapt_encoder : Loss -> Encoder -> Encoder.
Variable adapt_head : Loss -> nat -> Head -> Head.

Lemma FSCL_meta_learn_query_error (self : @FSCL Encoder Head) (perm : list nat)
    (batch : list Input * list Z) (logging : gmap string (@Metric Loss Acc)) :
  FSCL_meta_learn encode apply_head loss_func accuracy adapt_encoder adapt_head
    self perm batch = Ok logging ->
  exists l, logging !! "query_error" = Some (MLoss l).
Proof.
  unfold FSCL_meta_learn, FSCL_meta_learn_out. destruct batch as [_inputs lbls].
  intros Hrun. apply bind_Ok in Hrun as ([log out] & Hrun & [= <-]).
  apply bind_Ok in Hrun as (labels' & _ & Hrun).
  apply bind_Ok in Hrun as (bs & _ & Hrun).
  apply bind_Ok in Hrun as (st & _ & Hrun).
  apply bind_Ok in Hrun as (st' & _ & Hrun).
  unfold FSCL_final in Hrun.
  apply bind_Ok in Hrun as ([qi ql] & _ & Hrun).
  apply bind_Ok in Hrun as (lg & _ & Hrun).
  apply bind_Ok in Hrun as (acc & _ & [= <- _]).
  eexists. rewrite lookup_insert_ne by done. by rewrite lookup_insert_eq.
Qed.

Lemma OML_meta_learn_query_error (self : @OML Encoder Head) (perm : list nat)
    (batch : list Input * list Z) (logging : gmap string (@Metric Loss Acc)) :
  OML_meta_learn encode apply_head loss_func accuracy adapt_encoder adapt_head
    self perm batch = Ok logging ->
  exists l, logging !! "query_error" = Some (MLoss l).
Proof.
  unfold OML_meta_learn, OML_meta_learn_out. destruct batch as [_inputs lbls].
  intros Hrun. apply bind_Ok in Hrun as ([log out] & Hrun & [= <-]).
  apply bind_Ok in Hrun as (labels' & _ & Hrun).
  apply bind_Ok in Hrun as (bs & _ & Hrun).
  apply bind_Ok in Hrun as (st & _ & Hrun).
  unfold OML_final in Hrun.
  apply bind_Ok in Hrun as ([qi ql] & _ & Hrun).
  apply bind_Ok in Hrun as (lg & _ & Hrun).
  apply bind_Ok in Hrun as (acc & _ & [= <- _]).
  eexists. rewrite lookup_insert_ne by done. by rewrite lookup_insert_eq.
Qed.

(** X15. [training_step] on an [FSCL] and on an [OML] fails exactly
    when [meta_learn] does, with the same exception, and otherwise
    returns the loss logged under [query_error]: it never raises
    [KeyError]. *)
Theorem training_step_returns_query_error (fscl : @FSCL Encoder Head)
    (oml : @OML Encoder Head) (perm : list nat) (batch : list Input * list Z)
    (batch_idx : Z) :
  let fscl_meta_learn :=
    FSCL_meta_learn encode apply_head loss_func accuracy adapt_encoder adapt_head
      fscl perm in
  let oml_meta_learn :=
    OML_meta_learn encode apply_head loss_func accuracy adapt_encoder adapt_head
      oml perm in
  match fscl_meta_learn batch with
  | Ok logging =>
      exists l, logging !! "query_error" = Some (MLoss l) /\
                training_step (meta_learn_method fscl_meta_learn) batch batch_idx
                = Ok (MLoss l)
  | Raise e =>
      training_step (meta_learn_method fscl_meta_learn) batch batch_idx = Raise e
  end /\
  match oml_meta_learn batch with
  | Ok logging =>
      exists l, logging !! "query_error" = Some (MLoss l) /\
                training_step (meta_learn_method oml_meta_learn) batch batch_idx
                = Ok (MLoss l)
  | Raise e =>
      training_step (meta_learn_method oml_meta_learn) batch batch_idx = Raise e
  end.
Proof.
  intros fscl_meta_learn oml_meta_learn. split.
  - unfold training_step, meta_learn_method, call. cbn [length decide].
    rewrite decide_True by done.
    destruct (fscl_meta_learn batch) as [logging|e] eqn:Hrun; [|done].
    destruct (FSCL_meta_learn_query_error _ _ _ _ Hrun) as [l Hl].
    exists l. split; [done|]. cbn [bind]. by rewrite Hl.
  - unfold training_step, meta_learn_method, call. cbn [length decide].
    rewrite decide_True by done.
    destruct (oml_meta_learn batch) as [logging|e] eqn:Hrun; [|done].
    destruct (OML_meta_learn_query_error _ _ _ _ Hrun) as [l Hl].
    exists l. split; [done|]. cbn [bind]. by rewrite Hl.
Qed.

End TrainingStep.

(** ** The rehearsal buffer of FSCL *)

Lemma length_stride_from {A B} (k : nat) (l : list A) (l' : list B) :
  forall s, length l = length l' ->
  length (stride_from k s l) = length (stride_from k s l').
Proof.
  revert l'. induction l as [|x l IH]; intros [|y l'] s Hlen; try done.
  simpl in Hlen. destruct s as [|s]; simpl; auto.
Qed.

Section Rehearsal.
Context {Input Features Logit Loss Acc Encoder Head : Type}.
Variable encode : bool -> Encoder -> list Input -> Features.
Variable apply_head : Head -> Features -> Logit.
Variable loss_func : list Logit -> list Z -> Loss.
Variable accuracy : list Logit -> list Z -> Acc.
Variable adapt_encoder : Loss -> Encoder -> Encoder.
Variable adapt_head : Loss -> nat -> Head -> Head.

Local Notation "'fscl_next'" :=
  (FSCL_next_batch encode apply_head loss_func accuracy adapt_encoder adapt_head).
Local Notation "'fscl_first'" :=
  (FSCL_first_batch encode apply_head loss_func accuracy adapt_encoder adapt_head).
Local Notation "'fscl_after'" :=
  (FSCL_after_batch encode apply_head loss_func accuracy adapt_encoder adapt_head).

Lemma fscl_first_quick (self : @FSCL Encoder Head) (_inputs : list Input)
    (episode_labels : list Z) (learner : @Model Encoder Head)
    (class_batches : list (list Z))
    (st : @fscl_state Input Logit Loss Acc Encoder Head) :
  fscl_first self _inputs episode_labels learner class_batches = Ok st ->
  exists cb si sl qi ql,
    class_batches !! 0%nat = Some cb /\
    iteration_split _inputs episode_labels cb = Ok (si, sl, qi, ql) /\
    1 <= fscl_k_shot self /\
    fs_quick_update_inputs st = [stride_from (Z.to_nat (fscl_k_shot self)) 0 si] /\
    fs_quick_update_labels st = [stride_from (Z.to_nat (fscl_k_shot self)) 0 sl].
Proof.
  unfold FSCL_first_batch, stride. intros Hrun.
  apply bind_Ok in Hrun as (cb & Hcb & Hrun).
  apply bind_Ok in Hrun as ([[[si sl] qi] ql] & Hsplit & Hrun).
  destruct (Z.leb_spec (fscl_k_shot self) 0) as [|Hk]; [done|]. cbn [bind] in Hrun.
  apply bind_Ok in Hrun as ([learner' output] & _ & Hrun).
  apply bind_Ok in Hrun as (out & _ & Hrun).
  apply bind_Ok in Hrun as (acc & _ & [= <-]).
  exists cb, si, sl, qi, ql. destruct (class_batches !! 0%nat); [|done].
  injection Hcb as ->. repeat split; try done. lia.
Qed.

Lemma fscl_next_quick (self : @FSCL Encoder Head) (_inputs : list Input)
    (episode_labels : list Z) (st st' : @fscl_state Input Logit Loss Acc Encoder Head)
    (i : nat) (cb : list Z) :
  fscl_next self _inputs episode_labels st (i, cb) = Ok st' ->
  exists si sl qi ql,
    iteration_split _inputs episode_labels cb = Ok (si, sl, qi, ql) /\
    fs_quick_update_inputs st'
    = fs_quick_update_inputs st ++ [stride_from (Z.to_nat (fscl_k_shot self)) 0 si] /\
    fs_quick_update_labels st'
    = fs_quick_update_labels st ++ [stride_from (Z.to_nat (fscl_k_shot self)) 0 sl].
Proof.
  unfold FSCL_next_batch, stride. intros Hrun.
  apply bind_Ok in Hrun as ([[[si sl] qi] ql] & Hsplit & Hrun).
  destruct (Z.leb_spec (fscl_k_shot self) 0) as [|Hk]; [done|]. cbn [bind] in Hrun.
  apply bind_Ok in Hrun as ([learner' output] & _ & Hrun).
  apply bind_Ok in Hrun as (out & _ & Hrun).
  apply bind_Ok in Hrun as (acc & _ & [= <-]).
  exists si, sl, qi, ql. done.
Qed.

Variables (_inputs : list Input) (episode_labels : list Z) (k : nat).
Variable class_batches : list (list Z).
Hypothesis Hinputs : length _inputs = length episode_labels.
Hypothesis Hk : (1 <= k)%nat.
Hypothesis Hpartition : NoDup (concat class_batches).
Hypothesis Hcount :
  forall c, c ∈ concat class_batches -> count_class c episode_labels = (2 * k)%nat.

Lemma fscl_quick_buffer (self : @FSCL Encoder Head) (learner : @Model Encoder Head)
    (i : nat) (st : @fscl_state Input Logit Loss Acc Encoder Head) :
  (i < length class_batches)%nat ->
  fscl_after self _inputs episode_labels learner class_batches i = Ok st ->
  fs_quick_update_labels st
  = ((fun cb => stride_from (Z.to_nat (fscl_k_shot self)) 0 (k_of_each k cb))
       <$> take (S i) class_batches) /\
  length <$> fs_quick_update_inputs st = length <$> fs_quick_update_labels st.
Proof.
  revert st. induction i as [|i IH]; intros st Hi Hrun.
  - rewrite fscl_after_batch_0 in Hrun.
    apply fscl_first_quick in Hrun
      as (cb & si & sl & qi & ql & Hcb & Hsplit & _ & -> & ->).
    destruct (batch_split_even _inputs episode_labels k class_batches
                Hinputs Hk Hpartition Hcount 0 cb si sl qi ql Hcb Hsplit)
      as (_ & -> & _ & Hlen & _).
    rewrite (take_S_r _ 0 cb Hcb), take_0. cbn [app fmap list_fmap].
    split; [done|]. f_equal. by apply length_stride_from.
  - destruct (lookup_lt_is_Some_2 class_batches (S i) Hi) as [cb Hcb].
    rewrite (fscl_after_batch_S _ _ _ _ _ _ _ _ _ _ _ _ _ Hcb) in Hrun.
    apply bind_Ok in Hrun as (st0 & Hst0 & Hnext).
    apply IH in Hst0 as (Hlabels0 & Hlen0); [|lia].
    apply fscl_next_quick in Hnext as (si & sl & qi & ql & Hsplit & -> & ->).
    destruct (batch_split_even _inputs episode_labels k class_batches
                Hinputs Hk Hpartition Hcount (S i) cb si sl qi ql Hcb Hsplit)
      as (_ & -> & _ & Hlen & _).
    rewrite (take_S_r _ (S i) cb Hcb), !fmap_app, Hlabels0, Hlen0, Hlabels0.
    split; [done|]. cbn [fmap list_fmap]. do 2 f_equal.
    by apply length_stride_from.
Qed.

(** X14. on an episode with [2k] examples of each class and
    [k_shot = k], the rehearsal buffer that [FSCL.meta_learn] collects
    for the quick update holds the label of every class of the class
    batches exactly once, in order, and as many inputs as labels. *)
Theorem FSCL_rehearsal_one_per_class (self : @FSCL Encoder Head)
    (learner : @Model Encoder Head)
    (st : @fscl_state Input Logit Loss Acc Encoder Head) :
  fscl_k_shot self = Z.of_nat k ->
  FSCL_batches encode apply_head loss_func accuracy adapt_encoder adapt_head
    self _inputs episode_labels learner class_batches = Ok st ->
  concat (fs_quick_update_labels st) = concat class_batches /\
  length (concat (fs_quick_update_inputs st)) = length (concat class_batches).
Proof.
  intros Hshot Hrun.
  assert (Hne : (0 < length class_batches)%nat).
  { unfold FSCL_batches in Hrun. apply bind_Ok in Hrun as (st0 & Hfirst & _).
    apply fscl_first_quick in Hfirst as (cb & _ & _ & _ & _ & Hcb & _).
    by apply lookup_lt_Some in Hcb. }
  rewrite fscl_batches_full in Hrun.
  apply fscl_quick_buffer in Hrun as [Hlabels Hlens]; [|lia].
  replace (S (length class_batches - 1)) with (length class_batches) in Hlabels
    by lia.
  rewrite take_ge in Hlabels by lia.
  assert (Hq : fs_quick_update_labels st = class_batches).
  { rewrite Hlabels, Hshot, Nat2Z.id. rewrite <- (list_fmap_id class_batches) at 2.
    apply list_fmap_ext. intros _ cb _. by apply stride_from_k_of_each. }
  split; [by rewrite Hq|].
  rewrite <- Hq. rewrite !length_concat.
  change (map (@length Input)) with (fmap (M := list) (@length Input)).
  change (map (@length Z)) with (fmap (M := list) (@length Z)). by rewrite Hlens.
Qed.

End Rehearsal.

Lemma FSCL_rehearsal_one_per_class_witness :
  let episode := [0; 1; 2; 0; 1; 2; 0; 1; 2; 0; 1; 2] in
  match FSCL_batches Toy.encode Toy.apply_head Toy.loss_func Toy.accuracy
          Toy.adapt_encoder Toy.adapt_head (Toy.fscl 3 1 1 1 1 2 true)
          episode episode (Toy.model 3) [[0]; [1]; [2]] with
  | Ok st =>
      concat (fs_quick_update_labels st) = [0; 1; 2] /\
      length (concat (fs_quick_update_inputs st)) = 3%nat
  | Raise _ => False
  end.
Proof.
  intros episode.
  assert (Hcount : forall c, c ∈ concat [[0]; [1]; [2]] ->
                             count_class c episode = (2 * 2)%nat).
  { intros c Hc. cbn [concat app] in Hc.
    repeat (apply elem_of_cons in Hc as [->|Hc]); try (vm_compute; reflexivity).
    by apply elem_of_nil in Hc. }
  assert (Hnd : NoDup (concat [[0]; [1]; [2]])).
  { apply (bool_decide_unpack _). by vm_compute. }
  destruct (FSCL_batches Toy.encode Toy.apply_head Toy.loss_func Toy.accuracy
              Toy.adapt_encoder Toy.adapt_head (Toy.fscl 3 1 1 1 1 2 true)
              episode episode (Toy.model 3) [[0]; [1]; [2]]) as [st|e] eqn:Hrun;
    [|vm_compute in Hrun; discriminate].
  exact (FSCL_rehearsal_one_per_class Toy.encode Toy.apply_head Toy.loss_func
           Toy.accuracy Toy.adapt_encoder Toy.adapt_head episode episode 2
           [[0]; [1]; [2]] eq_refl ltac:(lia) Hnd Hcount
           (Toy.fscl 3 1 1 1 1 2 true) (Toy.model 3) st eq_refl Hrun).
Defined.

Section Heads.
Context {Input Features Logit Loss Acc Encoder Head : Type}.
Variable encode : bool -> Encoder -> list Input -> Features.
Variable apply_head : Head -> Features -> Logit.
Variable loss_func : list Logit -> list Z -> Loss.
Variable accuracy : list Logit -> list Z -> Acc.
Variable adapt_encoder : Loss -> Encoder -> Encoder.
Variable adapt_head : Loss -> nat -> Head -> Head.

Lemma FSCL_quick_adapt_heads (self : @FSCL Encoder Head)
    (st st' : @fscl_state Input Logit Loss Acc Encoder Head) :
  FSCL_quick_adapt encode apply_head loss_func accuracy adapt_encoder adapt_head
    self st = Ok st' ->
  length (classifiers (fs_learner st')) = length (classifiers (fs_learner st)) /\
  fs_total_classes_present st' = fs_total_classes_present st.
Proof.
  unfold FSCL_quick_adapt. destruct (fscl_quick_adapt self).
  - intros Hrun.
    apply bind_Ok in Hrun as (? & _ & Hrun).
    apply bind_Ok in Hrun as (? & _ & Hrun).
    apply bind_Ok in Hrun as (? & _ & Hrun).
    apply bind_Ok in Hrun as (? & _ & [= <-]).
    cbn [fs_learner fs_total_classes_present]. by rewrite adapt_heads.
  - by intros [= <-].
Qed.

Lemma FSCL_final_heads (st : @fscl_state Input Logit Loss Acc Encoder Head)
    (r : gmap string (@Metric Loss Acc) * @Output Logit) :
  FSCL_final encode apply_head loss_func accuracy st = Ok r ->
  fs_total_classes_present st <= len (classifiers (fs_learner st)).
Proof.
  unfold FSCL_final. intros Hrun.
  apply bind_Ok in Hrun as ([qi ql] & _ & Hrun).
  apply bind_Ok in Hrun as (lg & Hlg & _).
  apply FSCLModel_forward_heads in Hlg as [_ [_ Hle]]. exact Hle.
Qed.

(** X13. when the episode has more classes than the model has heads
    (and [1 <= n_classes_start <= n], [n_class_additions >= 1]),
    [FSCL.meta_learn] raises. *)
Theorem FSCL_meta_learn_needs_heads (self : @FSCL Encoder Head)
    (perm : list nat) (_inputs : list Input) (episode_labels : list Z) :
  perm ≡ₚ seq 0 (length (unique episode_labels)) ->
  1 <= fscl_n_classes_start self <= len (unique episode_labels) ->
  1 <= fscl_n_class_additions self ->
  len (classifiers (fscl_model self)) < len (unique episode_labels) ->
  raises (FSCL_meta_learn encode apply_head loss_func accuracy adapt_encoder
            adapt_head self perm (_inputs, episode_labels)).
Proof.
  intros Hperm Hns Hna Hheads.
  destruct (FSCL_meta_learn encode apply_head loss_func accuracy adapt_encoder
              adapt_head self perm (_inputs, episode_labels)) as [logging|e] eqn:Hrun;
    [exfalso|by exists e].
  unfold FSCL_meta_learn, FSCL_meta_learn_out in Hrun.
  apply bind_Ok in Hrun as ([log out] & Hrun & _).
  apply bind_Ok in Hrun as (labels' & Hrand & Hrun).
  apply bind_Ok in Hrun as (bs & Hbs & Hrun).
  apply bind_Ok in Hrun as (st & Hst & Hrun).
  apply bind_Ok in Hrun as (st' & Hquick & Hfinal).
  destruct (return_random_labels_classes _ _ _ Hperm Hrand) as (Hu & _ & Hu').
  assert (Hcons : unique labels' = seqZ 0 (len (unique labels')))
    by (rewrite Hu'; exact Hu).
  destruct (return_label_batches_consecutive_aux (fscl_n_classes_start self)
              (fscl_n_class_additions self) 0 _ Hcons)
    as (bs' & Hbs' & Hcat & _); [by rewrite Hu' | done |].
  rewrite Hbs in Hbs'. injection Hbs' as <-.
  assert (Hne : (0 < length bs)%nat).
  { destruct bs; [|simpl; lia]. simpl in Hcat. rewrite Hu' in Hcat.
    symmetry in Hcat. apply (f_equal len) in Hcat. change (len []) with 0 in Hcat.
    lia. }
  rewrite fscl_batches_full in Hst.
  apply fscl_after_batch_inv in Hst as (Htcp & Hlen & _); [|lia].
  replace (S (length bs - 1)) with (length bs) in Htcp by lia.
  rewrite take_ge, sum_counts_concat, Hcat, Hu' in Htcp by lia.
  apply FSCL_quick_adapt_heads in Hquick as [Hlen' Htcp'].
  apply FSCL_final_heads in Hfinal.
  unfold len in *. rewrite Htcp', Htcp, Hlen', Hlen in Hfinal.
  cbn [clone_for_training classifiers] in Hfinal. lia.
Qed.

End Heads.

Lemma FSCL_meta_learn_needs_heads_witness :
  raises (FSCL_meta_learn Toy.encode Toy.apply_head Toy.loss_func Toy.accuracy
            Toy.adapt_encoder Toy.adapt_head (Toy.fscl 2 1 1 1 1 2 true)
            [2; 0; 1]%nat
            ([0; 1; 2; 0; 1; 2; 0; 1; 2; 0; 1; 2],
             [0; 1; 2; 0; 1; 2; 0; 1; 2; 0; 1; 2])).
Proof.
  apply FSCL_meta_learn_needs_heads.
  - apply (bool_decide_unpack _). by vm_compute.
  - split; [simpl; lia | by vm_compute].
  - simpl; lia.
  - by vm_compute.
Defined.

Section ReptileSteps.
Context {Input Tensor Scalar Logits Loss Acc OptState : Type}.
Local Open Scope prog_scope.
Variable tadd tsub : Tensor -> Tensor -> Tensor.
Variable tscale : Tensor -> Scalar -> Tensor.
Variable int_truediv : Z -> Z -> Scalar.
Variable one_minus : Scalar -> Scalar.
Variable smul : Scalar -> Scalar -> Scalar.
Variable forward : gmap string Tensor -> list Input -> Logits.
Variable loss_func : Logits -> list Z -> Loss.
Variable accuracy : Logits -> list Z -> Acc.
Variable gradients : gmap string Tensor -> list Input -> list Z
                     -> gmap string Tensor.
Variable adam_step : OptState -> gmap string Tensor -> gmap string Tensor
                     -> gmap string Tensor * OptState.

Hypothesis adam_names : forall o p g, dom (adam_step o p g).1 = dom p.

Local Notation "'inner_step'" :=
  (@reptile_inner_step Input Tensor Scalar OptState gradients adam_step).
Local Notation "'meta_learn'" :=
  (@Reptile_meta_learn Input Tensor Scalar Logits Loss Acc OptState
     tadd tsub tscale int_truediv one_minus smul forward loss_func accuracy
     gradients adam_step).
Local Notation "'outer_update'" :=
  (@reptile_outer_update Input Tensor Scalar OptState
     tadd tsub tscale int_truediv one_minus smul).


(** The result of a call whose batch splits. *)
Lemma meta_learn_outcome (_inputs : list Input) (labels : list Z) (self : Reptile)
    (si : list Input) (sl : list Z) (qi : list Input) (ql : list Z) :
  split_batch _inputs labels = Ok (si, sl, qi, ql) ->
  let s1 := after_inner_loop gradients adam_step si sl self in
  let lg := forward (rp_params s1) qi in
  let r := meta_learn (_inputs, labels) self in
  match calculate_accuracy_w accuracy lg ql with
  | Raise e => outcome r = Raise e /\ final r = s1
  | Ok acc =>
      final r = final (outer_update (rp_params self) s1) /\
      outcome r
      = match outcome (outer_update (rp_params self) s1) with
        | Ok _ => Ok (<["query_accuracy" := WAcc acc]>
                        (<["query_error" := WLoss (loss_func lg ql)]> ∅))
        | Raise e => Raise e
        end
  end.
Proof.
  intros Hsplit s1 lg r. subst s1 lg r. unfold after_inner_loop.
  destruct (inner_loop_run gradients adam_step adam_names
              (Z.to_nat (rp_train_update_steps self)) si sl self)
    as (Hloop & _ & _).
  unfold Reptile_meta_learn. cbv beta delta [pbind lift read ret]. rewrite Hsplit.
  cbn [outcome final trace]. rewrite Hloop. cbn [outcome final trace].
  destruct (calculate_accuracy_w accuracy _ ql) as [acc|e];
    cbn [outcome final trace]; [|done].
  destruct (outcome (outer_update (rp_params self) _)) as [[]|e];
    cbn [outcome final trace]; done.
Qed.


(** The store and the outcome of the two steps, from the call of
    [meta_learn] on the object with the mode flag set. *)
Lemma step_runs (b : bool) (batch : list Input * list Z) (self : Reptile)
    {A} (k : gmap string WMetric -> prog Reptile A) :
  let r0 := meta_learn batch (set_training b self) in
  let r := pbind (write (set_training b)) (fun _ => pbind (meta_learn batch) k) self in
  match outcome r0 with
  | Ok log => final r = final (k log (final r0)) /\
              outcome r = outcome (k log (final r0))
  | Raise e => final r = final r0 /\ outcome r = Raise e
  end.
Proof.
  intros r0 r. subst r0 r.
  destruct (pbind_Ok (write (set_training b))
              (fun _ => pbind (meta_learn batch) k) self tt eq_refl)
    as (_ & -> & ->).
  cbn [write final].
  destruct (outcome (meta_learn batch (set_training b self))) as [log|e] eqn:Hrun.
  - by destruct (pbind_Ok (meta_learn batch) k _ log Hrun) as (_ & -> & ->).
  - by destruct (pbind_Raise (meta_learn batch) k _ e Hrun) as (_ & -> & ->).
Qed.

(** X17. a [validation_step] on a [Reptile] that returns leaves
    the weights and [outer_steps] as they were at entry, whatever the
    mode before the call; the object stays in evaluation mode. *)
Theorem Reptile_validation_step_restores (batch : list Input * list Z)
    (batch_idx : Z) (self : Reptile) :
  let r := Reptile_validation_step tadd tsub tscale int_truediv one_minus smul
             forward loss_func accuracy gradients adam_step batch batch_idx self in
  outcome r = Ok tt ->
  rp_params (final r) = rp_params self /\
  rp_outer_steps (final r) = rp_outer_steps self /\
  rp_training (final r) = false.
Proof.
  intros r Hret. subst r. unfold Reptile_validation_step in *.
  pose proof (step_runs false batch self (fun _ => ret tt)) as Hstep.
  cbv zeta in Hstep. set (s0 := set_training false self) in *.
  destruct (outcome (meta_learn batch s0)) as [log|e] eqn:Hrun.
  2:{ destruct Hstep as [_ Hout]. rewrite Hout in Hret. discriminate. }
  destruct Hstep as [-> _]. cbn [ret final].
  destruct batch as [_inputs labels].
  destruct (split_batch _inputs labels) as [[[[si sl] qi] ql]|e] eqn:Hsplit.
  2:{ unfold Reptile_meta_learn in Hrun. cbv beta delta [pbind lift] in Hrun.
      rewrite Hsplit in Hrun. discriminate. }
  pose proof (meta_learn_outcome _inputs labels s0 si sl qi ql Hsplit) as Hml.
  cbv zeta in Hml.
  destruct (inner_loop_run gradients adam_step adam_names
              (Z.to_nat (rp_train_update_steps s0)) si sl s0)
    as (_ & (Hdom & Hsteps & Htr & _) & _).
  fold (after_inner_loop gradients adam_step si sl s0) in Hdom, Hsteps, Htr.
  set (s1 := after_inner_loop gradients adam_step si sl s0) in *.
  destruct (calculate_accuracy_w accuracy (forward (rp_params s1) qi) ql)
    as [acc|e]; [|destruct Hml; congruence].
  destruct Hml as [Hfin Hout]. rewrite Hfin.
  destruct (outcome (outer_update (rp_params s0) s1)) as [[]|e] eqn:Hupd;
    [|congruence].
  apply outer_update_inv in Hupd. rewrite Htr in Hupd. cbn [s0 set_training
    rp_training] in Hupd. rewrite Hupd. cbn [set_params rp_params rp_outer_steps
    rp_training]. by rewrite Hsteps, Htr.
Qed.


End ReptileSteps.


Lemma Reptile_validation_step_restores_witness :
  let r := Reptile_validation_step Z.add Z.sub Z.mul Z.div ToyReptile.one_minus
             Z.mul ToyReptile.forward ToyReptile.loss_func ToyReptile.accuracy
             ToyReptile.gradients ToyReptile.adam_step ToyReptile.batch 0
             (ToyReptile.reptile true) in
  rp_params (final r) = {["w" := 10]} /\
  rp_outer_steps (final r) = 0 /\
  rp_training (final r) = false.
Proof.
  intros r.
  exact (Reptile_validation_step_restores Z.add Z.sub Z.mul Z.div
           ToyReptile.one_minus Z.mul ToyReptile.forward ToyReptile.loss_func
           ToyReptile.accuracy ToyReptile.gradients ToyReptile.adam_step
           toy_adam_names ToyReptile.batch 0 (ToyReptile.reptile true)
           ltac:(by vm_compute)).
Defined.


Section Augmentation.
Context {Input Tensor Scalar Logits Loss Acc OptState : Type}.
Variable tadd tsub : Tensor -> Tensor -> Tensor.
Variable tscale : Tensor -> Scalar -> Tensor.
Variable int_truediv : Z -> Z -> Scalar.
Variable one_minus : Scalar -> Scalar.
Variable smul : Scalar -> Scalar -> Scalar.
Variable forward : gmap string Tensor -> list Input -> Logits.
Variable loss_func : Logits -> list Z -> Loss.
Variable accuracy : Logits -> list Z -> Acc.
Variable gradients : gmap string Tensor -> list Input -> list Z
                     -> gmap string Tensor.
Variable adam_step : OptState -> gmap string Tensor -> gmap string Tensor
                     -> gmap string Tensor * OptState.
Variable maml_adapt : gmap string Tensor -> gmap string Tensor
                      -> gmap string Tensor.
Hypothesis adam_names : forall o p g, dom (adam_step o p g).1 = dom p.

Local Notation "'inner_step'" :=
  (@reptile_inner_step Input Tensor Scalar OptState gradients adam_step).
Local Notation "'meta_learn'" :=
  (@Reptile_meta_learn Input Tensor Scalar Logits Loss Acc OptState
     tadd tsub tscale int_truediv one_minus smul forward loss_func accuracy
     gradients adam_step).
Local Notation "'outer_update'" :=
  (@reptile_outer_update Input Tensor Scalar OptState
     tadd tsub tscale int_truediv one_minus smul).

(** Two objects in evaluation mode that differ in [augmentation] only. *)
Local Notation "'same_eval' s s'" :=
  (rp_params s' = rp_params s /\ rp_opt_state s' = rp_opt_state s /\
   rp_training s = false /\ rp_training s' = false /\
   rp_train_update_steps s' = rp_train_update_steps s)
  (at level 10, s at level 9, s' at level 9, only parsing).

Lemma inner_step_eval (x : list Input) (y : list Z) (s s' : Reptile) :
  same_eval s s' ->
  same_eval (final (inner_step x y s)) (final (inner_step x y s')).
Proof.
  intros (Hp & Ho & Ht & Ht' & Hn).
  unfold reptile_inner_step. cbv beta delta [pbind read write].
  cbn [outcome final trace]. unfold opt_step. rewrite Ht, Ht', !Hp, Ho.
  destruct (adam_step (rp_opt_state s) (rp_params s)
              (gradients (rp_params s) x y)) as [p o].
  cbn [rp_params rp_opt_state rp_training rp_train_update_steps]. done.
Qed.

Lemma inner_loop_eval (n : nat) (x : list Input) (y : list Z) (s s' : Reptile) :
  same_eval s s' ->
  same_eval (final (repeat_prog n (inner_step x y) s))
            (final (repeat_prog n (inner_step x y) s')).
Proof.
  revert s s'. induction n as [|n IH]; intros s s' Hs; [done|].
  cbn [repeat_prog].
  destruct (inner_step_run gradients adam_step adam_names x y s) as (Hout & _).
  destruct (inner_step_run gradients adam_step adam_names x y s') as (Hout' & _).
  destruct (pbind_Ok (inner_step x y) (fun _ => repeat_prog n (inner_step x y))
              s tt Hout) as (_ & -> & _).
  destruct (pbind_Ok (inner_step x y) (fun _ => repeat_prog n (inner_step x y))
              s' tt Hout') as (_ & -> & _).
  by apply IH, inner_step_eval.
Qed.

(** X19. in evaluation mode the augmentation is never applied:
    the result of [VanillaMAML.meta_learn] and the result, the weights
    and the optimizer state after [Reptile.meta_learn] are the same
    whatever [self.augmentation] is. *)
Theorem evaluation_ignores_augmentation (batch : list Input * list Z)
    (vanilla : @VanillaMAML Input Tensor)
    (reptile : @Reptile Input Tensor Scalar OptState)
    (augmentation : option (list Input -> list Input)) :
  vm_training vanilla = false -> rp_training reptile = false ->
  let vanilla' :=
    {| vm_params := vm_params vanilla;
       vm_training := vm_training vanilla;
       vm_train_update_steps := vm_train_update_steps vanilla;
       vm_augmentation := augmentation |} in
  let reptile' :=
    {| rp_params := rp_params reptile;
       rp_opt_state := rp_opt_state reptile;
       rp_outer_steps := rp_outer_steps reptile;
       rp_training := rp_training reptile;
       rp_train_update_steps := rp_train_update_steps reptile;
       rp_initial_lr := rp_initial_lr reptile;
       rp_augmentation := augmentation;
       rp_max_steps := rp_max_steps reptile |} in
  outcome (VanillaMAML_meta_learn forward loss_func accuracy gradients maml_adapt
             batch vanilla')
  = outcome (VanillaMAML_meta_learn forward loss_func accuracy gradients maml_adapt
               batch vanilla) /\
  outcome (meta_learn batch reptile') = outcome (meta_learn batch reptile) /\
  rp_params (final (meta_learn batch reptile'))
  = rp_params (final (meta_learn batch reptile)) /\
  rp_opt_state (final (meta_learn batch reptile'))
  = rp_opt_state (final (meta_learn batch reptile)).
Proof.
  intros Hvm Hrp vanilla' reptile'. destruct batch as [_inputs labels]. split.
  - unfold VanillaMAML_meta_learn. cbv beta delta [pbind lift read ret].
    destruct (split_batch _inputs labels) as [[[[si sl] qi] ql]|e];
      cbn [outcome final trace]; [|done].
    subst vanilla'. cbn [vm_training vm_params vm_train_update_steps].
    rewrite Hvm. by destruct (calculate_accuracy_w accuracy _ ql).
  - destruct (split_batch _inputs labels) as [[[[si sl] qi] ql]|e] eqn:Hsplit.
    2:{ unfold Reptile_meta_learn. cbv beta delta [pbind lift].
        rewrite Hsplit. cbn [outcome final trace]. done. }
    pose proof (meta_learn_outcome tadd tsub tscale int_truediv one_minus smul
                  forward loss_func accuracy gradients adam_step adam_names
                  _inputs labels reptile si sl qi ql Hsplit) as Hml.
    pose proof (meta_learn_outcome tadd tsub tscale int_truediv one_minus smul
                  forward loss_func accuracy gradients adam_step adam_names
                  _inputs labels reptile' si sl qi ql Hsplit) as Hml'.
    cbv zeta in Hml, Hml'.
    assert (Hsame : same_eval reptile reptile') by (by subst reptile').
    pose proof (inner_loop_eval (Z.to_nat (rp_train_update_steps reptile))
                  si sl reptile reptile' Hsame) as (Hp & Ho & Ht & Ht' & _).
    change (final (repeat_prog (Z.to_nat (rp_train_update_steps reptile))
                     (inner_step si sl) reptile))
      with (after_inner_loop gradients adam_step si sl reptile) in *.
    change (final (repeat_prog (Z.to_nat (rp_train_update_steps reptile))
                     (inner_step si sl) reptile'))
      with (after_inner_loop gradients adam_step si sl reptile') in *.
    set (s1 := after_inner_loop gradients adam_step si sl reptile) in *.
    set (s1' := after_inner_loop gradients adam_step si sl reptile') in *.
    rewrite Hp in Hml'.
    destruct (calculate_accuracy_w accuracy (forward (rp_params s1) qi) ql)
      as [acc|e].
    2:{ destruct Hml as [-> ->], Hml' as [-> ->]. done. }
    destruct Hml as [Hfin Hout], Hml' as [Hfin' Hout'].
    destruct (inner_loop_run gradients adam_step adam_names
                (Z.to_nat (rp_train_update_steps reptile)) si sl reptile)
      as (_ & (Hdom & _) & _).
    fold (after_inner_loop gradients adam_step si sl reptile) in Hdom.
    fold s1 in Hdom.
    assert (Hupd : outcome (outer_update (rp_params reptile) s1) = Ok tt).
    { apply outer_update_total; [done|]. by rewrite Ht. }
    assert (Hupd' : outcome (outer_update (rp_params reptile') s1') = Ok tt).
    { apply outer_update_total; [by rewrite Hp|]. by rewrite Ht'. }
    rewrite Hupd in Hout. rewrite Hupd' in Hout'. rewrite Hout, Hout'.
    split; [done|]. rewrite Hfin, Hfin'.
    apply outer_update_inv in Hupd, Hupd'. rewrite Ht in Hupd.
    rewrite Ht' in Hupd'. rewrite Hupd, Hupd'.
    cbn [set_params rp_params rp_opt_state]. done.
Qed.

End Augmentation.

Lemma evaluation_ignores_augmentation_witness :
  let augmentation := Some (map (Z.add 1)) in
  let reptile' :=
    {| rp_params := {["w" := 10]};
       rp_opt_state := tt;
       rp_outer_steps := 0;
       rp_training := false;
       rp_train_update_steps := 2;
       rp_initial_lr := 3;
       rp_augmentation := augmentation;
       rp_max_steps := 4 |} in
  outcome (ToyReptile.meta_learn ToyReptile.batch reptile')
  = outcome (ToyReptile.meta_learn ToyReptile.batch (ToyReptile.reptile false)) /\
  rp_params (final (ToyReptile.meta_learn ToyReptile.batch reptile'))
  = rp_params (final (ToyReptile.meta_learn ToyReptile.batch
                        (ToyReptile.reptile false))).
Proof.
  intros augmentation reptile'.
  pose proof (evaluation_ignores_augmentation Z.add Z.sub Z.mul Z.div
                ToyReptile.one_minus Z.mul ToyReptile.forward ToyReptile.loss_func
                ToyReptile.accuracy ToyReptile.gradients ToyReptile.adam_step
                (fun p _ => p) toy_adam_names ToyReptile.batch
                (@mkVanillaMAML Z Z {["w" := 10]} false 2 None)
                (ToyReptile.reptile false) augmentation eq_refl eq_refl)
    as (_ & Hout & Hparams & _).
  split; [exact Hout | exact Hparams].
Defined.

(** ** Stale inner accuracies *)

Section StaleOutput.
Context {Input Features Logit Loss Acc Encoder Head : Type}.
Variable encode : bool -> Encoder -> list Input -> Features.
Variable apply_head : Head -> Features -> Logit.
Variable loss_func : list Logit -> list Z -> Loss.
Variable accuracy : list Logit -> list Z -> Acc.
Variable adapt_encoder : Loss -> Encoder -> Encoder.
Variable adapt_head : Loss -> nat -> Head -> Head.

Local Notation "'fscl_next'" :=
  (FSCL_next_batch encode apply_head loss_func accuracy adapt_encoder adapt_head).
Local Notation "'fscl_first'" :=
  (FSCL_first_batch encode apply_head loss_func accuracy adapt_encoder adapt_head).

(** The log holds nothing but the accuracy of [out]. *)
Local Notation "'only_accuracy_of' out st" :=
  (fs_output st = Some out /\
   forall key v, fs_logging st !! key = Some v ->
                 v = MAcc (accuracy (logits out) (labels out)))
  (at level 10, out at level 9, st at level 9, only parsing).

Lemma fscl_first_log (self : @FSCL Encoder Head) (_inputs : list Input)
    (episode_labels : list Z) (learner : @Model Encoder Head)
    (class_batches : list (list Z))
    (st : @fscl_state Input Logit Loss Acc Encoder Head) :
  fscl_first self _inputs episode_labels learner class_batches = Ok st ->
  exists out, only_accuracy_of out st.
Proof.
  unfold FSCL_first_batch. intros Hrun.
  apply bind_Ok in Hrun as (cb & _ & Hrun).
  apply bind_Ok in Hrun as ([[[si sl] qi] ql] & _ & Hrun).
  apply bind_Ok in Hrun as (quick_in & _ & Hrun).
  apply bind_Ok in Hrun as (quick_lb & _ & Hrun).
  apply bind_Ok in Hrun as ([learner' output] & _ & Hrun).
  apply bind_Ok in Hrun as (out & Hout & Hrun).
  apply bind_Ok in Hrun as (acc & Hacc & [= <-]).
  apply read_output_Ok in Hout as ->.
  exists out. split; [done|]. cbn [fs_logging]. intros key v Hv.
  apply lookup_insert_Some in Hv as [[_ <-]|[_ Hv]]; [|by rewrite lookup_empty in Hv].
  unfold calculate_accuracy in Hacc. destruct (labels out); [done|].
  by injection Hacc as <-.
Qed.

Lemma fscl_next_log (self : @FSCL Encoder Head) (_inputs : list Input)
    (episode_labels : list Z) (st st' : @fscl_state Input Logit Loss Acc Encoder Head)
    (item : nat * list Z) (out : @Output Logit) :
  fscl_training_steps self <= 0 ->
  fscl_next self _inputs episode_labels st item = Ok st' ->
  only_accuracy_of out st -> only_accuracy_of out st'.
Proof.
  intros Hsteps Hrun [Hout Hlog]. destruct item as [i cb].
  unfold FSCL_next_batch in Hrun.
  apply bind_Ok in Hrun as ([[[si sl] qi] ql] & _ & Hrun).
  apply bind_Ok in Hrun as (quick_in & _ & Hrun).
  apply bind_Ok in Hrun as (quick_lb & _ & Hrun).
  replace (Z.to_nat (fscl_training_steps self)) with 0%nat in Hrun by lia.
  cbn [adapt_steps bind] in Hrun. rewrite Hout in Hrun. cbn [read_output bind] in Hrun.
  apply bind_Ok in Hrun as (acc & Hacc & [= <-]).
  cbn [fs_output fs_logging]. split; [done|]. intros key v Hv.
  apply lookup_insert_Some in Hv as [[_ <-]|[_ Hv]]; [|by eapply Hlog].
  unfold calculate_accuracy in Hacc. destruct (labels out); [done|].
  by injection Hacc as <-.
Qed.

Lemma fscl_next_learner (self : @FSCL Encoder Head) (_inputs : list Input)
    (episode_labels : list Z) (st st' : @fscl_state Input Logit Loss Acc Encoder Head)
    (item : nat * list Z) :
  fscl_training_steps self <= 0 ->
  fscl_next self _inputs episode_labels st item = Ok st' ->
  fs_learner st' = fs_learner st.
Proof.
  intros Hsteps Hrun. destruct item as [i cb].
  unfold FSCL_next_batch in Hrun.
  apply bind_Ok in Hrun as ([[[si sl] qi] ql] & _ & Hrun).
  apply bind_Ok in Hrun as (quick_in & _ & Hrun).
  apply bind_Ok in Hrun as (quick_lb & _ & Hrun).
  replace (Z.to_nat (fscl_training_steps self)) with 0%nat in Hrun by lia.
  cbn [adapt_steps bind] in Hrun.
  apply bind_Ok in Hrun as (out & _ & Hrun).
  by apply bind_Ok in Hrun as (acc & _ & [= <-]).
Qed.

Lemma for_each_invariant {S X} (P : S -> Prop) (body : S -> X -> result S)
    (xs : list X) :
  (forall s x s', body s x = Ok s' -> P s -> P s') ->
  forall s s', for_each body s xs = Ok s' -> P s -> P s'.
Proof.
  intros Hbody. induction xs as [|x xs IH]; intros s s' Hrun Hs.
  - by injection Hrun as <-.
  - cbn [for_each] in Hrun. apply bind_Ok in Hrun as (s1 & H1 & Hrun). eauto.
Qed.

(** X22. With [training_steps <= 0] the inner loops after the first are
    empty: the learner stays as the first class batch left it, [output]
    keeps the value of the first class batch, and every accuracy that
    [FSCL.meta_learn] logs for a class batch is the accuracy of the
    first one. *)
Theorem FSCL_batches_stale_accuracy (self : @FSCL Encoder Head)
    (_inputs : list Input) (episode_labels : list Z)
    (learner : @Model Encoder Head) (class_batches : list (list Z))
    (st : @fscl_state Input Logit Loss Acc Encoder Head) :
  fscl_training_steps self <= 0 ->
  FSCL_batches encode apply_head loss_func accuracy adapt_encoder adapt_head
    self _inputs episode_labels learner class_batches = Ok st ->
  exists st0 out,
    fscl_first self _inputs episode_labels learner class_batches = Ok st0 /\
    fs_output st0 = Some out /\
    fs_output st = Some out /\
    fs_learner st = fs_learner st0 /\
    forall key v, fs_logging st !! key = Some v ->
                  v = MAcc (accuracy (logits out) (labels out)).
Proof.
  intros Hsteps Hrun. unfold FSCL_batches in Hrun.
  apply bind_Ok in Hrun as (st0 & Hfirst & Hloop).
  destruct (fscl_first_log _ _ _ _ _ _ Hfirst) as (out & Hout & Hlog).
  exists st0, out. split; [done|]. split; [done|].
  assert (Hbody : forall s x s',
            fscl_next self _inputs episode_labels s x = Ok s' ->
            fs_learner s = fs_learner st0 /\ only_accuracy_of out s ->
            fs_learner s' = fs_learner st0 /\ only_accuracy_of out s').
  { intros s x s' Hnext [Hl Hs]. split.
    - rewrite <- Hl. by eapply fscl_next_learner.
    - by eapply fscl_next_log. }
  destruct (for_each_invariant _ _ _ Hbody st0 st Hloop) as (Hl & Ho & Hg); done.
Qed.

End StaleOutput.

Lemma FSCL_batches_stale_accuracy_witness :
  let episode := [0; 1; 2; 0; 1; 2; 0; 1; 2; 0; 1; 2] in
  exists st out,
    FSCL_batches Toy.encode Toy.apply_head Toy.loss_func Toy.accuracy
      Toy.adapt_encoder Toy.adapt_head (Toy.fscl 3 1 1 0 1 2 false)
      episode episode (Toy.model 3) [[0]; [1]; [2]] = Ok st /\
    fs_output st = Some out /\
    forall key v, fs_logging st !! key = Some v ->
                  v = MAcc (Toy.accuracy (logits out) (labels out)).
Proof.
  intros episode.
  destruct (FSCL_batches Toy.encode Toy.apply_head Toy.loss_func Toy.accuracy
              Toy.adapt_encoder Toy.adapt_head (Toy.fscl 3 1 1 0 1 2 false)
              episode episode (Toy.model 3) [[0]; [1]; [2]]) as [st|e] eqn:Hrun;
    [|vm_compute in Hrun; discriminate].
  destruct (FSCL_batches_stale_accuracy Toy.encode Toy.apply_head Toy.loss_func
              Toy.accuracy Toy.adapt_encoder Toy.adapt_head
              (Toy.fscl 3 1 1 0 1 2 false) episode episode (Toy.model 3)
              [[0]; [1]; [2]] st ltac:(simpl; lia) Hrun)
    as (st0 & out & _ & _ & Hout & _ & Hlog).
  by exists st, out.
Defined.

(** ** [return_adaption_and_query] *)

(** With all the classes of the tensor, [return_indexes] rearranges all
    its positions. *)
Lemma return_indexes_all (batch_labels : list Z) :
  batch_labels <> [] ->
  exists idx,
    return_indexes batch_labels (unique batch_labels) = Ok idx /\
    idx ≡ₚ seq 0 (length batch_labels).
Proof.
  intros Hne.
  pose proof (return_indexes_result batch_labels (unique batch_labels)) as H.
  destruct (return_indexes batch_labels (unique batch_labels)) as [idx|e].
  - destruct H as (_ & _ & Hin & _ & Hnd). exists idx. split; [done|].
    apply NoDup_Permutation; [apply Hnd, unique_NoDup | apply NoDup_seq |].
    intros i. rewrite Hin, elem_of_seq. split.
    + intros (c & _ & Hc). apply lookup_lt_Some in Hc. lia.
    + intros [_ Hi]. destruct (lookup_lt_is_Some_2 batch_labels i) as [c Hc]; [lia|].
      exists c. split; [|done]. apply elem_of_unique. by eapply list_elem_of_lookup_2.
  - destruct H as [_ Hu]. by apply unique_nil_inv in Hu.
Qed.

Lemma stride_count {A} (k : nat) (l : list A) :
  (1 <= k)%nat ->
  forall (s i : nat), (s < k)%nat -> (Z.of_nat i + Z.of_nat s) mod Z.of_nat k = 0 ->
  (length (stride_from k s l)
   + length (filter (fun j : Z => (j mod Z.of_nat k <> 0)%Z)
               (map Z.of_nat (seq i (length l)))))%nat
  = length l.
Proof.
  intros Hk. induction l as [|x l IH]; intros s i Hs Hmod; [done|].
  cbn [length seq map stride_from]. rewrite filter_cons. destruct s as [|s].
  - rewrite Z.add_0_r in Hmod. rewrite decide_False by lia. cbn [length].
    assert (Hnext : (Z.of_nat (S i) + Z.of_nat (Nat.pred k)) mod Z.of_nat k = 0).
    { replace (Z.of_nat (S i) + Z.of_nat (Nat.pred k))
        with (Z.of_nat i + 1 * Z.of_nat k) by lia.
      by rewrite Z.mod_add by lia. }
    pose proof (IH (Nat.pred k) (S i) ltac:(lia) Hnext) as E. lia.
  - assert (Hi : Z.of_nat i mod Z.of_nat k <> 0).
    { intros Hz. rewrite <- Zplus_mod_idemp_l, Hz, Z.add_0_l in Hmod.
      rewrite Z.mod_small in Hmod by lia. lia. }
    rewrite decide_True by done. cbn [length].
    assert (Hnext : (Z.of_nat (S i) + Z.of_nat s) mod Z.of_nat k = 0).
    { rewrite <- Hmod. f_equal. lia. }
    pose proof (IH s (S i) ltac:(lia) Hnext) as E. lia.
Qed.

(** X23. [return_adaption_and_query] raises [RuntimeError] on an empty
    label tensor and [ValueError] for [k_shot <= 0]. Otherwise
    [first_occurence] is every [k_shot]-th entry of a rearrangement of
    all the positions of the batch, while [other_occurences] lists the
    places [i] in that rearrangement with [i % k_shot != 0], not the
    positions of the batch found there; the two have as many entries
    together as the batch has labels. *)
Theorem FSCL_return_adaption_and_query_result {Encoder Head}
    (self : @FSCL Encoder Head) (labels : list Z) :
  match FSCL_return_adaption_and_query self labels with
  | Raise e =>
      (labels = [] /\ e = RuntimeError) \/
      (labels <> [] /\ fscl_k_shot self <= 0 /\ e = ValueError)
  | Ok (first_occurence, other_occurences) =>
      labels <> [] /\ 1 <= fscl_k_shot self /\
      (exists indexes,
         indexes ≡ₚ seq 0 (length labels) /\
         first_occurence = stride_from (Z.to_nat (fscl_k_shot self)) 0 indexes) /\
      (forall i, i ∈ other_occurences <->
                 0 <= i < len labels /\ i mod fscl_k_shot self <> 0) /\
      (length first_occurence + length other_occurences)%nat = length labels
  end.
Proof.
  unfold FSCL_return_adaption_and_query.
  destruct (decide (labels = [])) as [->|Hne]; [by left|].
  destruct (return_indexes_all labels Hne) as (idx & -> & Hperm). cbn [bind].
  unfold stride. destruct (Z.leb_spec (fscl_k_shot self) 0) as [Hk|Hk]; cbn [bind].
  { right. done. }
  assert (Hlen : length idx = length labels)
    by (by rewrite Hperm, length_seq).
  split; [done|]. split; [lia|]. split; [by exists idx|]. split.
  - intros i. rewrite list_elem_of_filter. unfold range, len. rewrite Hlen, Nat2Z.id.
    rewrite list_elem_of_fmap. setoid_rewrite elem_of_seq. split.
    + intros [Hm (j & -> & Hj)]. split; [lia | done].
    + intros [Hi Hm]. split; [done|]. exists (Z.to_nat i). lia.
  - rewrite <- Hlen. unfold range, len. rewrite Nat2Z.id.
    pose proof (stride_count (Z.to_nat (fscl_k_shot self)) idx ltac:(lia) 0 0
                  ltac:(lia) ltac:(by rewrite Z.mod_0_l by lia)) as Hc.
    rewrite Z2Nat.id in Hc by lia. exact Hc.
Qed.

(** ** The training script *)


Lemma WordData_outcomes (config : Config) :
  match script_bind (WordData_init config) WordData_setup with
  | Done data =>
      cfg_dataset config ∈ ["flickr8k"; "google_commands"; "google_commands_digit"] /\
      ds_class (train_dataset data) = ds_class (valiadation_dataset data) /\
      sampler_noise_labels data = noise_labels_of (cfg_noise_labels config)
  | Fails (Builtin (NotImplementedError _)) => cfg_dataset config = "fluent"
  | Fails (AttributeError _) => cfg_dataset config = "google_commands_command"
  | Fails (AssertionError _) =>
      cfg_dataset config ∉
        ["flickr8k"; "google_commands"; "fluent"; "google_commands_digit";
         "google_commands_command"]
  | Fails _ => False
  end.
Proof.
  unfold WordData_init. case_bool_decide as Hin; cbn [script_bind]; [|done].
  unfold WordData_setup.
  repeat (apply elem_of_cons in Hin as [Hin|Hin]); try (by apply elem_of_nil in Hin);
    rewrite Hin; vm_compute; repeat split; repeat constructor.
Qed.

(** X20. [WordData(config)] followed by [setup()] selects data sets
    only for [flickr8k], [google_commands] and [google_commands_digit].
    [fluent] raises [NotImplementedError]; [google_commands_command]
    passes the assertion of the constructor but matches no branch of
    [setup], whose read of [self.train_dataset] raises [AttributeError];
    every other name, [google_commands_commands] included, fails the
    assertion. *)
Theorem WordData_loads (config : Config) :
  match script_bind (WordData_init config) WordData_setup with
  | Done data =>
      cfg_dataset config ∈ ["flickr8k"; "google_commands"; "google_commands_digit"] /\
      ds_class (train_dataset data) = ds_class (valiadation_dataset data) /\
      sampler_noise_labels data = noise_labels_of (cfg_noise_labels config)
  | Fails (Builtin (NotImplementedError _)) => cfg_dataset config = "fluent"
  | Fails (AttributeError _) => cfg_dataset config = "google_commands_command"
  | Fails (AssertionError _) =>
      cfg_dataset config ∉
        ["flickr8k"; "google_commands"; "fluent"; "google_commands_digit";
         "google_commands_command"]
  | Fails _ => False
  end.
Proof. apply WordData_outcomes. Qed.

Lemma WordData_setup_Done (config : Config) (data : WordData) :
  script_bind (WordData_init config) WordData_setup = Done data ->
  cfg_dataset config ∈ ["flickr8k"; "google_commands"; "google_commands_digit"].
Proof.
  intros Hrun. pose proof (WordData_outcomes config) as H. rewrite Hrun in H.
  by destruct H.
Qed.

Lemma WordData_setup_total (config : Config) :
  cfg_dataset config ∈ ["flickr8k"; "google_commands"; "google_commands_digit"] ->
  exists data, script_bind (WordData_init config) WordData_setup = Done data.
Proof.
  intros Hin. destruct config as [dataset noise enc method alg prec n_way].
  cbn [cfg_dataset] in Hin.
  repeat (apply elem_of_cons in Hin as [Hin|Hin]); try (by apply elem_of_nil in Hin);
    subst dataset; vm_compute; eauto.
Qed.

Lemma elem_of_3 (x a b c : string) : x ∈ [a; b; c] <-> x = a \/ x = b \/ x = c.
Proof. rewrite !elem_of_cons, elem_of_nil. tauto. Qed.

Lemma elem_of_2 (x a b : string) : x ∈ [a; b] <-> x = a \/ x = b.
Proof. rewrite !elem_of_cons, elem_of_nil. tauto. Qed.

(** X21. [main] reaches [trainer.fit] exactly when the data set is
    one of the three that load, the encoder name is [1d_cnn], [2d_cnn] or
    [rnn], the method is [maml] and the algorithm is [FSCL] or [OML]. The
    trainer then has the precision of the configuration (the fallback of
    32 is never used) and the model has [n_way] heads. *)
Theorem main_reaches_fit (cfg : Config) :
  ((exists t, main cfg = Done t) <->
   cfg_dataset cfg ∈ ["flickr8k"; "google_commands"; "google_commands_digit"] /\
   cfg_encoder_name cfg ∈ ["1d_cnn"; "2d_cnn"; "rnn"] /\
   cfg_method cfg = "maml" /\
   cfg_algorithm cfg ∈ ["FSCL"; "OML"]) /\
  (forall t, main cfg = Done t ->
     tr_precision t = cfg_precision cfg /\
     tr_n_classes t = cfg_n_way cfg /\
     (tr_algorithm t = AlgFSCL <-> cfg_algorithm cfg = "FSCL") /\
     (tr_encoder t = WordClassificationAudioCnn <-> cfg_encoder_name cfg = "1d_cnn") /\
     (tr_encoder t = WordClassificationRnn <-> cfg_encoder_name cfg = "rnn")).
Proof.
  unfold main.
  destruct (script_bind (WordData_init cfg) WordData_setup) as [data|e] eqn:Hdata.
  - pose proof (WordData_setup_Done cfg data Hdata) as Hds.
    unfold script_bind in Hdata.
    destruct (WordData_init cfg) as [data0|e0]; [|done]. cbn [script_bind].
    rewrite Hdata. cbn [script_bind].
    rewrite !elem_of_3, elem_of_2. rewrite elem_of_3 in Hds.
    destruct (String.eqb_spec (cfg_method cfg) "maml") as [Hm|Hm];
      destruct (String.eqb_spec (cfg_algorithm cfg) "FSCL") as [Ha|Ha];
      destruct (String.eqb_spec (cfg_algorithm cfg) "OML") as [Ho|Ho];
      destruct (String.eqb_spec (cfg_method cfg) "reptile") as [Hr|Hr];
      destruct (String.eqb_spec (cfg_encoder_name cfg) "1d_cnn") as [H1|H1];
      destruct (String.eqb_spec (cfg_encoder_name cfg) "2d_cnn") as [H2|H2];
      destruct (String.eqb_spec (cfg_encoder_name cfg) "rnn") as [H3|H3];
      cbn [andb local script_bind];
      try congruence;
      (split; [split; [intros [t Ht]; try done; repeat split; auto; congruence
                      | intros (_ & He & Hmm & Hal); try congruence;
                        try (destruct He as [?|[?|?]]; congruence);
                        try (destruct Hal as [?|?]; congruence); eauto]
              | intros t Ht; try done; injection Ht as <-;
                cbn [tr_precision tr_n_classes tr_algorithm tr_encoder];
                repeat split; intros; congruence]).
  - split.
    + split.
      * intros [t Ht]. unfold script_bind in *.
        destruct (WordData_init cfg); [|done]. by rewrite Hdata in Ht.
      * intros (Hds & _). destruct (WordData_setup_total cfg Hds) as [data Hd].
        congruence.
    + intros t Ht. unfold script_bind in *.
      destruct (WordData_init cfg); [|done]. by rewrite Hdata in Ht.
Qed.
